(* ===== verification/_CoqProject ===== *)
-Q . S2P
Prelude.v
Doubles.v
Utf8.v
Endian.v
StableSort.v
TagSortHeap.v
TagSort.v
TagSortProofs.v
TagSortMerge.v
TagSortDriver.v
PlaybackOrder.v
ScanIntern.v
ScanInternProofs.v
AudioHelpers.v
QueueResume.v
Lyrics.v
Cue.v
PlaylistPaths.v
PlaylistFiles.v
PlaylistAtomic.v
PlaylistEntries.v
PlaylistEdit.v
OggCrc.v
Ogg.v
OggProofs.v
OggSeek.v
OggOpen.v
SdReady.v
SdFsck.v
ApeDemux.v
PathCache.v
PlaylistScan.v
PluginJson.v
Mp4.v
Mp4Proofs.v
Mp4Samples.v
Memory.v
Stream.v
TagText.v
RowFile.v
CText.v
RemoteState.v
RemoteStateProofs.v
SavedServers.v
SavedServersProofs.v
Settings.v
SettingsProofs.v
SettingsSane.v
SettingsLoad.v
SettingsExamples.v
SettingsQueue.v
PluginDisabled.v
RemoteTrack.v
QueryPostings.v
QueryPostingsProofs.v
QueryIndex.v
QueryFile.v
QueryBuild.v
QueryCatalogue.v
QueryEmit.v
QueryBuilt.v
QueryRun.v
QueryKeys.v
QueryRunProofs.v
Queries.v
Aiff.v
AiffProofs.v
AiffFile.v
AiffSafe.v
AiffExamples.v
Asf.v
AsfProofs.v
AsfMux.v
AsfFile.v
AsfExamples.v
