(* ===== verification/Prelude.v ===== *)
(** * Compás Player: a verification development of the player's core C code

    The repository is a music player for small Linux devices: a bootloader, an
    audio engine with container demuxers, a music library on the SD card with
    playlists and a tag cache, plugins in Lua, and screens over LVGL. This
    library models the parts of it that carry logic of their own and that the
    rest of the program trusts: the parsers of untrusted files, the structures
    kept on the card, and the deciders. All paths below are under src/.

    ** Conventions

    A C string is the list of its bytes without the NUL; a buffer or file is a
    list of bytes; a byte or machine integer is a [Z], and its wrap-around is
    written out ([u8], [u16], [u32], [u64], [i32] of this file) wherever the C
    type makes it happen. NULL is [None]. A read outside an object is [None] or
    a constructor of its own, so that a theorem that a result exists is a theorem
    that nothing is read out of bounds. A double is the [spec_float] of the
    Standard Library, with the rounding of binary64. System calls and
    allocations are not assumed to succeed: an operation takes their outcomes as
    data (a record, a list or a function), and the theorems hold for all
    outcomes unless they say otherwise. What the code gets from outside the
    repository ([qsort], the probes of the bootloader, the directories of the
    card) is an argument, with its documented behaviour as a hypothesis or a
    class ([QSort] and [CmpOrder] in StableSort.v) that an instance
    discharges. The same goes for a part of the program that is not modelled
    yet: the query index reads the tag files through the record [catalogue], and
    the class [CatalogueOk] is what it relies on there.

    ** Files

    - Prelude.v: the integers, bytes and strings above, [snprintf], [fgets],
      [strchr] and the like, the tactics and the lemmas all files share.
    - Utf8.v: core/utf8_util.c (sanitizing in place, truncation) and the
      validator [utf8_ok] of plugins/plugin_json.c, against RFC 3629.
    - Endian.v: library/library_endian.h, the field readers and line helpers.
    - StableSort.v: what a stable sort is, for any comparator; TagSortHeap.v,
      TagSort.v (definitions), TagSortProofs.v, TagSortMerge.v, TagSortDriver.v:
      the external merge sort of library/tagcache_sort.h, from partial
      transfers and the buffer plan up to [tc_sort_fd].
    - ScanIntern.v, ScanInternProofs.v: library/tagcache_scan_intern.h, the
      on-card hash table that interns tag values during a scan, with
      [append_string] of library/tagcache.c.
    - PlaybackOrder.v: library/playback_order.h, the shuffle bag and its
      resequencing.
    - AudioHelpers.v: audio/audio_helpers.h, where playback goes after a track
      fails, and what of a path may be logged.
    - QueueResume.v: library/queue_resume.c, the saved play queue.
    - Doubles.v: doubles and their conversions, and what rounding gives. CText.v:
      numbers as the C library prints and reads them.
      Stream.v: a FILE open for reading, [fread] and [fseek] with a long of some
      width; what it is that a file holds bytes at a position.
    - Lyrics.v: library/lyrics.c. Cue.v: library/cue_parser.c.
    - PlaylistPaths.v, PlaylistFiles.v (definitions), PlaylistAtomic.v,
      PlaylistEntries.v, PlaylistEdit.v, PlaylistScan.v: library/playlist_files.c,
      from path normalisation to reading, appending, removing, editing,
      migrating, scanning and the cached index.
    - PathCache.v: library/path_cache.c, the path lists kept on the card;
      PlaylistScan.v uses it through its theorems on [mutate].
    - OggCrc.v, Ogg.v (definitions), OggProofs.v, OggSeek.v, OggOpen.v:
      audio/ogg_demux.c. ApeDemux.v: audio/ape_demux.c. Mp4.v (definitions),
      Mp4Proofs.v, Mp4Samples.v: audio/mp4_demux.c. Asf.v (definitions),
      AsfProofs.v, AsfMux.v, AsfFile.v, AsfExamples.v: audio/asf_demux.c, from any
      bytes, and from files as they are written.
    - Aiff.v (definitions), AiffProofs.v, AiffFile.v, AiffSafe.v, AiffExamples.v:
      audio/aiff_decoder.c, the chunks, the samples and seeking, from files as
      they are written (AiffFile.v) and from any bytes (AiffSafe.v).
    - SdReady.v: bootloader/sd_ready.c, the polling state machine that waits for
      the card. SdFsck.v: core/sd_fsck.c, the decisions of a card repair.
    - TagText.v: the text routines of library/tagcache.c and
      library/tagcache_reader_index.h: folding, comparing, searching, the
      prefixes of the sorts, splitting the artists of a tag.
    - Memory.v: little-endian fields and records in byte lists, shared by the
      files of the query index: QueryPostings.v (definitions) and
      QueryPostingsProofs.v, the buffered writer and the compressed blocks of
      ranks; QueryIndex.v (definitions), QueryFile.v, QueryBuild.v,
      QueryCatalogue.v, QueryEmit.v, QueryBuilt.v, from the shape of the file and
      its directory, the promises of the catalogue and the tuples it gives, to
      [query_build] whole; all of library/tagcache_query_index.h. QueryRun.v
      (definitions), QueryKeys.v, QueryRunProofs.v and Queries.v: the queries of
      library/tagcache_query.h, what the keys of the index mean, and the theorems
      on both.
    - RowFile.v: small tables in files of one row per line: rewriting, reading
      lines, printed numbers, and the class [Store], what such a table promises of
      one request. RemoteState.v (definitions), RemoteStateProofs.v:
      library/remote_state.c. SavedServers.v (definitions), SavedServersProofs.v:
      library/subsonic_saved_servers.c. PluginDisabled.v:
      plugins/plugin_disabled_list.c. RemoteTrack.v: library/remote_track.c.
    - Settings.v (definitions), SettingsProofs.v, SettingsSane.v, SettingsLoad.v,
      SettingsExamples.v: core/settings.c, from a key and its value to the file,
      the older files and the saved servers (through SavedServers.v).
      SettingsQueue.v: saving from several threads, with the worker.
    - PluginJson.v: plugins/plugin_json.c, JSON for plugins, over the values of
      Lua and the trees of cJSON.

    A definition has the name of the C function it models; a local of a long
    function or the body of a loop has a name of its own, and PROJECT.json gives
    its lines.

    ** What the theorems show

    - Parsers: whatever the bytes, the result is well formed and inside its
      bounds ([utf8_sanitize_safe], [lyrics_parse_buffer_wf], [cue_parse_file_wf],
      [ape_demux_open_frames], [mp4_samples_inside], [aiff_safe],
      [settings_load_sane]), and what is well formed is read as it means
      ([ogg_read_packets], [ogg_demux_open_metadata_ok], [asf_demux_roundtrip], [aiff_roundtrip], [parse_cue_time_grammar],
      [sd_fsck_parse_mounts_last], [utf8_ok_correct]).
    - Round trips of what the player writes and reads itself:
      [settings_roundtrip], [queue_resume_roundtrip], [append_string_roundtrip], [append_read],
      [plugin_json_roundtrip], [query_build_correct] (every key of the index
      reads back its ranks), and the restart half of [path_cache_refines_set].
    - Refinement of a small specification: the ratings of remote tracks and the
      saved servers against a map, over any requests and a restart in between
      ([remote_state_refines_map], [saved_servers_refine_map]), the sort against a stable sort
      ([tc_sort_fd_correct]), the intern table against a map up to case
      ([scan_intern_canonical_stable]), the path cache against a set of paths
      ([path_cache_refines_set]), editing and removing against the list of songs
      ([edit_entry_moves], [remove_exact]), the playlist index against the tree
      of the card ([playlist_files_reconcile_spec]).
    - Equivalence of an optimised path with the plain one: [mp4_compact_agrees],
      [ogg_seek_lands], [utf8_ok_correct],
      [tagcache_sort_prefix_sound], and [tagcache_query_finds]: a query gives what
      it asks for, whether or not there is an index and whichever postings it
      reads. [tagcache_query_count_skip] is about counting and skipping.
    - Failure: whatever system call fails and wherever the steps of a rewrite
      are cut, a file is its old or its complete new text
      ([playlist_rewrites_atomic], [queue_resume_write_atomic],
      [path_cache_save_atomic]); a list of plugins never says what its file does
      not ([disabled_list_in_step]); every failed I/O of the sort is reported.
    - Termination and totality: [wait_for_sd_ready_terminates], [asf_demux_session],
      [failure_plan_sound] (a plan always exists), [utf8_sanitize_safe],
      [lyrics_find_line_at_correct], [tc_sort_plan_optimal], [settings_saves_finish] (no
      deadlock, and every order of the threads ends).

    A [*_witness] applies its theorem to a concrete input. Lemmas that show a
    flaw compute it on a concrete input ([migrate_one_file_truncates],
    [parse_opus_tags_overrun], [encode_block_wide], [ape_frames_overflow], [mp4_config_loops],
    [asf_fragment_overruns], [asf_read_frame_hangs], [aiff_chunk_loops], [replace_drops_paths],
    [remote_state_forgets], [saved_servers_overwritten], [device_rates_forgotten],
    [first_choice_lost], [failed_write_published], ...).

    ** Fuel

    Loops that are not structural take fuel, always the size of what they
    consume: the bytes left for the parsers, the slots for the hash table
    (which is never full), the runs for the merges, the segments of the file
    for the Ogg packets, the pages for its index, the bytes of the file for the
    boxes of MP4, each of 8 bytes or more, 64 rounds for each byte of an ASF file, whose
    packets have at most 63 segments, the bytes of the file for the chunks of AIFF and for
    the chunks of a request, the tuples for the query index, and 33
    for its binary searches, whose intervals of at most 2^32 are halved each time.
    The theorems above are about
    the functions with that fuel built in and show a result, so the fuel is
    enough. [wait_for_sd_ready] has no size to go by: its theorem computes a
    number of rounds from the hard deadline and the clock and proves that it
    ends within them. [config_loop] of MP4 may not end in the code either: it has a
    fuel of its own, and [mp4_demux_open] is [None] when that is not enough.
    [scan_dir] counts down the code's own depth limit.

    ** Concurrency

    The playlist operations and the path cache hold a mutex from their first to
    their last access, so each is one step of the model; what the steps of a
    rewrite leave behind when the power fails in between is part of the
    theorems. The refresh thread is a record with the steps start, work and
    poll. Saving the settings is modelled with its threads: an event of
    SettingsQueue.v is one critical section, and [settings_saves_ordered] and
    [settings_saves_finish] are about every order of the events, with the
    generation at its 64 bits and fewer than 2^64 saves.

    ** Not modelled

    The screens (ui), the network services, the hardware files of sysfs and the
    processes of core are calls to LVGL, sockets, D-Bus and the kernel with
    little logic of their own. The codecs and image decoders are signal
    processing or wrappers of libraries that are not in the repository. The
    tag files of the tag cache (its scan, commit and readers), the
    albums of an artist in its queries, the catalogue and the tag parsers of metadata.c, and the
    small deciders of ui (gestures, volume, card identity) are the plan for
    extending this library, in that order. [settings_factory_reset] removes files and
    reboots, and is left out of the settings. Durability ([fsync] of a directory)
    and file times are outside the model of files, which is a map from paths to
    contents. *)
From Stdlib Require Export ZArith Lia Bool.
From Stdlib Require Import Ascii String.
From Stdlib Require Export (notations) String.
From stdpp Require Export base decidable list numbers option.

#[export] Set Default Goal Selector "!".

(** ** Machine integers

    A [w]-bit C integer is a [Z]; the wrap-around of the C conversions is
    written out at each point where the source converts or overflows. *)
Local Open Scope Z_scope.

Definition u8 (z : Z) : Z := z mod 256.
Definition u16 (z : Z) : Z := z mod 65536.
Definition u32 (z : Z) : Z := z mod 4294967296.
Definition u64 (z : Z) : Z := z mod 18446744073709551616.
Definition i32 (z : Z) : Z := (z + 2147483648) mod 4294967296 - 2147483648.

Definition INT_MAX : Z := 2147483647.
Definition PATH_MAX : nat := Z.to_nat 4096.

Definition is_byte (b : Z) : Prop := 0 <= b < 256.
(** The bytes of a C string before its terminator. *)
Definition is_char (b : Z) : Prop := 0 < b < 256.
Definition in_i32 (z : Z) : Prop := -2147483648 <= z <= INT_MAX.
Definition in_u32 (z : Z) : Prop := 0 <= z < 4294967296.

#[export] Instance is_byte_dec b : Decision (is_byte b).
Proof. unfold is_byte. apply _. Defined.
#[export] Instance is_char_dec b : Decision (is_char b).
Proof. unfold is_char. apply _. Defined.
#[export] Instance in_i32_dec b : Decision (in_i32 b).
Proof. unfold in_i32. apply _. Defined.
#[export] Instance in_u32_dec b : Decision (in_u32 b).
Proof. unfold in_u32. apply _. Defined.

Lemma u32_range z : in_u32 (u32 z).
Proof. unfold in_u32, u32. apply Z.mod_pos_bound. lia. Qed.
Lemma u32_id z : in_u32 z -> u32 z = z.
Proof. apply Z.mod_small. Qed.
Lemma u8_range z : is_byte (u8 z).
Proof. unfold is_byte, u8. apply Z.mod_pos_bound. lia. Qed.
Lemma u8_id z : is_byte z -> u8 z = z.
Proof. apply Z.mod_small. Qed.
Lemma i32_id z : in_i32 z -> i32 z = z.
Proof. unfold in_i32, i32, INT_MAX. intros. rewrite Z.mod_small; lia. Qed.
Lemma i32_range z : in_i32 (i32 z).
Proof.
  unfold in_i32, i32, INT_MAX.
  pose proof (Z.mod_pos_bound (z + 2147483648) 4294967296). lia.
Qed.
Lemma i32_u32 z : in_i32 z -> i32 (u32 z) = z.
Proof.
  intros H. unfold i32, u32. rewrite Zplus_mod_idemp_l.
  apply (i32_id z H).
Qed.

(** ** Byte strings

    A C string is the list of its bytes without the terminating NUL; a buffer
    is a list of bytes that may hold NULs. *)
Definition bs (s : string) : list Z :=
  map (fun c => Z.of_N (N_of_ascii c)) (list_ascii_of_string s).
Arguments bs s%_string_scope.

(** The byte at index [i] of the C string [s]: its terminator is at index
    [length s], and nothing past the terminator may be read. *)
Definition rd (s : list Z) (i : nat) : option Z :=
  if decide (i < length s)%nat then s !! i
  else if decide (i = length s) then Some 0 else None.

(** [cstr buf]: the C string a buffer holds, up to its first NUL. *)
Fixpoint cstr (l : list Z) : list Z :=
  match l with
  | [] => []
  | b :: t => if b =? 0 then [] else b :: cstr t
  end.

Fixpoint take_while (p : Z -> bool) (l : list Z) : list Z :=
  match l with
  | [] => []
  | b :: t => if p b then b :: take_while p t else []
  end.
Fixpoint drop_while (p : Z -> bool) (l : list Z) : list Z :=
  match l with
  | [] => []
  | b :: t => if p b then drop_while p t else l
  end.

(** [strcmp(a, b) == 0] and [memcmp] on equal lengths. *)
Fixpoint bytes_eqb (a b : list Z) : bool :=
  match a, b with
  | [], [] => true
  | x :: a, y :: b => (x =? y) && bytes_eqb a b
  | _, _ => false
  end.

(** [strncmp(s, p, strlen(p)) == 0]. *)
Fixpoint starts_with (p s : list Z) : bool :=
  match p, s with
  | [], _ => true
  | x :: p, y :: s => (x =? y) && starts_with p s
  | _ :: _, [] => false
  end.

(** The C locale's [tolower], and [strcasecmp(a, b) == 0] / [strncasecmp]. *)
Definition tolower (b : Z) : Z := if (65 <=? b) && (b <=? 90) then b + 32 else b.
Definition strcaseeq (a b : list Z) : bool := bytes_eqb (map tolower a) (map tolower b).
Definition starts_with_ci (p s : list Z) : bool :=
  starts_with (map tolower p) (map tolower s).

Definition isdigit (b : Z) : bool := (48 <=? b) && (b <=? 57).
Definition isalpha (b : Z) : bool :=
  ((65 <=? b) && (b <=? 90)) || ((97 <=? b) && (b <=? 122)).
Definition isspace (b : Z) : bool := (b =? 32) || ((9 <=? b) && (b <=? 13)).

(** [strchr] and [strrchr]: the index of the first / last occurrence. *)
Fixpoint strchr (c : Z) (s : list Z) : option nat :=
  match s with
  | [] => None
  | b :: t => if b =? c then Some 0%nat else S <$> strchr c t
  end.
Fixpoint strrchr (c : Z) (s : list Z) : option nat :=
  match s with
  | [] => None
  | b :: t =>
      match strrchr c t with
      | Some i => Some (S i)
      | None => if b =? c then Some 0%nat else None
      end
  end.

(** [snprintf(out, size, "%s", s)]: at most [size - 1] bytes and the NUL. *)
Definition snprintf_s (size : nat) (s : list Z) : list Z := take (size - 1) s.

(** The lines [fgets] delivers into a buffer of [size] bytes, as C strings: a
    line ends at its newline or when the buffer is full. *)
Fixpoint fgets_lines (size fuel : nat) (content : list Z) : list (list Z) :=
  match fuel, content with
  | S fuel, _ :: _ =>
      let n := match strchr 10 content with Some i => (i + 1)%nat | None => length content end in
      let n := Nat.min n (size - 1) in
      cstr (take n content) :: fgets_lines size fuel (drop n content)
  | _, _ => []
  end.

(** ** Automation *)

(** Arithmetic with division and remainder by constants. *)
Ltac div_lia := Z.to_euclidean_division_equations; lia.

(** Evaluate the string literals of the goal. *)
Ltac eval_bs := repeat match goal with
  | |- context [bs ?s] => let v := eval vm_compute in (bs s) in change (bs s) with v
  end.

(** Reduce the option monad's bind on a known head. *)
Ltac bind_simpl := cbn [mbind option_bind fmap option_fmap option_map].

(** Turn boolean comparisons of the code into propositions. *)
Ltac bool_prop :=
  repeat match goal with
  | H : _ && _ = true |- _ => apply andb_true_iff in H; destruct H
  | H : _ && _ = false |- _ => apply andb_false_iff in H
  | H : _ || _ = false |- _ => apply orb_false_iff in H; destruct H
  | H : _ || _ = true |- _ => apply orb_true_iff in H
  | H : negb _ = true |- _ => apply negb_true_iff in H
  | H : negb _ = false |- _ => apply negb_false_iff in H
  | H : (_ =? _) = true |- _ => apply Z.eqb_eq in H
  | H : (_ =? _) = false |- _ => apply Z.eqb_neq in H
  | H : (_ <=? _) = true |- _ => apply Z.leb_le in H
  | H : (_ <=? _) = false |- _ => apply Z.leb_gt in H
  | H : (_ <? _) = true |- _ => apply Z.ltb_lt in H
  | H : (_ <? _) = false |- _ => apply Z.ltb_ge in H
  end.

(** Split every [if] of the goal on its condition, dropping the branches the
    context refutes. *)
Ltac split_ifs :=
  repeat match goal with
  | |- context [if ?c then _ else _] => destruct c eqn:?; bool_prop; try lia
  end.

(** A boolean fact about a byte is checked on the 256 bytes. *)
Lemma byte_forall (P : Z -> bool) :
  forallb P (map Z.of_nat (seq 0 256)) = true -> forall b, is_byte b -> P b = true.
Proof.
  intros HP b Hb. rewrite forallb_forall in HP. apply HP.
  replace b with (Z.of_nat (Z.to_nat b)) by (unfold is_byte in Hb; lia).
  apply in_map, in_seq. unfold is_byte in Hb. lia.
Qed.

Lemma is_char_byte b : is_char b -> is_byte b.
Proof. unfold is_char, is_byte. lia. Qed.
Lemma chars_bytes s : Forall is_char s -> Forall is_byte s.
Proof. apply List.Forall_impl, is_char_byte. Qed.
#[export] Hint Resolve is_char_byte chars_bytes : core.

Lemma PATH_MAX_Z : Z.of_nat PATH_MAX = 4096.
Proof. apply Z2Nat.id. lia. Qed.

(** ** Byte strings: shared lemmas *)
Definition bytes_b (s : list Z) : bool := forallb (fun b => (0 <=? b) && (b <? 256)) s.
Lemma bytes_b_true s : bytes_b s = true -> Forall is_byte s.
Proof.
  unfold bytes_b. rewrite forallb_forall, List.Forall_forall. intros H b Hb.
  specialize (H b Hb). bool_prop. unfold is_byte. lia.
Qed.
Definition chars_b (s : list Z) : bool := forallb (fun b => (0 <? b) && (b <? 256)) s.
Lemma chars_b_true s : chars_b s = true -> Forall is_char s.
Proof.
  unfold chars_b. rewrite forallb_forall, List.Forall_forall. intros H b Hb.
  specialize (H b Hb). bool_prop. unfold is_char. lia.
Qed.

Lemma rd_lt s i : (i < length s)%nat -> rd s i = s !! i.
Proof. intros. unfold rd. by rewrite decide_True. Qed.
Lemma rd_end s : rd s (length s) = Some 0.
Proof. unfold rd. rewrite decide_False by lia. by rewrite decide_True. Qed.
Lemma rd_app s t i : (i < length s)%nat -> rd (s ++ t) i = s !! i.
Proof.
  intros H. rewrite rd_lt by (rewrite length_app; lia). by rewrite lookup_app_l.
Qed.

Lemma bytes_eqb_eq a b : bytes_eqb a b = true <-> a = b.
Proof.
  revert b; induction a as [|x a IH]; intros [|y b]; simpl; split; intros H;
    try done.
  - bool_prop. f_equal; [done | by apply IH].
  - inversion H; subst. by rewrite Z.eqb_refl, (proj2 (IH b)).
Qed.

Lemma bytes_eqb_refl a : bytes_eqb a a = true.
Proof. by apply bytes_eqb_eq. Qed.

Lemma bytes_eqb_spec a b : reflect (a = b) (bytes_eqb a b).
Proof. apply iff_reflect. symmetry. apply bytes_eqb_eq. Qed.

Lemma cstr_chars s : Forall is_char s -> cstr s = s.
Proof.
  induction 1 as [|b s Hb _ IH]; simpl; [done|].
  unfold is_char in Hb. rewrite (proj2 (Z.eqb_neq b 0)) by lia. by rewrite IH.
Qed.

Lemma cstr_bytes s : Forall is_byte s -> Forall is_char (cstr s).
Proof.
  induction 1 as [|b s Hb _ IH]; simpl; [constructor|].
  destruct (b =? 0) eqn:E; bool_prop; [constructor|].
  constructor; [|done]. unfold is_byte in Hb. unfold is_char. lia.
Qed.

Lemma take_drop_while p s : take_while p s ++ drop_while p s = s.
Proof. induction s as [|b s IH]; simpl; [done|]. destruct (p b); simpl; [by rewrite IH|done]. Qed.

Lemma starts_with_spec p s : starts_with p s = true <-> exists t, s = p ++ t.
Proof.
  revert s; induction p as [|x p IH]; intros s; simpl.
  - split; [by exists s | done].
  - destruct s as [|y s]; simpl; [split; [done | by intros [t ?]]|].
    rewrite andb_true_iff, IH, Z.eqb_eq. split.
    + intros [-> [t ->]]. by exists t.
    + intros [t [=-> ->]]. split; [done | by exists t].
Qed.

Lemma strchr_Some c s i :
  strchr c s = Some i <-> s !! i = Some c /\ forall j, (j < i)%nat -> s !! j <> Some c.
Proof.
  revert i; induction s as [|b s IH]; intros i; simpl.
  - split; [done | by intros [? _]].
  - destruct (b =? c) eqn:E; bool_prop.
    + subst. split; [intros [=<-]; split; [done|lia]|].
      intros [_ H]. destruct i; [done|]. by destruct (H 0%nat ltac:(lia)).
    + split.
      * destruct (strchr c s) as [k|] eqn:Ek; [|done]. intros [=<-].
        destruct (proj1 (IH k) eq_refl) as [Hk Hl]. split; [done|].
        intros [|j] Hj; simpl; [congruence | apply Hl; lia].
      * intros [Hi Hl]. destruct i as [|i]; simpl in Hi; [congruence|].
        rewrite (proj2 (IH i)); [done|]. split; [done|].
        intros j Hj. apply (Hl (S j)). lia.
Qed.

Lemma strchr_here c l rest : c ∉ l -> strchr c (l ++ c :: rest) = Some (length l).
Proof.
  intros H. apply strchr_Some. split; [by rewrite list_lookup_middle|].
  intros j Hj E. rewrite lookup_app_l in E by done. apply H. by eapply list_elem_of_lookup_2.
Qed.

Lemma strchr_None c s : strchr c s = None <-> c ∉ s.
Proof.
  induction s as [|b s IH]; simpl; [split; [intros _; apply not_elem_of_nil|done]|].
  rewrite not_elem_of_cons. destruct (b =? c) eqn:E; bool_prop.
  - subst; split; [done | by intros [? _]].
  - rewrite <- IH. destruct (strchr c s); simpl; intuition congruence.
Qed.

Lemma strrchr_Some c s i :
  strrchr c s = Some i ->
  s !! i = Some c /\ forall j, (i < j)%nat -> s !! j <> Some c.
Proof.
  revert i; induction s as [|b s IH]; intros i; simpl; [done|].
  destruct (strrchr c s) as [k|] eqn:Ek.
  - intros [=<-]. destruct (IH k eq_refl) as [Hk Hl]. split; [done|].
    intros [|j] Hj; [lia|]. apply (Hl j). lia.
  - destruct (b =? c) eqn:E; bool_prop; [|done]. intros [=<-]. subst b.
    split; [done|]. intros [|j] Hj; [lia|]. simpl. clear -Ek.
    revert j; induction s as [|b s IH]; intros j; simpl in *; [done|].
    destruct (strrchr c s) as [k|] eqn:Ek'; [done|].
    destruct (b =? c) eqn:E; bool_prop; [done|].
    destruct j; simpl; [congruence | by apply IH].
Qed.

(** ** Lists *)
Lemma filter_all {A} (P : A -> Prop) `{!forall x, Decision (P x)} l :
  Forall P l -> filter P l = l.
Proof. induction 1 as [|x l Hx _ IH]; [done|]. by rewrite list.filter_cons, decide_True, IH. Qed.
Lemma filter_none {A} (P : A -> Prop) `{!forall x, Decision (P x)} l :
  Forall (fun x => ~ P x) l -> filter P l = [].
Proof. induction 1 as [|x l Hx _ IH]; [done|]. by rewrite list.filter_cons, decide_False, IH. Qed.

Lemma lookup_map {A B} (f : A -> B) l i : map f l !! i = f <$> (l !! i).
Proof. revert i; induction l as [|x l IH]; intros [|i]; [done..|]. apply IH. Qed.

(** ** Bit fields *)
Lemma land_shiftl_low x y n : 0 <= n -> 0 <= y < 2 ^ n -> Z.land (Z.shiftl x n) y = 0.
Proof.
  intros Hn Hy. apply Z.bits_inj'. intros i Hi.
  rewrite Z.land_spec, Z.bits_0, Z.shiftl_spec by lia.
  destruct (Z.ltb_spec i n).
  - by rewrite (Z.testbit_neg_r x) by lia.
  - rewrite <- (Z.mod_small y (2 ^ n)) by lia.
    rewrite Z.mod_pow2_bits_high by lia. apply andb_false_r.
Qed.

(** A field placed below [n] shifted-in zero bits adds to the word. *)
Lemma lor_shiftl_add x y n :
  0 <= n -> 0 <= y < 2 ^ n -> Z.lor (Z.shiftl x n) y = x * 2 ^ n + y.
Proof.
  intros Hn Hy. pose proof (land_shiftl_low x y n Hn Hy) as H.
  rewrite <- Z.lxor_lor, <- Z.add_nocarry_lxor by done.
  by rewrite Z.shiftl_mul_pow2 by lia.
Qed.

Lemma land_bit x k : 0 <= k -> (Z.land x (2 ^ k) =? 0) = negb (Z.testbit x k).
Proof.
  intros Hk. destruct (Z.testbit x k) eqn:E; cbn [negb].
  - apply Z.eqb_neq. intros H. assert (Z.testbit (Z.land x (2 ^ k)) k = false) as Hb by (rewrite H; apply Z.bits_0).
    by rewrite Z.land_spec, E, Z.pow2_bits_true in Hb by lia.
  - apply Z.eqb_eq, Z.bits_inj'. intros i Hi. rewrite Z.land_spec, Z.bits_0.
    destruct (Z.eq_dec i k) as [->|]; [by rewrite E|]. rewrite Z.pow2_bits_false by lia. apply andb_false_r.
Qed.

Ltac invc H := inversion H; subst; clear H.
