(* ===== verification/Doubles.v ===== *)
(** The doubles of C: IEEE 754 binary64 with rounding to nearest, over the
    [spec_float] of the Standard Library. *)
From Stdlib Require Export SpecFloat.
From S2P Require Import Prelude.
Local Open Scope Z_scope.

Definition dbl (z : Z) : spec_float := binary_normalize 53 1024 z 0 false.
Definition dadd (x y : spec_float) : spec_float := SFadd 53 1024 x y.
Definition dmul (x y : spec_float) : spec_float := SFmul 53 1024 x y.
Definition ddiv (x y : spec_float) : spec_float := SFdiv 53 1024 x y.

(** The conversion to a [uint32_t], which truncates ([None]: undefined behaviour). *)
Definition to_uint32 (x : spec_float) : option Z :=
  match x with
  | S754_zero _ => Some 0
  | S754_finite false m e =>
      let v := if 0 <=? e then Z.pos m * 2 ^ e else Z.pos m / 2 ^ (- e) in
      if v <? 4294967296 then Some v else None
  | S754_finite true m e => if Z.pos m / 2 ^ (- e) =? 0 then Some 0 else None
  | _ => None
  end.

(** ** What rounding gives

    A result with a mantissa has [prec] bits of it and an exponent in range. *)
Definition fits_format (prec emax : Z) (x : spec_float) : Prop :=
  match x with S754_finite _ m e => Z.pos m < 2 ^ prec /\ e <= emax - prec | _ => True end.

Lemma digits2_pos_bound p : Z.pos p < 2 ^ Z.pos (digits2_pos p).
Proof.
  induction p as [p IH|p IH|]; cbn [digits2_pos]; [| |done]; rewrite Pos2Z.inj_succ, Z.pow_succ_r by lia; lia.
Qed.
Lemma shr_1_half r : 0 <= shr_m r -> shr_m (shr_1 r) = shr_m r / 2.
Proof.
  rewrite <- Z.div2_div. destruct r as [[|[p|p|]|p] ? ?]; intros Hr; try reflexivity. cbn in Hr. lia.
Qed.
Lemma iter_shr_1 p r : 0 <= shr_m r -> shr_m (SpecFloat.iter_pos shr_1 p r) = shr_m r / 2 ^ Z.pos p.
Proof.
  assert (forall a, 0 < 2 ^ Z.pos a) as Hpow by (intros a; by apply Z.pow_pos_nonneg).
  assert (forall a, 2 ^ (2 * Z.pos a) = 2 ^ Z.pos a * 2 ^ Z.pos a) as Hsq by (intros a; rewrite <- Z.add_diag; by apply Z.pow_add_r).
  revert r. induction p as [p IH|p IH|]; intros r Hr; cbn [SpecFloat.iter_pos]; [| |by apply shr_1_half].
  - pose proof (shr_1_half r Hr) as E. assert (0 <= shr_m (shr_1 r)) as H1 by (rewrite E; by apply Z.div_pos).
    pose proof (IH _ H1) as E1. rewrite IH, E1, E by (rewrite E1; by apply Z.div_pos).
    specialize (Hpow p). replace (2 ^ Z.pos p~1) with (2 * 2 ^ Z.pos p * 2 ^ Z.pos p).
    + rewrite <- !Z.div_div by nia. done.
    + rewrite Pos2Z.inj_xI, Z.pow_add_r by lia. rewrite Hsq. ring.
  - pose proof (IH _ Hr) as E. rewrite IH, E by (rewrite E; by apply Z.div_pos). change (Z.pos p~0) with (2 * Z.pos p). rewrite Hsq. specialize (Hpow p). apply Z.div_div; lia.
Qed.
Section Rounding.
Context (prec emax : Z) (Hprec : 0 < prec).
Lemma shr_fexp_bound m e l :
  0 <= m -> let '(r, e') := shr_fexp prec emax m e l in 0 <= shr_m r < 2 ^ prec.
Proof.
  intros Hm. unfold shr_fexp, shr. assert (shr_m (shr_record_of_loc m l) = m) as Er by (destruct l as [|[]]; done).
  assert (m < 2 ^ Zdigits2 m) as Hd by (destruct m; [done|apply digits2_pos_bound|lia]).
  assert (0 <= Zdigits2 m) as Hd0 by (destruct m; cbn; lia).
  set (n := fexp prec emax (Zdigits2 m + e) - e). assert (Zdigits2 m - prec <= n) as Hn by (unfold n, fexp; lia).
  destruct n as [|p|p] eqn:En.
  - rewrite Er. split; [done|]. apply (Z.lt_le_trans _ _ _ Hd), Z.pow_le_mono_r; lia.
  - rewrite iter_shr_1, Er by lia. split; [apply Z.div_pos; [done|by apply Z.pow_pos_nonneg]|].
    apply Z.div_lt_upper_bound; [by apply Z.pow_pos_nonneg|]. rewrite <- Z.pow_add_r by lia. apply (Z.lt_le_trans _ _ _ Hd), Z.pow_le_mono_r; lia.
  - rewrite Er. split; [done|]. apply (Z.lt_le_trans _ _ _ Hd), Z.pow_le_mono_r; lia.
Qed.
Lemma binary_round_aux_fits s m e l : 0 <= m -> fits_format prec emax (binary_round_aux prec emax s m e l).
Proof.
  intros Hm. unfold binary_round_aux. pose proof (shr_fexp_bound m e l Hm) as H1. destruct (shr_fexp _ _ m e l) as [r e1].
  assert (0 <= round_nearest_even (shr_m r) (loc_of_shr_record r)) as Hr
    by (unfold round_nearest_even; destruct (loc_of_shr_record r) as [|[]]; try case_match; lia).
  pose proof (shr_fexp_bound _ e1 loc_Exact Hr) as H2. destruct (shr_fexp _ _ _ e1 loc_Exact) as [r2 e2].
  revert H2. destruct (shr_m r2) as [|p|p]; intros H2; [done| |done]. destruct (Z.leb_spec e2 (emax - prec)); [|done]. cbn in H2. split; lia.
Qed.
Lemma binary_normalize_fits m e s : fits_format prec emax (binary_normalize prec emax m e s).
Proof. unfold binary_normalize, binary_round. destruct m; [done|..]; destruct (shl_align _ _ _); by apply binary_round_aux_fits. Qed.
Lemma SFdiv_fits x y : fits_format prec emax (SFdiv prec emax x y).
Proof.
  destruct x as [| | |s1 m1 e1], y as [| | |s2 m2 e2]; try done. unfold SFdiv, SFdiv_core_binary. cbv zeta.
  set (e' := Z.min _ _). set (n := match e1 - e2 - e' with Z0 => _ | Zpos _ => _ | Zneg _ => _ end).
  assert (0 <= n) as Hn by (unfold n; case_match; [lia|apply Z.shiftl_nonneg; lia|lia]). clearbody n.
  pose proof (Z.div_pos n (Z.pos m2) Hn ltac:(lia)) as Hq. unfold Z.div in Hq. destruct (Z.div_eucl n (Z.pos m2)) as [q r]. by apply binary_round_aux_fits.
Qed.
End Rounding.
