(* ===== verification/Utf8.v ===== *)
(** UTF-8: the sanitizer and the bounded copy of src/core/utf8_util.c, the
    validator of src/plugins/plugin_json.c and the prefix measure of
    src/library/lyrics.c, against one specification of well-formed UTF-8 by
    encoded code points. *)
From S2P Require Import Prelude.
Local Open Scope Z_scope.

(** ** Specification: RFC 3629 by code points *)
Definition scalar (cp : Z) : Prop := 0 <= cp < 55296 \/ 57344 <= cp <= 1114111.

Definition encode (cp : Z) : list Z :=
  if cp <? 128 then [cp]
  else if cp <? 2048 then [192 + cp / 64; 128 + cp mod 64]
  else if cp <? 65536 then [224 + cp / 4096; 128 + (cp / 64) mod 64; 128 + cp mod 64]
  else [240 + cp / 262144; 128 + (cp / 4096) mod 64; 128 + (cp / 64) mod 64;
        128 + cp mod 64].

Inductive wf_utf8 : list Z -> Prop :=
| wf_nil : wf_utf8 []
| wf_cons cp s : scalar cp -> wf_utf8 s -> wf_utf8 (encode cp ++ s).
Create HintDb utf8.
#[export] Hint Constructors wf_utf8 : utf8.

(** ** The code *)

(** [(b & 0xC0) == 0x80] *)
Definition is_cont (b : Z) : bool := Z.land b 192 =? 128.
Definition in_range (lo hi b : Z) : bool := (lo <=? b) && (b <=? hi).

(** C's [a && b]: [b] is evaluated, and reads memory, only when [a] holds. *)
Definition and_then (a b : option bool) : option bool :=
  x ← a; if (x : bool) then b else Some false.

(** One pass of the loop of [utf8_sanitize] at the pointer [p], whose string
    is not empty: [Some (Some k)] accepts [k] bytes, [Some None] overwrites
    [*p] with a question mark, and [None] is a read past the terminator. *)
Definition sanitize_step (p : list Z) : option (option nat) :=
  p0 ← rd p 0;
  let accept n (c : option bool) := ok ← c; Some (if (ok : bool) then Some n else None) in
  let cont i := b ← rd p i; Some (is_cont b) in
  let range lo hi := b ← rd p 1; Some (in_range lo hi b) in
  if p0 <? 128 then Some (Some 1%nat)
  else if (194 <=? p0) && (p0 <=? 223) then accept 2%nat (cont 1%nat)
  else if p0 =? 224 then accept 3%nat (and_then (range 160 191) (cont 2%nat))
  else if (225 <=? p0) && (p0 <=? 236) then accept 3%nat (and_then (cont 1%nat) (cont 2%nat))
  else if p0 =? 237 then accept 3%nat (and_then (range 128 159) (cont 2%nat))
  else if (238 <=? p0) && (p0 <=? 239) then accept 3%nat (and_then (cont 1%nat) (cont 2%nat))
  else if p0 =? 240 then
    accept 4%nat (and_then (and_then (range 144 191) (cont 2%nat)) (cont 3%nat))
  else if (241 <=? p0) && (p0 <=? 243) then
    accept 4%nat (and_then (and_then (cont 1%nat) (cont 2%nat)) (cont 3%nat))
  else if p0 =? 244 then
    accept 4%nat (and_then (and_then (range 128 143) (cont 2%nat)) (cont 3%nat))
  else Some None.

(** The loop, with one unit of fuel per byte and one for the terminator. *)
Fixpoint sanitize_loop (fuel : nat) (p : list Z) : option (list Z) :=
  match fuel with
  | O => None
  | S fuel =>
      match p with
      | [] => Some []
      | _ :: t =>
          r ← sanitize_step p;
          match r with
          | Some k => rest ← sanitize_loop fuel (drop k p); Some (take k p ++ rest)
          | None => rest ← sanitize_loop fuel t; Some (63 :: rest)
          end
      end
  end.
Definition utf8_sanitize (str : list Z) : option (list Z) :=
  sanitize_loop (S (length str)) str.

(** The length a lead byte announces (1 for a byte that is no lead). *)
Definition lead_seq_len (lead : Z) : nat :=
  if lead <? 128 then 1
  else if Z.land lead 224 =? 192 then 2
  else if Z.land lead 240 =? 224 then 3
  else if Z.land lead 248 =? 240 then 4
  else 1.

(** [while (k < max_copy && k < 4 && is_cont(src[max_copy - 1 - k])) k++],
    counted down from [4 - k] rounds. *)
Fixpoint count_trailing (src : list Z) (max_copy rounds k : nat) : option nat :=
  match rounds with
  | O => Some k
  | S rounds =>
      if (k <? max_copy)%nat then
        b ← src !! (max_copy - 1 - k)%nat;
        if is_cont b then count_trailing src max_copy rounds (S k) else Some k
      else Some k
  end.

Definition truncate_cut (src : list Z) (max_copy : nat) : option nat :=
  k ← count_trailing src max_copy 4 0;
  if (k <? max_copy)%nat then
    let lead_idx := (max_copy - 1 - k)%nat in
    lead ← src !! lead_idx;
    let seq_len := lead_seq_len lead in
    Some (if (max_copy <? lead_idx + seq_len)%nat then lead_idx else max_copy)
  else Some max_copy.

(** [utf8_truncate_safe_bounded]: [src] is [None] for NULL; the result is the
    returned length with the bytes left in [dst] before [dst[cut]] ([None]
    when [dst] is not written). The sanitizer runs on the C string in [dst],
    which ends at the first NUL copied. *)
Definition utf8_truncate_safe_bounded (dst_nonnull : bool) (dst_size : nat)
    (src : option (list Z)) (src_len : nat) : option (nat * option (list Z)) :=
  if negb dst_nonnull || (dst_size =? 0)%nat then Some (0%nat, None)
  else match src with
  | None => Some (0%nat, Some [])
  | Some src =>
      if (src_len =? 0)%nat then Some (0%nat, Some []) else
      let max_copy := (dst_size - 1)%nat in
      let max_copy := if (src_len <? max_copy)%nat then src_len else max_copy in
      if (max_copy =? 0)%nat then Some (0%nat, Some []) else
      cut ← truncate_cut src max_copy;
      let dst := take cut src in
      clean ← utf8_sanitize (cstr dst);
      Some (cut, Some (clean ++ drop (length (cstr dst)) dst))
  end.

(** [utf8_truncate_safe]: [src] is a C string; [strnlen] caps its length. *)
Definition utf8_truncate_safe (dst_nonnull : bool) (src : option (list Z))
    (max_bytes : nat) : option (nat * option (list Z)) :=
  match src with
  | None => utf8_truncate_safe_bounded dst_nonnull max_bytes None 0
  | Some s =>
      utf8_truncate_safe_bounded dst_nonnull max_bytes (Some s)
        (Nat.min (length s) max_bytes)
  end.

(** [utf8_ok] of plugin_json.c: one pass of its loop at the rest of the
    input; [Some k] advances by [k], [None] is [return false]. *)
Fixpoint utf8_ok_tail (more : nat) (s : list Z) (cp : Z) : option Z :=
  match more, s with
  | O, _ => Some cp
  | S more, cc :: s =>
      if negb (Z.land cc 192 =? 128) then None
      else utf8_ok_tail more s (u32 (Z.lor (Z.shiftl cp 6) (Z.land cc 63)))
  | S _, [] => None
  end.

Definition utf8_ok_step (s : list Z) : option nat :=
  match s with
  | [] => None
  | c :: t =>
      if c <=? 127 then Some 1%nat else
      '(more, cp) ←
        (if Z.land c 224 =? 192 then
           if c <? 194 then None else Some (1%nat, Z.land c 31)
         else if Z.land c 240 =? 224 then Some (2%nat, Z.land c 15)
         else if Z.land c 248 =? 240 then
           if 244 <? c then None else Some (3%nat, Z.land c 7)
         else None);
      if (length s <? 1 + more)%nat then None else
      cp ← utf8_ok_tail more t cp;
      if (1114111 <? cp) || ((55296 <=? cp) && (cp <=? 57343)) then None
      else if (more =? 2)%nat && (cp <? 2048) then None
      else if (more =? 3)%nat && (cp <? 65536) then None
      else Some (1 + more)%nat
  end.
Fixpoint utf8_ok_loop (fuel : nat) (s : list Z) : bool :=
  match fuel, s with
  | _, [] => true
  | O, _ => false
  | S fuel, _ =>
      match utf8_ok_step s with
      | Some k => utf8_ok_loop fuel (drop k s)
      | None => false
      end
  end.
Definition utf8_ok (s : list Z) : bool := utf8_ok_loop (length s) s.

(** [utf8_valid_prefix_len] of lyrics.c on [s[0..len)], the bytes of [s]. *)
Definition prefix_step (s : list Z) : option nat :=
  match s with
  | [] => None
  | c :: t =>
      seq_len ← (if c <? 128 then Some 1%nat
                 else if Z.land c 224 =? 192 then Some 2%nat
                 else if Z.land c 240 =? 224 then Some 3%nat
                 else if Z.land c 248 =? 240 then Some 4%nat
                 else None);
      if (length s <? seq_len)%nat then None
      else if forallb is_cont (take (seq_len - 1) t) then Some seq_len else None
  end.
Fixpoint prefix_loop (fuel : nat) (s : list Z) (i : nat) : nat :=
  match fuel, s with
  | S fuel, _ :: _ =>
      match prefix_step s with
      | Some k => prefix_loop fuel (drop k s) (i + k)
      | None => i
      end
  | _, _ => i
  end.
Definition utf8_valid_prefix_len (s : list Z) : nat := prefix_loop (length s) s 0.

(** ** A recogniser of one encoded code point, by byte ranges *)
#[local] Ltac Zify.zify_post_hook ::= Z.to_euclidean_division_equations.

Definition seq_info (b : Z) : option (nat * Z * Z) :=
  if b <=? 127 then Some (1%nat, 128, 191)
  else if b <? 194 then None
  else if b <=? 223 then Some (2%nat, 128, 191)
  else if b =? 224 then Some (3%nat, 160, 191)
  else if b =? 237 then Some (3%nat, 128, 159)
  else if b <=? 239 then Some (3%nat, 128, 191)
  else if b =? 240 then Some (4%nat, 144, 191)
  else if b <=? 243 then Some (4%nat, 128, 191)
  else if b =? 244 then Some (4%nat, 128, 143)
  else None.
Definition cont_b (b : Z) : bool := in_range 128 191 b.
Definition head_len (s : list Z) : option nat :=
  match s with
  | [] => None
  | b0 :: t =>
      '(n, lo, hi) ← seq_info b0;
      match n, t with
      | 1%nat, _ => Some 1%nat
      | 2%nat, b1 :: _ => if in_range lo hi b1 then Some 2%nat else None
      | 3%nat, b1 :: b2 :: _ =>
          if in_range lo hi b1 && cont_b b2 then Some 3%nat else None
      | 4%nat, b1 :: b2 :: b3 :: _ =>
          if in_range lo hi b1 && cont_b b2 && cont_b b3 then Some 4%nat else None
      | _, _ => None
      end
  end.

Ltac split_ifs_in H :=
  repeat match type of H with
  | context [if ?c then _ else _] => destruct c eqn:?; bool_prop; try lia
  end.

Lemma head_len_encode cp s :
  scalar cp -> head_len (encode cp ++ s) = Some (length (encode cp)).
Proof.
  unfold scalar, encode. intros H.
  destruct (cp <? 128) eqn:?; [|destruct (cp <? 2048) eqn:?; [|destruct (cp <? 65536) eqn:?]];
    bool_prop; unfold head_len; simpl app; cbv beta iota; unfold seq_info.
  - by replace (cp <=? 127) with true by lia.
  - destruct (Z.eqb_spec (cp / 64) 0); [lia|].
    unfold in_range, cont_b. split_ifs; simpl; unfold in_range; split_ifs; done || lia.
  - split_ifs; simpl; unfold in_range, cont_b, in_range; split_ifs; done || lia.
  - split_ifs; simpl; unfold in_range, cont_b, in_range; split_ifs; done || lia.
Qed.

Lemma head_len_decode s k :
  Forall is_byte s -> head_len s = Some k ->
  exists cp, scalar cp /\ take k s = encode cp /\ length (encode cp) = k.
Proof.
  intros Hs. destruct s as [|b0 t]; simpl; [done|].
  inversion Hs as [|? ? H0 Ht]; subst. unfold is_byte in H0.
  destruct (seq_info b0) as [[[n lo] hi]|] eqn:E; simpl; [|done].
  assert (Hn : (n = 1 \/ n = 2 \/ n = 3 \/ n = 4)%nat)
    by (unfold seq_info in E; split_ifs_in E; simplify_eq; lia).
  destruct Hn as [->|[->|[->| ->]]].
  - intros [=<-]. exists b0. unfold seq_info in E. split_ifs_in E; simplify_eq.
    unfold encode, scalar. replace (b0 <? 128) with true by lia. simpl.
    split; [lia | done].
  - destruct t as [|b1 t]; [done|]. unfold in_range. intros H. split_ifs_in H; simplify_eq.
    exists ((b0 - 192) * 64 + (b1 - 128)). unfold seq_info in E. split_ifs_in E; simplify_eq.
    unfold encode, scalar. split; [lia|]. split_ifs. split; [|done]. simpl. repeat f_equal; lia.
  - destruct t as [|b1 [|b2 t]]; [done.. | ]. unfold in_range, cont_b, in_range.
    intros H. split_ifs_in H; simplify_eq.
    exists ((b0 - 224) * 4096 + (b1 - 128) * 64 + (b2 - 128)).
    unfold seq_info in E. split_ifs_in E; simplify_eq; unfold encode, scalar;
      (split; [lia|]); split_ifs; (split; [|done]); simpl; repeat f_equal; lia.
  - destruct t as [|b1 [|b2 [|b3 t]]]; [done.. | ]. unfold in_range, cont_b, in_range.
    intros H. split_ifs_in H; simplify_eq.
    exists ((b0 - 240) * 262144 + (b1 - 128) * 4096 + (b2 - 128) * 64 + (b3 - 128)).
    unfold seq_info in E. split_ifs_in E; simplify_eq; unfold encode, scalar;
      (split; [lia|]); split_ifs; (split; [|done]); simpl; repeat f_equal; lia.
Qed.

Lemma head_len_bounds s k : head_len s = Some k -> (0 < k <= length s)%nat.
Proof.
  destruct s as [|b0 t]; simpl; [done|].
  destruct (seq_info b0) as [[[[|[|[|[|[|n]]]]] lo] hi]|]; simpl; try done.
  - by intros [=<-]; lia.
  - destruct t; [done|]. intros H. split_ifs_in H; simplify_eq; simpl; lia.
  - destruct t as [|? [|? ?]]; [done.. | ]. intros H. split_ifs_in H; simplify_eq; simpl; lia.
  - destruct t as [|? [|? [|? ?]]]; [done.. | ]. intros H. split_ifs_in H; simplify_eq; simpl; lia.
Qed.

Lemma wf_utf8_head s k :
  Forall is_byte s -> head_len s = Some k -> wf_utf8 (drop k s) -> wf_utf8 s.
Proof.
  intros Hs Hk Hd. destruct (head_len_decode s k Hs Hk) as (cp & Hc & Ht & _).
  rewrite <- (take_drop k s), Ht. by constructor.
Qed.

Lemma wf_utf8_inv s :
  wf_utf8 s -> s = [] \/ exists k, head_len s = Some k /\ wf_utf8 (drop k s).
Proof.
  destruct 1 as [|cp s Hc Hs]; [by left|]. right. exists (length (encode cp)).
  split; [by apply head_len_encode|]. by rewrite drop_app_length.
Qed.

(** The bit tests of the code as byte ranges. *)
Ltac by_bytes :=
  match goal with
  | H : is_byte ?b |- ?l = ?r =>
      apply eqb_prop; revert b H;
      match goal with
      | |- forall b, is_byte b -> @?P b = true => exact (byte_forall P eq_refl)
      end
  end.

Lemma land_C0 b : is_byte b -> (Z.land b 192 =? 128) = in_range 128 191 b.
Proof. intros. by_bytes. Qed.
Lemma land_E0 b : is_byte b -> (Z.land b 224 =? 192) = in_range 192 223 b.
Proof. intros. by_bytes. Qed.
Lemma land_F0 b : is_byte b -> (Z.land b 240 =? 224) = in_range 224 239 b.
Proof. intros. by_bytes. Qed.
Lemma land_F8 b : is_byte b -> (Z.land b 248 =? 240) = in_range 240 247 b.
Proof. intros. by_bytes. Qed.
Lemma is_cont_cont_b b : is_byte b -> is_cont b = cont_b b.
Proof. apply land_C0. Qed.

(** ** The sanitizer *)
Ltac resolve_ifs :=
  repeat match goal with
  | |- context [if ?c then _ else _] =>
      first [replace c with true by lia | replace c with false by lia]
  end.

Ltac case_range :=
  repeat match goal with
  | |- context [in_range ?lo ?hi ?b] => destruct (in_range lo hi b); simpl
  end.

Lemma rd_S b s i : rd (b :: s) (S i) = rd s i.
Proof.
  unfold rd. simpl.
  destruct (decide (i < length s)%nat), (decide (S i < S (length s))%nat); try lia; [done|].
  destruct (decide (i = length s)), (decide (S i = S (length s))); done || lia.
Qed.
Lemma rd_0 b s : rd (b :: s) 0 = Some b.
Proof. done. Qed.
Lemma rd_nil : rd [] 0 = Some 0.
Proof. done. Qed.

Lemma sanitize_step_head p :
  Forall is_char p -> p <> [] -> sanitize_step p = Some (head_len p).
Proof.
  intros Hp Hne. destruct p as [|b0 t]; [done|]. clear Hne.
  inversion Hp as [|? ? H0 Ht]; subst. unfold is_char in H0.
  unfold sanitize_step, and_then. rewrite !rd_S, rd_0. bind_simpl.
  assert (b0 <= 127 \/ 128 <= b0 < 194 \/ 194 <= b0 <= 223 \/ b0 = 224 \/
          225 <= b0 <= 236 \/ b0 = 237 \/ 238 <= b0 <= 239 \/ b0 = 240 \/
          241 <= b0 <= 243 \/ b0 = 244 \/ 245 <= b0) as Hc by lia.
  destruct t as [|b1 t].
  { rewrite rd_nil. simpl. unfold seq_info, in_range, is_cont.
    repeat destruct Hc as [Hc|Hc]; resolve_ifs; done. }
  inversion Ht as [|? ? H1 Ht1]; subst. rewrite rd_0, !rd_S. bind_simpl.
  rewrite (is_cont_cont_b b1) by auto.
  destruct t as [|b2 t].
  { rewrite rd_nil. simpl. unfold seq_info, cont_b.
    repeat destruct Hc as [Hc|Hc]; resolve_ifs; simpl; case_range; done. }
  inversion Ht1 as [|? ? H2 Ht2]; subst. rewrite rd_0, !rd_S. bind_simpl.
  rewrite (is_cont_cont_b b2) by auto.
  destruct t as [|b3 t].
  { rewrite rd_nil. simpl. unfold seq_info, cont_b.
    repeat destruct Hc as [Hc|Hc]; resolve_ifs; simpl; case_range; done. }
  inversion Ht2 as [|? ? H3 Ht3]; subst. rewrite rd_0. bind_simpl.
  rewrite (is_cont_cont_b b3) by auto. simpl. unfold seq_info, cont_b.
  repeat destruct Hc as [Hc|Hc]; resolve_ifs; simpl; case_range; done.
Qed.

Lemma sanitize_loop_spec fuel p :
  Forall is_char p -> (length p < fuel)%nat ->
  exists out, sanitize_loop fuel p = Some out /\ length out = length p /\
              wf_utf8 out /\ Forall is_char out.
Proof.
  revert p; induction fuel as [|fuel IH]; intros p Hp Hf; [lia|].
  destruct p as [|b t]; [exists []; eauto with utf8|]. cbn [sanitize_loop].
  rewrite sanitize_step_head by done. bind_simpl.
  destruct (head_len (b :: t)) as [k|] eqn:Ek.
  - pose proof (head_len_bounds _ _ Ek) as Hk.
    destruct (IH (drop k (b :: t))) as (out & -> & Hl & Hw & Hc);
      [by apply Forall_drop | rewrite length_drop; lia |].
    exists (take k (b :: t) ++ out). split; [done|]. split.
    { rewrite length_app, Hl, length_take, length_drop. lia. }
    split; [|apply Forall_app; split; [by apply Forall_take | done]].
    destruct (head_len_decode (b :: t) k) as (cp & Hcp & -> & _); [|done|].
    { auto. }
    by constructor.
  - inversion Hp; subst. simpl in Hf.
    destruct (IH t) as (out & -> & Hl & Hw & Hc); [done | lia |].
    exists (63 :: out). split; [done|]. split; [simpl; lia|]. split.
    + apply (wf_cons 63 out); [unfold scalar; lia | done].
    + constructor; [unfold is_char; lia | done].
Qed.

Lemma sanitize_loop_wf fuel p :
  Forall is_char p -> (length p < fuel)%nat -> wf_utf8 p -> sanitize_loop fuel p = Some p.
Proof.
  revert p; induction fuel as [|fuel IH]; intros p Hp Hf Hw; [lia|].
  destruct p as [|b t]; [done|]. cbn [sanitize_loop].
  rewrite sanitize_step_head by done. bind_simpl.
  destruct (wf_utf8_inv _ Hw) as [|(k & Hk & Hd)]; [done|]. rewrite Hk.
  pose proof (head_len_bounds _ _ Hk).
  rewrite IH; [| by apply Forall_drop | rewrite length_drop; lia | done].
  bind_simpl. by rewrite take_drop.
Qed.

(** C24. [utf8_sanitize] on any C string terminates, never reads past the
    terminator (the outer option is never [None]), keeps the length, and
    leaves a string that is well-formed UTF-8 and still free of NULs. *)
Theorem utf8_sanitize_safe s :
  Forall is_char s ->
  exists out, utf8_sanitize s = Some out /\ length out = length s /\
              wf_utf8 out /\ Forall is_char out.
Proof. intros Hs. apply sanitize_loop_spec; [done | lia]. Qed.

(** The sanitizer changes nothing exactly on well-formed UTF-8. *)
Theorem utf8_sanitize_fixpoint s :
  Forall is_char s -> (utf8_sanitize s = Some s <-> wf_utf8 s).
Proof.
  intros Hs. split.
  - intros H. destruct (utf8_sanitize_safe s Hs) as (out & Ho & _ & Hw & _). congruence.
  - apply sanitize_loop_wf; [done | lia].
Qed.

(** ** The bounded copy *)
Lemma encode_lead cp b :
  scalar cp -> encode cp !! 0%nat = Some b ->
  is_byte b /\ is_cont b = false /\ lead_seq_len b = length (encode cp).
Proof.
  intros H. unfold scalar in H.
  assert (forall b, is_byte b -> is_cont b = in_range 128 191 b) as Hc by apply land_C0.
  unfold encode. destruct (cp <? 128) eqn:?; [|destruct (cp <? 2048) eqn:?;
    [|destruct (cp <? 65536) eqn:?]]; bool_prop; simpl; intros [=<-];
    match goal with |- is_byte ?b /\ _ => assert (is_byte b) by (unfold is_byte; lia) end;
    rewrite Hc by done; (split; [done|]); unfold lead_seq_len;
    rewrite land_E0, land_F0, land_F8 by done; unfold in_range; split_ifs; split; done || lia.
Qed.

Lemma encode_tail cp j :
  scalar cp -> (0 < j < length (encode cp))%nat ->
  exists b, encode cp !! j = Some b /\ is_cont b = true.
Proof.
  intros H. unfold scalar in H.
  assert (forall x, is_cont (128 + x mod 64) = true) as Hc.
  { intros x. unfold is_cont. rewrite land_C0 by (unfold is_byte; lia).
    unfold in_range. lia. }
  unfold encode. destruct (cp <? 128) eqn:?; [|destruct (cp <? 2048) eqn:?;
    [|destruct (cp <? 65536) eqn:?]]; simpl; intros Hj;
    destruct j as [|[|[|[|j]]]]; try lia; simpl; eauto.
Qed.

Lemma encode_length cp : (1 <= length (encode cp) <= 4)%nat.
Proof. unfold encode. split_ifs; simpl; lia. Qed.

Lemma wf_utf8_split s m :
  wf_utf8 s -> (0 < m <= length s)%nat ->
  exists pre cp post, s = pre ++ encode cp ++ post /\ wf_utf8 pre /\ scalar cp /\
    (length pre < m <= length pre + length (encode cp))%nat.
Proof.
  intros Hs. revert m; induction Hs as [|cp s Hc Hs IH]; intros m Hm; simpl in Hm; [lia|].
  rewrite length_app in Hm.
  destruct (decide (m <= length (encode cp))%nat).
  - exists [], cp, s. simpl. eauto with utf8 lia.
  - destruct (IH (m - length (encode cp))%nat) as (pre & cp' & post & -> & Hp & Hc' & Hb);
      [lia|].
    exists (encode cp ++ pre), cp', post. rewrite length_app.
    split; [by rewrite app_assoc|]. split; [by constructor|]. split; [done|lia].
Qed.

Lemma wf_utf8_app_inv pre s : wf_utf8 pre -> wf_utf8 (pre ++ s) -> wf_utf8 s.
Proof.
  induction 1 as [|cp pre Hc Hp IH]; [done|]. rewrite <- app_assoc. intros H.
  apply IH. destruct (wf_utf8_inv _ H) as [E|(k & Hk & Hd)].
  - apply app_eq_nil in E as [E _]. pose proof (encode_length cp). rewrite E in *. simpl in *. lia.
  - rewrite head_len_encode in Hk by done. injection Hk as <-.
    by rewrite drop_app_length in Hd.
Qed.

Lemma wf_utf8_app pre s : wf_utf8 pre -> wf_utf8 s -> wf_utf8 (pre ++ s).
Proof.
  induction 1; [done|]. intros. rewrite <- app_assoc. constructor; auto.
Qed.
#[export] Hint Resolve wf_utf8_app : utf8.

(** A proper non-empty prefix of an encoded code point is not well formed. *)
Lemma wf_utf8_partial cp j :
  scalar cp -> (0 < j < length (encode cp))%nat -> ~ wf_utf8 (take j (encode cp)).
Proof.
  intros Hc Hj Hw.
  inversion Hw as [E|cp' x Hc' Hx E].
  - apply (f_equal length) in E. rewrite length_take in E. simpl in E. lia.
  - pose proof (head_len_encode cp [] Hc) as H1. rewrite app_nil_r in H1.
    rewrite <- (take_drop j (encode cp)) in H1 at 1.
    rewrite <- E, <- app_assoc, head_len_encode in H1 by done.
    injection H1 as H1. apply (f_equal length) in E.
    rewrite length_app, length_take in E. lia.
Qed.

Lemma count_trailing_split pre cp post m rounds k :
  scalar cp -> (length pre < m <= length pre + length (encode cp))%nat ->
  (k <= m - 1 - length pre)%nat -> (m - 1 - length pre - k < rounds)%nat ->
  count_trailing (pre ++ encode cp ++ post) m rounds k = Some (m - 1 - length pre)%nat.
Proof.
  intros Hc Hm. revert k; induction rounds as [|rounds IH]; intros k Hk Hr; [lia|].
  simpl. rewrite (proj2 (Nat.ltb_lt k m)) by lia.
  rewrite lookup_app_r, lookup_app_l by lia.
  destruct (decide (k = m - 1 - length pre)%nat) as [->|].
  - replace (m - 1 - (m - 1 - length pre) - length pre)%nat with 0%nat by lia.
    pose proof (encode_length cp).
    destruct (encode cp !! 0%nat) as [b|] eqn:E; [|apply lookup_ge_None in E; lia].
    destruct (encode_lead cp b Hc E) as (_ & Hb & _). simpl. by rewrite Hb.
  - destruct (encode_tail cp (m - 1 - k - length pre) Hc) as (b & -> & Hb); [lia|].
    simpl. rewrite Hb. apply IH; lia.
Qed.

Lemma truncate_cut_split pre cp post m :
  scalar cp -> (length pre < m <= length pre + length (encode cp))%nat ->
  truncate_cut (pre ++ encode cp ++ post) m =
    Some (if (m <? length pre + length (encode cp))%nat then length pre else m).
Proof.
  intros Hc Hm. unfold truncate_cut. pose proof (encode_length cp).
  rewrite (count_trailing_split pre cp post m 4 0) by (done || lia). bind_simpl.
  rewrite (proj2 (Nat.ltb_lt _ m)) by lia.
  rewrite lookup_app_r, lookup_app_l by lia.
  replace (m - 1 - (m - 1 - length pre) - length pre)%nat with 0%nat by lia.
  destruct (encode cp !! 0%nat) as [b|] eqn:E; [|apply lookup_ge_None in E; lia].
  destruct (encode_lead cp b Hc E) as (_ & _ & Hl). bind_simpl. rewrite Hl.
  by replace (m - 1 - (m - 1 - length pre))%nat with (length pre) by lia.
Qed.

Lemma count_trailing_total src m rounds k :
  (m <= length src)%nat -> (k <= m)%nat ->
  exists k', count_trailing src m rounds k = Some k' /\ (k' <= m)%nat.
Proof.
  intros Hm. revert k; induction rounds as [|rounds IH]; intros k Hk; simpl; [eauto|].
  destruct (Nat.ltb_spec k m); [|eauto].
  destruct (src !! (m - 1 - k)%nat) as [b|] eqn:E; [|apply lookup_ge_None in E; lia].
  simpl. destruct (is_cont b); [apply IH; lia | eauto].
Qed.

Lemma truncate_cut_total src m :
  (m <= length src)%nat -> exists cut, truncate_cut src m = Some cut /\ (cut <= m)%nat.
Proof.
  intros Hm. unfold truncate_cut.
  destruct (count_trailing_total src m 4 0 Hm) as (k & -> & Hk); [lia|]. bind_simpl.
  destruct (Nat.ltb_spec k m); [|eauto].
  destruct (src !! (m - 1 - k)%nat) as [b|] eqn:E; [|apply lookup_ge_None in E; lia].
  simpl. eexists; split; [done|]. destruct (_ <? _)%nat; lia.
Qed.

Lemma cstr_split l : exists z, l = cstr l ++ z /\ drop (length (cstr l)) l = z /\
  (z = [] \/ exists z', z = 0 :: z').
Proof.
  induction l as [|b l (z & E1 & E2 & E3)]; simpl; [by exists []; auto|].
  destruct (b =? 0) eqn:E; bool_prop.
  - subst. exists (0 :: l). simpl. eauto.
  - exists z. simpl. split; [congruence|]. auto.
Qed.

Lemma cstr_app_nul s z :
  Forall is_char s -> (z = [] \/ exists z', z = 0 :: z') -> cstr (s ++ z) = s.
Proof.
  intros Hs Hz. induction Hs as [|b s Hb _ IH]; simpl.
  - by destruct Hz as [->|[z' ->]].
  - unfold is_char in Hb. rewrite (proj2 (Z.eqb_neq b 0)) by lia. by rewrite IH.
Qed.

(** [utf8_truncate_safe_bounded] into a real buffer, from any bytes: it
    reads only inside [src], returns at most [dst_size - 1] and at most
    [src_len], fills exactly the bytes before [dst[cut]], and the C string it
    leaves in [dst] is well-formed UTF-8. *)
Theorem utf8_truncate_bounded_safe dst_size src src_len :
  (0 < dst_size)%nat -> Forall is_byte src -> (src_len <= length src)%nat ->
  exists cut out,
    utf8_truncate_safe_bounded true dst_size (Some src) src_len = Some (cut, Some out) /\
    length out = cut /\ (cut < dst_size)%nat /\ (cut <= src_len)%nat /\ wf_utf8 (cstr out).
Proof.
  intros Hd Hb Hl. unfold utf8_truncate_safe_bounded. simpl negb.
  destruct (Nat.eqb_spec dst_size 0); [lia|]. simpl orb. cbv iota.
  destruct (Nat.eqb_spec src_len 0) as [->|].
  { exists 0%nat, []. simpl. auto with utf8 lia. }
  set (m := if (src_len <? dst_size - 1)%nat then src_len else (dst_size - 1)%nat).
  assert ((m <= src_len /\ m < dst_size)%nat) as [Hm1 Hm2]
    by (unfold m; destruct (Nat.ltb_spec src_len (dst_size - 1)); lia).
  destruct (Nat.eqb_spec m 0).
  { exists 0%nat, []. simpl. auto with utf8 lia. }
  destruct (truncate_cut_total src m) as (cut & -> & Hcut); [lia|]. bind_simpl.
  assert (Forall is_byte (take cut src)) as Ht by (by apply Forall_take).
  destruct (utf8_sanitize_safe (cstr (take cut src))) as (o & -> & Ho & Hw & Hc);
    [by apply cstr_bytes|]. bind_simpl.
  destruct (cstr_split (take cut src)) as (z & E1 & -> & Ez).
  exists cut, (o ++ z). split; [done|].
  apply (f_equal length) in E1. rewrite length_app, length_take in *.
  split; [lia|]. split; [lia|]. split; [lia|]. by rewrite cstr_app_nul.
Qed.

(** On well-formed UTF-8 the bounded copy keeps the longest prefix of
    whole code points that fits: the copy is an unmodified prefix, and no
    longer well-formed prefix fits in the buffer. *)
Theorem utf8_truncate_longest_prefix dst_size src :
  (0 < dst_size)%nat -> Forall is_char src -> wf_utf8 src ->
  exists cut,
    utf8_truncate_safe true (Some src) dst_size = Some (cut, Some (take cut src)) /\
    wf_utf8 (take cut src) /\ (cut < dst_size)%nat /\ (cut <= length src)%nat /\
    forall n, (n < dst_size)%nat -> (n <= length src)%nat -> wf_utf8 (take n src) ->
              (n <= cut)%nat.
Proof.
  intros Hd Hc Hw. unfold utf8_truncate_safe, utf8_truncate_safe_bounded. simpl negb.
  destruct (Nat.eqb_spec dst_size 0); [lia|]. simpl orb. cbv iota.
  destruct (Nat.eqb_spec (Nat.min (length src) dst_size) 0) as [E0|].
  { exists 0%nat. simpl. repeat split; [apply wf_nil | lia..]. }
  set (m := if (Nat.min (length src) dst_size <? dst_size - 1)%nat
            then Nat.min (length src) dst_size else (dst_size - 1)%nat).
  assert (m = Nat.min (length src) (dst_size - 1)) as Hm
    by (unfold m; destruct (Nat.ltb_spec (Nat.min (length src) dst_size) (dst_size - 1)); lia).
  clearbody m.
  destruct (Nat.eqb_spec m 0).
  { exists 0%nat. simpl. repeat split; [apply wf_nil | lia..]. }
  destruct (wf_utf8_split src m Hw) as (pre & cp & post & -> & Hp & Hs & Hb); [lia|].
  rewrite truncate_cut_split by done. bind_simpl.
  set (cut := if (m <? length pre + length (encode cp))%nat then length pre else m).
  assert (wf_utf8 (take cut (pre ++ encode cp ++ post))) as Hcut.
  { unfold cut. destruct (Nat.ltb_spec m (length pre + length (encode cp))).
    - by rewrite take_app_length.
    - rewrite app_assoc, take_app_length' by (rewrite length_app; lia).
      apply wf_utf8_app; [done|]. rewrite <- (app_nil_r (encode cp)). auto with utf8. }
  exists cut.
  assert (Forall is_char (take cut (pre ++ encode cp ++ post))) as Hch
    by by apply Forall_take.
  rewrite cstr_chars by done.
  rewrite (proj2 (utf8_sanitize_fixpoint _ Hch) Hcut). bind_simpl.
  rewrite drop_all, app_nil_r. split; [done|]. split; [done|].
  rewrite !length_app in *.
  split; [unfold cut; destruct (_ <? _)%nat; lia|].
  split; [unfold cut; destruct (_ <? _)%nat; lia|].
  intros q Hq Hq' Hwn. unfold cut.
  destruct (Nat.ltb_spec m (length pre + length (encode cp))); [|lia].
  destruct (decide (q <= length pre)%nat); [done|exfalso].
  rewrite take_app_ge, take_app_le in Hwn by lia.
  apply wf_utf8_app_inv in Hwn; [|done].
  by apply (wf_utf8_partial cp (q - length pre)) in Hwn; [|done|lia].
Qed.

(** ** The validator of plugin_json.c and the prefix measure of lyrics.c *)
Lemma land_low b m v :
  is_byte b -> forallb (fun b => implb (in_range v (v + m) b) (Z.land b m =? b - v))
                 (map Z.of_nat (seq 0 256)) = true ->
  v <= b <= v + m -> Z.land b m = b - v.
Proof.
  intros Hb HP Hr. apply (byte_forall _ HP) in Hb. unfold in_range in Hb.
  rewrite (proj2 (Z.leb_le v b)), (proj2 (Z.leb_le b (v + m))) in Hb by lia.
  simpl in Hb. lia.
Qed.

Lemma utf8_ok_tail_S more cc s cp :
  is_byte cc -> 0 <= cp < 32768 ->
  utf8_ok_tail (S more) (cc :: s) cp =
    if cont_b cc then utf8_ok_tail more s (cp * 64 + (cc - 128)) else None.
Proof.
  intros Hb Hc. cbn [utf8_ok_tail]. rewrite land_C0 by done. unfold cont_b.
  destruct (in_range 128 191 cc) eqn:E; [|done]. unfold in_range in E. bool_prop. simpl negb.
  cbv iota. rewrite (land_low cc 63 128) by (done || lia).
  rewrite lor_shiftl_add by lia. rewrite u32_id; [done|]. unfold in_u32. lia.
Qed.

Ltac decide_checks :=
  unfold cont_b, in_range in *; cbn [utf8_ok_tail];
  repeat (match goal with
    | |- context [if ?c then _ else _] => destruct c eqn:?
    end; bind_simpl; bool_prop; try (done || lia)).

(** The part of a step after the lead byte was classified. *)
Lemma utf8_ok_tail_2 b1 b2 cp s :
  is_byte b1 -> is_byte b2 -> 0 <= cp < 16 ->
  utf8_ok_tail 2 (b1 :: b2 :: s) cp =
    if cont_b b1 && cont_b b2 then Some (cp * 4096 + (b1 - 128) * 64 + (b2 - 128)) else None.
Proof.
  intros H1 H2 Hc. rewrite utf8_ok_tail_S by (done || lia).
  destruct (cont_b b1) eqn:E1; [|done]. unfold cont_b, in_range in E1. bool_prop.
  rewrite utf8_ok_tail_S by (done || lia).
  destruct (cont_b b2) eqn:E2; [|done]. simpl. f_equal. lia.
Qed.
Lemma utf8_ok_tail_3 b1 b2 b3 cp s :
  is_byte b1 -> is_byte b2 -> is_byte b3 -> 0 <= cp < 8 ->
  utf8_ok_tail 3 (b1 :: b2 :: b3 :: s) cp =
    if cont_b b1 && cont_b b2 && cont_b b3
    then Some (cp * 262144 + (b1 - 128) * 4096 + (b2 - 128) * 64 + (b3 - 128)) else None.
Proof.
  intros H1 H2 H3 Hc. rewrite utf8_ok_tail_S by (done || lia).
  destruct (cont_b b1) eqn:E1; [|done]. unfold cont_b, in_range in E1. bool_prop.
  rewrite utf8_ok_tail_S by (done || lia).
  destruct (cont_b b2) eqn:E2; [|done]. unfold cont_b, in_range in E2. bool_prop.
  rewrite utf8_ok_tail_S by (done || lia).
  destruct (cont_b b3) eqn:E3; [|done]. simpl. f_equal. lia.
Qed.

Lemma utf8_ok_step_head s :
  Forall is_byte s -> s <> [] -> utf8_ok_step s = head_len s.
Proof.
  intros Hs Hne. destruct s as [|b0 t]; [done|]. clear Hne.
  inversion Hs as [|? ? H0 Ht]; subst.
  unfold utf8_ok_step, head_len. rewrite land_E0, land_F0, land_F8 by done.
  pose proof H0 as H0'. unfold is_byte in H0'. unfold in_range.
  assert (b0 <= 127 \/ 128 <= b0 < 192 \/ 192 <= b0 < 194 \/ 194 <= b0 <= 223 \/ 224 <= b0 <= 224 \/
          225 <= b0 <= 236 \/ 237 <= b0 <= 237 \/ 238 <= b0 <= 239 \/ 240 <= b0 <= 240 \/
          241 <= b0 <= 243 \/ 244 <= b0 <= 244 \/ 245 <= b0 <= 247 \/ 248 <= b0) as Hc by lia.
  unfold seq_info.
  repeat destruct Hc as [Hc|Hc]; resolve_ifs; bind_simpl; try done.
  all: destruct t as [|b1 t]; [done|]; apply Forall_cons_iff in Ht as [H1 Ht];
    try (destruct t as [|b2 t]; [done|]; apply Forall_cons_iff in Ht as [H2 Ht]);
    try (destruct t as [|b3 t]; [done|]; apply Forall_cons_iff in Ht as [H3 Ht]);
    cbn [length Nat.ltb Nat.leb Nat.add];
    first [ rewrite (land_low b0 31 192) by (done || lia); rewrite utf8_ok_tail_S by (done || lia)
          | rewrite (land_low b0 15 224) by (done || lia); rewrite utf8_ok_tail_2 by (done || lia)
          | rewrite (land_low b0 7 240) by (done || lia); rewrite utf8_ok_tail_3 by (done || lia) ];
    decide_checks; exfalso; cbn in *; intuition (bool_prop; done || lia).
Qed.

Lemma utf8_ok_loop_spec fuel s :
  Forall is_byte s -> (length s <= fuel)%nat -> (utf8_ok_loop fuel s = true <-> wf_utf8 s).
Proof.
  revert s; induction fuel as [|fuel IH]; intros s Hs Hf.
  { destruct s; [|simpl in Hf; lia]. split; [constructor | done]. }
  destruct s as [|b t]; [split; [constructor | done]|].
  cbn [utf8_ok_loop]. rewrite utf8_ok_step_head by done.
  destruct (head_len (b :: t)) as [k|] eqn:Ek.
  - pose proof (head_len_bounds _ _ Ek).
    rewrite IH; [|by apply Forall_drop | rewrite length_drop; lia]. split.
    + by apply wf_utf8_head.
    + intros Hw. destruct (wf_utf8_inv _ Hw) as [|(k' & Hk' & Hd)]; [done|]. congruence.
  - split; [done|]. intros Hw.
    destruct (wf_utf8_inv _ Hw) as [|(k' & Hk' & Hd)]; [done|]. congruence.
Qed.

(** The plugin JSON validator accepts exactly well-formed UTF-8 (a NUL
    byte is the scalar 0), so it agrees with the sanitizer of utf8_util.c:
    it accepts a C string exactly when the sanitizer leaves it alone. *)
Theorem utf8_ok_correct s :
  Forall is_byte s ->
  (utf8_ok s = true <-> wf_utf8 s) /\
  (Forall is_char s -> (utf8_ok s = true <-> utf8_sanitize s = Some s)).
Proof.
  intros Hs. pose proof (utf8_ok_loop_spec (length s) s Hs (Nat.le_refl _)) as H.
  split; [done|]. intros Hc. rewrite H. symmetry. by apply utf8_sanitize_fixpoint.
Qed.

(** ** Witnesses *)
Lemma utf8_sanitize_safe_witness :
  exists out, utf8_sanitize [65; 195; 40; 237; 160; 128] = Some out /\
    length out = 6%nat /\ wf_utf8 out /\ Forall is_char out.
Proof.
  apply (utf8_sanitize_safe [65; 195; 40; 237; 160; 128]).
  repeat (constructor; [unfold is_char; lia|]). constructor.
Defined.

Lemma utf8_sanitize_fixpoint_witness :
  utf8_sanitize [226; 130; 172] = Some [226; 130; 172] <-> wf_utf8 [226; 130; 172].
Proof.
  apply (utf8_sanitize_fixpoint [226; 130; 172]).
  repeat (constructor; [unfold is_char; lia|]). constructor.
Defined.

Lemma utf8_truncate_bounded_safe_witness :
  exists cut out,
    utf8_truncate_safe_bounded true 4 (Some [65; 0; 195; 169; 66]) 5 = Some (cut, Some out) /\
    length out = cut /\ (cut < 4)%nat /\ (cut <= 5)%nat /\ wf_utf8 (cstr out).
Proof.
  apply (utf8_truncate_bounded_safe 4 [65; 0; 195; 169; 66] 5).
  - lia.
  - repeat (constructor; [unfold is_byte; lia|]). constructor.
  - simpl. lia.
Defined.

Lemma utf8_truncate_longest_prefix_witness :
  exists cut,
    utf8_truncate_safe true (Some [97; 226; 130; 172; 98]) 4 =
      Some (cut, Some (take cut [97; 226; 130; 172; 98])) /\
    wf_utf8 (take cut [97; 226; 130; 172; 98]) /\ (cut < 4)%nat /\ (cut <= 5)%nat /\
    forall n, (n < 4)%nat -> (n <= 5)%nat -> wf_utf8 (take n [97; 226; 130; 172; 98]) ->
              (n <= cut)%nat.
Proof.
  apply (utf8_truncate_longest_prefix 4 [97; 226; 130; 172; 98]).
  - lia.
  - repeat (constructor; [unfold is_char; lia|]). constructor.
  - apply (wf_cons 97 [226; 130; 172; 98]); [unfold scalar; lia|].
    apply (wf_cons 8364 [98]); [unfold scalar; lia|].
    apply (wf_cons 98 []); [unfold scalar; lia|]. constructor.
Defined.

Lemma utf8_ok_correct_witness :
  (utf8_ok [97; 195; 169] = true <-> wf_utf8 [97; 195; 169]) /\
  (Forall is_char [97; 195; 169] ->
   (utf8_ok [97; 195; 169] = true <-> utf8_sanitize [97; 195; 169] = Some [97; 195; 169])).
Proof.
  apply (utf8_ok_correct [97; 195; 169]).
  repeat (constructor; [unfold is_byte; lia|]). constructor.
Defined.

(** The validator and the sanitizer on inputs at their edges. *)
Example utf8_ok_surrogate : utf8_ok [237; 160; 128] = false.
Proof. reflexivity. Qed.
Example utf8_ok_overlong : utf8_ok [224; 159; 191] = false.
Proof. reflexivity. Qed.
Example utf8_ok_top : utf8_ok [244; 143; 191; 191] = true.
Proof. reflexivity. Qed.
