(* ===== verification/Endian.v ===== *)
(** Little-endian fields, line endings and byte-order marks: the helpers of
    src/library/library_endian.h, which the library's parsers share. *)
From S2P Require Import Prelude.
Local Open Scope Z_scope.

(** ** Operations *)

(** [library_read_u16le] and [library_read_u32le] on the bytes from [p]. *)
Definition library_read_u16le (p : list Z) : option Z :=
  match p with
  | b0 :: b1 :: _ => Some (u16 (Z.lor b0 (Z.shiftl b1 8)))
  | _ => None
  end.
Definition library_read_u32le (p : list Z) : option Z :=
  match p with
  | b0 :: b1 :: b2 :: b3 :: _ =>
      Some (Z.lor (Z.lor (Z.lor b0 (u32 (Z.shiftl b1 8))) (u32 (Z.shiftl b2 16)))
              (u32 (Z.shiftl b3 24)))
  | _ => None
  end.

(** The bytes of a 16- and 32-bit field in a file or in the (little-endian)
    memory of the player. *)
Definition le16 (v : Z) : list Z := [u8 v; u8 (Z.shiftr v 8)].
Definition le32 (v : Z) : list Z :=
  [u8 v; u8 (Z.shiftr v 8); u8 (Z.shiftr v 16); u8 (Z.shiftr v 24)].

Definition library_is_m3u_file (name : list Z) : bool :=
  match strrchr 46 name with
  | Some i => strcaseeq (drop i name) (bs ".m3u") || strcaseeq (drop i name) (bs ".m3u8")
  | None => false
  end.

(** [library_trim_eol]: the line without its trailing LFs and CRs. *)
Fixpoint trim_eol_loop (fuel len : nat) (line : list Z) : list Z :=
  match fuel with
  | O => take len line
  | S fuel =>
      match len with
      | O => []
      | S l =>
          match line !! l with
          | Some b => if (b =? 10) || (b =? 13) then trim_eol_loop fuel l line else take len line
          | None => take len line
          end
      end
  end.
Definition library_trim_eol (line : list Z) : list Z :=
  trim_eol_loop (length line) (length line) line.

Definition library_utf8_bom_skip (p : list Z) : nat :=
  if starts_with [239; 187; 191] p then 3%nat else 0%nat.

(** ** Properties *)
Lemma u32_shiftl b k :
  is_byte b -> 0 <= k <= 24 -> u32 (Z.shiftl b k) = Z.shiftl b k.
Proof.
  intros Hb Hk. apply u32_id. unfold in_u32, is_byte in *. rewrite Z.shiftl_mul_pow2 by lia.
  assert (0 < 2 ^ k <= 2 ^ 24) by (split; [lia | apply Z.pow_le_mono_r; lia]).
  change (2 ^ 24) with 16777216 in *. nia.
Qed.

Lemma lor_field x b k : 0 <= k -> 0 <= x < 2 ^ k -> Z.lor x (Z.shiftl b k) = x + b * 2 ^ k.
Proof. intros. rewrite Z.lor_comm, lor_shiftl_add by done. lia. Qed.

(** The value of a little-endian field. *)
Lemma library_read_u32le_value b0 b1 b2 b3 rest :
  is_byte b0 -> is_byte b1 -> is_byte b2 -> is_byte b3 ->
  library_read_u32le (b0 :: b1 :: b2 :: b3 :: rest) =
    Some (b0 + b1 * 256 + b2 * 65536 + b3 * 16777216).
Proof.
  intros H0 H1 H2 H3. unfold library_read_u32le. rewrite !u32_shiftl by (done || lia).
  unfold is_byte in *. rewrite (lor_field b0 b1 8) by lia.
  change (2 ^ 8) with 256. rewrite (lor_field _ b2 16) by lia. change (2 ^ 16) with 65536.
  rewrite (lor_field _ b3 24) by lia. done.
Qed.

Lemma length_le32 v : length (le32 v) = 4%nat.
Proof. done. Qed.
Lemma le32_bytes v : Forall is_byte (le32 v).
Proof. unfold le32. repeat constructor; apply u8_range. Qed.

Lemma read_le32 v rest : library_read_u32le (le32 v ++ rest) = Some (u32 v).
Proof.
  unfold le32. simpl app. rewrite library_read_u32le_value by apply u8_range. f_equal.
  unfold u8, u32. rewrite !Z.shiftr_div_pow2 by lia. cbn [Z.pow Z.pow_pos Pos.iter Z.mul Pos.mul].
  div_lia.
Qed.

(** Little-endian 32-bit fields round-trip: what is written as four bytes
    reads back as the value modulo 2^32, and every four bytes are the encoding
    of the value read. *)
Lemma library_read_u32le_roundtrip v rest b0 b1 b2 b3 :
  is_byte b0 -> is_byte b1 -> is_byte b2 -> is_byte b3 ->
  library_read_u32le (le32 v ++ rest) = Some (u32 v) /\
  exists w, library_read_u32le [b0; b1; b2; b3] = Some w /\ in_u32 w /\ le32 w = [b0; b1; b2; b3].
Proof.
  intros H0 H1 H2 H3. split; [apply read_le32|]. eexists.
  split; [by apply library_read_u32le_value|]. unfold is_byte in *.
  split; [unfold in_u32; lia|]. unfold le32, u8. rewrite !Z.shiftr_div_pow2 by lia.
  cbn [Z.pow Z.pow_pos Pos.iter Z.mul Pos.mul]. repeat f_equal; div_lia.
Qed.

Definition is_eol (b : Z) : bool := (b =? 10) || (b =? 13).

(** [library_trim_eol] removes exactly the trailing run of LF and CR bytes. *)
Lemma library_trim_eol_rev line : library_trim_eol line = rev (drop_while is_eol (rev line)).
Proof.
  unfold library_trim_eol.
  enough (forall len fuel, (len <= fuel)%nat -> (len <= length line)%nat ->
    trim_eol_loop fuel len line = rev (drop_while is_eol (rev (take len line)))) as H.
  { rewrite H by lia. by rewrite firstn_all. }
  induction len as [|len IH]; intros fuel Hf Hl; (destruct fuel as [|fuel]; [try lia|]);
    cbn [trim_eol_loop]; try done.
  destruct (lookup_lt_is_Some_2 line len) as [b Hb]; [lia|].
  rewrite Hb, (take_S_r _ _ b), rev_unit by done. cbn [drop_while]. unfold is_eol at 1.
  destruct ((b =? 10) || (b =? 13)); [apply IH; lia|].
  cbn [rev]. by rewrite rev_involutive.
Qed.
Lemma trim_eol_snoc_eol l c : is_eol c = true -> library_trim_eol (l ++ [c]) = library_trim_eol l.
Proof. intros H. rewrite !library_trim_eol_rev, rev_unit. cbn [drop_while]. by rewrite H. Qed.
Lemma trim_eol_snoc l c : is_eol c = false -> library_trim_eol (l ++ [c]) = l ++ [c].
Proof.
  intros H. rewrite !library_trim_eol_rev, rev_unit. cbn [drop_while]. rewrite H.
  cbn [rev]. by rewrite rev_involutive.
Qed.
Lemma trim_eol_nil : library_trim_eol [] = [].
Proof. done. Qed.
(** A line that does not start with an end of line keeps its first byte. *)
Lemma trim_eol_cons c l : is_eol c = false -> exists t, library_trim_eol (c :: l) = c :: t.
Proof.
  intros H. induction l as [|x l IH] using rev_ind.
  - exists []. change [c] with ([] ++ [c]). by apply trim_eol_snoc.
  - rewrite app_comm_cons. destruct (is_eol x) eqn:E.
    + by rewrite trim_eol_snoc_eol.
    + rewrite trim_eol_snoc by done. by eexists.
Qed.
Lemma trim_eol_idemp l : library_trim_eol (library_trim_eol l) = library_trim_eol l.
Proof.
  induction l as [|x l IH] using rev_ind; [done|]. destruct (is_eol x) eqn:E.
  - by rewrite trim_eol_snoc_eol.
  - by rewrite trim_eol_snoc, trim_eol_snoc by done.
Qed.
(** A line without its newline. *)
Lemma trim_path_line p : (10 ∉ p) -> list.last p <> Some 13 -> library_trim_eol (p ++ [10]) = p.
Proof.
  intros H1 H2. rewrite trim_eol_snoc_eol by done.
  destruct p as [|c p _] using rev_ind; [done|]. rewrite list.last_snoc in H2. apply trim_eol_snoc.
  unfold is_eol. rewrite (proj2 (Z.eqb_neq c 10)), (proj2 (Z.eqb_neq c 13)); [done|congruence|].
  intros ->. apply H1, list.elem_of_app. right. apply list_elem_of_here.
Qed.
