(* ===== verification/StableSort.v ===== *)
(** Stable sorting by a C comparator: the specification the tag cache's sorts
    are proved against, with the merge of two runs they are built from. *)
From stdpp Require Import sorting.
From S2P Require Import Prelude.
Local Open Scope Z_scope.

(** What a comparator handed to the sorts promises: the sign is antisymmetric
    and "not after" is transitive. *)
Class CmpOrder {A} (cmp : A -> A -> Z) : Prop := {
  cmp_sym a b : Z.sgn (cmp a b) = - Z.sgn (cmp b a);
  cmp_le_trans a b c : cmp a b <= 0 -> cmp b c <= 0 -> cmp a c <= 0;
}.

Section stable.
Context {A : Type} (cmp : A -> A -> Z) `{!CmpOrder cmp}.

Definition cle (a b : A) : Prop := cmp a b <= 0.
(** The records equal to [x] under the comparator, in order. *)
Definition class (x : A) (l : list A) : list A := filter (fun y => cmp x y = 0) l.

(** [l'] is [l] sorted stably: ordered, and every class of equal records
    keeps its order. *)
Definition stable_sorted (l l' : list A) : Prop :=
  StronglySorted cle l' /\ forall x, class x l' = class x l.

(** The merge of two runs, taking the left record on equality. *)
Fixpoint merge (l1 : list A) : list A -> list A :=
  fix go l2 :=
    match l1, l2 with
    | [], _ => l2
    | _, [] => l1
    | x :: t1, y :: t2 => if cmp x y <=? 0 then x :: merge t1 l2 else y :: go t2
    end.

(** The reference: insertion sort, each record inserted before its equals. *)
Definition isort (l : list A) : list A := foldr (fun x acc => merge [x] acc) [] l.

Lemma cle_refl a : cle a a.
Proof. unfold cle. pose proof (cmp_sym a a). lia. Qed.
Lemma cle_trans a b c : cle a b -> cle b c -> cle a c.
Proof. apply cmp_le_trans. Qed.
Lemma cle_total a b : cle a b \/ cle b a.
Proof. unfold cle. pose proof (cmp_sym a b). lia. Qed.
Lemma cmp_gt_lt a b : 0 < cmp a b <-> cmp b a < 0.
Proof. pose proof (cmp_sym a b). lia. Qed.
Lemma cmp_eq_sym a b : cmp a b = 0 <-> cmp b a = 0.
Proof. pose proof (cmp_sym a b). lia. Qed.
Lemma cmp_eq_cle a b : cmp a b = 0 <-> cle a b /\ cle b a.
Proof. unfold cle. pose proof (cmp_sym a b). lia. Qed.

(** Comparisons compose, and only equals compose to an equal. *)
Lemma cmp_trans_eq a b c :
  cmp a b <= 0 -> cmp b c <= 0 -> cmp a c = 0 -> cmp a b = 0 /\ cmp b c = 0.
Proof.
  intros H1 H2 H3. apply cmp_eq_cle in H3 as [_ H3].
  split; apply cmp_eq_cle; (split; [done|]); eapply cle_trans; eauto.
Qed.

Lemma class_app x l1 l2 : class x (l1 ++ l2) = class x l1 ++ class x l2.
Proof. apply list.filter_app. Qed.
Lemma class_nil x : class x [] = [].
Proof. done. Qed.
Lemma class_cons x y l :
  class x (y :: l) = (if decide (cmp x y = 0) then [y] else []) ++ class x l.
Proof. unfold class. rewrite list.filter_cons. by case_decide. Qed.
Lemma class_self x l : class x (x :: l) = x :: class x l.
Proof. rewrite class_cons, decide_True; [done|]. apply cmp_eq_cle. by split; apply cle_refl. Qed.

(** Records that all come after [y] hold nothing equal to [y]. *)
Lemma class_above x y l :
  cmp x y = 0 -> Forall (fun z => 0 < cmp z y) l -> class x l = [].
Proof.
  intros Hxy. induction 1 as [|z l Hz _ IH]; [done|].
  rewrite class_cons, IH, decide_False; [done|]. intros Hxz.
  assert (cle y z) as H1.
  { apply cle_trans with x; [apply cmp_eq_cle in Hxy | apply cmp_eq_cle in Hxz]; tauto. }
  assert (cle z y) as H2.
  { apply cle_trans with x; [apply cmp_eq_cle in Hxz | apply cmp_eq_cle in Hxy]; tauto. }
  unfold cle in *. lia.
Qed.

Lemma sorted_above a b l :
  0 < cmp a b -> StronglySorted cle (a :: l) -> Forall (fun z => 0 < cmp z b) (a :: l).
Proof.
  intros Hab Hs. apply StronglySorted_inv in Hs as [_ Hl].
  constructor; [done|]. eapply List.Forall_impl; [|exact Hl].
  intros z Hz. apply cmp_gt_lt. apply cmp_gt_lt in Hab.
  destruct (Z.lt_ge_cases (cmp b z) 0) as [|Hbz]; [done|exfalso].
  assert (cle z b) by (unfold cle; pose proof (cmp_sym b z); lia).
  assert (cle a b) as Hab' by (eapply cle_trans; [apply Hz | done]).
  unfold cle in Hab'. pose proof (cmp_sym a b). lia.
Qed.

Lemma merge_nil_r l : merge l [] = l.
Proof. by destruct l. Qed.
Lemma merge_nil_l l : merge [] l = l.
Proof. by destruct l. Qed.
Lemma merge_cons x t1 y t2 :
  merge (x :: t1) (y :: t2) =
    if cmp x y <=? 0 then x :: merge t1 (y :: t2) else y :: merge (x :: t1) t2.
Proof. done. Qed.

Arguments merge : simpl never.

Lemma merge_perm l1 l2 : merge l1 l2 ≡ₚ l1 ++ l2.
Proof.
  revert l2; induction l1 as [|x t1 IH1]; intros l2; [by rewrite merge_nil_l|].
  induction l2 as [|y t2 IH2]; [by rewrite merge_nil_r, app_nil_r|].
  rewrite merge_cons. destruct (cmp x y <=? 0).
  - rewrite IH1. done.
  - rewrite IH2. by rewrite <- Permutation_middle.
Qed.

Lemma merge_class x l1 l2 :
  StronglySorted cle l1 -> StronglySorted cle l2 ->
  class x (merge l1 l2) = class x l1 ++ class x l2.
Proof.
  revert l2; induction l1 as [|a t1 IH1]; intros l2 H1 H2; [by rewrite merge_nil_l|].
  induction l2 as [|b t2 IH2]; [by rewrite merge_nil_r, class_nil, app_nil_r|].
  rewrite merge_cons. destruct (cmp a b <=? 0) eqn:E; bool_prop.
  - rewrite !class_cons, IH1, <- app_assoc, class_cons; [done| |done].
    by apply StronglySorted_inv in H1 as [? _].
  - rewrite (class_cons x b), IH2, (class_cons x b t2);
      [|by apply StronglySorted_inv in H2 as [? _]].
    case_decide as Hxb; [|done].
    rewrite (class_above x b (a :: t1)); [done|done|by apply sorted_above].
Qed.

Lemma merge_sorted l1 l2 :
  StronglySorted cle l1 -> StronglySorted cle l2 -> StronglySorted cle (merge l1 l2).
Proof.
  revert l2; induction l1 as [|a t1 IH1]; intros l2 H1 H2; [by rewrite merge_nil_l|].
  induction l2 as [|b t2 IH2]; [by rewrite merge_nil_r|].
  pose proof (StronglySorted_inv H1) as [H1t H1a].
  pose proof (StronglySorted_inv H2) as [H2t H2b].
  rewrite merge_cons. destruct (cmp a b <=? 0) eqn:E; bool_prop; constructor.
  - by apply IH1.
  - rewrite merge_perm. apply list.Forall_app. split; [done|]. constructor; [done|].
    eapply List.Forall_impl; [|exact H2b]. intros z. by apply cle_trans.
  - by apply IH2.
  - rewrite merge_perm. assert (cle b a) by (unfold cle; pose proof (cmp_sym a b); lia).
    constructor; [done|]. apply list.Forall_app; split; [|done].
    eapply List.Forall_impl; [|exact H1a]. intros z. by apply cle_trans.
Qed.

Lemma isort_spec l : stable_sorted l (isort l).
Proof.
  induction l as [|x l [IHs IHc]]; simpl; [split; [constructor|done]|].
  assert (StronglySorted cle [x]) by (repeat constructor).
  split; [by apply merge_sorted|]. intros y. rewrite merge_class, IHc by done.
  by rewrite (class_cons y x l), (class_cons y x []), app_nil_r.
Qed.

Lemma isort_perm l : isort l ≡ₚ l.
Proof. induction l as [|x l IH]; simpl; [done|]. rewrite merge_perm, IH. done. Qed.

Lemma isort_length l : length (isort l) = length l.
Proof. by rewrite isort_perm. Qed.

Lemma class_elem x l : x ∈ l <-> x ∈ class x l.
Proof.
  unfold class. rewrite list_elem_of_filter. split; [|tauto]. split; [|done].
  apply cmp_eq_cle. by split; apply cle_refl.
Qed.

(** A stable sort is unique, so any sort with the specification computes the
    reference. *)
Lemma stable_sorted_unique l l1 l2 :
  stable_sorted l l1 -> stable_sorted l l2 -> l1 = l2.
Proof.
  intros [H1 C1] [H2 C2].
  assert (forall x, class x l1 = class x l2) as HC by (intros; by rewrite C1, C2).
  clear C1 C2 l. revert l2 H2 HC. induction H1 as [|a l1 H1 IH Ha]; intros l2 H2 HC.
  { destruct l2 as [|b l2]; [done|]. specialize (HC b). by rewrite class_self in HC. }
  destruct H2 as [|b l2 H2 Hb]; [specialize (HC a); by rewrite class_self in HC|].
  assert (cle a b) as Hab.
  { assert (b ∈ a :: l1) as Hin
      by (rewrite class_elem, HC, <- class_elem; left).
    apply elem_of_cons in Hin as [->|Hin]; [apply cle_refl|].
    by apply (proj1 (list.Forall_forall _ _) Ha). }
  assert (cle b a) as Hba.
  { assert (a ∈ b :: l2) as Hin
      by (rewrite class_elem, <- HC, <- class_elem; left).
    apply elem_of_cons in Hin as [->|Hin]; [apply cle_refl|].
    by apply (proj1 (list.Forall_forall _ _) Hb). }
  assert (a = b) as ->.
  { specialize (HC a). rewrite class_self, class_cons, decide_True in HC;
      [by injection HC | by apply cmp_eq_cle]. }
  f_equal. apply IH; [done|]. intros x. specialize (HC x).
  rewrite !class_cons in HC. by apply app_inv_head in HC.
Qed.

Lemma stable_sorted_isort l l' : stable_sorted l l' -> l' = isort l.
Proof. intros. eapply stable_sorted_unique; [done | apply isort_spec]. Qed.

Lemma stable_sorted_perm l l' : stable_sorted l l' -> l' ≡ₚ l.
Proof. intros ->%stable_sorted_isort. apply isort_perm. Qed.
End stable.

Arguments merge {A} cmp : simpl never.

(** What [qsort] promises with a comparator that orders: the same elements, in
    order; equals may come in any order. *)
Class QSort {A} (cmp : A -> A -> Z) (qsort : list A -> list A) : Prop := {
  qsort_perm l : qsort l ≡ₚ l;
  qsort_sorted l : StronglySorted (cle cmp) (qsort l) }.
#[export] Instance isort_qsort {A} (cmp : A -> A -> Z) `{!CmpOrder cmp} : QSort cmp (isort cmp).
Proof. split; intros l; [by apply isort_perm|apply (isort_spec cmp l)]. Qed.
