(* ===== verification/TagSortHeap.v ===== *)
(** The binary heap of the k-way merge in src/library/tagcache_sort.h: the
    first [heap_count] entries of the C array [heap] are a list of reader
    indices, ordered by the records the readers stand at. *)
From Stdlib Require Import ZifyNat.
From S2P Require Import Prelude.
Local Open Scope nat_scope.

Section heap.
(** [before x y]: reader [x]'s record goes out before reader [y]'s
    ([None] when one of them has no current record). *)
Context (before : nat -> nat -> option bool).

(** [tc_sort_heap_before] at the heap positions [a] and [b]. *)
Definition heap_before (heap : list nat) (a b : nat) : option bool :=
  x ← heap !! a; y ← heap !! b; before x y.

Definition heap_swap (heap : list nat) (i j : nat) : option (list nat) :=
  x ← heap !! i; y ← heap !! j; Some (<[j:=x]> (<[i:=y]> heap)).

Fixpoint sift_up_loop (fuel : nat) (heap : list nat) (at_ : nat) : option (list nat) :=
  if (0 <? at_) then
    match fuel with
    | O => None
    | S fuel =>
        let parent := (at_ - 1) / 2 in
        b ← heap_before heap at_ parent;
        if (b : bool) then
          heap' ← heap_swap heap at_ parent; sift_up_loop fuel heap' parent
        else Some heap
    end
  else Some heap.
(** [tc_sort_heap_sift_up]; [at] halves, so [at] rounds are enough. *)
Definition tc_sort_heap_sift_up (heap : list nat) (at_ : nat) : option (list nat) :=
  sift_up_loop at_ heap at_.

Definition sift_pick (heap : list nat) (count child best : nat) : option nat :=
  if child <? count then
    b ← heap_before heap child best; Some (if (b : bool) then child else best)
  else Some best.
Fixpoint sift_down_loop (fuel : nat) (heap : list nat) (count at_ : nat)
    : option (list nat) :=
  match fuel with
  | O => None
  | S fuel =>
      let left := at_ * 2 + 1 in
      let right := left + 1 in
      best ← sift_pick heap count left at_;
      best ← sift_pick heap count right best;
      if best =? at_ then Some heap
      else heap' ← heap_swap heap at_ best; sift_down_loop fuel heap' count best
  end.
(** [tc_sort_heap_sift_down]; [at] at least doubles, so [count + 1] rounds
    are enough. *)
Definition tc_sort_heap_sift_down (heap : list nat) (count at_ : nat)
    : option (list nat) := sift_down_loop (S count) heap count at_.

(** ** Correctness, for a total order on the readers' current records *)
Context (le : nat -> nat -> Prop).
Context (le_trans : forall x y z, le x y -> le y z -> le x z).

(** [before] decides the strict part of [le] on the entries of [l]. *)
Definition decides (l : list nat) : Prop := forall x y, x ∈ l -> y ∈ l ->
  (before x y = Some true /\ le x y) \/ (before x y = Some false /\ le y x).

Definition par (k : nat) : nat := (k - 1) / 2.
Definition edge (heap : list nat) (j k : nat) : Prop :=
  forall x y, heap !! j = Some x -> heap !! k = Some y -> le x y.
Definition heap_ok (heap : list nat) : Prop :=
  forall k, 0 < k < length heap -> edge heap (par k) k.

#[local] Ltac Zify.zify_post_hook ::= Z.to_euclidean_division_equations.

Lemma edge_trans heap i j k :
  j < length heap -> edge heap i j -> edge heap j k -> edge heap i k.
Proof.
  intros Hj H1 H2 x y Hx Hy. destruct (lookup_lt_is_Some_2 heap j Hj) as [z Hz].
  eapply le_trans; [by apply H1 | by apply H2].
Qed.

Lemma heap_swap_spec heap i j :
  i < length heap -> j < length heap -> i <> j ->
  exists heap', heap_swap heap i j = Some heap' /\ heap' ≡ₚ heap /\
    heap' !! i = heap !! j /\ heap' !! j = heap !! i /\
    (forall k, k <> i -> k <> j -> heap' !! k = heap !! k).
Proof.
  intros Hi Hj Hij.
  destruct (lookup_lt_is_Some_2 heap i Hi) as [x Hx].
  destruct (lookup_lt_is_Some_2 heap j Hj) as [y Hy].
  exists (<[j:=x]> (<[i:=y]> heap)). unfold heap_swap. rewrite Hx, Hy. split; [done|].
  split; [|split; [|split]].
  - by apply Permutation_insert_swap.
  - rewrite list_lookup_insert_ne by done. by rewrite list_lookup_insert_eq.
  - rewrite list_lookup_insert_eq; [done|]. by rewrite length_insert.
  - intros k Hki Hkj. by rewrite !list_lookup_insert_ne by congruence.
Qed.

Lemma decides_perm l l' : l' ≡ₚ l -> decides l -> decides l'.
Proof. intros Hp Hd x y Hx Hy. apply Hd; by rewrite <- Hp. Qed.

Lemma heap_before_spec heap i j :
  decides heap -> i < length heap -> j < length heap ->
  (heap_before heap i j = Some true /\ edge heap i j) \/
  (heap_before heap i j = Some false /\ edge heap j i).
Proof.
  intros Hd Hi Hj. unfold heap_before, edge.
  destruct (lookup_lt_is_Some_2 heap i Hi) as [x Hx].
  destruct (lookup_lt_is_Some_2 heap j Hj) as [y Hy]. rewrite Hx, Hy. simpl.
  destruct (Hd x y) as [[-> ?]|[-> ?]];
    [by eapply list_elem_of_lookup_2 | by eapply list_elem_of_lookup_2 | left | right];
    split; try done; intros ? ? ? ?; simplify_eq; done.
Qed.

Lemma edge_swap heap heap' i j k l i' j' :
  heap' !! k = heap !! i' -> heap' !! l = heap !! j' -> i' = i -> j' = j ->
  edge heap i j -> edge heap' k l.
Proof. intros Hk Hl -> -> He x y. rewrite Hk, Hl. apply He. Qed.

(** Every edge holds except those into [i] from its parent. *)
Definition up_inv (heap : list nat) (i : nat) : Prop :=
  (forall k, 0 < k < length heap -> k <> i -> edge heap (par k) k) /\
  (forall k, k < length heap -> 0 < i -> 0 < k -> par k = i -> edge heap (par i) k).

Lemma up_inv_swap heap heap' i :
  0 < i < length heap -> heap' ≡ₚ heap ->
  heap' !! i = heap !! par i -> heap' !! par i = heap !! i ->
  (forall k, k <> i -> k <> par i -> heap' !! k = heap !! k) ->
  edge heap i (par i) -> up_inv heap i -> up_inv heap' (par i).
Proof.
  intros Hi Hp Hs1 Hs2 Hs3 He [H1 H2].
  assert (par i < i) by (unfold par; lia).
  split; intros k Hk; rewrite Hp in Hk.
  - intros Hne. destruct (decide (k = i)) as [->|].
    { by eapply (edge_swap heap). }
    destruct (decide (par k = i)) as [Hpk|].
    { eapply (edge_swap heap _ (par i) k); [by rewrite Hpk | by apply Hs3 | done.. | ].
      apply H2; lia || done. }
    destruct (decide (par k = par i)) as [Hpk|].
    { eapply (edge_swap heap _ i k); [by rewrite Hpk | by apply Hs3 | done.. | ].
      apply edge_trans with (par i); [lia | done |]. rewrite <- Hpk. by apply H1. }
    eapply (edge_swap heap _ (par k) k); [by apply Hs3 | by apply Hs3 | done.. | ].
    by apply H1.
  - intros Hpi Hk0 Hpk.
    assert (par (par i) < par i) by (unfold par in *; lia).
    destruct (decide (k = i)) as [->|].
    { eapply (edge_swap heap _ (par (par i)) (par i)); [by apply Hs3; lia | done | done.. | ].
      apply H1; lia. }
    assert (par k < k) by (unfold par in *; lia).
    eapply (edge_swap heap _ (par (par i)) k);
      [by apply Hs3; lia | by apply Hs3; lia | done.. | ].
    apply edge_trans with (par i); [lia | apply H1; lia |].
    rewrite <- Hpk. apply H1; lia.
Qed.

Lemma sift_up_spec fuel heap i :
  decides heap -> i < length heap -> i <= fuel -> up_inv heap i ->
  exists heap', sift_up_loop fuel heap i = Some heap' /\ heap' ≡ₚ heap /\ heap_ok heap'.
Proof.
  revert heap i; induction fuel as [|fuel IH]; intros heap i Hd Hi Hf Hu; cbn [sift_up_loop].
  { destruct i; [|lia]. cbn. exists heap. split; [done|]. split; [done|].
    intros k Hk. apply Hu; lia. }
  destruct (Nat.ltb_spec 0 i).
  2: { exists heap. split; [done|]. split; [done|]. intros k Hk. apply Hu; lia. }
  change ((i - 1) / 2) with (par i). assert (par i < i) by (unfold par; lia).
  destruct (heap_before_spec heap i (par i)) as [[-> He]|[-> He]]; [done|lia|lia|..]; bind_simpl.
  - destruct (heap_swap_spec heap i (par i)) as (heap' & -> & Hp & Hs1 & Hs2 & Hs3);
      [lia..|]. bind_simpl.
    destruct (IH heap' (par i)) as (h2 & -> & Hp2 & Hok).
    + by apply (decides_perm heap).
    + rewrite Hp. lia.
    + lia.
    + by apply (up_inv_swap heap).
    + exists h2. split; [done|]. split; [by rewrite Hp2|done].
  - exists heap. split; [done|]. split; [done|]. intros k Hk.
    destruct (decide (k = i)) as [->|]; [done|]. by apply Hu.
Qed.

(** Every edge holds except those out of [i]. *)
Definition down_inv (heap : list nat) (i : nat) : Prop :=
  (forall k, 0 < k < length heap -> par k <> i -> edge heap (par k) k) /\
  (forall k, k < length heap -> 0 < i -> 0 < k -> par k = i -> edge heap (par i) k).

Lemma sift_pick_spec heap child best :
  decides heap -> best < length heap ->
  exists b, sift_pick heap (length heap) child best = Some b /\
    (b = best \/ b = child /\ child < length heap) /\
    edge heap b best /\ (child < length heap -> edge heap b child).
Proof.
  intros Hd Hb. unfold sift_pick.
  assert (forall i, i < length heap -> edge heap i i) as Hrefl.
  { intros i Hi x y Hx Hy. replace y with x by congruence.
    apply list_elem_of_lookup_2 in Hx. by destruct (Hd x x) as [[_ ?]|[_ ?]]. }
  destruct (Nat.ltb_spec child (length heap)) as [Hc|Hc].
  - destruct (heap_before_spec heap child best) as [[-> He]|[-> He]]; [done..| |]; bind_simpl.
    + exists child. auto.
    + exists best. auto.
  - exists best. split; [done|]. split; [by left|]. split; [auto|lia].
Qed.

Lemma down_inv_swap heap heap' i b :
  i < b < length heap -> par b = i -> heap' ≡ₚ heap ->
  heap' !! i = heap !! b -> heap' !! b = heap !! i ->
  (forall k, k <> i -> k <> b -> heap' !! k = heap !! k) ->
  edge heap b i -> (forall k, 0 < k < length heap -> par k = i -> edge heap b k) ->
  down_inv heap i -> down_inv heap' b.
Proof.
  intros Hb Hpb Hp Hs1 Hs2 Hs3 He Hch [H1 H2].
  split; intros k Hk; rewrite Hp in Hk.
  - intros Hne. assert (par k < k) by (unfold par; lia).
    destruct (decide (k = i)) as [->|].
    { eapply (edge_swap heap _ (par i) b); [by apply Hs3; lia | done | done.. | ].
      apply H2; lia. }
    destruct (decide (k = b)) as [->|].
    { rewrite Hpb. by apply (edge_swap heap heap' b i i b b i). }
    destruct (decide (par k = i)) as [Hpk|].
    { eapply (edge_swap heap _ b k); [by rewrite Hpk | by apply Hs3 | done.. | ].
      by apply Hch. }
    eapply (edge_swap heap _ (par k) k); [by apply Hs3 | by apply Hs3 | done.. | ].
    by apply H1.
  - intros _ Hk0 Hpk. assert (par k < k) by (unfold par in *; lia). rewrite Hpb.
    eapply (edge_swap heap _ b k); [done | by apply Hs3; lia | done.. | ].
    rewrite <- Hpk. apply H1; lia.
Qed.

Lemma sift_down_spec fuel heap i :
  decides heap -> i < length heap -> length heap - i <= fuel -> down_inv heap i ->
  exists heap', sift_down_loop fuel heap (length heap) i = Some heap' /\
                heap' ≡ₚ heap /\ heap_ok heap'.
Proof.
  revert heap i; induction fuel as [|fuel IH]; intros heap i Hd Hi Hf Hdn; [lia|].
  cbn [sift_down_loop].
  destruct (sift_pick_spec heap (i * 2 + 1) i) as (b1 & -> & Hb1 & He1 & Hl1); [done..|].
  bind_simpl.
  destruct (sift_pick_spec heap (i * 2 + 1 + 1) b1) as (b2 & -> & Hb2 & He2 & Hl2);
    [done | lia|]. bind_simpl.
  assert (b1 < length heap) as Hb1l by lia.
  assert (edge heap b2 i) as Hbi by (by apply edge_trans with b1).
  assert (forall k, 0 < k < length heap -> par k = i -> edge heap b2 k) as Hch.
  { intros k Hk Hpk.
    assert (k = i * 2 + 1 \/ k = i * 2 + 1 + 1) as [->| ->] by (unfold par in Hpk; lia).
    - apply edge_trans with b1; [done..|]. apply Hl1. lia.
    - apply Hl2. lia. }
  destruct (Nat.eqb_spec b2 i) as [->|Hne].
  - exists heap. split; [done|]. split; [done|]. intros k Hk.
    destruct (decide (par k = i)) as [<-|]; [by apply Hch | by apply Hdn].
  - assert (i < b2 < length heap) by lia. assert (par b2 = i) by (unfold par; lia).
    destruct (heap_swap_spec heap i b2) as (heap' & -> & Hp & Hs1 & Hs2 & Hs3); [lia..|].
    bind_simpl. replace (length heap) with (length heap') by (by rewrite Hp).
    destruct (IH heap' b2) as (h2 & -> & Hp2 & Hok).
    + by apply (decides_perm heap).
    + rewrite Hp. lia.
    + rewrite Hp. lia.
    + by apply (down_inv_swap heap heap' i b2).
    + exists h2. split; [done|]. split; [by rewrite Hp2|done].
Qed.

(** The root of a heap precedes every entry. *)
Lemma heap_root heap : decides heap -> heap_ok heap ->
  forall k, k < length heap -> edge heap 0 k.
Proof.
  intros Hd Hok k. induction k as [k IH] using lt_wf_ind. intros Hk.
  destruct k as [|k].
  - intros x y Hx Hy. replace y with x by congruence. apply list_elem_of_lookup_2 in Hx.
    by destruct (Hd x x) as [[_ ?]|[_ ?]].
  - assert (par (S k) < S k) by (unfold par; lia).
    apply edge_trans with (par (S k)); [lia | apply IH; lia | apply Hok; lia].
Qed.
End heap.
