(* ===== verification/TagSort.v ===== *)
(** The external merge sort of src/library/tagcache_sort.h.

    A file is the sequence of its [record_size]-byte records: the byte offset
    [index * record_size] of the C code is the record index. Every system call
    may fail: the state carries the outcomes of the calls to come. *)
From Stdlib Require Import ZifyNat.
From stdpp Require Import sorting.
From S2P Require Import Prelude StableSort TagSortHeap.
Local Open Scope Z_scope.

(** ** Byte-level transfers and offset arithmetic *)

(** What one [pread]/[pwrite] does: [n] bytes (capped by the request), end of
    file, [EINTR], or another error. *)
Inductive xfer := XBytes (n : Z) | XEof | XEintr | XError.

(** The loop of [tc_sort_io_read] against the outcomes of its [pread]s, from
    the byte offset [off] of the file [fd]; [None] is [return false]. A call
    that asks for bytes past the end of the file gets those that are there. *)
Fixpoint tc_sort_io_read (outcomes : list xfer) (fd : list Z) (len off : Z)
    : option (list Z) :=
  if len =? 0 then Some [] else
  match outcomes with
  | [] => None
  | XEintr :: rest => tc_sort_io_read rest fd len off
  | XError :: _ | XEof :: _ => None
  | XBytes n :: rest =>
      let got := take (Z.to_nat (Z.min (Z.max 1 n) len)) (drop (Z.to_nat off) fd) in
      if (length got =? 0)%nat then None
      else
        let n := Z.of_nat (length got) in
        more ← tc_sort_io_read rest fd (len - n) (off + n); Some (got ++ more)
  end.

(** A write at a byte offset; a gap past the end of the file reads as NULs. *)
Definition pwrite_at {A} (hole : A) (fd : list A) (off : nat) (buf : list A) : list A :=
  take off (fd ++ replicate (off - length fd) hole) ++ buf ++ drop (off + length buf) fd.

(** The loop of [tc_sort_io_write] likewise; the file is returned even when
    the call fails half-way. *)
Fixpoint tc_sort_io_write (outcomes : list xfer) (fd buf : list Z) (off : Z)
    : bool * list Z :=
  if (length buf =? 0)%nat then (true, fd) else
  match outcomes with
  | [] => (false, fd)
  | XEintr :: rest => tc_sort_io_write rest fd buf off
  | XError :: _ | XEof :: _ => (false, fd)
  | XBytes n :: rest =>
      let n := Z.min (Z.max 1 n) (Z.of_nat (length buf)) in
      let fd := pwrite_at 0 fd (Z.to_nat off) (take (Z.to_nat n) buf) in
      tc_sort_io_write rest fd (drop (Z.to_nat n) buf) (off + n)
  end.

Definition INT64_MAX : Z := 9223372036854775807.

(** [tc_sort_mul_off]; [off_t] has 64 bits, so the last cast is exact. *)
Definition tc_sort_mul_off (a b : Z) : option Z :=
  if (a <? 0) || (b =? 0) then None
  else if a =? 0 then Some 0
  else if (INT64_MAX <? b) || (INT64_MAX / b <? a) then None
  else Some (a * b).

(** ** Fan-in and pass count *)
Fixpoint power_loop (n : nat) (value base target : Z) : bool :=
  match n with
  | O => target <=? value
  | S n => if target / base <? value then true else power_loop n (value * base) base target
  end.
Definition tc_sort_power_reaches (base : Z) (exponent : nat) (target : Z) : bool :=
  power_loop exponent 1 base target.

(** [while (!tc_sort_power_reaches(fan_cap, passes, run_count)) passes++] *)
Fixpoint count_passes (fuel : nat) (fan_cap : Z) (passes : nat) (run_count : Z)
    : option nat :=
  if tc_sort_power_reaches fan_cap passes run_count then Some passes
  else match fuel with
  | O => None
  | S fuel => count_passes fuel fan_cap (S passes) run_count
  end.
(** [for (fan_in = 2; fan_in <= fan_cap; fan_in++) if (reaches) break;] with
    [fuel = fan_cap - fan_in + 1] rounds left. *)
Fixpoint find_fan_in (fuel : nat) (fan_in : Z) (passes : nat) (run_count : Z)
    : option Z :=
  match fuel with
  | O => None
  | S fuel =>
      if tc_sort_power_reaches fan_in passes run_count then Some fan_in
      else find_fan_in fuel (fan_in + 1) passes run_count
  end.

Definition TC_SORT_BUFFER_BYTES : Z := 262144.
Definition TC_SORT_MERGE_BYTES : Z := 32768.
Definition TC_SORT_OUTPUT_BYTES : Z := 65536.
Definition TC_SORT_LARGE_TOTAL_BYTES : Z := 2097152.
Definition TC_SORT_LARGE_MERGE_BYTES : Z := 131072.
Definition TC_SORT_LARGE_OUTPUT_BYTES : Z := 262144.
Definition TC_SORT_MAX_FAN_IN : Z := 16.

Record sort_plan := {
  p_run_cap : Z; p_out_cap : Z; p_input_cap : Z; p_fan_in : Z; p_passes : nat }.

(** The sizes [tc_sort_fd] computes before it touches a file; [None] is a
    [goto done] with [ok] false. *)
Definition tc_sort_plan (large : bool) (record_size count : Z) : option sort_plan :=
  let budget := if large then TC_SORT_LARGE_TOTAL_BYTES else TC_SORT_BUFFER_BYTES in
  if (if large then TC_SORT_LARGE_MERGE_BYTES else TC_SORT_MERGE_BYTES) / record_size =? 0
  then None else
  let run_cap := budget / 2 / record_size in
  let out_cap :=
    (if large then TC_SORT_LARGE_OUTPUT_BYTES else TC_SORT_OUTPUT_BYTES) / record_size in
  if (run_cap =? 0) || (out_cap =? 0) then None else
  let out_bytes := out_cap * record_size in
  let input_records := (budget - out_bytes) / record_size in
  if input_records <? 2 then None else
  let run_count := count / run_cap + (if count mod run_cap =? 0 then 0 else 1) in
  if 1 <? run_count then
    let preferred := 4096 / record_size + (if 4096 mod record_size =? 0 then 0 else 1) in
    let preferred := if preferred <? 4 then 4 else preferred in
    let fan_cap := input_records / preferred in
    let fan_cap := if fan_cap <? 2 then input_records else fan_cap in
    let fan_cap := if TC_SORT_MAX_FAN_IN <? fan_cap then TC_SORT_MAX_FAN_IN else fan_cap in
    let fan_cap := if run_count <? fan_cap then run_count else fan_cap in
    if fan_cap <? 2 then None else
    passes ← count_passes 64 fan_cap 0 run_count;
    fan_in ← find_fan_in (Z.to_nat (fan_cap - 1)) 2 passes run_count;
    let input_cap := input_records / fan_in in
    if input_cap =? 0 then None else
    Some {| p_run_cap := run_cap; p_out_cap := out_cap; p_input_cap := input_cap;
            p_fan_in := fan_in; p_passes := passes |}
  else
    Some {| p_run_cap := run_cap; p_out_cap := out_cap; p_input_cap := 0;
            p_fan_in := 0; p_passes := 0%nat |}.

Definition slice {A} (l : list A) (i j : nat) : list A := take (j - i) (drop i l).

(** ** The sort of one run in memory *)
Section sort.
Context {A : Type} (cmp : A -> A -> Z) (hole : A).
Local Open Scope nat_scope.

(** One pass of [tc_sort_stable_runsort] from the run at [start]: what it
    leaves in [tmp] from there on. *)
Fixpoint run_pass (fuel : nat) (a : list A) (n width start : nat) : list A :=
  match fuel with
  | O => []
  | S fuel =>
      if start <? n then
        let mid := if start + width <? n then start + width else n in
        let end_ := if mid + width <? n then mid + width else n in
        merge cmp (slice a start mid) (slice a mid end_) ++
        run_pass fuel a n width (start + width * 2)
      else []
  end.
Fixpoint runsort_loop (fuel : nat) (a : list A) (n width : nat) : list A :=
  match fuel with
  | O => a
  | S fuel =>
      if width <? n then
        let a := run_pass n a n width 0 in
        if n / 2 <? width then a else runsort_loop fuel a n (width * 2)
      else a
  end.
Definition tc_sort_stable_runsort (a : list A) : list A :=
  runsort_loop (length a) a (length a) 1.

(** ** Files and faults *)
Record files := { f_main : list A; f_scratch : list A; f_faults : list bool }.
(** [true] is [fd], [false] is [scratch_fd]. *)
Definition get (fd : bool) (s : files) : list A :=
  if fd then f_main s else f_scratch s.
Definition put (fd : bool) (l : list A) (s : files) : files :=
  if fd then {| f_main := l; f_scratch := f_scratch s; f_faults := f_faults s |}
  else {| f_main := f_main s; f_scratch := l; f_faults := f_faults s |}.

(** The next call's outcome; a list that ran out has no more faults. *)
Definition io_step (s : files) : option files :=
  match f_faults s with
  | [] => Some s
  | true :: _ => None
  | false :: t => Some {| f_main := f_main s; f_scratch := f_scratch s; f_faults := t |}
  end.

Context (record_size : Z).
(** A byte offset as a record index. *)
Definition rec_at (off : Z) : nat := Z.to_nat (off / record_size).

Definition io_read (fd : bool) (n : nat) (off : Z) (s : files)
    : option (list A * files) :=
  if n =? 0 then Some ([], s) else
  s ← io_step s;
  let data := slice (get fd s) (rec_at off) (rec_at off + n) in
  if length data =? n then Some (data, s) else None.
Definition io_write (fd : bool) (buf : list A) (off : Z) (s : files) : option files :=
  if length buf =? 0 then Some s else
  s ← io_step s; Some (put fd (pwrite_at hole (get fd s) (rec_at off) buf) s).
Definition io_truncate (fd : bool) (n : nat) (s : files) : option files :=
  s ← io_step s; Some (put fd (resize n hole (get fd s)) s).

(** ** Buffered readers *)
Record reader := {
  r_fd : bool; r_buf : list A; r_cap : nat; r_pos : nat; r_have : nat;
  r_next : nat; r_end : nat }.

Definition tc_sort_reader_fill (r : reader) (s : files) : option (reader * files) :=
  if r_end r <=? r_next r then
    Some ({| r_fd := r_fd r; r_buf := r_buf r; r_cap := r_cap r; r_pos := 0;
             r_have := 0; r_next := r_next r; r_end := r_end r |}, s)
  else
    let want := r_end r - r_next r in
    let want := if r_cap r <? want then r_cap r else want in
    off ← tc_sort_mul_off (Z.of_nat (r_next r)) record_size;
    '(data, s) ← io_read (r_fd r) want off s;
    Some ({| r_fd := r_fd r; r_buf := data; r_cap := r_cap r; r_pos := 0;
             r_have := want; r_next := r_next r + want; r_end := r_end r |}, s).

(** [tc_sort_reader_record]; [None] past the records the buffer has. *)
Definition tc_sort_reader_record (r : reader) : option A :=
  if r_pos r <? r_have r then r_buf r !! r_pos r else None.

Definition tc_sort_reader_advance (r : reader) (s : files) : option (reader * files) :=
  let r := {| r_fd := r_fd r; r_buf := r_buf r; r_cap := r_cap r; r_pos := S (r_pos r);
              r_have := r_have r; r_next := r_next r; r_end := r_end r |} in
  if r_pos r =? r_have r then tc_sort_reader_fill r s else Some (r, s).

(** ** The k-way merge *)
Definition reader_before (readers : list reader) (x y : nat) : option bool :=
  rx ← readers !! x; ry ← readers !! y;
  a ← tc_sort_reader_record rx; b ← tc_sort_reader_record ry;
  let c := cmp a b in Some ((c <? 0)%Z || ((c =? 0)%Z && (x <? y))).

(** The readers opened for one group, from run [i] of [fan_in]. *)
Fixpoint open_group (todo i : nat) (in_fd : bool) (count run_len cap group_start : nat)
    (readers : list reader) (heap : list nat) (s : files)
    : option (nat * list reader * list nat * files) :=
  match todo with
  | O => Some (group_start, readers, heap, s)
  | S todo =>
      if group_start <? count then
        let n := count - group_start in
        let n := if run_len <? n then run_len else n in
        '(r, s) ← tc_sort_reader_fill
          {| r_fd := in_fd; r_buf := []; r_cap := cap; r_pos := 0; r_have := 0;
             r_next := group_start; r_end := group_start + n |} s;
        let readers := readers ++ [r] in
        heap ← (if r_pos r <? r_have r then
                  tc_sort_heap_sift_up (reader_before readers) (heap ++ [i]) (length heap)
                else Some heap);
        open_group todo (S i) in_fd count run_len cap (group_start + n) readers heap s
      else Some (group_start, readers, heap, s)
  end.

Record outbuf := { o_buf : list A; o_record : nat }.

(** [if (out_used == out_cap) { write; out_record += out_used; out_used = 0; }] *)
Definition flush (out_fd : bool) (o : outbuf) (s : files) : option (outbuf * files) :=
  off ← tc_sort_mul_off (Z.of_nat (o_record o)) record_size;
  s ← io_write out_fd (o_buf o) off s;
  Some ({| o_buf := []; o_record := o_record o + length (o_buf o) |}, s).

(** The loop [while (heap_count != 0)] of [tc_sort_merge_pass]. *)
Fixpoint emit_loop (fuel : nat) (out_fd : bool) (out_cap : nat)
    (readers : list reader) (heap : list nat) (o : outbuf) (s : files)
    : option (outbuf * files) :=
  match heap with
  | [] => Some (o, s)
  | chosen_index :: _ =>
      match fuel with
      | O => None
      | S fuel =>
          r ← readers !! chosen_index;
          chosen ← tc_sort_reader_record r;
          let o := {| o_buf := o_buf o ++ [chosen]; o_record := o_record o |} in
          '(r, s) ← tc_sort_reader_advance r s;
          let readers := <[chosen_index := r]> readers in
          heap ← (if r_pos r =? r_have r then
                    let heap_count := length heap - 1 in
                    if heap_count =? 0 then Some []
                    else last ← heap !! heap_count; Some (<[0:=last]> (take heap_count heap))
                  else Some heap);
          heap ← (if length heap =? 0 then Some []
                  else tc_sort_heap_sift_down (reader_before readers) heap (length heap) 0);
          '(o, s) ← (if length (o_buf o) =? out_cap then flush out_fd o s else Some (o, s));
          emit_loop fuel out_fd out_cap readers heap o s
      end
  end.

(** The outer loop of [tc_sort_merge_pass]; every round takes a run. *)
Fixpoint merge_groups (fuel : nat) (in_fd out_fd : bool) (count run_len cap fan_in out_cap : nat)
    (group_start : nat) (o : outbuf) (s : files) : option (outbuf * files) :=
  if group_start <? count then
    match fuel with
    | O => None
    | S fuel =>
        '(group_start, readers, heap, s) ←
          open_group fan_in 0 in_fd count run_len cap group_start [] [] s;
        '(o, s) ← emit_loop count out_fd out_cap readers heap o s;
        merge_groups fuel in_fd out_fd count run_len cap fan_in out_cap group_start o s
    end
  else Some (o, s).

Definition tc_sort_merge_pass (in_fd out_fd : bool) (count run_len cap fan_in out_cap : nat)
    (s : files) : option files :=
  '(o, s) ← merge_groups count in_fd out_fd count run_len cap fan_in out_cap 0
              {| o_buf := []; o_record := 0 |} s;
  if length (o_buf o) =? 0 then Some s
  else '(_, s) ← flush out_fd o s; Some s.

(** ** The driver *)

(** [for (at = 0; at < count;)]: the runs, sorted one by one into [run_fd]. *)
Fixpoint form_runs (fuel : nat) (run_fd : bool) (count run_cap at_ : nat) (s : files)
    : option files :=
  if at_ <? count then
    match fuel with
    | O => None
    | S fuel =>
        let n := count - at_ in
        let n := if run_cap <? n then run_cap else n in
        off ← tc_sort_mul_off (Z.of_nat at_) record_size;
        '(run, s) ← io_read true n off s;
        s ← io_write run_fd (tc_sort_stable_runsort run) off s;
        form_runs fuel run_fd count run_cap (at_ + n) s
    end
  else Some s.

(** [for (pass = 0; pass < passes; pass++)], with the descriptors swapped
    after each pass; the result says which file holds the records. *)
Fixpoint merge_passes (passes : nat) (in_fd : bool) (count run_len cap fan_in out_cap : nat)
    (s : files) : option (bool * files) :=
  match passes with
  | O => Some (in_fd, s)
  | S passes =>
      let out_fd := negb in_fd in
      s ← io_truncate out_fd 0 s;
      s ← tc_sort_merge_pass in_fd out_fd count run_len cap fan_in out_cap s;
      let run_len := if count / fan_in <? run_len then count else run_len * fan_in in
      merge_passes passes out_fd count run_len cap fan_in out_cap s
  end.

(** [tc_sort_fd]: [want_large] is the environment and free-memory test,
    [malloc_large] and [malloc_small] whether the two allocations succeed,
    and [same_fd] the test [fd == scratch_fd]. [None] is [return false]. *)
Definition tc_sort_fd (want_large malloc_large malloc_small same_fd : bool)
    (count : Z) (s : files) : option files :=
  if (record_size =? 0)%Z || (count <? 0)%Z || same_fd then None else
  _ ← tc_sort_mul_off count record_size;
  large ← (if want_large then
             if malloc_large then Some true else if malloc_small then Some false else None
           else if malloc_small then Some false else None);
  plan ← tc_sort_plan large record_size count;
  if (count =? 0)%Z then io_truncate true 0 s else
  let n := Z.to_nat count in
  let run_cap := Z.to_nat (p_run_cap plan) in
  let run_fd := negb (Nat.odd (p_passes plan)) in
  s ← (if run_fd then Some s else io_truncate run_fd 0 s);
  s ← form_runs n run_fd n run_cap 0 s;
  '(in_fd, s) ← merge_passes (p_passes plan) run_fd n run_cap (Z.to_nat (p_input_cap plan))
                  (Z.to_nat (p_fan_in plan)) (Z.to_nat (p_out_cap plan)) s;
  if (in_fd : bool) then io_truncate true n s else None.
End sort.
