(* ===== verification/TagSortProofs.v ===== *)
(** The external merge sort computes the stable sort: in-memory runs, buffered
    readers, the k-way merge and the driver of TagSort.v, up to I/O faults. *)
From Stdlib Require Import ZifyNat.
From stdpp Require Import sorting.
From S2P Require Import Prelude StableSort TagSortHeap TagSort.
Local Open Scope Z_scope.

(** ** Partial transfers *)
Lemma slice_split {A} (l : list A) i k n :
  (k <= n)%nat -> slice l i (i + n) = slice l i (i + k) ++ slice l (i + k) (i + n).
Proof.
  intros H. unfold slice. rewrite <- drop_drop.
  replace (i + n - i)%nat with (k + (i + n - (i + k)))%nat by lia.
  replace (i + k - i)%nat with k by lia. by rewrite take_take_drop.
Qed.
Lemma slice_length {A} (l : list A) i j :
  (j <= length l)%nat -> length (slice l i j) = (j - i)%nat.
Proof. intros. unfold slice. rewrite length_take, length_drop. lia. Qed.
Lemma slice_nil {A} (l : list A) i j : (j <= i)%nat -> slice l i j = [].
Proof. intros. unfold slice. by replace (j - i)%nat with 0%nat by lia. Qed.
Lemma slice_all {A} (l : list A) i j : (length l <= j)%nat -> slice l i j = drop i l.
Proof. intros. unfold slice. apply take_ge. rewrite length_drop. lia. Qed.

Lemma slice_drop {A} (l : list A) i j k : drop k (slice l i j) = slice l (i + k) j.
Proof.
  unfold slice. destruct (decide (k <= j - i)%nat).
  - replace (j - i)%nat with (k + (j - (i + k)))%nat by lia.
    by rewrite <- take_drop_commute, drop_drop.
  - rewrite drop_ge by (rewrite length_take; lia).
    by replace (j - (i + k))%nat with 0%nat by lia.
Qed.
Lemma slice_app {A} (l : list A) i j k :
  (i <= j <= k)%nat -> slice l i k = slice l i j ++ slice l j k.
Proof.
  intros H. pose proof (slice_split l i (j - i) (k - i)) as Hs.
  replace (i + (k - i))%nat with k in Hs by lia.
  replace (i + (j - i))%nat with j in Hs by lia. apply Hs. lia.
Qed.

(** [pwrite_at] inside or at the end of the file. *)
Lemma pwrite_at_end {A} (hole : A) fd buf : pwrite_at hole fd (length fd) buf = fd ++ buf.
Proof.
  unfold pwrite_at. rewrite Nat.sub_diag, app_nil_r, firstn_all, drop_ge by lia.
  by rewrite app_nil_r.
Qed.
Lemma pwrite_at_in {A} (hole : A) fd off buf :
  (off <= length fd)%nat ->
  pwrite_at hole fd off buf = take off fd ++ buf ++ drop (off + length buf) fd.
Proof. intros. unfold pwrite_at. rewrite take_app_le by lia. done. Qed.

Lemma pwrite_at_app {A} (hole : A) fd off b1 b2 :
  pwrite_at hole (pwrite_at hole fd off b1) (off + length b1) b2 =
    pwrite_at hole fd off (b1 ++ b2).
Proof.
  unfold pwrite_at.
  set (pre := take off (fd ++ replicate (off - length fd) hole)).
  assert (length pre = off) as Hp.
  { unfold pre. rewrite length_take, length_app, length_replicate. lia. }
  rewrite !length_app, Hp, length_drop.
  replace (off + length b1 - (off + (length b1 + (length fd - (off + length b1)))))%nat
    with 0%nat by lia.
  rewrite app_nil_r. rewrite (app_assoc pre b1) at 1.
  rewrite take_app_length' by (rewrite length_app; lia).
  rewrite drop_app_ge by lia. rewrite Hp.
  rewrite drop_app_ge by lia. rewrite drop_drop, <- !app_assoc.
  do 3 f_equal. f_equal. lia.
Qed.

Lemma pwrite_at_nil {A} (hole : A) fd off :
  (off <= length fd)%nat -> pwrite_at hole fd off [] = fd.
Proof. intros. rewrite pwrite_at_in by done. simpl. rewrite Nat.add_0_r. apply take_drop. Qed.
Lemma pwrite_at_length {A} (hole : A) fd off buf :
  (off + length buf <= length (pwrite_at hole fd off buf))%nat.
Proof.
  unfold pwrite_at. rewrite !length_app, length_take, length_app, length_replicate. lia.
Qed.

(** Partial transfers and interrupted calls: when [tc_sort_io_read]
    succeeds it has read exactly the requested bytes of the file, and when
    [tc_sort_io_write] succeeds the file holds exactly one whole write. *)
Theorem tc_sort_io_complete outcomes fd len off buf :
  0 <= len -> 0 <= off ->
  (forall data, tc_sort_io_read outcomes fd len off = Some data ->
     data = slice fd (Z.to_nat off) (Z.to_nat (off + len)) /\ Z.of_nat (length data) = len) /\
  (fst (tc_sort_io_write outcomes fd buf off) = true ->
     snd (tc_sort_io_write outcomes fd buf off) =
       if decide (buf = []) then fd else pwrite_at 0 fd (Z.to_nat off) buf).
Proof.
  intros Hlen Hoff. split.
  - revert len off Hlen Hoff.
    induction outcomes as [|x outcomes IH]; intros len off Hlen Hoff data; cbn [tc_sort_io_read].
    { destruct (Z.eqb_spec len 0) as [->|]; [|done]. intros [=<-].
      rewrite slice_nil by lia. done. }
    destruct (Z.eqb_spec len 0) as [->|]; [intros [=<-]; rewrite slice_nil by lia; done|].
    destruct x as [sz| | |]; [|done|by apply IH|done].
    set (got := take _ _).
    destruct (Nat.eqb_spec (length got) 0); [done|].
    assert (length got <= Z.to_nat len)%nat as Hgl by (unfold got; rewrite length_take; lia).
    assert (got = slice fd (Z.to_nat off) (Z.to_nat off + length got)) as Hg.
    { unfold slice. rewrite Nat.add_comm, Nat.add_sub. unfold got. rewrite length_take.
      set (l := drop _ _). destruct (decide (Z.to_nat (Z.min (Z.max 1 sz) len) <= length l)%nat).
      - by rewrite Nat.min_l.
      - by rewrite Nat.min_r, !take_ge by lia. }
    destruct (tc_sort_io_read _ _ _ _) as [more|] eqn:E; [|done]. intros [=<-].
    apply IH in E as [-> Hl]; [|lia|lia]. split.
    + rewrite Hg at 1. replace (Z.to_nat (off + len)) with (Z.to_nat off + Z.to_nat len)%nat by lia.
      rewrite (slice_split fd (Z.to_nat off) (length got) (Z.to_nat len)) by lia.
      do 2 f_equal; lia.
    + rewrite length_app. lia.
  - revert buf fd off Hoff.
    induction outcomes as [|x outcomes IH]; intros buf fd off Hoff; cbn [tc_sort_io_write].
    { destruct buf; done. }
    destruct (decide (buf = [])) as [->|Hne]; [done|].
    destruct (Nat.eqb_spec (length buf) 0); [by destruct buf|].
    destruct x as [sz| | |]; [|done| |done].
    + set (m := Z.min _ _). intros H. rewrite IH; [|lia|done].
      pose proof (take_drop (Z.to_nat m) buf) as Hb. case_decide as Hd.
      { rewrite Hd, app_nil_r in Hb. by rewrite Hb. }
      rewrite <- Hb at 3. rewrite <- pwrite_at_app, length_take. f_equal. lia.
    + intros H. rewrite IH by done. by rewrite decide_False.
Qed.

Lemma tc_sort_io_complete_witness :
  tc_sort_io_read [XBytes 2; XEintr; XBytes 9] [1; 2; 3; 4; 5; 6] 4 1 = Some [2; 3; 4; 5] /\
  Z.of_nat (length [2; 3; 4; 5]) = 4.
Proof.
  assert (tc_sort_io_read [XBytes 2; XEintr; XBytes 9] [1; 2; 3; 4; 5; 6] 4 1 = Some [2; 3; 4; 5])
    as E by reflexivity.
  split; [exact E|].
  exact (proj2 (proj1 (tc_sort_io_complete [XBytes 2; XEintr; XBytes 9] [1; 2; 3; 4; 5; 6] 4 1 []
    ltac:(lia) ltac:(lia)) [2; 3; 4; 5] E)).
Defined.

(** ** Runs *)
Section runs.
Context {A : Type} (cmp : A -> A -> Z) `{!CmpOrder cmp}.
Local Open Scope nat_scope.

(** [l] is a sequence of sorted runs of [w] records, the last one perhaps
    shorter. *)
Inductive runs (w : nat) : list A -> Prop :=
| runs_nil : runs w []
| runs_cons l : l <> [] -> StronglySorted (cle cmp) (take w l) -> runs w (drop w l) ->
                runs w l.

Definition same_classes (l l' : list A) : Prop := forall x, class cmp x l' = class cmp x l.

Lemma same_classes_refl l : same_classes l l.
Proof. done. Qed.
Lemma same_classes_trans l1 l2 l3 :
  same_classes l1 l2 -> same_classes l2 l3 -> same_classes l1 l3.
Proof. intros H1 H2 x. by rewrite H2, H1. Qed.
Lemma same_classes_app l1 l2 k1 k2 :
  same_classes l1 k1 -> same_classes l2 k2 -> same_classes (l1 ++ l2) (k1 ++ k2).
Proof. intros H1 H2 x. by rewrite !class_app, H1, H2. Qed.
Lemma same_classes_isort l : same_classes l (isort cmp l).
Proof. exact (proj2 (isort_spec cmp l)). Qed.

Lemma runs_app w m r :
  m <> [] -> StronglySorted (cle cmp) m -> runs w r ->
  length m = w \/ (length m <= w /\ r = []) -> runs w (m ++ r).
Proof.
  intros Hm Hs Hr Hl. apply runs_cons; [by destruct m| |]; destruct Hl as [Hl|[Hl ->]].
  - by rewrite take_app_length'.
  - by rewrite app_nil_r, take_ge.
  - by rewrite drop_app_length'.
  - rewrite app_nil_r, drop_ge by done. constructor.
Qed.

Lemma runs_take w l : runs w l -> StronglySorted (cle cmp) (take w l).
Proof. destruct 1; [rewrite take_nil; constructor | done]. Qed.
Lemma runs_drop w l : runs w l -> runs w (drop w l).
Proof. destruct 1; [rewrite drop_nil; constructor | done]. Qed.
Lemma runs_sorted w l : runs w l -> length l <= w -> StronglySorted (cle cmp) l.
Proof. intros H Hl. rewrite <- (take_ge l w) by done. by apply runs_take. Qed.

Lemma runs_one l : 0 < 1 -> runs 1 l.
Proof.
  intros _. induction l as [|x l IH]; [constructor|].
  apply (runs_app 1 [x] l); [done| |done|by left]. repeat constructor.
Qed.

Lemma run_pass_spec fuel a w start :
  0 < w -> length a - start <= fuel -> runs w (drop start a) ->
  let o := run_pass cmp fuel a (length a) w start in
  runs (w * 2) o /\ same_classes (drop start a) o /\ length o = length a - start.
Proof.
  intros Hw. revert start; induction fuel as [|fuel IH]; intros start Hf Hr; cbn zeta;
    cbn [run_pass].
  { rewrite drop_ge by lia. split; [constructor|]. split; [done|simpl; lia]. }
  destruct (Nat.ltb_spec start (length a)) as [Hs|Hs].
  2: { rewrite drop_ge by lia. split; [constructor|]. split; [done|simpl; lia]. }
  set (mid := if start + w <? length a then start + w else length a).
  set (end_ := if mid + w <? length a then mid + w else length a).
  assert (mid = Nat.min (start + w) (length a)) as Hmid
    by (unfold mid; destruct (Nat.ltb_spec (start + w) (length a)); lia).
  assert (end_ = Nat.min (mid + w) (length a)) as Hend
    by (unfold end_; destruct (Nat.ltb_spec (mid + w) (length a)); lia).
  clearbody mid end_. set (l := drop start a) in *.
  assert (length l = length a - start) as Hl by apply length_drop.
  assert (slice a start mid = take w l) as ->.
  { unfold slice. fold l. destruct (decide (start + w <= length a)).
    - f_equal. lia.
    - by rewrite !take_ge by lia. }
  assert (slice a mid end_ = take w (drop w l)) as ->.
  { unfold slice. unfold l at 1. rewrite drop_drop.
    destruct (decide (start + w <= length a)).
    - replace (start + w) with mid by lia.
      destruct (decide (mid + w <= length a)); [f_equal; lia|].
      by rewrite !take_ge by (rewrite length_drop; lia).
    - rewrite !drop_ge by lia. by rewrite !take_nil. }
  destruct (IH (start + w * 2)) as (Hr' & Hc & Hlo); [lia| |].
  { replace (drop (start + w * 2) a) with (drop w (drop w l))
      by (unfold l; rewrite !drop_drop; f_equal; lia).
    by do 2 apply runs_drop. }
  set (o := run_pass cmp fuel a (length a) w (start + w * 2)) in *.
  assert (length (merge cmp (take w l) (take w (drop w l))) = Nat.min (w * 2) (length l)) as Hlm.
  { rewrite merge_perm, length_app, !length_take, length_drop. lia. }
  split; [|split].
  - apply runs_app; [| | done |].
    + intros E. apply (f_equal length) in E. rewrite Hlm in E. simpl in E. lia.
    + apply merge_sorted; [done|by apply runs_take|]. by apply runs_take, runs_drop.
    + destruct (decide (w * 2 <= length l)); [left; lia|right; split; [lia|]].
      apply length_zero_iff_nil. lia.
  - eapply same_classes_trans;
      [|apply same_classes_app; [apply same_classes_refl | exact Hc]].
    intros x. rewrite class_app, merge_class by
      first [done | by apply runs_take | by apply runs_take, runs_drop].
    rewrite <- !class_app. f_equal.
    replace (drop (start + w * 2) a) with (drop w (drop w l))
      by (unfold l; rewrite !drop_drop; f_equal; lia).
    by rewrite <- app_assoc, !take_drop.
  - rewrite length_app, Hlm, Hlo. lia.
Qed.

Lemma runsort_loop_spec fuel a w :
  0 < w -> length a - w < fuel -> runs w a ->
  let o := runsort_loop cmp fuel a (length a) w in stable_sorted cmp a o.
Proof.
  revert a w; induction fuel as [|fuel IH]; intros a w Hw Hf Hr; [lia|].
  cbn zeta. cbn [runsort_loop].
  destruct (Nat.ltb_spec w (length a)) as [Hl|Hl].
  - destruct (run_pass_spec (length a) a w 0) as (Hr' & Hc & Hlo); [done|lia|done|].
    set (a' := run_pass cmp (length a) a (length a) w 0) in *. simpl in Hc.
    rewrite Nat.sub_0_r in Hlo.
    destruct (Nat.ltb_spec (length a / 2) w) as [Hh|Hh].
    + split; [|done]. apply (runs_sorted (w * 2)); [done|].
      rewrite Hlo. pose proof (Nat.div_mod_eq (length a) 2).
      pose proof (Nat.mod_upper_bound (length a) 2). lia.
    + destruct (IH a' (w * 2)) as [Hs Hc2]; [lia|lia|done|].
      rewrite Hlo in Hs, Hc2. split; [done|]. intros x. by rewrite Hc2, Hc.
  - split; [|done]. by apply (runs_sorted w).
Qed.

(** The in-memory sort is the stable sort. *)
Lemma tc_sort_stable_runsort_isort a : tc_sort_stable_runsort cmp a = isort cmp a.
Proof.
  apply (stable_sorted_isort cmp).
  destruct (decide (length a = 0)) as [E|].
  { apply length_zero_iff_nil in E. subst. split; [constructor|done]. }
  apply runsort_loop_spec; [lia|lia|]. apply runs_one. lia.
Qed.
End runs.

(** ** Outcomes under I/O faults *)
Section outcomes.
Context {A : Type} (cmp : A -> A -> Z) `{!CmpOrder cmp} (hole : A).
Context (rs : Z) (Hrs : (0 < rs)%Z) (N : nat) (Hfit : (Z.of_nat N * rs <= INT64_MAX)%Z).
Local Open Scope nat_scope.

(** From the state [s], [r] is a result satisfying [P], or one of the I/O
    calls still to come was a fault; no fault is forgotten. *)
Definition outcome {B} (st : B -> files (A:=A)) (s : files (A:=A)) (P : B -> Prop)
    (r : option B) : Prop :=
  match r with
  | Some b => P b /\ (true ∈ f_faults (st b) -> true ∈ f_faults s)
  | None => true ∈ f_faults s
  end.

Lemma outcome_ret {B} (st : B -> files) s P b :
  P b -> (true ∈ f_faults (st b) -> true ∈ f_faults s) -> outcome st s P (Some b).
Proof. done. Qed.

Lemma outcome_bind {B C} (st : B -> files) (st' : C -> files) s P Q r k :
  outcome st s P r -> (forall b, P b -> outcome st' (st b) Q (k b)) ->
  outcome st' s Q (r ≫= k).
Proof.
  destruct r as [b|]; simpl; [|done]. intros [HP Hf] Hk. specialize (Hk b HP).
  destruct (k b) as [c|]; simpl in *; [|tauto]. destruct Hk. tauto.
Qed.

Lemma outcome_weaken {B} (st : B -> files) s P Q r :
  outcome st s P r -> (forall b, P b -> Q b) -> outcome st s Q r.
Proof. destruct r; simpl; [|done]. intros [HP Hf] H. auto. Qed.

(** The two files of two states agree. *)
Definition same_data (s s' : files (A:=A)) : Prop :=
  f_main s' = f_main s /\ f_scratch s' = f_scratch s.
Lemma same_data_get fd s s' : same_data s s' -> get fd s' = get fd s.
Proof. intros [H1 H2]. by destruct fd. Qed.

Lemma io_step_outcome s : outcome (fun s => s) s (same_data s) (io_step s).
Proof.
  unfold io_step. destruct (f_faults s) as [|[] t] eqn:E; simpl.
  - by split.
  - rewrite E. left.
  - split; [done|]. rewrite E. by right.
Qed.

Lemma mul_off_ok i :
  i <= N -> tc_sort_mul_off (Z.of_nat i) rs = Some (Z.of_nat i * rs)%Z.
Proof.
  intros Hi. unfold tc_sort_mul_off.
  assert (Z.of_nat i * rs <= INT64_MAX)%Z as Hm by nia.
  destruct (Z.ltb_spec (Z.of_nat i) 0); [lia|].
  destruct (Z.eqb_spec rs 0); [lia|]. simpl.
  destruct (Z.eqb_spec (Z.of_nat i) 0) as [->|]; [done|].
  destruct (Z.ltb_spec INT64_MAX rs); [nia|]. simpl.
  destruct (Z.ltb_spec (INT64_MAX / rs) (Z.of_nat i)) as [Hlt|]; [|done].
  pose proof (Z.div_le_lower_bound INT64_MAX rs (Z.of_nat i) Hrs). lia.
Qed.

Lemma rec_at_ok i : rec_at rs (Z.of_nat i * rs) = i.
Proof. unfold rec_at. rewrite Z.div_mul by lia. lia. Qed.

Lemma io_read_outcome fd n i s :
  i + n <= length (get fd s) ->
  outcome snd s (fun p => p.1 = slice (get fd s) i (i + n) /\ same_data s p.2)
    (io_read rs fd n (Z.of_nat i * rs) s).
Proof.
  intros Hl. unfold io_read. destruct (Nat.eqb_spec n 0) as [->|].
  { simpl. split; [|done]. rewrite slice_nil by lia. by split. }
  eapply outcome_bind; [apply io_step_outcome|]. intros s1 Hs1. simpl.
  rewrite rec_at_ok, (same_data_get fd s s1) by done.
  rewrite slice_length by lia. destruct (Nat.eqb_spec (i + n - i) n); [|lia].
  simpl. auto.
Qed.

Lemma get_put fd l (s : files (A:=A)) : get fd (put fd l s) = l.
Proof. by destruct fd. Qed.
Lemma get_put_ne fd l (s : files (A:=A)) : get (negb fd) (put fd l s) = get (negb fd) s.
Proof. by destruct fd. Qed.
Lemma put_faults fd l (s : files (A:=A)) : f_faults (put fd l s) = f_faults s.
Proof. by destruct fd. Qed.

Definition writes (fd : bool) (l : list A) (s s' : files (A:=A)) : Prop :=
  get fd s' = l /\ get (negb fd) s' = get (negb fd) s.

Lemma io_write_outcome fd buf i s :
  i <= length (get fd s) ->
  outcome (fun s => s) s (writes fd (pwrite_at hole (get fd s) i buf) s)
    (io_write hole rs fd buf (Z.of_nat i * rs) s).
Proof.
  intros Hi. unfold io_write. destruct (Nat.eqb_spec (length buf) 0) as [E|].
  { apply length_zero_iff_nil in E as ->. simpl. split; [|done].
    rewrite pwrite_at_nil by done. by split. }
  eapply outcome_bind; [apply io_step_outcome|]. intros s1 Hs1. simpl.
  rewrite rec_at_ok. split; [|by rewrite put_faults]. split; [rewrite get_put | rewrite get_put_ne];
    by rewrite (same_data_get _ s s1).
Qed.

Lemma io_truncate_outcome fd n s :
  outcome (fun s => s) s (writes fd (resize n hole (get fd s)) s) (io_truncate hole fd n s).
Proof.
  unfold io_truncate. eapply outcome_bind; [apply io_step_outcome|]. intros s1 Hs1. simpl.
  split; [|by rewrite put_faults]. split; [rewrite get_put | rewrite get_put_ne];
    by rewrite (same_data_get _ s s1).
Qed.

(** ** Readers *)
(** The records a reader has still to deliver, from the file contents [F]. *)
Definition rem (F : list A) (r : reader (A:=A)) : list A :=
  slice (r_buf r) (r_pos r) (r_have r) ++ slice F (r_next r) (r_end r).

Record reader_ok (in_fd : bool) (F : list A) (r : reader (A:=A)) : Prop := {
  ro_fd : r_fd r = in_fd;
  ro_cap : 0 < r_cap r;
  ro_end : r_end r <= length F;
  ro_N : r_end r <= N;
  ro_buf : r_have r <= length (r_buf r);
  ro_pos : r_pos r <= r_have r;
  ro_done : r_pos r = r_have r -> r_end r <= r_next r }.

Lemma reader_fill_outcome in_fd r s :
  r_fd r = in_fd -> 0 < r_cap r -> r_end r <= length (get in_fd s) -> r_end r <= N ->
  outcome snd s (fun p => reader_ok in_fd (get in_fd s) p.1 /\
      rem (get in_fd s) p.1 = slice (get in_fd s) (r_next r) (r_end r) /\ same_data s p.2)
    (tc_sort_reader_fill rs r s).
Proof.
  intros Hfd Hcap He HN. unfold tc_sort_reader_fill.
  destruct (Nat.leb_spec (r_end r) (r_next r)) as [Hd|Hd].
  { simpl. split; [|done]. split; [|split; [|done]].
    - split; simpl; done || lia.
    - done. }
  set (want := if r_cap r <? r_end r - r_next r then r_cap r else r_end r - r_next r).
  assert (0 < want <= r_end r - r_next r) as Hw
    by (unfold want; destruct (Nat.ltb_spec (r_cap r) (r_end r - r_next r)); lia).
  assert (want = r_end r - r_next r \/ want <= r_cap r) as Hw2
    by (unfold want; destruct (Nat.ltb_spec (r_cap r) (r_end r - r_next r)); lia).
  rewrite mul_off_ok by lia. bind_simpl. rewrite Hfd.
  eapply outcome_bind; [apply io_read_outcome; lia|]. intros [data s1] [Hdata Hs1]. simpl in *.
  split; [|done]. subst data.
  assert (length (slice (get in_fd s) (r_next r) (r_next r + want)) = want) as Hlen
    by (rewrite slice_length; lia).
  split; [|split; [|done]].
  - split; cbn [fst r_fd r_buf r_cap r_pos r_have r_next r_end]; rewrite ?Hlen; done || lia.
  - unfold rem. cbn [fst r_buf r_pos r_have r_next r_end].
    rewrite (slice_all _ 0) by lia. rewrite drop_0.
    pose proof (slice_split (get in_fd s) (r_next r) want (r_end r - r_next r)) as Hsp.
    replace (r_next r + (r_end r - r_next r)) with (r_end r) in Hsp by lia.
    symmetry. apply Hsp. lia.
Qed.

Lemma reader_rem_nil in_fd F r : reader_ok in_fd F r -> (r_pos r = r_have r <-> rem F r = []).
Proof.
  intros []. unfold rem. split.
  - intros E. rewrite !slice_nil; [done|auto|lia].
  - intros E. apply app_eq_nil in E as [E _]. apply (f_equal length) in E.
    rewrite slice_length in E by done. simpl in E. lia.
Qed.

Lemma slice_cons (l : list A) i j x : l !! i = Some x -> i < j -> slice l i j = x :: slice l (S i) j.
Proof.
  intros Hx Hij. unfold slice. rewrite (drop_S _ x) by done.
  replace (j - i) with (S (j - S i)) by lia. done.
Qed.

Lemma reader_record_ok in_fd F r x t :
  reader_ok in_fd F r -> rem F r = x :: t -> tc_sort_reader_record r = Some x.
Proof.
  intros Hok Hr. pose proof (reader_rem_nil _ _ _ Hok) as Hn. destruct Hok. unfold tc_sort_reader_record.
  destruct (Nat.ltb_spec (r_pos r) (r_have r)) as [H|H].
  - destruct (r_buf r !! r_pos r) as [y|] eqn:E; [|apply lookup_ge_None in E; lia].
    unfold rem in Hr. rewrite (slice_cons _ _ _ y) in Hr by done.
    simpl in Hr. congruence.
  - assert (rem F r = []) as E by (apply Hn; lia). congruence.
Qed.

Lemma reader_advance_outcome in_fd r s x t :
  reader_ok in_fd (get in_fd s) r -> rem (get in_fd s) r = x :: t ->
  outcome snd s (fun p => reader_ok in_fd (get in_fd s) p.1 /\
      rem (get in_fd s) p.1 = t /\ same_data s p.2)
    (tc_sort_reader_advance rs r s).
Proof.
  intros Hok Hr. pose proof (reader_rem_nil _ _ _ Hok) as Hn.
  pose proof (reader_record_ok _ _ _ _ _ Hok Hr) as Hrec.
  unfold tc_sort_reader_record in Hrec.
  destruct (Nat.ltb_spec (r_pos r) (r_have r)) as [Hlt|]; [|done].
  assert (t = slice (r_buf r) (S (r_pos r)) (r_have r) ++
              slice (get in_fd s) (r_next r) (r_end r)) as Ht.
  { unfold rem in Hr. rewrite (slice_cons _ _ _ x) in Hr by done. simpl in Hr. congruence. }
  unfold tc_sort_reader_advance. cbn [r_pos r_have]. destruct Hok.
  destruct (Nat.eqb_spec (S (r_pos r)) (r_have r)) as [E|E].
  - eapply outcome_weaken; [apply (reader_fill_outcome in_fd); done|]. simpl.
    intros [r' s'] (H1 & H2 & H3). split; [done|]. split; [|done].
    rewrite H2, Ht, E. by rewrite (slice_nil (r_buf r)) by lia.
  - simpl. split; [|done]. split; [split; simpl; done || lia|]. split; [|done].
    unfold rem. simpl. done.
Qed.
End outcomes.
