(* ===== verification/TagSortMerge.v ===== *)
(** The k-way merge pass of TagSort.v merges consecutive sorted runs stably. *)
From Stdlib Require Import ZifyNat.
From stdpp Require Import sorting.
From S2P Require Import Prelude StableSort TagSortHeap TagSort TagSortProofs.
Local Open Scope Z_scope.

Section kway.
Context {A : Type} (cmp : A -> A -> Z) `{!CmpOrder cmp} (hole : A).
Local Abbreviation sorted := (StronglySorted (cle cmp)).

(** ** Taking the least head, ties to the first stream *)
Definition head_of (S : list (list A)) (i : nat) : A :=
  match S !! i with Some (x :: _) => x | _ => hole end.
Definition before_le (S : list (list A)) (i j : nat) : Prop :=
  cmp (head_of S i) (head_of S j) < 0 \/
  (cmp (head_of S i) (head_of S j) = 0 /\ (i <= j)%nat).

Lemma before_le_cmp S i j : before_le S i j -> cmp (head_of S i) (head_of S j) <= 0.
Proof. unfold before_le. lia. Qed.

Lemma before_le_trans S i j k : before_le S i j -> before_le S j k -> before_le S i k.
Proof.
  intros H1 H2. pose proof (before_le_cmp _ _ _ H1) as C1.
  pose proof (before_le_cmp _ _ _ H2) as C2.
  pose proof (cmp_le_trans _ _ _ C1 C2) as C3. unfold before_le in *.
  destruct (Z.eq_dec (cmp (head_of S i) (head_of S k)) 0) as [E|]; [|lia].
  destruct (cmp_trans_eq cmp _ _ _ C1 C2 E). lia.
Qed.

Lemma concat_insert (S : list (list A)) i x t :
  S !! i = Some (x :: t) -> x :: concat (<[i:=t]> S) ≡ₚ concat S.
Proof.
  intros H. rewrite (insert_take_drop S i t) by by eapply lookup_lt_Some.
  rewrite <- (take_drop_middle S i _ H) at 3. rewrite !concat_app. simpl.
  by rewrite Permutation_middle.
Qed.

(** The head [x] of stream [i] goes out first when no stream holds a lesser
    head and no earlier stream an equal one. *)
Lemma kway_step S i x t E :
  S !! i = Some (x :: t) -> Forall sorted S ->
  (forall j y u, S !! j = Some (y :: u) -> cmp x y < 0 \/ (cmp x y = 0 /\ (i <= j)%nat)) ->
  stable_sorted cmp (concat (<[i:=t]> S)) E -> stable_sorted cmp (concat S) (x :: E).
Proof.
  intros Hi Hs Hmin HE. pose proof (stable_sorted_perm cmp _ _ HE) as Hp.
  assert (forall z, z ∈ concat S -> cle cmp x z) as Hx.
  { intros z Hz. apply list_elem_of_In, in_concat in Hz as (l & Hl & Hz).
    apply list_elem_of_In, list_elem_of_lookup in Hl as [j Hj].
    destruct l as [|y u]; [done|].
    assert (cle cmp x y) as Hxy by (destruct (Hmin j y u Hj); unfold cle; lia).
    destruct Hz as [<-|Hz]; [done|]. apply (cle_trans cmp x y z); [done|].
    eapply list.Forall_lookup_1 in Hs; [|exact Hj].
    apply StronglySorted_inv in Hs as [_ Hs].
    by apply (proj1 (List.Forall_forall _ _) Hs). }
  destruct HE as [HEs HEc]. split.
  - constructor; [done|]. apply list.Forall_forall. intros z Hz. apply Hx.
    rewrite Hp in Hz. rewrite <- (concat_insert S i x t Hi). by right.
  - intros y. rewrite class_cons, HEc.
    rewrite (insert_take_drop S i t) by by eapply lookup_lt_Some.
    rewrite <- (take_drop_middle S i _ Hi) at 3. rewrite !concat_app. simpl.
    rewrite !class_app, class_cons, !class_app. case_decide as Hxy; [|done].
    enough (class cmp y (concat (take i S)) = []) as -> by done.
    apply (class_above cmp y x); [done|].
    apply list.Forall_forall. intros z Hz.
    apply list_elem_of_In, in_concat in Hz as (l & Hl & Hz).
    apply list_elem_of_In, list_elem_of_lookup in Hl as [j Hj].
    assert (j < i)%nat as Hji.
    { apply lookup_lt_Some in Hj. rewrite length_take in Hj. lia. }
    rewrite lookup_take_lt in Hj by done. destruct l as [|w u]; [done|].
    assert (0 < cmp w x) as Hw by (apply (cmp_gt_lt cmp); destruct (Hmin j w u Hj); lia).
    eapply list.Forall_lookup_1 in Hs; [|exact Hj].
    apply (sorted_above cmp w x u Hw) in Hs.
    by apply (proj1 (List.Forall_forall _ _) Hs).
Qed.
End kway.

(** ** The readers and the heap of one group *)
Section group.
Context {A : Type} (cmp : A -> A -> Z) `{!CmpOrder cmp} (hole : A).
Context (rs : Z) (Hrs : (0 < rs)%Z) (N : nat) (Hfit : (Z.of_nat N * rs <= INT64_MAX)%Z).
Context (in_fd : bool) (F : list A).
Local Open Scope nat_scope.
#[local] Abbreviation sorted := (StronglySorted (cle cmp)).
#[local] Abbreviation streams := (fmap (M:=list) (rem F)).
#[local] Abbreviation ble := (before_le cmp hole).

Record merge_inv (readers : list (reader (A:=A))) (heap : list nat) : Prop := {
  mi_readers : Forall (reader_ok N in_fd F) readers;
  mi_sorted : Forall sorted (streams readers);
  mi_live : forall i, i ∈ heap <-> exists x t, streams readers !! i = Some (x :: t);
  mi_nodup : NoDup heap;
  mi_heap : heap_ok (ble (streams readers)) heap }.

Lemma stream_lookup readers i l :
  streams readers !! i = Some l -> exists r, readers !! i = Some r /\ rem F r = l.
Proof. rewrite list_lookup_fmap. intros (r & ? & ->)%fmap_Some. eauto. Qed.

Lemma stream_lookup_2 readers i r :
  readers !! i = Some r -> streams readers !! i = Some (rem F r).
Proof. intros H. by rewrite list_lookup_fmap, H. Qed.

(** A live reader's current record is the head of its stream. *)
Lemma reader_before_live readers x y :
  Forall (reader_ok N in_fd F) readers ->
  (exists a t, streams readers !! x = Some (a :: t)) ->
  (exists b u, streams readers !! y = Some (b :: u)) ->
  exists b, reader_before cmp readers x y = Some b /\
    if (b : bool) then ble (streams readers) x y else ble (streams readers) y x.
Proof.
  intros Hok (a & t & Hx) (b & u & Hy).
  unfold before_le, head_of. rewrite Hx, Hy.
  apply stream_lookup in Hx as (rx & Hx & Hrx). apply stream_lookup in Hy as (ry & Hy & Hry).
  unfold reader_before. rewrite Hx, Hy. simpl.
  rewrite (reader_record_ok N in_fd F rx a t), (reader_record_ok N in_fd F ry b u);
    [| by eapply list.Forall_lookup_1 | done | by eapply list.Forall_lookup_1 | done].
  simpl. eexists. split; [done|]. pose proof (cmp_sym a b) as Hs.
  destruct (Z.ltb_spec (cmp a b) 0); simpl; [by left|].
  destruct (Z.eqb_spec (cmp a b) 0); simpl; [|left; lia].
  destruct (Nat.ltb_spec x y); right; split; lia.
Qed.

Lemma reader_before_decides readers heap :
  Forall (reader_ok N in_fd F) readers ->
  (forall i, i ∈ heap -> exists x t, streams readers !! i = Some (x :: t)) ->
  decides (reader_before cmp readers) (ble (streams readers)) heap.
Proof.
  intros Hok Hlive x y Hx Hy.
  destruct (reader_before_live readers x y) as ([] & -> & Hb); auto.
Qed.

(** Edges only look at the heads of the entries they join. *)
Lemma edge_streams S S' heap heap' j k j' k' :
  heap' !! j' = heap !! j -> heap' !! k' = heap !! k ->
  (forall i, heap !! j = Some i \/ heap !! k = Some i -> S' !! i = S !! i) ->
  edge (ble S) heap j k -> edge (ble S') heap' j' k'.
Proof.
  intros Hj Hk HS He x y Hx Hy. rewrite Hj in Hx. rewrite Hk in Hy.
  unfold before_le, head_of. rewrite !HS by auto. by apply He.
Qed.

(** ** Opening the readers *)
Lemma streams_add_old readers r i :
  i < length readers -> streams (readers ++ [r]) !! i = streams readers !! i.
Proof. intros Hi. rewrite fmap_app, lookup_app_l; [done|]. by rewrite length_fmap. Qed.
Lemma streams_add_new readers r :
  streams (readers ++ [r]) !! length readers = Some (rem F r).
Proof.
  rewrite fmap_app, lookup_app_r; rewrite length_fmap; [|done]. by rewrite Nat.sub_diag.
Qed.

Definition live (readers : list (reader (A:=A))) (i : nat) : Prop :=
  exists x t, streams readers !! i = Some (x :: t).

Lemma live_lt readers i : live readers i -> i < length readers.
Proof. intros (x & t & Hi). apply lookup_lt_Some in Hi. by rewrite length_fmap in Hi. Qed.

Lemma live_add readers r i :
  live (readers ++ [r]) i <-> live readers i \/ (i = length readers /\ rem F r <> []).
Proof.
  split.
  - intros Hl. pose proof (live_lt _ _ Hl) as Hi. rewrite length_app in Hi. simpl in Hi.
    destruct Hl as (x & t & Hl). destruct (decide (i < length readers)).
    + left. exists x, t. by rewrite streams_add_old in Hl.
    + right. assert (i = length readers) as -> by lia. split; [done|].
      rewrite streams_add_new in Hl. congruence.
  - intros [Hl|[-> Hne]].
    + pose proof (live_lt _ _ Hl). destruct Hl as (x & t & Hl). exists x, t.
      by rewrite streams_add_old.
    + destruct (rem F r) as [|x t] eqn:E; [done|]. exists x, t.
      by rewrite streams_add_new, E.
Qed.

Lemma merge_inv_add readers heap r :
  merge_inv readers heap -> reader_ok N in_fd F r -> sorted (rem F r) ->
  exists heap',
    (if r_pos r <? r_have r then
       tc_sort_heap_sift_up (reader_before cmp (readers ++ [r])) (heap ++ [length readers])
         (length heap)
     else Some heap) = Some heap' /\ merge_inv (readers ++ [r]) heap'.
Proof.
  intros [Hok Hs Hl Hn Hh] Hr Hsr. pose proof (reader_rem_nil _ _ _ _ Hr) as Hrn.
  assert (Forall (reader_ok N in_fd F) (readers ++ [r])) as Hok'
    by (apply list.Forall_app; auto).
  assert (Forall sorted (streams (readers ++ [r]))) as Hs'
    by (rewrite fmap_app; apply list.Forall_app; split; [done|]; constructor; [done|constructor]).
  assert (forall i, i ∈ heap -> i < length readers) as Hlt
    by (intros i Hi; apply live_lt, Hl, Hi).
  assert (forall k, 0 < k < length heap ->
            edge (ble (streams (readers ++ [r]))) heap (par k) k) as Hedges.
  { intros k Hk. eapply edge_streams; [done|done| |by apply Hh]. intros i Hi.
    apply streams_add_old, Hlt. destruct Hi as [Hi|Hi]; by apply list_elem_of_lookup_2 in Hi. }
  destruct (Nat.ltb_spec (r_pos r) (r_have r)) as [Hp|Hp].
  - assert (rem F r <> []) as Hne by (rewrite <- Hrn; lia). unfold tc_sort_heap_sift_up.
    destruct (sift_up_spec (reader_before cmp (readers ++ [r]))
                (ble (streams (readers ++ [r]))) (before_le_trans cmp hole _) (length heap)
                (heap ++ [length readers]) (length heap)) as (heap' & -> & Hperm & Hok2).
    + apply reader_before_decides; [done|]. intros i Hi. apply live_add.
      rewrite elem_of_app, list_elem_of_singleton in Hi. unfold live. rewrite <- Hl. tauto.
    + rewrite length_app. simpl. lia.
    + lia.
    + split; intros k; rewrite length_app; simpl; intros Hk; [|unfold par; lia].
      intros Hne2. eapply edge_streams; [| | |apply (Hedges k); lia]; [| |done].
      * by rewrite lookup_app_l by (unfold par; lia).
      * by rewrite lookup_app_l by lia.
    + exists heap'. split; [done|]. split; [done|done| | |done].
      * intros i. fold (live (readers ++ [r]) i). rewrite live_add. unfold live.
        rewrite <- Hl, Hperm, elem_of_app, list_elem_of_singleton. tauto.
      * rewrite Hperm. apply list.NoDup_app. split; [done|]. split; [|apply NoDup_singleton].
        intros i Hi. apply Hlt in Hi. rewrite list_elem_of_singleton. lia.
  - exists heap. assert (rem F r = []) as Hnil by (apply Hrn; destruct Hr; lia).
    split; [done|]. split; [done|done| |done|done].
    intros i. fold (live (readers ++ [r]) i). rewrite live_add. unfold live.
    rewrite <- Hl. tauto.
Qed.

(** The next [todo] runs of the rest [P] of the input are opened; each is one
    stream. *)
Lemma open_group_outcome todo i count run_len cap gs readers heap s :
  get in_fd s = F -> count <= length F -> count <= N -> 0 < cap -> 0 < run_len ->
  merge_inv readers heap -> i = length readers -> gs <= count ->
  runs cmp run_len (slice F gs count) ->
  outcome snd s (fun '(gs', readers', heap', s') =>
      same_data s s' /\ merge_inv readers' heap' /\
      gs' = Nat.min count (gs + todo * run_len) /\
      concat (streams readers') = concat (streams readers) ++ slice F gs gs' /\
      runs cmp run_len (slice F gs' count))
    (open_group cmp rs todo i in_fd count run_len cap gs readers heap s).
Proof.
  intros HF HcF HcN Hcap Hrl. revert i gs readers heap s HF.
  induction todo as [|todo IH]; intros i gs readers heap s HF Hinv -> Hgs Hruns;
    cbn [open_group].
  { split; [|done]. split; [done|]. split; [done|]. split; [lia|].
    rewrite slice_nil, app_nil_r by lia. done. }
  destruct (Nat.ltb_spec gs count) as [Hlt|Hge].
  2: { split; [|done]. split; [done|]. split; [done|]. split; [lia|].
       rewrite slice_nil, app_nil_r by lia. done. }
  set (n := if run_len <? count - gs then run_len else count - gs).
  assert (n = Nat.min run_len (count - gs)) as Hn
    by (unfold n; destruct (Nat.ltb_spec run_len (count - gs)); lia). clearbody n.
  eapply outcome_bind.
  { apply (reader_fill_outcome rs Hrs N Hfit in_fd); simpl; rewrite ?HF; done || lia. }
  intros [r s1] (Hr & Hrem & Hs1). cbn [fst snd r_next r_end] in *. rewrite HF in *.
  assert (sorted (rem F r)) as Hsr.
  { rewrite Hrem. apply runs_take in Hruns. revert Hruns.
    unfold slice. rewrite take_take. replace (Nat.min run_len (count - gs)) with n by lia.
    by replace (gs + n - gs) with n by lia. }
  destruct (merge_inv_add readers heap r Hinv Hr Hsr) as (heap' & -> & Hinv'). bind_simpl.
  eapply outcome_weaken.
  { eapply IH; [by rewrite (same_data_get in_fd s s1) | done | | lia | ].
    - rewrite length_app. simpl. lia.
    - apply runs_drop in Hruns. rewrite slice_drop in Hruns.
      destruct (decide (run_len <= count - gs)).
      + by replace (gs + n) with (gs + run_len) by lia.
      + replace (gs + n) with count by lia. rewrite slice_nil by lia. constructor. }
  intros [[[gs' readers'] heap2] s2] (Hd & Hi & Hg & Hc & Hr2).
  split; [|split; [done|split; [lia|split; [|done]]]].
  - destruct Hs1, Hd. split; congruence.
  - rewrite Hc, fmap_app, concat_app. simpl. rewrite app_nil_r, Hrem, <- app_assoc.
    f_equal. symmetry. apply slice_app. lia.
Qed.

(** ** Emitting one record *)
Lemma streams_insert readers i r' t :
  rem F r' = t -> streams (<[i:=r']> readers) = <[i:=t]> (streams readers).
Proof. intros <-. apply list_fmap_insert. Qed.

Lemma live_insert readers i r r' j :
  readers !! i = Some r ->
  live (<[i:=r']> readers) j <-> (j = i /\ rem F r' <> []) \/ (j <> i /\ live readers j).
Proof.
  intros Hi. unfold live. rewrite (streams_insert readers i r' (rem F r')) by done.
  assert (i < length (streams readers)) as Hlt
    by (rewrite length_fmap; by eapply lookup_lt_Some).
  destruct (decide (j = i)) as [->|Hne].
  - rewrite list_lookup_insert_eq by done. destruct (rem F r') as [|y u]; split.
    + by intros (? & ? & ?).
    + by intros [[_ ?]|[? _]].
    + intros _. by left.
    + intros _. by exists y, u.
  - rewrite list_lookup_insert_ne by done. split; [by right|].
    by intros [[? _]|[_ ?]].
Qed.

(** The heap after the root's reader [i] moved on: the root leaves when its
    reader is exhausted, and the last entry takes its place. *)
Definition pop_root (r' : reader (A:=A)) (heap : list nat) : option (list nat) :=
  if r_pos r' =? r_have r' then
    let heap_count := length heap - 1 in
    if heap_count =? 0 then Some []
    else last ← heap !! heap_count; Some (<[0:=last]> (take heap_count heap))
  else Some heap.

Lemma pop_root_spec r' i tl :
  reader_ok N in_fd F r' ->
  exists heap1, pop_root r' (i :: tl) = Some heap1 /\
    heap1 ≡ₚ (if decide (rem F r' = []) then tl else i :: tl) /\
    (forall k, 0 < k < length heap1 -> heap1 !! k = (i :: tl) !! k).
Proof.
  intros Hok. pose proof (reader_rem_nil _ _ _ _ Hok) as Hn. unfold pop_root.
  destruct (Nat.eqb_spec (r_pos r') (r_have r')) as [E|E].
  2: { exists (i :: tl). rewrite decide_False by tauto. done. }
  rewrite decide_True by tauto. cbn [length]. rewrite Nat.sub_succ, Nat.sub_0_r.
  destruct (Nat.eqb_spec (length tl) 0) as [E2|E2].
  { apply length_zero_iff_nil in E2 as ->. exists []. simpl. split; [done|]. split; [done|lia]. }
  destruct (exists_last (l:=tl)) as (rest & last & ->); [by destruct tl|].
  exists (last :: rest). rewrite length_app. simpl. rewrite Nat.add_1_r.
  rewrite lookup_cons. simpl. rewrite lookup_app_r, Nat.sub_diag by done. simpl.
  rewrite take_app_length. split; [done|]. split.
  - by rewrite Permutation_app_comm.
  - intros [|k] Hk; [lia|]. simpl. rewrite lookup_app_l by lia. done.
Qed.

Lemma merge_inv_pop readers i tl r r' x t :
  merge_inv readers (i :: tl) -> readers !! i = Some r -> rem F r = x :: t ->
  reader_ok N in_fd F r' -> rem F r' = t ->
  exists heap1 heap2, pop_root r' (i :: tl) = Some heap1 /\
    (if length heap1 =? 0 then Some []
     else tc_sort_heap_sift_down (reader_before cmp (<[i:=r']> readers)) heap1
            (length heap1) 0) = Some heap2 /\
    merge_inv (<[i:=r']> readers) heap2.
Proof.
  intros [Hok Hs Hl Hn Hh] Hi Hr Hr' Hrem.
  destruct (pop_root_spec r' i tl Hr') as (heap1 & Hpop & Hperm & Hold).
  apply list.NoDup_cons in Hn as [Hni Hn].
  assert (forall j, j ∈ heap1 <-> live (<[i:=r']> readers) j) as Hlive.
  { intros j. rewrite (live_insert readers i r r' j Hi), Hperm. unfold live. rewrite <- Hl.
    case_decide as E; rewrite elem_of_cons; [|destruct (decide (j = i)); tauto].
    destruct (decide (j = i)) as [->|]; tauto. }
  assert (NoDup heap1) as Hn1
    by (rewrite Hperm; case_decide; [done | by apply list.NoDup_cons]).
  assert (Forall (reader_ok N in_fd F) (<[i:=r']> readers)) as Hok'
    by (by apply Forall_insert).
  assert (Forall sorted (streams (<[i:=r']> readers))) as Hs'.
  { rewrite (streams_insert readers i r' t Hrem). apply Forall_insert; [done|].
    eapply list.Forall_lookup_1 in Hs; [|by apply stream_lookup_2].
    rewrite Hr in Hs. by apply StronglySorted_inv in Hs as [? _]. }
  assert (down_inv (ble (streams (<[i:=r']> readers))) heap1 0) as Hdown.
  { split; [|lia]. intros k Hk Hpk. assert (par k < k) by (unfold par; lia).
    eapply (edge_streams (streams readers)); [by apply Hold; lia | by apply Hold; lia | |].
    - intros j Hj. rewrite (streams_insert readers i r' t Hrem).
      apply list_lookup_insert_ne. intros ->. apply Hni.
      destruct Hj as [Hj|Hj]; [destruct (par k) | destruct k]; try lia;
        (simpl in Hj; by eapply list_elem_of_lookup_2).
    - apply Hh. assert (length heap1 <= length (i :: tl)); [|lia].
      rewrite Hperm. case_decide; simpl; lia. }
  exists heap1. destruct (Nat.eqb_spec (length heap1) 0) as [E|E].
  - exists []. apply length_zero_iff_nil in E. subst heap1.
    split; [done|]. split; [done|]. split; [done|done|done|constructor|]. intros k Hk. simpl in Hk. lia.
  - unfold tc_sort_heap_sift_down.
    destruct (sift_down_spec (reader_before cmp (<[i:=r']> readers)) _
      (before_le_trans cmp hole (streams (<[i:=r']> readers))) (S (length heap1)) heap1 0)
      as (heap2 & -> & Hp2 & Hok2); [|lia|lia|done|].
    + apply reader_before_decides; [done|]. intros j Hj. by apply Hlive.
    + exists heap2. split; [done|]. split; [done|]. split; [done|done| | |done].
      * intros j. rewrite Hp2. apply Hlive.
      * by rewrite Hp2.
Qed.

Lemma merge_inv_done readers : merge_inv readers [] -> concat (streams readers) = [].
Proof.
  intros [_ _ Hl _ _]. apply concat_nil_Forall, list.Forall_forall. intros l Hin.
  apply list_elem_of_lookup in Hin as [i Hi]. destruct l as [|x t]; [done|].
  assert (i ∈ @nil nat) as He by (apply Hl; eauto). by apply elem_of_nil in He.
Qed.

(** The root of the heap is the next record of the stable merge. *)
Lemma merge_inv_root readers i tl :
  merge_inv readers (i :: tl) ->
  exists r x t, readers !! i = Some r /\ rem F r = x :: t /\
    forall j y u, streams readers !! j = Some (y :: u) ->
      (cmp x y < 0)%Z \/ (cmp x y = 0%Z /\ i <= j).
Proof.
  intros [Hok Hs Hl Hn Hh].
  destruct (proj1 (Hl i)) as (x & t & Hi); [left|].
  destruct (stream_lookup _ _ _ Hi) as (r & Hr & Hrem).
  exists r, x, t. split; [done|]. split; [done|]. intros j y u Hj.
  assert (j ∈ i :: tl) as Hin by (apply Hl; eauto).
  apply list_elem_of_lookup in Hin as [k Hk].
  pose proof (heap_root (reader_before cmp readers) (ble (streams readers))
    (before_le_trans cmp hole _) (i :: tl)) as Hroot.
  assert (ble (streams readers) i j) as Hb.
  { apply (Hroot) with (k := k); [|done|by eapply lookup_lt_Some|done|done].
    apply reader_before_decides; [done|]. intros l. apply Hl. }
  unfold before_le, head_of in Hb. by rewrite Hi, Hj in Hb.
Qed.

(** ** The output buffer *)
Context (out_cap : nat).
#[local] Abbreviation out_fd := (negb in_fd).
(** What the pass has produced: the output file, then the buffer. *)
Definition written (p : outbuf (A:=A) * files (A:=A)) : list A :=
  get out_fd p.2 ++ o_buf p.1.
Record out_inv (p : outbuf (A:=A) * files (A:=A)) : Prop := {
  oi_in : get in_fd p.2 = F;
  oi_record : length (get out_fd p.2) = o_record p.1;
  oi_cap : length (o_buf p.1) < out_cap }.

Lemma written_length p : out_inv p -> length (written p) = o_record p.1 + length (o_buf p.1).
Proof. intros [_ H _]. unfold written. by rewrite length_app, H. Qed.

Lemma flush_outcome o s :
  get in_fd s = F -> length (get out_fd s) = o_record o -> o_record o <= N -> 0 < out_cap ->
  outcome snd s (fun p => out_inv p /\ o_buf p.1 = [] /\ written p = written (o, s))
    (flush hole rs out_fd o s).
Proof using Hrs Hfit.
  intros HF Hl HN Hc. unfold flush. rewrite (mul_off_ok rs Hrs N Hfit) by done. bind_simpl.
  eapply outcome_bind; [apply (io_write_outcome hole rs Hrs N); lia|].
  intros s' [Hw Ho]. rewrite negb_involutive in Ho.
  rewrite <- Hl, pwrite_at_end in Hw. split; [|done]. split; [|split; [done|]].
  - split; cbn [fst snd o_buf o_record].
    + congruence.
    + rewrite Hw, length_app. lia.
    + simpl. done.
  - unfold written. cbn [fst snd o_buf]. by rewrite Hw, app_nil_r.
Qed.

(** The conditional write of [emit_loop]. *)
Lemma flush_full_outcome o s :
  get in_fd s = F -> length (get out_fd s) = o_record o -> o_record o <= N ->
  length (o_buf o) <= out_cap -> 0 < out_cap ->
  outcome snd s (fun p => out_inv p /\ written p = written (o, s))
    (if length (o_buf o) =? out_cap then flush hole rs out_fd o s else Some (o, s)).
Proof using Hrs Hfit.
  intros HF Hl HN Hb Hc. destruct (Nat.eqb_spec (length (o_buf o)) out_cap) as [E|E].
  - eapply outcome_weaken; [by apply flush_outcome|]. by intros p (? & _ & ?).
  - split; [|done]. split; [|done]. split; simpl; done || lia.
Qed.

Lemma emit_loop_outcome fuel readers heap o s :
  out_inv (o, s) -> merge_inv readers heap ->
  length (concat (streams readers)) <= fuel ->
  length (written (o, s)) + length (concat (streams readers)) <= N ->
  outcome snd s (fun p => out_inv p /\
      exists E, stable_sorted cmp (concat (streams readers)) E /\
        written p = written (o, s) ++ E)
    (emit_loop cmp hole rs fuel out_fd out_cap readers heap o s).
Proof using All.
  revert readers heap o s. induction fuel as [|fuel IH]; intros readers heap o s Ho Hinv Hf HN;
    (destruct heap as [|i tl];
      [ split; [|done]; split; [done|]; exists []; rewrite app_nil_r; split; [|done];
        rewrite (merge_inv_done readers) by done; split; [constructor|done] |]);
    destruct (merge_inv_root _ _ _ Hinv) as (r & x & t & Hr & Hrem & Hmin);
    pose proof (concat_insert (streams readers) i x t) as Hc;
    rewrite <- Hrem in Hc at 1; specialize (Hc (stream_lookup_2 _ _ _ Hr));
    pose proof (Permutation_length Hc) as Hlc; simpl in Hlc; [lia|].
  pose proof Hinv as [Hok Hso _ _ _].
  assert (reader_ok N in_fd F r) as Hrok by by eapply list.Forall_lookup_1.
  pose proof Ho as [HF Hol Hoc]. cbn [fst snd] in HF, Hol, Hoc.
  pose proof (written_length _ Ho) as Hwl. cbn [fst] in Hwl.
  cbn [emit_loop]. rewrite Hr. bind_simpl.
  rewrite (reader_record_ok N in_fd F r x t) by done. bind_simpl.
  eapply outcome_bind.
  { apply (reader_advance_outcome rs Hrs N Hfit in_fd r s x t); by rewrite HF. }
  intros [r' s1] (Hr' & Hrem' & Hs1). cbn [fst snd] in *. rewrite HF in *.
  destruct (merge_inv_pop readers i tl r r' x t) as (heap1 & heap2 & Hp1 & Hp2 & Hinv');
    [done..|].
  unfold pop_root in Hp1. rewrite Hp1. bind_simpl. rewrite Hp2. bind_simpl.
  eapply outcome_bind.
  { apply flush_full_outcome; cbn [o_buf o_record]; rewrite ?length_app;
      rewrite ?(same_data_get _ s s1) by done; simpl; done || lia. }
  intros [o2 s2] [Ho2 Hw2]. cbn [snd].
  assert (written (o2, s2) = written (o, s) ++ [x]) as Hw.
  { rewrite Hw2. unfold written. cbn [fst snd o_buf].
    by rewrite (same_data_get _ s s1), app_assoc. }
  pose proof (streams_insert readers i r' t Hrem') as Hst.
  eapply outcome_weaken.
  { apply (IH (<[i:=r']> readers) heap2 o2 s2); [done|done| |];
      rewrite Hst; [|rewrite Hw, length_app; simpl]; lia. }
  intros p (Hp & E & HE & Hwp). split; [done|]. exists (x :: E). split.
  - rewrite Hst in HE. apply (kway_step cmp _ i x t); [|done|done|done].
    rewrite <- Hrem. by apply stream_lookup_2.
  - rewrite Hwp, Hw, <- app_assoc. done.
Qed.
End group.
