(* ===== verification/TagSortDriver.v ===== *)
(** The driver of the external sort: merge passes, run formation, the plan of
    buffers and passes, and the correctness of [tc_sort_fd] as a whole. *)
From Stdlib Require Import ZifyNat.
From stdpp Require Import sorting.
From S2P Require Import Prelude StableSort TagSortHeap TagSort TagSortProofs TagSortMerge.
Local Open Scope Z_scope.

(** ** One merge pass *)
Section pass.
Context {A : Type} (cmp : A -> A -> Z) `{!CmpOrder cmp} (hole : A).
Context (rs : Z) (Hrs : (0 < rs)%Z) (N : nat) (Hfit : (Z.of_nat N * rs <= INT64_MAX)%Z).
Context (count : nat) (Hcount : (count <= N)%nat).
Local Open Scope nat_scope.

Lemma stable_sorted_classes (l E : list A) : stable_sorted cmp l E -> same_classes cmp l E.
Proof. by intros [_ ?]. Qed.

Lemma merge_groups_outcome fuel in_fd F run_len cap fan_in out_cap gs o s :
  0 < cap -> 0 < run_len -> 0 < fan_in -> 0 < out_cap -> count <= length F ->
  out_inv in_fd F out_cap (o, s) -> gs <= count -> length (written in_fd (o, s)) = gs ->
  count - gs <= fuel -> runs cmp run_len (slice F gs count) ->
  outcome snd s (fun p => out_inv in_fd F out_cap p /\
      exists E, written in_fd p = written in_fd (o, s) ++ E /\ length E = count - gs /\
        runs cmp (run_len * fan_in) E /\ same_classes cmp (slice F gs count) E)
    (merge_groups cmp hole rs fuel in_fd (negb in_fd) count run_len cap fan_in out_cap gs o s).
Proof using All.
  intros Hcap Hrl Hfan Hoc HcF. revert gs o s.
  induction fuel as [|fuel IH]; intros gs o s Ho Hgs Hw Hf Hruns; cbn [merge_groups];
    (destruct (Nat.ltb_spec gs count) as [Hlt|Hge];
      [| split; [|done]; split; [done|]; exists []; rewrite app_nil_r, slice_nil by lia;
         split; [done|]; split; [simpl; lia|]; split; [constructor|done] ]); [lia|].
  pose proof (oi_in _ _ _ _ Ho) as HF. cbn [snd] in HF.
  eapply outcome_bind.
  { apply (open_group_outcome cmp hole rs Hrs N Hfit in_fd F); try done; try lia.
    split; simpl; [constructor|constructor| |constructor|].
    - intros i. split; [by intros ?%elem_of_nil|]. by intros (? & ? & ?).
    - intros k Hk. simpl in Hk. lia. }
  intros [[[gs' readers] heap] s1] (Hs1 & Hinv & Hgs' & Hc & Hr'). cbn [snd].
  cbn [fmap list_fmap concat] in Hc. simpl in Hc.
  assert (out_inv in_fd F out_cap (o, s1)) as Ho1.
  { destruct Ho as [H1 H2 H3]. cbn [fst snd] in *.
    split; cbn [fst snd]; rewrite ?(same_data_get _ s s1) by done; done. }
  assert (length (concat (rem F <$> readers)) = gs' - gs) as Hlc
    by (rewrite Hc, slice_length; lia).
  assert (written in_fd (o, s1) = written in_fd (o, s)) as Hw1
    by (unfold written; cbn [fst snd]; by rewrite (same_data_get _ s s1)).
  eapply outcome_bind.
  { apply (emit_loop_outcome cmp hole rs Hrs N Hfit in_fd F out_cap count readers heap);
      rewrite ?Hw1; done || lia. }
  intros [o2 s2] (Ho2 & E1 & HE1 & HwE1). cbn [snd].
  pose proof (Permutation_length (stable_sorted_perm cmp _ _ HE1)) as Hl1.
  eapply outcome_weaken.
  { apply (IH gs' o2 s2); [done|lia| |lia|done].
    rewrite HwE1, Hw1, length_app. lia. }
  intros p (Hp & E2 & HwE2 & Hl2 & HrE2 & HcE2). split; [done|]. exists (E1 ++ E2).
  split; [by rewrite HwE2, HwE1, Hw1, <- app_assoc|].
  split; [rewrite length_app; lia|]. split.
  - apply runs_app; [| by destruct HE1 | done |].
    + intros ->. simpl in Hl1. assert (0 < fan_in * run_len) by lia. lia.
    + destruct (decide (gs' = count)); [right; split; [lia|]|left; lia].
      apply length_zero_iff_nil. lia.
  - rewrite (slice_app F gs gs' count) by lia. apply same_classes_app; [|done].
    rewrite <- Hc. by apply stable_sorted_classes.
Qed.

Lemma tc_sort_merge_pass_outcome in_fd run_len cap fan_in out_cap s :
  0 < cap -> 0 < run_len -> 0 < fan_in -> 0 < out_cap ->
  count <= length (get in_fd s) -> get (negb in_fd) s = [] ->
  runs cmp run_len (take count (get in_fd s)) ->
  outcome (fun s => s) s (fun s' =>
      length (get (negb in_fd) s') = count /\
      runs cmp (run_len * fan_in) (get (negb in_fd) s') /\
      same_classes cmp (take count (get in_fd s)) (get (negb in_fd) s'))
    (tc_sort_merge_pass cmp hole rs in_fd (negb in_fd) count run_len cap fan_in out_cap s).
Proof using All.
  intros Hcap Hrl Hfan Hoc HcF Hout Hruns. unfold tc_sort_merge_pass.
  set (F := get in_fd s) in *.
  assert (slice F 0 count = take count F) as Hsl
    by (unfold slice; by rewrite Nat.sub_0_r, drop_0).
  eapply outcome_bind.
  { apply (merge_groups_outcome count in_fd F); try done; try lia; cbn [o_buf o_record].
    - split; cbn [fst snd o_buf o_record]; rewrite ?Hout; done.
    - unfold written. cbn [fst snd o_buf]. by rewrite Hout.
    - by rewrite Hsl. }
  intros [o1 s1] (Ho1 & E & HwE & HlE & HrE & HcE). cbn [snd] in *.
  assert (written in_fd (o1, s1) = E) as Hw
    by (rewrite HwE; unfold written; cbn [fst snd o_buf]; by rewrite Hout).
  clear HwE. rewrite Hsl in HcE. rewrite Nat.sub_0_r in HlE.
  pose proof (written_length _ _ _ _ Ho1) as Hwl. cbn [fst] in Hwl.
  pose proof Ho1 as [HF1 Hol Hob]. cbn [fst snd] in HF1, Hol, Hob.
  destruct (Nat.eqb_spec (length (o_buf o1)) 0) as [E0|E0].
  - apply length_zero_iff_nil in E0. unfold written in Hw. cbn [fst snd] in Hw.
    rewrite E0, app_nil_r in Hw. split; [|done]. by rewrite Hw.
  - eapply outcome_bind.
    { apply (flush_outcome hole rs Hrs N Hfit in_fd F out_cap); try done.
      rewrite Hw in Hwl. lia. }
    intros [o2 s2] (_ & Hb & Hw2). cbn [fst snd] in *. split; [|done].
    rewrite Hw in Hw2. unfold written in Hw2. cbn [fst snd] in Hw2.
    rewrite Hb, app_nil_r in Hw2. by rewrite Hw2.
Qed.

Lemma runs_widen w w' (l : list A) :
  runs cmp w l -> length l <= w -> length l <= w' -> runs cmp w' l.
Proof.
  intros Hr Hl Hl'. destruct l as [|x l]; [constructor|]. rewrite <- (app_nil_r (x :: l)).
  apply runs_app; [done|by eapply runs_sorted|constructor|by right].
Qed.

(** After [passes] passes the runs of one file are [fan_in ^ passes] times
    as long, or the file is one run. *)
Lemma merge_passes_outcome passes in_fd run_len cap fan_in out_cap s :
  0 < cap -> 0 < run_len -> 0 < fan_in -> 0 < out_cap -> 0 < count ->
  count <= length (get in_fd s) -> runs cmp run_len (take count (get in_fd s)) ->
  outcome snd s (fun p => p.1 = xorb in_fd (Nat.odd passes) /\
      count <= length (get p.1 p.2) /\
      same_classes cmp (take count (get in_fd s)) (take count (get p.1 p.2)) /\
      exists rl, (count <= rl \/ run_len * fan_in ^ passes <= rl) /\
        runs cmp rl (take count (get p.1 p.2)))
    (merge_passes cmp hole rs passes in_fd count run_len cap fan_in out_cap s).
Proof using All.
  intros Hcap Hrl Hfan Hoc Hc0. revert in_fd run_len s Hrl.
  induction passes as [|passes IH]; intros in_fd run_len s Hrl HcF Hr; cbn [merge_passes].
  { split; [|done]. cbn [fst snd]. split; [by destruct in_fd|]. split; [done|].
    split; [done|]. exists run_len. split; [right; simpl; lia|done]. }
  eapply outcome_bind; [apply io_truncate_outcome|]. intros s1 [Hs1 Hs1'].
  rewrite negb_involutive in Hs1'. rewrite resize_0 in Hs1.
  eapply outcome_bind.
  { apply (tc_sort_merge_pass_outcome in_fd run_len cap fan_in out_cap s1); try done;
      by rewrite Hs1'. }
  intros s2 (Hl2 & Hr2 & Hc2). rewrite Hs1' in Hc2. clear s1 Hs1 Hs1'.
  assert (0 < run_len * fan_in) as Hp by lia.
  set (rl := if count / fan_in <? run_len then count else run_len * fan_in).
  assert (0 < rl /\ (rl = count \/ rl = run_len * fan_in) /\
          runs cmp rl (get (negb in_fd) s2)) as (Hrl0 & Hrlc & Hrl2).
  { unfold rl. destruct (Nat.ltb_spec (count / fan_in) run_len) as [Hlt|Hge].
    - split; [done|]. split; [by left|]. eapply runs_widen; [done| |lia].
      pose proof (Nat.div_mod_eq count fan_in). pose proof (Nat.mod_upper_bound count fan_in).
      nia.
    - split; [done|]. split; [by right|done]. }
  clearbody rl. eapply outcome_weaken.
  { apply (IH (negb in_fd) rl s2); [done|lia|]. by rewrite take_ge by lia. }
  intros p (H1 & H2 & H3 & rl' & H4 & H5). rewrite take_ge in H3 by lia.
  split; [rewrite H1, Nat.odd_succ, <- Nat.negb_odd; by destruct in_fd, (Nat.odd passes)|].
  split; [done|]. split; [by eapply same_classes_trans|].
  pose proof (Nat.pow_nonzero fan_in passes).
  exists rl'. split; [|done]. destruct H4 as [H4|H4]; [by left|].
  destruct Hrlc as [-> | ->]; [|right; rewrite Nat.pow_succ_r'; lia].
  left. nia.
Qed.
End pass.

(** ** Forming the runs *)
Section form.
Context {A : Type} (cmp : A -> A -> Z) `{!CmpOrder cmp} (hole : A).
Context (rs : Z) (Hrs : (0 < rs)%Z) (N : nat) (Hfit : (Z.of_nat N * rs <= INT64_MAX)%Z).
Context (count : nat) (Hcount : (count <= N)%nat) (run_cap : nat) (Hrc : (0 < run_cap)%nat).
Local Open Scope nat_scope.

(** Writing the sorted run at [at_] of [run_fd] keeps the records still to be
    read from the main file and extends the runs written so far. *)
Lemma form_write run_fd at_ run s s' :
  at_ + length run <= length (get true s) -> at_ <= length (get run_fd s) ->
  writes run_fd (pwrite_at hole (get run_fd s) at_ run) s s' ->
  drop (at_ + length run) (get true s') = drop (at_ + length run) (get true s) /\
  length (get true s') = length (get true s) /\
  at_ + length run <= length (get run_fd s') /\
  take (at_ + length run) (get run_fd s') = take at_ (get run_fd s) ++ run.
Proof.
  intros Hl Ha [Hw Ho]. rewrite pwrite_at_in in Hw by done.
  assert (length (take at_ (get run_fd s)) = at_) as Hta by (rewrite length_take; lia).
  assert (take (at_ + length run) (get run_fd s') = take at_ (get run_fd s) ++ run) as Ht.
  { rewrite Hw, app_assoc. apply take_app_length'. rewrite length_app. lia. }
  assert (at_ + length run <= length (get run_fd s')) as Hlr
    by (rewrite Hw, !length_app, Hta; lia).
  destruct run_fd; cbn [negb] in *; [|by rewrite Ho].
  split; [|split; [|done]].
  - rewrite Hw, app_assoc. apply drop_app_length'. rewrite length_app. lia.
  - rewrite Hw, !length_app, Hta, length_drop. lia.
Qed.

Lemma form_runs_outcome fuel run_fd at_ s :
  at_ <= count -> count <= length (get true s) -> at_ <= length (get run_fd s) ->
  count - at_ <= fuel ->
  outcome (fun s => s) s (fun s' => count <= length (get run_fd s') /\
      exists E, take count (get run_fd s') = take at_ (get run_fd s) ++ E /\
        length E = count - at_ /\ runs cmp run_cap E /\
        same_classes cmp (slice (get true s) at_ count) E)
    (form_runs cmp hole rs fuel run_fd count run_cap at_ s).
Proof using All.
  revert at_ s. induction fuel as [|fuel IH]; intros at_ s Ha Hm Hr Hf; cbn [form_runs];
    (destruct (Nat.ltb_spec at_ count) as [Hlt|Hge];
      [| assert (at_ = count) as -> by lia; split; [|done]; split; [done|]; exists [];
         rewrite app_nil_r, slice_nil by lia; split; [done|]; split; [simpl; lia|];
         split; [constructor|done] ]); [lia|].
  set (n := if run_cap <? count - at_ then run_cap else count - at_).
  assert (n = Nat.min run_cap (count - at_)) as Hn
    by (unfold n; destruct (Nat.ltb_spec run_cap (count - at_)); lia). clearbody n.
  rewrite (mul_off_ok rs Hrs N Hfit) by lia. bind_simpl.
  eapply outcome_bind.
  { apply (io_read_outcome rs Hrs N true n at_ s). lia. }
  intros [run s1] [Hrun Hs1]. cbn [fst snd] in *. subst run.
  rewrite (tc_sort_stable_runsort_isort cmp).
  set (run := slice (get true s) at_ (at_ + n)).
  assert (length (isort cmp run) = n) as Hln
    by (rewrite (isort_length cmp); unfold run; rewrite slice_length; lia).
  eapply outcome_bind.
  { apply (io_write_outcome hole rs Hrs N run_fd (isort cmp run) at_ s1).
    by rewrite (same_data_get _ s s1). }
  intros s2 Hw. destruct (form_write run_fd at_ (isort cmp run) s1 s2) as (Hd & Hl & Hr2 & Ht);
    rewrite ?Hln, ?(same_data_get _ s s1) in * by done; [lia|done|done|].
  eapply outcome_weaken; [apply (IH (at_ + n) s2); lia|].
  intros s3 (Hc3 & E & HE & HlE & HrE & HcE). split; [done|].
  exists (isort cmp run ++ E). rewrite HE, Ht, <- app_assoc. split; [done|].
  split; [rewrite length_app; lia|]. split.
  - apply runs_app; [| by apply (isort_spec cmp) | done |].
    + intros Hnil. rewrite Hnil in Hln. simpl in Hln. lia.
    + destruct (decide (at_ + n = count)); [right; split; [lia|]|left; lia].
      apply length_zero_iff_nil. lia.
  - rewrite (slice_app (get true s) at_ (at_ + n) count) by lia.
    apply same_classes_app; [apply (same_classes_isort cmp)|].
    unfold slice in HcE. rewrite Hd in HcE. exact HcE.
Qed.
End form.

(** ** The plan *)
Lemma power_loop_spec n value base target :
  1 <= value -> 1 <= base -> 0 <= target ->
  power_loop n value base target = true <-> target <= value * base ^ Z.of_nat n.
Proof.
  revert value. induction n as [|n IH]; intros value Hv Hb Ht; cbn [power_loop].
  - rewrite Z.leb_le. lia.
  - assert (0 < base ^ Z.of_nat n) by (apply Z.pow_pos_nonneg; lia).
    rewrite Nat2Z.inj_succ, Z.pow_succ_r by lia.
    pose proof (Z.div_mod target base ltac:(lia)).
    pose proof (Z.mod_pos_bound target base ltac:(lia)).
    destruct (Z.ltb_spec (target / base) value).
    + split; [intros _|done]. assert (target <= value * base) by nia. nia.
    + rewrite IH by nia. by rewrite Z.mul_assoc.
Qed.

Lemma tc_sort_power_reaches_spec base exponent target :
  1 <= base -> 0 <= target ->
  tc_sort_power_reaches base exponent target = true <-> target <= base ^ Z.of_nat exponent.
Proof.
  intros. unfold tc_sort_power_reaches. rewrite power_loop_spec by lia. by rewrite Z.mul_1_l.
Qed.

Lemma count_passes_spec fuel fan_cap passes run_count :
  1 <= fan_cap -> 0 <= run_count ->
  (forall p, (p < passes)%nat -> fan_cap ^ Z.of_nat p < run_count) ->
  run_count <= fan_cap ^ Z.of_nat (passes + fuel) ->
  exists p, count_passes fuel fan_cap passes run_count = Some p /\
    run_count <= fan_cap ^ Z.of_nat p /\
    (forall q, (q < p)%nat -> fan_cap ^ Z.of_nat q < run_count).
Proof.
  intros Hf Hr. revert passes. induction fuel as [|fuel IH]; intros passes Hlow Hup;
    cbn [count_passes];
    pose proof (tc_sort_power_reaches_spec fan_cap passes run_count Hf Hr) as Hs;
    (destruct (tc_sort_power_reaches fan_cap passes run_count);
      [exists passes; split; [done|]; split; [by apply Hs | done] |]).
  - rewrite Nat.add_0_r in Hup. by apply Hs in Hup.
  - apply IH; [|by replace (S passes + fuel)%nat with (passes + S fuel)%nat by lia].
    intros p Hp. destruct (decide (p = passes)) as [->|]; [|apply Hlow; lia].
    destruct (Z.lt_ge_cases (fan_cap ^ Z.of_nat passes) run_count) as [|Hge]; [done|].
    by apply Hs in Hge.
Qed.

Lemma find_fan_in_spec fuel fan_in passes run_count :
  1 <= fan_in -> 0 <= run_count ->
  (0 < fuel)%nat -> run_count <= (fan_in + Z.of_nat fuel - 1) ^ Z.of_nat passes ->
  exists f, find_fan_in fuel fan_in passes run_count = Some f /\
    fan_in <= f <= fan_in + Z.of_nat fuel - 1 /\ run_count <= f ^ Z.of_nat passes /\
    (forall g, fan_in <= g < f -> g ^ Z.of_nat passes < run_count).
Proof.
  revert fan_in. induction fuel as [|fuel IH]; intros fan_in Hf Hr Hpos Hup; [lia|].
  cbn [find_fan_in]. pose proof (tc_sort_power_reaches_spec fan_in passes run_count Hf Hr) as Hs.
  destruct (tc_sort_power_reaches fan_in passes run_count).
  { exists fan_in. split; [done|]. split; [lia|]. split; [by apply Hs|lia]. }
  assert (fan_in ^ Z.of_nat passes < run_count) as Hlt.
  { destruct (Z.lt_ge_cases (fan_in ^ Z.of_nat passes) run_count) as [|Hge]; [done|].
    by apply Hs in Hge. }
  destruct fuel as [|fuel].
  { replace (fan_in + Z.of_nat 1 - 1) with fan_in in Hup by lia. lia. }
  destruct (IH (fan_in + 1)) as (f & -> & Hb & Hreach & Hmin); [lia|done|lia| |].
  { by replace (fan_in + 1 + Z.of_nat (S fuel) - 1) with (fan_in + Z.of_nat (S (S fuel)) - 1) by lia. }
  exists f. split; [done|]. split; [lia|]. split; [done|].
  intros g Hg. destruct (Z.eq_dec g fan_in) as [->|]; [done|]. apply Hmin. lia.
Qed.

Definition sort_budget (large : bool) : Z :=
  if large then TC_SORT_LARGE_TOTAL_BYTES else TC_SORT_BUFFER_BYTES.

Record plan_ok (large : bool) (record_size count : Z) (p : sort_plan) : Prop := {
  po_run : 0 < p_run_cap p /\ 2 * (p_run_cap p * record_size) <= sort_budget large;
  po_out : 0 < p_out_cap p;
  po_memory : p_fan_in p * (p_input_cap p * record_size) + p_out_cap p * record_size
                <= sort_budget large;
  po_none : p_passes p = 0%nat <-> count <= p_run_cap p;
  po_fan : (0 < p_passes p)%nat -> 2 <= p_fan_in p <= TC_SORT_MAX_FAN_IN /\ 0 < p_input_cap p;
  po_enough : count <= p_run_cap p * p_fan_in p ^ Z.of_nat (p_passes p);
  po_passes_least : forall q, (q < p_passes p)%nat ->
    p_run_cap p * p_fan_in p ^ Z.of_nat q < count;
  po_fan_least : forall g, 2 <= g < p_fan_in p ->
    p_run_cap p * g ^ Z.of_nat (p_passes p) < count }.

Lemma div_bounds a b : 0 < b -> a / b * b <= a < a / b * b + b.
Proof. intros. pose proof (Z.div_mod a b ltac:(lia)). pose proof (Z.mod_pos_bound a b). lia. Qed.

(** The buffer sizes of both budgets, for records of at most 32 KiB. *)
Lemma plan_sizes (large : bool) rs :
  0 < rs <= 32768 ->
  let B := sort_budget large in
  let out := (if large then TC_SORT_LARGE_OUTPUT_BYTES else TC_SORT_OUTPUT_BYTES) / rs in
  let input := (B - out * rs) / rs in
  0 < (if large then TC_SORT_LARGE_MERGE_BYTES else TC_SORT_MERGE_BYTES) / rs /\
  0 < B / 2 / rs /\ 2 * (B / 2 / rs * rs) <= B /\ 0 < out /\ 2 <= input /\
  input * rs + out * rs <= B.
Proof.
  intros Hrs. cbn zeta. unfold sort_budget, TC_SORT_LARGE_TOTAL_BYTES, TC_SORT_BUFFER_BYTES,
    TC_SORT_LARGE_OUTPUT_BYTES, TC_SORT_OUTPUT_BYTES, TC_SORT_LARGE_MERGE_BYTES,
    TC_SORT_MERGE_BYTES.
  set (B := if large then 2097152 else 262144). set (O := if large then 262144 else 65536).
  set (M := if large then 131072 else 32768).
  assert (B / 2 = if large then 1048576 else 131072) as HB2 by (by destruct large).
  pose proof (div_bounds M rs). pose proof (div_bounds O rs).
  pose proof (div_bounds (B / 2) rs). pose proof (div_bounds (B - O / rs * rs) rs).
  assert (32768 <= M /\ 65536 <= O /\ 131072 <= B / 2 /\ B = 2 * (B / 2) /\ O + 131072 <= B)
    by (rewrite HB2; unfold M, O, B; destruct large; lia).
  split; [nia|]. split; [nia|]. split; [lia|]. split; [nia|]. split; [nia|lia].
Qed.

(** [count / run_cap] rounded up, as the plan computes it. *)
Lemma run_count_spec count rc :
  0 < rc -> 0 <= count ->
  let k := count / rc + (if count mod rc =? 0 then 0 else 1) in
  0 <= k <= count /\ (forall m, k <= m <-> count <= rc * m).
Proof.
  intros Hrc Hc k. pose proof (Z.div_mod count rc ltac:(lia)).
  pose proof (Z.mod_pos_bound count rc Hrc). unfold k.
  assert (0 <= count / rc) by (apply Z.div_pos; lia).
  set (q := count / rc) in *. set (r := count mod rc) in *. clearbody q r.
  destruct (Z.eqb_spec r 0); (split; [split; nia|]); intros m; split; intros Hm; subst count.
  - nia.
  - apply (Z.mul_le_mono_pos_l _ _ rc); lia.
  - assert (rc * (q + 1) <= rc * m) by (apply Z.mul_le_mono_nonneg_l; lia). lia.
  - destruct (Z.le_gt_cases (q + 1) m); [done|].
    assert (rc * m <= rc * q) by (apply Z.mul_le_mono_nonneg_l; lia). lia.
Qed.

(** The choice of [fan_cap] leaves it between two and the other bounds. *)
Lemma fan_cap_bounds input preferred run_count :
  2 <= input -> 4 <= preferred -> 2 <= run_count ->
  let f := input / preferred in
  let f := if f <? 2 then input else f in
  let f := if TC_SORT_MAX_FAN_IN <? f then TC_SORT_MAX_FAN_IN else f in
  let f := if run_count <? f then run_count else f in
  2 <= f <= TC_SORT_MAX_FAN_IN /\ f <= input /\ f <= run_count.
Proof.
  intros Hi Hp Hr. cbn zeta. unfold TC_SORT_MAX_FAN_IN.
  pose proof (div_bounds input preferred ltac:(lia)).
  assert (input / preferred <= input) by (apply Z.div_le_upper_bound; nia).
  set (f := if input / preferred <? 2 then input else input / preferred).
  assert (2 <= f <= input) by (unfold f; destruct (Z.ltb_spec (input / preferred) 2); lia).
  clearbody f. destruct (Z.ltb_spec 16 f);
    match goal with |- context [run_count <? ?g] => destruct (Z.ltb_spec run_count g) end; lia.
Qed.

Lemma tc_sort_plan_ok large rs count :
  0 < rs <= 32768 -> 0 <= count <= INT64_MAX ->
  exists p, tc_sort_plan large rs count = Some p /\ plan_ok large rs count p.
Proof.
  intros Hrs Hc. destruct (plan_sizes large rs Hrs) as (HM & HR1 & HR2 & HO & HI1 & HI2).
  unfold tc_sort_plan. fold (sort_budget large).
  set (oc := (if large then TC_SORT_LARGE_OUTPUT_BYTES else TC_SORT_OUTPUT_BYTES) / rs) in *.
  set (rc := sort_budget large / 2 / rs) in *.
  set (ir := (sort_budget large - oc * rs) / rs) in *.
  destruct (Z.eqb_spec ((if large then TC_SORT_LARGE_MERGE_BYTES else TC_SORT_MERGE_BYTES) / rs) 0);
    [lia|].
  destruct (Z.eqb_spec rc 0); [lia|]. destruct (Z.eqb_spec oc 0); [lia|]. cbn [orb].
  destruct (Z.ltb_spec ir 2); [lia|].
  destruct (run_count_spec count rc HR1 ltac:(lia)) as [Hk Hkm].
  set (k := count / rc + _) in *. clearbody k.
  pose proof (Hkm 1) as Hk1.
  destruct (Z.ltb_spec 1 k) as [Hlt|Hge].
  2: { eexists. split; [done|]. assert (count <= rc) by lia.
       split; cbn; lia || done || (split; [done|]; lia) || (split; [lia|done]). }
  set (pref := 4096 / rs + (if 4096 mod rs =? 0 then 0 else 1)).
  assert (4 <= (if pref <? 4 then 4 else pref)) as Hpref
    by (destruct (Z.ltb_spec pref 4); lia).
  destruct (fan_cap_bounds ir (if pref <? 4 then 4 else pref) k HI1 Hpref ltac:(lia))
    as (Hf1 & Hf2 & Hf3).
  set (fc := if k <? _ then k else _) in *. clearbody fc pref.
  destruct (Z.ltb_spec fc 2); [lia|].
  destruct (count_passes_spec 64 fc 0 k) as (ps & -> & Hps & Hpl); [lia|lia|lia| |].
  { transitivity (2 ^ Z.of_nat (0 + 64)); [unfold INT64_MAX in Hc; simpl; lia|].
    apply Z.pow_le_mono_l. lia. }
  bind_simpl.
  destruct (find_fan_in_spec (Z.to_nat (fc - 1)) 2 ps k) as (fi & -> & Hfb & Hfr & Hfl);
    [lia|lia|lia| |].
  { by replace (2 + Z.of_nat (Z.to_nat (fc - 1)) - 1) with fc by lia. }
  bind_simpl. pose proof (div_bounds ir fi ltac:(lia)).
  assert (0 < ir / fi) by (apply Z.div_str_pos; lia).
  assert (fi * (ir / fi * rs) <= ir * rs)
    by (rewrite Z.mul_assoc, (Z.mul_comm fi); apply Z.mul_le_mono_nonneg_r; lia).
  destruct (Z.eqb_spec (ir / fi) 0); [lia|].
  eexists. split; [reflexivity|].
  assert (forall m, m < k -> rc * m < count) as Hk2 by (intros m ?; specialize (Hkm m); lia).
  assert (ps <> 0%nat) by (intros ->; simpl in Hps; lia).
  split; cbn [p_run_cap p_out_cap p_input_cap p_fan_in p_passes].
  - by split.
  - exact HO.
  - lia.
  - split; lia.
  - intros _. split; lia.
  - by apply Hkm.
  - intros q Hq. apply Hk2. eapply Z.le_lt_trans; [|by apply Hpl].
    apply Z.pow_le_mono_l. lia.
  - intros g Hg. apply Hk2, Hfl. lia.
Qed.

(** ** The whole sort *)
Section whole.
Context {A : Type} (cmp : A -> A -> Z) `{!CmpOrder cmp} (hole : A).
Context (rs : Z) (Hrs : 0 < rs <= 32768).
Context (count : Z) (Hcount : 0 < count) (Hfit : count * rs <= INT64_MAX).
#[local] Abbreviation n := (Z.to_nat count).

(** The phases of [tc_sort_fd] after the plan. *)
Lemma phases_outcome large plan s :
  plan_ok large rs count plan -> (n <= length (f_main s))%nat ->
  let run_cap := Z.to_nat (p_run_cap plan) in
  let run_fd := negb (Nat.odd (p_passes plan)) in
  outcome (fun s => s) s (fun s' => f_main s' = isort cmp (take n (f_main s)))
    (s ← (if run_fd then Some s else io_truncate hole run_fd 0 s);
     s ← form_runs cmp hole rs n run_fd n run_cap 0 s;
     '(in_fd, s) ← merge_passes cmp hole rs (p_passes plan) run_fd n run_cap
                     (Z.to_nat (p_input_cap plan)) (Z.to_nat (p_fan_in plan))
                     (Z.to_nat (p_out_cap plan)) s;
     if (in_fd : bool) then io_truncate hole true n s else None).
Proof using All.
  intros [[Hrc _] Hoc _ Hnone Hfan Henough _ _] Hn run_cap run_fd.
  assert (Z.of_nat n * rs <= INT64_MAX) as Hfit' by (rewrite Z2Nat.id; lia).
  eapply (outcome_bind (fun s => s) _ s (fun s' => get true s' = get true s)).
  { destruct run_fd; [by split|]. eapply outcome_weaken; [apply io_truncate_outcome|].
    by intros s' [_ ?]. }
  intros s1 Hs1. eapply outcome_bind.
  { apply (form_runs_outcome cmp hole rs (proj1 Hrs) n Hfit' n (le_n _) run_cap);
      rewrite ?Hs1; cbn [get]; lia. }
  intros s2 (Hl2 & E & HE & HlE & HrE & HcE). cbn beta in *. rewrite Hs1 in HcE.
  rewrite take_0 in HE. simpl in HE. cbn [get] in HcE.
  unfold slice in HcE. rewrite Nat.sub_0_r, drop_0 in HcE.
  eapply (outcome_bind snd _ _ (fun p => p.1 = true /\ (n <= length (f_main p.2))%nat /\
    stable_sorted cmp (take n (f_main s)) (take n (f_main p.2)))).
  { destruct (p_passes plan) as [|ps] eqn:Eps.
    - cbn [merge_passes]. split; [|done]. split; [done|]. split; [done|].
      unfold run_fd in *. cbn in HE, Hl2 |- *. rewrite HE.
      split; [|done]. apply (runs_sorted cmp run_cap); [done|].
      pose proof (proj1 Hnone eq_refl). unfold run_cap. lia.
    - destruct Hfan as [Hfan Hic]; [lia|].
      eapply outcome_weaken.
      { apply (merge_passes_outcome cmp hole rs (proj1 Hrs) n Hfit' n (le_n _));
          [lia|unfold run_cap; lia|lia|lia|lia|done|by rewrite HE]. }
      intros [fd s3] (Hfd & Hl3 & Hc3 & rl & Hrl & Hr3). cbn [fst snd] in *.
      assert (fd = true) as -> by (rewrite Hfd; unfold run_fd; by destruct (Nat.odd (S ps))).
      split; [done|]. split; [done|]. rewrite HE in Hc3. split; [|by eapply same_classes_trans].
      apply (runs_sorted cmp rl); [done|]. rewrite length_take.
      destruct Hrl as [Hrl|Hrl]; [lia|]. unfold run_cap in Hrl.
      assert (Z.of_nat (Z.to_nat (p_run_cap plan) * Z.to_nat (p_fan_in plan) ^ S ps) =
              p_run_cap plan * p_fan_in plan ^ Z.of_nat (S ps)) as Hp
        by (rewrite Nat2Z.inj_mul, Nat2Z.inj_pow, !Z2Nat.id by lia; done).
      cbn [get]. lia. }
  intros [fd s3] (Hfd & Hl3 & Hs3). cbn [fst snd] in *. subst fd.
  eapply outcome_weaken; [apply io_truncate_outcome|]. intros s4 [H4 _]. cbn [get] in H4.
  rewrite resize_le in H4 by done. rewrite H4. by apply (stable_sorted_isort cmp).
Qed.
End whole.

(** A whole sort: the records in order, or a failing call. *)
Lemma tc_sort_fd_outcome {A} (cmp : A -> A -> Z) `{!CmpOrder cmp} (hole : A)
    (record_size count : Z) (want_large malloc_large malloc_small : bool) (s : files) :
  0 < record_size <= 32768 -> 0 <= count -> count * record_size <= INT64_MAX ->
  (Z.to_nat count <= length (f_main s))%nat ->
  malloc_small = true \/ (want_large = true /\ malloc_large = true) ->
  outcome (fun s => s) s (fun s' => f_main s' = isort cmp (take (Z.to_nat count) (f_main s)))
    (tc_sort_fd cmp hole record_size want_large malloc_large malloc_small false count s).
Proof.
  intros Hrs Hc Hfit Hn Hm.
  unfold tc_sort_fd. destruct (Z.eqb_spec record_size 0); [lia|].
  destruct (Z.ltb_spec count 0); [lia|]. cbn [orb].
  assert (tc_sort_mul_off count record_size = Some (count * record_size)) as ->.
  { pose proof (mul_off_ok record_size (proj1 Hrs) (Z.to_nat count)) as Hmul.
    rewrite Z2Nat.id in Hmul by lia. specialize (Hmul Hfit (Z.to_nat count) (le_n _)).
    by rewrite Z2Nat.id in Hmul by lia. }
  bind_simpl.
  assert (exists large, (if want_large then
      if malloc_large then Some true else if malloc_small then Some false else None
    else if malloc_small then Some false else None) = Some large) as [large ->]
    by (destruct want_large, malloc_large, malloc_small; eauto; by destruct Hm as [|[]]).
  bind_simpl.
  destruct (tc_sort_plan_ok large record_size count Hrs) as (plan & -> & Hp); [nia|].
  bind_simpl. destruct (Z.eqb_spec count 0) as [->|].
  - eapply outcome_weaken; [apply io_truncate_outcome|]. intros s' [Hs _].
    cbn [get] in Hs. by rewrite Hs, resize_0.
  - apply (phases_outcome cmp hole record_size Hrs count ltac:(lia) Hfit large); done.
Qed.

(** C3. The external sort sorts: whatever budget is chosen, and for every
    record size up to 32 KiB, [tc_sort_fd] on a file with at least [count]
    records leaves in it exactly the first [count] records in the stable order
    of the comparator, unless one of its I/O calls failed; it never fails or
    runs out of passes for another reason. *)
Theorem tc_sort_fd_correct {A} (cmp : A -> A -> Z) `{!CmpOrder cmp} (hole : A)
    (record_size count : Z) (want_large malloc_large malloc_small : bool) (s : files) :
  0 < record_size <= 32768 -> 0 <= count -> count * record_size <= INT64_MAX ->
  (Z.to_nat count <= length (f_main s))%nat ->
  malloc_small = true \/ (want_large = true /\ malloc_large = true) ->
  match tc_sort_fd cmp hole record_size want_large malloc_large malloc_small false count s with
  | Some s' => f_main s' = isort cmp (take (Z.to_nat count) (f_main s)) /\
               stable_sorted cmp (take (Z.to_nat count) (f_main s)) (f_main s')
  | None => true ∈ f_faults s
  end.
Proof.
  intros Hrs Hc Hfit Hn Hm.
  pose proof (tc_sort_fd_outcome cmp hole record_size count want_large malloc_large malloc_small s Hrs Hc Hfit Hn Hm) as H.
  destruct (tc_sort_fd _ _ _ _ _ _ _ _ _) as [s'|]; [|done]. destruct H as [-> _].
  split; [done|]. apply (isort_spec cmp).
Qed.

(** The bottom-up merge sort of one run is the stable sort of that run:
    sorted, with the records the comparator calls equal in their input order
    (in particular a permutation of the run). *)
Theorem tc_sort_stable_runsort_correct {A} (cmp : A -> A -> Z) `{!CmpOrder cmp} (a : list A) :
  stable_sorted cmp a (tc_sort_stable_runsort cmp a) /\ tc_sort_stable_runsort cmp a ≡ₚ a.
Proof.
  rewrite (tc_sort_stable_runsort_isort cmp). split; [apply (isort_spec cmp)|].
  apply (isort_perm cmp).
Qed.

(** The plan always exists for records up to 32 KiB; its buffers fit the
    budget, its passes reach one single run, and both the number of passes and
    the fan-in are the least that do. *)
Theorem tc_sort_plan_optimal large record_size count :
  0 < record_size <= 32768 -> 0 <= count <= INT64_MAX ->
  exists p, tc_sort_plan large record_size count = Some p /\ plan_ok large record_size count p.
Proof. apply tc_sort_plan_ok. Qed.

(** ** Witnesses *)
Definition key_cmp (a b : Z * Z) : Z := fst a - fst b.
#[export] Instance key_cmp_order : CmpOrder key_cmp.
Proof. split; unfold key_cmp; intros; lia. Qed.

Lemma tc_sort_fd_correct_witness :
  let s := {| f_main := [(3, 0); (1, 1); (3, 2); (1, 3); (2, 4); (9, 9)];
              f_scratch := []; f_faults := [] |} in
  exists s', tc_sort_fd key_cmp (0, 0) 32768 false false true false 5 s = Some s' /\
    f_main s' = [(1, 1); (1, 3); (2, 4); (3, 0); (3, 2)].
Proof.
  intros s.
  pose proof (tc_sort_fd_correct key_cmp (0, 0) 32768 5 false false true s) as H.
  destruct (tc_sort_fd key_cmp (0, 0) 32768 false false true false 5 s) as [s'|].
  - exists s'. split; [reflexivity|]. destruct H as [-> _];
      [lia|lia|unfold INT64_MAX; lia|simpl; lia|by left|]. vm_compute. reflexivity.
  - exfalso. apply (not_elem_of_nil true), H;
      [lia|lia|unfold INT64_MAX; lia|simpl; lia|by left].
Defined.

Lemma tc_sort_stable_runsort_correct_witness :
  stable_sorted key_cmp [(2, 0); (1, 1); (2, 2)]
    (tc_sort_stable_runsort key_cmp [(2, 0); (1, 1); (2, 2)]).
Proof. apply (tc_sort_stable_runsort_correct key_cmp). Defined.

Lemma tc_sort_plan_optimal_witness :
  exists p, tc_sort_plan false 4096 1000000 = Some p /\ plan_ok false 4096 1000000 p.
Proof. apply tc_sort_plan_optimal; [lia|unfold INT64_MAX; lia]. Defined.
