(* ===== verification/PlaybackOrder.v ===== *)
(** The shuffle bag of src/library/playback_order.h: the permutation of
    playlist slots a shuffled playlist plays in, kept while slots are inserted
    and removed, and the move of a playlist into its display order. *)
From S2P Require Import Prelude.
Local Open Scope Z_scope.

(** ** Operations *)

(** Renumbering a slot when [added] slots appear at [physical], and when the
    slot [physical] goes away. *)
Definition shift_up (physical added v : Z) : Z := if physical <=? v then v + added else v.
Definition shift_down (physical v : Z) : Z := if physical <? v then v - 1 else v.

(** [playback_order_insert] on the first [count] integers of the bag; [None]
    when [at] is outside them (the [memmove] length would be negative). *)
Definition playback_order_insert (order : list Z) (physical at_ added : Z)
    : option (list Z) :=
  if (at_ <? 0) || (Z.of_nat (length order) <? at_) then None
  else
    let order := map (shift_up physical added) order in
    Some (take (Z.to_nat at_) order ++ seqZ physical added ++ drop (Z.to_nat at_) order).

(** The first bag index that holds [physical]. *)
Fixpoint order_index (order : list Z) (physical : Z) : option nat :=
  match order with
  | [] => None
  | v :: t => if v =? physical then Some 0%nat else S <$> order_index t physical
  end.

(** [playback_order_remove]; [None] is [-1], the bag untouched. *)
Definition playback_order_remove (order : list Z) (physical : Z) : option (nat * list Z) :=
  removed ← order_index order physical;
  Some (removed, map (shift_down physical) (take removed order ++ drop (S removed) order)).

(** [playback_order_note_removed]: the bag, its length and the position in it
    ([None] for a null pointer). *)
Definition playback_order_note_removed (order : option (list Z)) (order_count : option Z)
    (pos : option Z) (physical playlist_count : Z)
    : option (nat * list Z * Z * option Z) :=
  match order, order_count with
  | Some order, Some oc =>
      if negb (oc =? playlist_count) || (playlist_count <=? 0) then None
      else
        '(removed, order) ← playback_order_remove order physical;
        let pos := (fun p => if Z.of_nat removed <=? p then p - 1 else p) <$> pos in
        Some (removed, order, oc - 1, pos)
  | _, _ => None
  end.

Section resequence.
Context {A : Type}.

(** The loop of [playback_order_resequence] from index [i]; [seen] is [None]
    when there is no display order. *)
Fixpoint resequence_loop (todo : nat) (i : Z) (display : option (list Z)) (count : Z)
    (paths : list A) (ranks : option (list Z)) (seen : option (list bool))
    : option (list A * list Z) :=
  match todo with
  | O => Some ([], [])
  | S todo =>
      src ← match display with Some d => d !! Z.to_nat i | None => Some i end;
      if (src <? 0) || (count <=? src) ||
         match seen with Some s => default false (s !! Z.to_nat src) | None => false end
      then None
      else
        path ← paths !! Z.to_nat src;
        rank ← match ranks with Some r => r !! Z.to_nat src | None => Some 0 end;
        '(ps, rs) ← resequence_loop todo (i + 1) display count paths ranks
                      (insert (Z.to_nat src) true <$> seen);
        Some (path :: ps, rank :: rs)
  end.

(** [playback_order_resequence]; [alloc_ok] says whether the allocations
    succeed. The result is [( *out_paths, *out_ranks)]. *)
Definition playback_order_resequence (alloc_ok : bool) (display : option (list Z))
    (count : Z) (paths : option (list A)) (ranks : option (list Z))
    : option (list A * option (list Z)) :=
  if count <? 0 then None
  else if count =? 0 then Some ([], None)
  else
    paths ← paths;
    if negb alloc_ok then None
    else
      let seen := match display with
                  | Some _ => Some (replicate (Z.to_nat count) false)
                  | None => None
                  end in
      '(ps, rs) ← resequence_loop (Z.to_nat count) 0 display count paths ranks seen;
      Some (ps, match ranks with Some _ => Some rs | None => None end).
End resequence.

(** ** The bag is a permutation *)

(** [order] plays each of [count] slots once. *)
Definition bag (count : Z) (order : list Z) : Prop := order ≡ₚ seqZ 0 count.

Lemma bag_length count order : bag count order -> length order = Z.to_nat count.
Proof. intros ->. by rewrite length_seqZ. Qed.
Lemma bag_NoDup count order : bag count order -> NoDup order.
Proof. intros ->. apply NoDup_seqZ. Qed.
Lemma bag_elem count order v : bag count order -> v ∈ order <-> 0 <= v < count.
Proof. intros ->. rewrite elem_of_seqZ. lia. Qed.

Lemma seqZ_split m n k : 0 <= k <= n -> seqZ m n = seqZ m k ++ seqZ (m + k) (n - k).
Proof. intros. rewrite <- seqZ_app by lia. f_equal. lia. Qed.

Lemma map_seqZ f m m' n :
  (forall v, m <= v < m + n -> f v = v + m') -> map f (seqZ m n) = seqZ (m' + m) n.
Proof.
  intros H. rewrite <- fmap_add_seqZ. apply map_ext_in. intros v Hv.
  apply list_elem_of_In, elem_of_seqZ in Hv. rewrite H by done. lia.
Qed.

Lemma map_shift_up_seqZ count physical added :
  0 <= physical <= count ->
  map (shift_up physical added) (seqZ 0 count) =
    seqZ 0 physical ++ seqZ (physical + added) (count - physical).
Proof.
  intros. rewrite (seqZ_split 0 count physical) by lia. rewrite map_app. f_equal.
  - apply (map_seqZ _ 0 0). unfold shift_up. intros v Hv. split_ifs; lia.
  - rewrite (map_seqZ _ _ added); [f_equal; lia|]. unfold shift_up. intros v Hv.
    split_ifs; lia.
Qed.

(** C40. Inserting slots keeps the bag a permutation of all the slots: every
    slot, old or new, is still played exactly once, the new slots come together
    at the requested place, and the others keep their relative order. *)
Theorem playback_order_insert_bag order count physical at_ added :
  bag count order -> 0 <= physical <= count -> 0 <= at_ <= count -> 0 <= added ->
  exists order', playback_order_insert order physical at_ added = Some order' /\
    bag (count + added) order' /\
    take (Z.to_nat added) (drop (Z.to_nat at_) order') = seqZ physical added /\
    filter (fun v => ~ physical <= v < physical + added) order' =
      map (shift_up physical added) order.
Proof.
  intros Hb Hp Ha Hadd. pose proof (bag_length _ _ Hb) as Hl.
  unfold playback_order_insert.
  destruct (Z.ltb_spec at_ 0); [lia|]. destruct (Z.ltb_spec (Z.of_nat (length order)) at_); [lia|].
  eexists. split; [done|]. set (o := map _ order).
  assert (length (take (Z.to_nat at_) o) = Z.to_nat at_) as Hta
    by (rewrite length_take; unfold o; rewrite length_map; lia).
  assert (Forall (fun v => ~ physical <= v < physical + added) o) as Hold.
  { apply list.Forall_forall. intros v Hv. unfold o in Hv.
    apply list_elem_of_In, in_map_iff in Hv as (w & <- & _). unfold shift_up. split_ifs; lia. }
  assert (o ≡ₚ seqZ 0 physical ++ seqZ (physical + added) (count - physical)) as Ho.
  { unfold o. rewrite <- map_shift_up_seqZ by lia. by apply Permutation_map. }
  split; [|split].
  - unfold bag. rewrite (Permutation_app_comm (seqZ physical added)), app_assoc, take_drop, Ho.
    rewrite (seqZ_split 0 (count + added) physical) by lia.
    rewrite (seqZ_split (0 + physical) (count + added - physical) added) by lia.
    rewrite <- app_assoc, (Permutation_app_comm (seqZ (physical + added) _)).
    replace (count + added - physical - added) with (count - physical) by lia.
    by replace (0 + physical + added) with (physical + added) by lia.
  - rewrite drop_app_length' by done. apply take_app_length'. by rewrite length_seqZ.
  - rewrite !list.filter_app, (filter_none _ (seqZ physical added)), app_nil_l.
    + rewrite <- list.filter_app, take_drop. by apply filter_all.
    + apply list.Forall_forall. intros v Hv. apply elem_of_seqZ in Hv. lia.
Qed.

Lemma order_index_spec order physical :
  match order_index order physical with
  | Some i => order !! i = Some physical
  | None => physical ∉ order
  end.
Proof.
  induction order as [|v order IH]; simpl; [apply not_elem_of_nil|].
  destruct (Z.eqb_spec v physical) as [->|]; [done|].
  destruct (order_index order physical); simpl; [done|].
  rewrite not_elem_of_cons. by split.
Qed.

Lemma order_index_app l physical r :
  physical ∉ l -> order_index (l ++ physical :: r) physical = Some (length l).
Proof.
  induction l as [|v l IH]; simpl.
  - intros _. by rewrite Z.eqb_refl.
  - intros [Hv Hl]%not_elem_of_cons. destruct (Z.eqb_spec v physical); [congruence|].
    by rewrite IH.
Qed.

(** Removing a slot keeps the bag a permutation of the remaining slots,
    renumbered, in the same relative order; removing a slot that is not in the
    bag fails. *)
Theorem playback_order_remove_bag order count physical :
  bag count order ->
  match playback_order_remove order physical with
  | Some (removed, order') =>
      0 <= physical < count /\ order !! removed = Some physical /\ bag (count - 1) order' /\
      order' = map (shift_down physical) (filter (fun v => v <> physical) order)
  | None => ~ 0 <= physical < count
  end.
Proof.
  intros Hb. unfold playback_order_remove. pose proof (order_index_spec order physical) as Hi.
  destruct (order_index order physical) as [i|]; simpl; [|by rewrite bag_elem in Hi].
  assert (0 <= physical < count) as Hp
    by (apply (bag_elem _ _ _ Hb); by eapply list_elem_of_lookup_2).
  split; [done|]. split; [done|].
  pose proof (take_drop_middle order i physical Hi) as Ho.
  pose proof (bag_NoDup _ _ Hb) as Hn. unfold bag in Hb. rewrite <- Ho in Hn.
  apply list.NoDup_app in Hn as (Hn1 & Hn2 & Hn3). apply list.NoDup_cons in Hn3 as [Hn3 _].
  split.
  - rewrite <- Ho, <- Permutation_middle in Hb.
    rewrite (seqZ_split 0 count physical), (seqZ_split _ (count - physical) 1) in Hb by lia.
    rewrite (Permutation_app_comm (seqZ (0 + physical) 1)), app_assoc in Hb.
    rewrite (Permutation_app_comm _ (seqZ (0 + physical) 1)) in Hb. simpl in Hb.
    apply Permutation_cons_inv in Hb. unfold bag. rewrite Hb, map_app.
    rewrite (map_seqZ _ 0 0), (map_seqZ _ (physical + 1) (-1));
      [|intros v Hv; unfold shift_down; split_ifs; lia..].
    rewrite (seqZ_split 0 (count - 1) physical) by lia.
    match goal with |- ?a ≡ₚ ?b => replace a with b; [done|] end. f_equal; f_equal; lia.
  - f_equal. rewrite <- Ho at 3. rewrite list.filter_app, list.filter_cons, decide_False by tauto.
    rewrite !filter_all; [done| |].
    + apply list.Forall_forall. intros v Hv ->. done.
    + apply list.Forall_forall. intros v Hv ->. by apply (Hn2 physical), list_elem_of_here.
Qed.

Lemma filter_other (l : list Z) physical r :
  physical ∉ l -> physical ∉ r -> filter (fun v => v <> physical) (l ++ physical :: r) = l ++ r.
Proof.
  intros Hl Hr. rewrite list.filter_app, list.filter_cons, decide_False by tauto.
  rewrite !filter_all; [done| |]; apply list.Forall_forall; intros v Hv ->; done.
Qed.

(** The filter of [filter_other] cut at the bag position [p]. *)
Lemma filter_other_take (l : list Z) physical r p :
  physical ∉ l -> physical ∉ r ->
  filter (fun v => v <> physical) (take (S p) (l ++ physical :: r)) =
    take (if decide (length l <= p)%nat then p else S p) (l ++ r).
Proof.
  intros Hl Hr. case_decide as Hp.
  - rewrite take_app_ge, (take_app_ge l) by lia.
    replace (S p - length l)%nat with (S (p - length l)) by lia. simpl.
    rewrite filter_other; [done|done|]. intros Hin. apply Hr.
    rewrite <- (take_drop (p - length l) r), elem_of_app. by left.
  - rewrite !take_app_le by lia. apply filter_all, list.Forall_forall. intros v Hv ->.
    apply Hl. rewrite <- (take_drop (S p) l), elem_of_app. by left.
Qed.

(** When a slot leaves a shuffled playlist, the tracks already played and
    the tracks still to play stay the same ones in the same order, without the
    removed one: the position moves with its track, and on the removed current
    track it steps back so that the next track is the one that followed. A bag
    whose length is not the playlist's is left alone. *)
Theorem playback_order_note_removed_position order oc count pos physical :
  bag count order -> 0 <= pos < count -> 0 <= physical < count ->
  match playback_order_note_removed (Some order) (Some oc) (Some pos) physical count with
  | Some (removed, order', oc', pos') =>
      oc = count /\ oc' = count - 1 /\ bag (count - 1) order' /\
      exists p', pos' = Some p' /\ -1 <= p' < count /\
        take (Z.to_nat (p' + 1)) order' =
          map (shift_down physical)
            (filter (fun v => v <> physical) (take (Z.to_nat (pos + 1)) order)) /\
        drop (Z.to_nat (p' + 1)) order' =
          map (shift_down physical)
            (filter (fun v => v <> physical) (drop (Z.to_nat (pos + 1)) order))
  | None => oc <> count
  end.
Proof.
  intros Hb Hpos Hp. unfold playback_order_note_removed.
  destruct (Z.eqb_spec oc count) as [->|]; [|done]. destruct (Z.leb_spec count 0); [lia|].
  cbn [negb orb]. pose proof (playback_order_remove_bag order count physical Hb) as Hrm.
  unfold playback_order_remove in *. pose proof (order_index_spec order physical) as Hi.
  destruct (order_index order physical) as [i|]; cbn [mbind option_bind] in *; [|done].
  destruct Hrm as (_ & _ & Hb' & _). split; [done|]. split; [done|]. split; [done|].
  pose proof (take_drop_middle order i physical Hi) as Ho.
  pose proof (bag_NoDup _ _ Hb) as Hn. rewrite <- Ho in Hn.
  apply list.NoDup_app in Hn as (_ & Hn1 & Hn2). apply list.NoDup_cons in Hn2 as [Hn2 _].
  assert (physical ∉ take i order) as Hn3
    by (intros Hin; by apply (Hn1 physical), list_elem_of_here).
  assert (length (take i order) = i) as Hti
    by (rewrite length_take; apply lookup_lt_Some in Hi; lia).
  set (p' := if Z.of_nat i <=? pos then pos - 1 else pos). exists p'.
  split; [done|]. split; [unfold p'; destruct (Z.leb_spec (Z.of_nat i) pos); lia|].
  set (k := Z.to_nat (p' + 1)).
  pose proof (filter_other_take (take i order) physical (drop (S i) order) (Z.to_nat pos) Hn3 Hn2)
    as Hft. rewrite Ho, Hti in Hft. replace (Z.to_nat (pos + 1)) with (S (Z.to_nat pos)) by lia.
  assert ((if decide (i <= Z.to_nat pos)%nat then Z.to_nat pos else S (Z.to_nat pos)) = k) as Hk
    by (unfold k, p'; case_decide; destruct (Z.leb_spec (Z.of_nat i) pos); lia).
  rewrite Hk in Hft. rewrite Hft, firstn_map, skipn_map. split; [done|]. f_equal.
  apply (app_inv_head (take k (take i order ++ drop (S i) order))).
  rewrite take_drop, <- Hft at 1. rewrite <- list.filter_app, take_drop.
  rewrite <- (filter_other (take i order) physical (drop (S i) order)) by done. by rewrite Ho.
Qed.

(** ** Moving a playlist into display order *)
Section resequence_proofs.
Context {A : Type} (count : Z) (paths : list A) (Hpaths : length paths = Z.to_nat count).
Context (ranks : option (list Z)).
Context (Hranks : match ranks with Some r => length r = Z.to_nat count | None => True end).

(** The remaining display indices [r] are usable: in range, not repeated,
    and none of them taken before. *)
Definition usable (s : list bool) (r : list Z) : Prop :=
  NoDup r /\ Forall (fun v => 0 <= v < count /\ s !! Z.to_nat v = Some false) r.

(** [ps] and [rs] are the paths and ranks at the indices [r]. *)
Definition picked (r : list Z) (ps : list A) (rs : list Z) : Prop :=
  omap (fun v => paths !! Z.to_nat v) r = ps /\ length ps = length r /\
  match ranks with
  | Some rk => omap (fun v => rk !! Z.to_nat v) r = rs
  | None => True
  end.

Lemma usable_cons s v r :
  length s = Z.to_nat count ->
  usable s (v :: r) <->
    (0 <= v < count /\ s !! Z.to_nat v = Some false) /\ usable (<[Z.to_nat v:=true]> s) r.
Proof.
  intros Hs. unfold usable. rewrite list.NoDup_cons, Forall_cons_iff. split.
  - intros [[Hv Hn] [[Hr Hf] Ha]]. split; [done|]. split; [done|].
    rewrite list.Forall_forall in *. intros w Hw. destruct (Ha w Hw) as [Hwr Hwf].
    split; [done|]. rewrite list_lookup_insert_ne; [done|]. intros E.
    apply Hv. by replace v with w by lia.
  - intros [[Hr Hf] [Hn Ha]]. rewrite list.Forall_forall in Ha.
    split; [split; [|done] | split; [done|]].
    + intros Hin. destruct (Ha v Hin) as [_ He].
      rewrite list_lookup_insert_eq in He; [done|lia].
    + apply list.Forall_forall. intros w Hw. destruct (Ha w Hw) as [Hwr Hwf].
      split; [done|]. destruct (decide (Z.to_nat v = Z.to_nat w)) as [E|E].
      * rewrite <- E, list_lookup_insert_eq in Hwf; [done|lia].
      * by rewrite list_lookup_insert_ne in Hwf.
Qed.

Lemma picked_cons v r p k ps rs :
  paths !! Z.to_nat v = Some p ->
  match ranks with Some rk => rk !! Z.to_nat v = Some k | None => True end ->
  picked r ps rs -> picked (v :: r) (p :: ps) (k :: rs).
Proof.
  intros Hp Hk (H1 & H2 & H3). unfold picked, omap in *. split; [|split; [simpl; lia|]].
  - simpl. by rewrite Hp, H1.
  - destruct ranks as [rk|]; [|done]. simpl. by rewrite Hk, H3.
Qed.

Lemma resequence_loop_spec d todo i s :
  length s = Z.to_nat count -> 0 <= i -> length (drop (Z.to_nat i) d) = todo ->
  match resequence_loop todo i (Some d) count paths ranks (Some s) with
  | Some (ps, rs) => usable s (drop (Z.to_nat i) d) /\ picked (drop (Z.to_nat i) d) ps rs
  | None => ~ usable s (drop (Z.to_nat i) d)
  end.
Proof using Hpaths Hranks.
  revert i s. induction todo as [|todo IH]; intros i s Hs Hi Hl; cbn [resequence_loop].
  { apply length_zero_iff_nil in Hl as ->. split; [split; constructor|].
    split; [done|]. by destruct ranks. }
  destruct (d !! Z.to_nat i) as [v|] eqn:Ev;
    [|apply lookup_ge_None in Ev; rewrite length_drop in Hl; lia].
  rewrite (drop_S _ v) in * by done. bind_simpl. simpl in Hl.
  pose proof (usable_cons s v (drop (S (Z.to_nat i)) d) Hs) as Hu.
  destruct (Z.ltb_spec v 0); cbn [orb]; [rewrite Hu; lia|].
  destruct (Z.leb_spec count v); cbn [orb]; [rewrite Hu; lia|].
  destruct (lookup_lt_is_Some_2 s (Z.to_nat v)) as [b Hb]; [lia|].
  rewrite Hb. cbn [from_option id]. destruct b; [rewrite Hu, Hb; by intros [[_ ?] _]|].
  destruct (lookup_lt_is_Some_2 paths (Z.to_nat v)) as [p Hp]; [lia|]. rewrite Hp.
  bind_simpl.
  specialize (IH (i + 1) (<[Z.to_nat v:=true]> s)).
  replace (Z.to_nat (i + 1)) with (S (Z.to_nat i)) in IH by lia.
  rewrite length_insert in IH. specialize (IH Hs ltac:(lia) ltac:(lia)).
  assert (exists k, (match ranks with Some r => r !! Z.to_nat v | None => Some 0 end) = Some k)
    as [k Hk] by (destruct ranks; [apply lookup_lt_is_Some_2; lia | by exists 0]).
  rewrite Hk. bind_simpl.
  destruct (resequence_loop _ _ _ _ _ _ _) as [[ps rs]|]; simpl; [|rewrite Hu; tauto].
  destruct IH as [Hu2 Hpk]. split; [tauto|]. apply picked_cons; [done| |done].
  by destruct ranks.
Qed.

Lemma usable_fresh d :
  length d = Z.to_nat count ->
  usable (replicate (Z.to_nat count) false) d <-> bag count d.
Proof using Hpaths.
  intros Hl. unfold usable, bag. split.
  - intros [Hn Hr]. apply submseteq_length_Permutation; [|rewrite length_seqZ; lia].
    apply NoDup_submseteq; [done|]. intros v Hv. rewrite list.Forall_forall in Hr.
    apply elem_of_seqZ. destruct (Hr v Hv). lia.
  - intros Hb. split; [by apply (bag_NoDup count)|]. apply list.Forall_forall.
    intros v Hv. apply (bag_elem count) in Hv; [|done]. split; [done|].
    apply lookup_replicate_2. lia.
Qed.

End resequence_proofs.

Lemma omap_length_le {B C} (f : B -> option C) (l : list B) :
  (length (omap f l) <= length l)%nat.
Proof.
  unfold omap. induction l as [|x l IH]; simpl; [lia|]. destruct (f x); simpl; lia.
Qed.

Lemma omap_seqZ {B} (l : list B) k :
  omap (fun v => l !! Z.to_nat v) (seqZ (Z.of_nat k) (Z.of_nat (length l) - Z.of_nat k)) =
    drop k l.
Proof.
  remember (length l - k)%nat as n eqn:Hn. revert k Hn.
  induction n as [|n IH]; intros k Hn.
  - rewrite drop_ge by lia. by rewrite seqZ_nil by lia.
  - rewrite seqZ_cons by lia. destruct (lookup_lt_is_Some_2 l k) as [x Hx]; [lia|].
    rewrite (drop_S _ x) by done. unfold omap. simpl. rewrite Nat2Z.id, Hx. f_equal.
    rewrite <- (IH (S k)) by lia. unfold omap. f_equal. f_equal; lia.
Qed.

(** [playback_order_resequence] succeeds exactly when the display order
    names every playlist index once; it then delivers every path pointer
    exactly once, each at its display position, and the ranks the same way. *)
Theorem playback_order_resequence_permutation {A} (d : list Z) (paths : list A) ranks count :
  0 < count -> length d = Z.to_nat count -> length paths = Z.to_nat count ->
  match ranks with Some r => length r = Z.to_nat count | None => True end ->
  match playback_order_resequence true (Some d) count (Some paths) ranks with
  | Some (ps, rs) => bag count d /\ ps ≡ₚ paths /\
      (forall i v, d !! i = Some v -> ps !! i = paths !! Z.to_nat v) /\
      (rs = None <-> ranks = None)
  | None => ~ bag count d
  end.
Proof.
  intros Hc Hd Hp Hr. unfold playback_order_resequence.
  destruct (Z.ltb_spec count 0); [lia|]. destruct (Z.eqb_spec count 0); [lia|]. cbn [negb].
  bind_simpl.
  pose proof (resequence_loop_spec count paths Hp ranks Hr d (Z.to_nat count) 0
    (replicate (Z.to_nat count) false)) as Hs.
  rewrite length_replicate in Hs. change (Z.to_nat 0) with 0%nat in Hs. rewrite drop_0 in Hs.
  specialize (Hs eq_refl ltac:(lia) Hd).
  pose proof (usable_fresh count paths Hp d Hd) as Hfresh.
  destruct (resequence_loop _ _ _ _ _ _ _) as [[ps rs]|]; bind_simpl; rewrite Hfresh in Hs; [|done].
  destruct Hs as (Hb & Ho & Hl & _). split; [done|]. split; [|split].
  - rewrite <- Ho. unfold bag in Hb. rewrite Hb.
    pose proof (omap_seqZ paths 0) as Hz. rewrite drop_0 in Hz.
    replace (Z.of_nat (length paths) - Z.of_nat 0) with count in Hz by lia.
    change (Z.of_nat 0) with 0 in Hz. by rewrite Hz.
  - clear Hb Hd Hfresh. subst ps. revert Hl. induction d as [|w d IH]; intros Hl i v Hi; [done|].
    unfold omap in *. simpl in Hl |- *.
    pose proof (omap_length_le (fun v => paths !! Z.to_nat v) d) as Hle. unfold omap in Hle.
    destruct (paths !! Z.to_nat w) as [p|] eqn:Ew; [|lia]. destruct i as [|i]; simpl in *.
    + congruence.
    + apply IH; [lia|done].
  - destruct ranks; split; congruence.
Qed.

(** Removing a freshly inserted slot gives the bag back. *)
Theorem playback_order_insert_remove order count physical at_ :
  bag count order -> 0 <= physical <= count -> 0 <= at_ <= count ->
  exists order', playback_order_insert order physical at_ 1 = Some order' /\
    playback_order_remove order' physical = Some (Z.to_nat at_, order).
Proof.
  intros Hb Hp Ha. pose proof (bag_length _ _ Hb) as Hl. unfold playback_order_insert.
  destruct (Z.ltb_spec at_ 0); [lia|]. destruct (Z.ltb_spec (Z.of_nat (length order)) at_); [lia|].
  eexists. split; [done|]. set (o := map _ order). change (seqZ physical 1) with [physical].
  assert (physical ∉ take (Z.to_nat at_) o) as Hn.
  { intros Hin. assert (physical ∈ o) as Ho
      by (rewrite <- (take_drop (Z.to_nat at_) o), elem_of_app; by left).
    apply list_elem_of_In, in_map_iff in Ho as (w & Hw & _). unfold shift_up in Hw.
    destruct (physical <=? w) eqn:E; bool_prop; lia. }
  unfold playback_order_remove. cbn [app]. rewrite order_index_app by done. bind_simpl.
  assert (length (take (Z.to_nat at_) o) = Z.to_nat at_) as Hta
    by (rewrite length_take; unfold o; rewrite length_map; lia).
  rewrite take_app_length, Hta.
  replace (drop (S (Z.to_nat at_)) (take (Z.to_nat at_) o ++ physical :: drop (Z.to_nat at_) o))
    with (drop (Z.to_nat at_) o).
  2: { rewrite drop_app_ge by lia. rewrite Hta.
       by replace (S (Z.to_nat at_) - Z.to_nat at_)%nat with 1%nat by lia. }
  rewrite take_drop. do 2 f_equal. unfold o. rewrite map_map.
  transitivity (map (fun v => v) order); [|apply map_id].
  apply map_ext_in. intros v _. unfold shift_down, shift_up. split_ifs; lia.
Qed.

(** ** Witnesses *)
Lemma bag_example : bag 3 [2; 0; 1].
Proof. unfold bag. change (seqZ 0 3) with ([0; 1] ++ [2]). by rewrite Permutation_app_comm. Qed.

Lemma playback_order_insert_bag_witness :
  exists o, playback_order_insert [2; 0; 1] 1 2 2 = Some o /\ bag 5 o.
Proof.
  destruct (playback_order_insert_bag [2; 0; 1] 3 1 2 2 bag_example) as (o & Ho & Hb & _);
    [lia..|]. by exists o.
Defined.
Lemma playback_order_remove_bag_witness : bag 2 [1; 0] /\ playback_order_remove [2; 0; 1] 1 = Some (2%nat, [1; 0]).
Proof.
  destruct (playback_order_remove_bag [2; 0; 1] 3 1 bag_example) as (_ & _ & Hb & _).
  split; [exact Hb|reflexivity].
Defined.
Lemma playback_order_note_removed_position_witness :
  playback_order_note_removed (Some [2; 0; 1]) (Some 3) (Some 1) 0 3 =
    Some (1%nat, [1; 0], 2, Some 0) /\ bag 2 [1; 0].
Proof.
  destruct (playback_order_note_removed_position [2; 0; 1] 3 3 1 0 bag_example) as (_ & _ & Hb & _);
    [lia..|]. split; [reflexivity|exact Hb].
Defined.
Lemma playback_order_resequence_permutation_witness :
  playback_order_resequence true (Some [2; 0; 1]) 3 (Some [10; 11; 12]) None =
    Some ([12; 10; 11], None) /\ [12; 10; 11] ≡ₚ [10; 11; 12].
Proof.
  destruct (playback_order_resequence_permutation [2; 0; 1] [10; 11; 12] None 3)
    as (_ & Hp & _); [lia|reflexivity|reflexivity|done|]. split; [reflexivity|exact Hp].
Defined.
Lemma playback_order_insert_remove_witness :
  exists o, playback_order_insert [2; 0; 1] 1 2 1 = Some o /\
    playback_order_remove o 1 = Some (2%nat, [2; 0; 1]).
Proof. apply (playback_order_insert_remove [2; 0; 1] 3 1 2 bag_example); lia. Defined.
