(* ===== verification/ScanIntern.v ===== *)
(** The disk-backed intern table of src/library/tagcache_scan_intern.h: an
    open-addressing hash table of references into the tag files, one for each
    case-insensitive spelling, that grows as a scan appends tags. *)
From S2P Require Import Prelude Endian.
Local Open Scope Z_scope.

(** ** Hashing and comparing spellings *)
Definition tc_scan_intern_hash (s : list Z) : Z :=
  let h := fold_left (fun h c => u32 (Z.lxor h (tolower c) * 16777619)) s 2166136261 in
  if h =? 0 then 1 else h.

Fixpoint tc_scan_intern_equal_ci (a b : list Z) : bool :=
  match a, b with
  | x :: a, y :: b => if tolower x =? tolower y then tc_scan_intern_equal_ci a b else false
  | [], [] => true
  | _, _ => false
  end.

Definition TAG_COUNT : Z := 23.
Definition HEADER_SIZE : Z := 12.
Definition ENTRY_SIZE : Z := 8.
Definition TAGCACHE_PATH_MAX : Z := 600.
Definition INT32_MAX : Z := 2147483647.

(** A read of [n] bytes at [off], all or nothing. *)
Definition pread_n (file : list Z) (n off : Z) : option (list Z) :=
  let data := take (Z.to_nat n) (drop (Z.to_nat off) file) in
  if Z.of_nat (length data) =? n then Some data else None.

(** [struct tagfile_entry]: the length and the slot. *)
Definition read_entry (file : list Z) (off : Z) : option (Z * Z) :=
  b ← pread_n file ENTRY_SIZE off;
  len ← library_read_u32le b; id ← library_read_u32le (drop 4 b);
  Some (i32 len, i32 id).

(** The tag file of each tag; [None] is a closed descriptor, of size 0. *)
Definition tag_files := Z -> option (list Z).

(** [tc_scan_intern_read]: the value at [seek] without its terminator. *)
Definition tc_scan_intern_read (files : tag_files) (tag seek cap : Z) : option (list Z) :=
  if (tag <? 0) || (TAG_COUNT <=? tag) || (seek <? HEADER_SIZE) || (cap =? 0) then None else
  file ← files tag;
  let size := Z.of_nat (length file) in
  if size <? seek + ENTRY_SIZE then None else
  '(len, _) ← read_entry file seek;
  if (len <=? 0) || (cap <? len) || (size <? seek + ENTRY_SIZE + len) then None else
  out ← pread_n file len (seek + ENTRY_SIZE);
  let n := Z.to_nat (len - 1) in
  last ← out !! n;
  if negb (forallb (fun b => negb (b =? 0)) (take n out)) || negb (last =? 0) then None
  else Some (take n out).

(** [append_string] of tagcache.c on an open tag file: the new contents and
    the offset of the new entry. *)
Definition append_string (file : list Z) (slot : Z) (value : list Z) : option (list Z * Z) :=
  let len := Z.of_nat (length value) + 1 in
  if TAGCACHE_PATH_MAX <? len then None else
  let off := Z.of_nat (length file) in
  if (off <? HEADER_SIZE) || (INT32_MAX - ENTRY_SIZE - len <? off) then None else
  Some (file ++ le32 len ++ le32 slot ++ value ++ [0], off).

(** ** The table *)
Record cell := { c_hash : Z; c_seek : Z; c_tag : Z }.
Definition empty_cell : cell := {| c_hash := 0; c_seek := 0; c_tag := 0 |}.
Definition occupied (c : cell) : bool := negb (c_hash c =? 0).

Record intern := { t_fd : option (list cell); t_ready : bool; t_capacity : Z; t_used : Z }.
Definition closed_intern : intern :=
  {| t_fd := None; t_ready := false; t_capacity := 0; t_used := 0 |}.

Definition TC_SCAN_INTERN_INITIAL : Z := 1024.
Definition TC_SCAN_INTERN_MAX : Z := 8388608.

Inductive probe_result := Found (slot : Z) (canonical : list Z) | Absent (slot : Z) | ProbeError.

Section table.
Context (files : tag_files).
(** Which cells can be read and written, and whether a temporary file of a
    given capacity can be made. *)
Context (read_ok write_ok : Z -> bool) (temp_ok : Z -> bool).

Definition read_cell (cells : list cell) (slot : Z) : option cell :=
  if read_ok slot then cells !! Z.to_nat slot else None.
Definition write_cell (cells : list cell) (slot : Z) (c : cell) : option (list cell) :=
  if write_ok slot then Some (<[Z.to_nat slot := c]> cells) else None.
Definition create_temp (capacity : Z) : option (list cell) :=
  if temp_ok capacity then Some (replicate (Z.to_nat capacity) empty_cell) else None.

Fixpoint probe_loop (fuel : nat) (n : Z) (cells : list cell) (capacity hash : Z)
    (value : list Z) (cap : Z) : probe_result :=
  match fuel with
  | O => ProbeError
  | S fuel =>
      let slot := Z.land (u32 (hash + n)) (capacity - 1) in
      match read_cell cells slot with
      | None => ProbeError
      | Some c =>
          if c_hash c =? 0 then Absent slot
          else if negb (c_hash c =? hash) then
            probe_loop fuel (n + 1) cells capacity hash value cap
          else
            match tc_scan_intern_read files (c_tag c) (c_seek c) cap with
            | None => ProbeError
            | Some canonical =>
                if tc_scan_intern_equal_ci canonical value then Found slot canonical
                else probe_loop fuel (n + 1) cells capacity hash value cap
            end
      end
  end.
Definition tc_scan_intern_probe (t : intern) (value : list Z) (cap : Z) : probe_result :=
  match t_fd t with
  | None => ProbeError
  | Some cells => probe_loop (Z.to_nat (t_capacity t)) 0 cells (t_capacity t)
                    (tc_scan_intern_hash value) value cap
  end.

Fixpoint place_loop (fuel : nat) (n : Z) (cells : list cell) (capacity start : Z) (c : cell)
    : option (list cell) :=
  match fuel with
  | O => None
  | S fuel =>
      let slot := Z.land (u32 (start + n)) (capacity - 1) in
      current ← read_cell cells slot;
      if c_hash current =? 0 then write_cell cells slot c
      else place_loop fuel (n + 1) cells capacity start c
  end.
Definition tc_scan_intern_place (cells : list cell) (capacity : Z) (c : cell)
    : option (list cell) :=
  place_loop (Z.to_nat capacity) 0 cells capacity (Z.land (c_hash c) (capacity - 1)) c.

(** The copy loop of [tc_scan_intern_grow] over the old slots from [slot]. *)
Fixpoint grow_loop (todo : nat) (slot : Z) (old cells : list cell) (next : Z)
    : option (list cell) :=
  match todo with
  | O => Some cells
  | S todo =>
      c ← read_cell old slot;
      cells ← (if negb (c_hash c =? 0) then tc_scan_intern_place cells next c else Some cells);
      grow_loop todo (slot + 1) old cells next
  end.
Definition tc_scan_intern_grow (t : intern) : option intern :=
  if TC_SCAN_INTERN_MAX <=? t_capacity t then None else
  let next := if t_capacity t =? 0 then TC_SCAN_INTERN_INITIAL else u32 (t_capacity t * 2) in
  let next := if TC_SCAN_INTERN_MAX <? next then TC_SCAN_INTERN_MAX else next in
  cells ← create_temp next;
  old ← t_fd t;
  cells ← grow_loop (Z.to_nat (t_capacity t)) 0 old cells next;
  Some {| t_fd := Some cells; t_ready := t_ready t; t_capacity := next; t_used := t_used t |}.

(** [tc_scan_intern_add_cell], with the table it leaves behind. *)
Definition tc_scan_intern_add_cell (t : intern) (c : cell) : bool * intern :=
  let grown := if u32 (t_capacity t * 7) <=? u32 (t_used t * 10) then tc_scan_intern_grow t
               else Some t in
  match grown with
  | None => (false, t)
  | Some t =>
      match t_fd t with
      | None => (false, t)
      | Some cells =>
          match tc_scan_intern_place cells (t_capacity t) c with
          | None => (false, t)
          | Some cells => (true, {| t_fd := Some cells; t_ready := t_ready t;
                                    t_capacity := t_capacity t; t_used := u32 (t_used t + 1) |})
          end
      end
  end.

(** The loop of [scan_intern_init] over one tag file from [pos]. *)
Fixpoint init_file (fuel : nat) (t : intern) (tag pos : Z) : bool * intern :=
  let file := default [] (files tag) in
  let size := Z.of_nat (length file) in
  if pos + ENTRY_SIZE <=? size then
    match fuel, read_entry file pos with
    | S fuel, Some (len, _) =>
        if (len <=? 0) || (size <? pos + ENTRY_SIZE + len) then (false, t) else
        match tc_scan_intern_read files tag (i32 pos) TAGCACHE_PATH_MAX with
        | None => (false, t)
        | Some value =>
            let '(ok, t) :=
              match tc_scan_intern_probe t value TAGCACHE_PATH_MAX with
              | ProbeError => (false, t)
              | Found _ _ => (true, t)
              | Absent _ => tc_scan_intern_add_cell t
                  {| c_hash := tc_scan_intern_hash value; c_seek := i32 pos; c_tag := tag |}
              end in
            if ok then init_file fuel t tag (pos + ENTRY_SIZE + len) else (false, t)
        end
    | _, _ => (false, t)
    end
  else (true, t).
Definition tag_title : Z := 3.
Definition INIT_TAGS : list Z := [tag_title; 0; 1; 7; 2].
Fixpoint init_tags (tags : list Z) (include_titles : bool) (t : intern) : bool * intern :=
  match tags with
  | [] => (true, t)
  | tag :: tags =>
      if (tag =? tag_title) && negb include_titles then init_tags tags include_titles t
      else
        let '(ok, t) := init_file (length (default [] (files tag))) t tag HEADER_SIZE in
        if ok then init_tags tags include_titles t else (false, t)
  end.
Definition scan_intern_init (include_titles : bool) : bool * intern :=
  match create_temp TC_SCAN_INTERN_INITIAL with
  | None => (false, closed_intern)
  | Some cells =>
      init_tags INIT_TAGS include_titles
        {| t_fd := Some cells; t_ready := true; t_capacity := TC_SCAN_INTERN_INITIAL;
           t_used := 0 |}
  end.

(** [scan_intern_find]: the [update_failed] flag it raises, and the spelling. *)
Definition scan_intern_find (t : intern) (value : list Z) (out_size : Z)
    : bool * option (list Z) :=
  if negb (t_ready t) || (out_size =? 0) then (false, None) else
  match tc_scan_intern_probe t value TAGCACHE_PATH_MAX with
  | ProbeError => (true, None)
  | Absent _ => (false, None)
  | Found _ canonical =>
      if out_size <=? Z.of_nat (length canonical) then (false, None)
      else (false, Some (snprintf_s (Z.to_nat out_size) canonical))
  end.

Definition scan_intern_insert (t : intern) (tag seek : Z) : bool * intern :=
  if negb (t_ready t) || (tag <? 0) || (TAG_COUNT <=? tag) || (seek <? 0) then (false, t) else
  match tc_scan_intern_read files tag seek TAGCACHE_PATH_MAX with
  | None => (false, t)
  | Some value =>
      match tc_scan_intern_probe t value TAGCACHE_PATH_MAX with
      | ProbeError => (false, t)
      | Found _ _ => (true, t)
      | Absent _ => tc_scan_intern_add_cell t
          {| c_hash := tc_scan_intern_hash value; c_seek := seek; c_tag := tag |}
      end
  end.
End table.
