(* ===== verification/ScanInternProofs.v ===== *)
(** The intern table finds exactly the spellings it holds, through growth,
    probing and I/O failures (the definitions are in ScanIntern.v). *)
From S2P Require Import Prelude Endian ScanIntern.
Local Open Scope Z_scope.

(** ** Spellings *)
Lemma tc_scan_intern_equal_ci_spec a b :
  tc_scan_intern_equal_ci a b = true <-> map tolower a = map tolower b.
Proof.
  revert b; induction a as [|x a IH]; intros [|y b]; simpl; [done|done|done|].
  destruct (Z.eqb_spec (tolower x) (tolower y)) as [->|]; [|split; [done|congruence]].
  rewrite IH. split; congruence.
Qed.

(** The hash only depends on the case-folded spelling. *)
Lemma tc_scan_intern_hash_ci a b :
  map tolower a = map tolower b -> tc_scan_intern_hash a = tc_scan_intern_hash b.
Proof.
  intros H. unfold tc_scan_intern_hash. enough (forall h,
    fold_left (fun h c => u32 (Z.lxor h (tolower c) * 16777619)) a h =
    fold_left (fun h c => u32 (Z.lxor h (tolower c) * 16777619)) b h) as -> by done.
  revert b H; induction a as [|x a IH]; intros [|y b] [=] h; simpl; [done|].
  rewrite H0. by apply IH.
Qed.
Lemma tc_scan_intern_hash_nonzero a : tc_scan_intern_hash a <> 0.
Proof. unfold tc_scan_intern_hash. case_match eqn:E; bool_prop; lia. Qed.

(** ** Slots *)
Definition pow2 (cap : Z) : Prop := exists k, 10 <= k <= 23 /\ cap = 2 ^ k.

Lemma pow2_bounds cap : pow2 cap -> 1024 <= cap <= TC_SCAN_INTERN_MAX.
Proof.
  intros (k & Hk & ->). change 1024 with (2 ^ 10). change TC_SCAN_INTERN_MAX with (2 ^ 23).
  split; apply Z.pow_le_mono_r; lia.
Qed.

Lemma slot_mod cap z : pow2 cap -> Z.land (u32 z) (cap - 1) = z mod cap.
Proof.
  intros (k & Hk & ->). replace (2 ^ k - 1) with (Z.ones k)
    by (rewrite Z.ones_equiv; lia).
  rewrite Z.land_ones by lia. unfold u32.
  apply Z.mod_mod_divide.
  exists (2 ^ (32 - k)). rewrite <- Z.pow_add_r by lia. by replace (32 - k + k) with 32 by lia.
Qed.
Lemma start_mod cap z n :
  pow2 cap -> Z.land (u32 (Z.land z (cap - 1) + n)) (cap - 1) = (z + n) mod cap.
Proof.
  intros Hc. rewrite slot_mod by done. destruct Hc as (k & Hk & ->).
  replace (2 ^ k - 1) with (Z.ones k) by (rewrite Z.ones_equiv; lia).
  rewrite Z.land_ones by lia. apply Zplus_mod_idemp_l.
Qed.

Definition entries (cells : list cell) : list cell := filter (fun c => c_hash c <> 0) cells.
Lemma entries_app a b : entries (a ++ b) = entries a ++ entries b.
Proof. apply list.filter_app. Qed.
Lemma entries_length cells : (length (entries cells) <= length cells)%nat.
Proof. apply length_filter. Qed.

Lemma entries_insert cells s c0 c :
  cells !! s = Some c0 -> c_hash c0 = 0 -> c_hash c <> 0 ->
  entries (<[s:=c]> cells) ≡ₚ c :: entries cells.
Proof.
  intros Hs H0 Hc. rewrite (insert_take_drop cells s c) by by eapply lookup_lt_Some.
  rewrite <- (take_drop_middle cells s c0 Hs) at 3. rewrite !entries_app.
  unfold entries. rewrite !list.filter_cons, decide_True, decide_False by (done || auto).
  by rewrite Permutation_middle.
Qed.

Lemma entries_elem cells c :
  c ∈ entries cells <-> exists s, cells !! s = Some c /\ c_hash c <> 0.
Proof.
  unfold entries. rewrite list_elem_of_filter, list_elem_of_lookup. split.
  - intros [Hc [s Hs]]. eauto.
  - intros (s & Hs & Hc). eauto.
Qed.

Section proofs.
Context (files : tag_files) (read_ok write_ok temp_ok : Z -> bool).
#[local] Abbreviation tread := (tc_scan_intern_read files).

(** The probe path of the hash [h] is occupied up to its [n]th slot. *)
Definition path (cells : list cell) (cap h n : Z) : Prop :=
  forall m, 0 <= m < n ->
    exists c, cells !! Z.to_nat ((h + m) mod cap) = Some c /\ c_hash c <> 0.
(** Every entry is on the occupied part of its own probe path. *)
Definition reach (cells : list cell) (cap : Z) : Prop :=
  forall s c, cells !! s = Some c -> c_hash c <> 0 ->
    exists n, 0 <= n < cap /\ s = Z.to_nat ((c_hash c + n) mod cap) /\
              path cells cap (c_hash c) n.
Record table_ok (cells : list cell) (cap : Z) : Prop := {
  to_pow2 : pow2 cap; to_length : length cells = Z.to_nat cap; to_reach : reach cells cap }.

(** A call to come failed. *)
Definition faulty : Prop :=
  (exists s, read_ok s = false) \/ (exists s, write_ok s = false) \/
  (exists s, temp_ok s = false).

Lemma path_insert cells cap h n s c :
  c_hash c <> 0 -> path cells cap h n -> path (<[s:=c]> cells) cap h n.
Proof.
  intros Hc Hp m Hm. destruct (Hp m Hm) as (d & Hd & Hd0).
  destruct (decide (s = Z.to_nat ((h + m) mod cap))) as [->|Hne].
  - exists c. split; [|done]. apply list_lookup_insert_eq. by eapply lookup_lt_Some.
  - exists d. by rewrite list_lookup_insert_ne.
Qed.

Lemma path_step cells cap h n c :
  path cells cap h n -> cells !! Z.to_nat ((h + n) mod cap) = Some c -> c_hash c <> 0 ->
  path cells cap h (n + 1).
Proof.
  intros Hp Hc Hn m Hm. destruct (decide (m = n)) as [->|]; [by exists c | apply Hp; lia].
Qed.

(** A path around the whole table means that it is full. *)
Lemma path_full cells cap h :
  table_ok cells cap -> path cells cap h cap -> length (entries cells) = length cells.
Proof.
  intros [Hp Hl _] Hpath. pose proof (pow2_bounds _ Hp). unfold entries.
  rewrite filter_all; [done|]. apply list.Forall_forall. intros c Hc.
  apply list_elem_of_lookup in Hc as [s Hs]. pose proof (lookup_lt_Some _ _ _ Hs).
  destruct (Hpath ((Z.of_nat s - h) mod cap)) as (d & Hd & Hd0);
    [apply Z.mod_pos_bound; lia|].
  rewrite Zplus_mod_idemp_r in Hd. replace (h + (Z.of_nat s - h)) with (Z.of_nat s) in Hd by lia.
  rewrite Z.mod_small in Hd by lia. rewrite Nat2Z.id in Hd. congruence.
Qed.

Lemma slot_in cells cap z :
  table_ok cells cap -> exists c, cells !! Z.to_nat (z mod cap) = Some c.
Proof.
  intros [Hp Hl _]. pose proof (pow2_bounds _ Hp).
  pose proof (Z.mod_pos_bound z cap ltac:(lia)).
  destruct (lookup_lt_is_Some_2 cells (Z.to_nat (z mod cap))) as [c Hc]; [lia|]. by exists c.
Qed.

(** ** Placing a cell *)
Lemma place_loop_spec fuel n cells cap c :
  table_ok cells cap -> 0 <= n <= cap -> fuel = Z.to_nat (cap - n) ->
  path cells cap (c_hash c) n ->
  match place_loop read_ok write_ok fuel n cells cap (Z.land (c_hash c) (cap - 1)) c with
  | Some cells' => exists n' c0, 0 <= n' < cap /\ path cells cap (c_hash c) n' /\
      let s := Z.to_nat ((c_hash c + n') mod cap) in
      cells !! s = Some c0 /\ c_hash c0 = 0 /\ cells' = <[s:=c]> cells
  | None => faulty \/ length (entries cells) = length cells
  end.
Proof.
  intros Hok. pose proof (to_pow2 _ _ Hok) as Hp. pose proof (pow2_bounds _ Hp).
  revert n; induction fuel as [|fuel IH]; intros n Hn Hf Hpath; cbn [place_loop].
  { right. replace n with cap in Hpath by lia. by eapply path_full. }
  rewrite start_mod by done. set (z := (c_hash c + n) mod cap) in *. unfold read_cell.
  destruct (read_ok z) eqn:Er; bind_simpl; [|left; left; by exists z].
  destruct (slot_in cells cap (c_hash c + n) Hok) as [d Hd]. fold z in Hd. rewrite Hd.
  bind_simpl. destruct (Z.eqb_spec (c_hash d) 0) as [E|E].
  - unfold write_cell. destruct (write_ok z) eqn:Ew; [|left; right; left; by exists z].
    exists n, d. split; [lia|]. by repeat split.
  - apply IH; [lia|lia|]. by apply (path_step _ _ _ _ d).
Qed.

Lemma tc_scan_intern_place_ok cells cap c :
  table_ok cells cap -> c_hash c <> 0 -> (length (entries cells) < length cells)%nat ->
  match tc_scan_intern_place read_ok write_ok cells cap c with
  | Some cells' => table_ok cells' cap /\ entries cells' ≡ₚ c :: entries cells
  | None => faulty
  end.
Proof.
  intros Hok Hc Hl. pose proof (to_pow2 _ _ Hok) as Hp. pose proof (pow2_bounds _ Hp).
  unfold tc_scan_intern_place.
  pose proof (place_loop_spec (Z.to_nat cap) 0 cells cap c Hok) as Hs.
  specialize (Hs ltac:(lia) ltac:(f_equal; lia)).
  assert (path cells cap (c_hash c) 0) as H0 by (intros m Hm; lia). specialize (Hs H0).
  destruct (place_loop _ _ _ _ _ _ _ _) as [cells'|]; [|destruct Hs; [done|lia]].
  destruct Hs as (n & c0 & Hn & Hpath & Hlook & H00 & ->).
  set (s := Z.to_nat _) in *. split; [|by apply (entries_insert cells s c0)].
  split; [done|by rewrite length_insert; apply Hok|]. intros s' d Hd Hd0.
  destruct (decide (s = s')) as [<-|Hne].
  - rewrite list_lookup_insert_eq in Hd by (by eapply lookup_lt_Some). injection Hd as <-.
    exists n. split; [done|]. split; [done|]. by apply path_insert.
  - rewrite list_lookup_insert_ne in Hd by done.
    destruct (to_reach _ _ Hok s' d Hd Hd0) as (n' & Hn' & Hs' & Hp').
    exists n'. split; [done|]. split; [done|]. by apply path_insert.
Qed.

Lemma fresh_ok cap : pow2 cap -> table_ok (replicate (Z.to_nat cap) empty_cell) cap.
Proof.
  intros Hp. split; [done|apply length_replicate|]. intros s c Hs Hc.
  apply lookup_replicate in Hs as [-> _]. done.
Qed.
Lemma fresh_entries n : entries (replicate n empty_cell) = [].
Proof.
  apply filter_none, list.Forall_forall. intros c Hc. apply elem_of_replicate in Hc as [-> _].
  by intros H.
Qed.

(** ** Growing *)
Lemma grow_loop_ok todo slot old cells cap :
  table_ok cells cap -> 0 <= slot -> todo = (length old - Z.to_nat slot)%nat ->
  (length (entries cells) + length (entries (drop (Z.to_nat slot) old)) < length cells)%nat ->
  match grow_loop read_ok write_ok todo slot old cells cap with
  | Some cells' => table_ok cells' cap /\
      entries cells' ≡ₚ entries (drop (Z.to_nat slot) old) ++ entries cells
  | None => faulty
  end.
Proof.
  revert slot cells. induction todo as [|todo IH]; intros slot cells Hok Hs Ht Hl;
    cbn [grow_loop].
  { split; [done|]. by rewrite drop_ge by lia. }
  unfold read_cell at 1. destruct (read_ok slot) eqn:Er; bind_simpl; [|left; by exists slot].
  destruct (lookup_lt_is_Some_2 old (Z.to_nat slot)) as [c Hc]; [lia|]. rewrite Hc. bind_simpl.
  rewrite (drop_S _ c) in * by done.
  replace (S (Z.to_nat slot)) with (Z.to_nat (slot + 1)) in * by lia.
  unfold entries in Hl at 2. rewrite list.filter_cons in Hl. fold (entries (drop (Z.to_nat (slot + 1)) old)) in Hl.
  unfold entries at 2. rewrite list.filter_cons. fold (entries (drop (Z.to_nat (slot + 1)) old)).
  destruct (Z.eqb_spec (c_hash c) 0) as [E|E]; cbn [negb].
  - bind_simpl. rewrite decide_False in Hl |- * by tauto. apply IH; [done|lia|lia|done].
  - rewrite decide_True in Hl |- * by done. simpl in Hl.
    pose proof (tc_scan_intern_place_ok cells cap c Hok E ltac:(lia)) as Hpl.
    destruct (tc_scan_intern_place _ _ _ _ _) as [cells1|]; bind_simpl; [|done].
    destruct Hpl as [Hok1 He1]. pose proof (Permutation_length He1) as Hl1. simpl in Hl1.
    specialize (IH (slot + 1) cells1 Hok1 ltac:(lia) ltac:(lia)).
    rewrite (to_length _ _ Hok1), <- (to_length _ _ Hok) in IH. specialize (IH ltac:(lia)).
    destruct (grow_loop _ _ _ _ _ _ _) as [cells2|]; [|done].
    destruct IH as [Hok2 He2]. split; [done|]. rewrite He2, He1. simpl.
    by rewrite Permutation_middle.
Qed.

(** ** The table *)
Definition key (c : cell) : option (list Z) :=
  map tolower <$> tread (c_tag c) (c_seek c) TAGCACHE_PATH_MAX.
(** A cell refers to a readable value and holds its hash. *)
Definition valid (c : cell) : Prop :=
  exists v, tread (c_tag c) (c_seek c) TAGCACHE_PATH_MAX = Some v /\
            c_hash c = tc_scan_intern_hash v.
Definition tentries (t : intern) : list cell :=
  match t_fd t with Some cells => entries cells | None => [] end.

Record intern_ok (t : intern) : Prop := {
  io_ready : t_ready t = true;
  io_table : exists cells, t_fd t = Some cells /\ table_ok cells (t_capacity t);
  io_used : t_used t = Z.of_nat (length (tentries t));
  io_load : t_used t * 10 < t_capacity t * 7 + 10;
  io_valid : Forall valid (tentries t);
  io_distinct : NoDup (map key (tentries t)) }.

Lemma pow2_double cap : pow2 cap -> cap < TC_SCAN_INTERN_MAX ->
  pow2 (cap * 2) /\ cap * 2 <= TC_SCAN_INTERN_MAX.
Proof.
  intros (k & Hk & ->) Hm. assert (k < 23) as Hk2.
  { apply (Z.pow_lt_mono_r_iff 2); [lia|lia|]. exact Hm. }
  assert (2 ^ k * 2 = 2 ^ (k + 1)) as -> by (rewrite Z.pow_add_r; lia).
  split; [exists (k + 1); split; [lia|done]|].
  change TC_SCAN_INTERN_MAX with (2 ^ 23). apply Z.pow_le_mono_r; lia.
Qed.

Lemma intern_ok_change t t' :
  intern_ok t -> t_ready t' = true ->
  (exists cells, t_fd t' = Some cells /\ table_ok cells (t_capacity t')) ->
  tentries t' ≡ₚ tentries t -> t_used t' = t_used t -> t_capacity t <= t_capacity t' ->
  intern_ok t'.
Proof.
  intros [H1 H2 H3 H4 H5 H6] Hr Ht He Hu Hc. split; [done|done| | | |].
  - rewrite He. congruence.
  - lia.
  - by rewrite He.
  - by rewrite He.
Qed.

Lemma tc_scan_intern_grow_ok t :
  intern_ok t ->
  match tc_scan_intern_grow read_ok write_ok temp_ok t with
  | Some t' => intern_ok t' /\ tentries t' ≡ₚ tentries t /\ t_capacity t' = t_capacity t * 2
  | None => faulty \/ t_capacity t = TC_SCAN_INTERN_MAX
  end.
Proof.
  intros Ht. pose proof Ht as [_ (cells & Hfd & Hok) Hu Hl _ _].
  pose proof (pow2_bounds _ (to_pow2 _ _ Hok)) as Hb. unfold tc_scan_intern_grow.
  destruct (Z.leb_spec TC_SCAN_INTERN_MAX (t_capacity t)); [right; lia|].
  destruct (pow2_double _ (to_pow2 _ _ Hok)) as [Hp2 Hm2]; [done|].
  destruct (Z.eqb_spec (t_capacity t) 0); [lia|].
  rewrite u32_id by (unfold in_u32; unfold TC_SCAN_INTERN_MAX in *; lia).
  destruct (Z.ltb_spec TC_SCAN_INTERN_MAX (t_capacity t * 2)); [lia|].
  unfold create_temp. destruct (temp_ok (t_capacity t * 2)) eqn:Et; bind_simpl;
    [|left; right; right; eauto]. rewrite Hfd. bind_simpl.
  pose proof (grow_loop_ok (Z.to_nat (t_capacity t)) 0 cells _ _ (fresh_ok _ Hp2)) as Hg.
  change (Z.to_nat 0) with 0%nat in Hg. rewrite drop_0, fresh_entries, length_replicate in Hg.
  pose proof (entries_length cells) as Hle. pose proof (to_length _ _ Hok) as Hlen.
  specialize (Hg ltac:(lia) ltac:(lia)). simpl in Hg. specialize (Hg ltac:(lia)).
  destruct (grow_loop _ _ _ _ _ _ _) as [cells'|]; bind_simpl; [|by left].
  destruct Hg as [Hok' He]. rewrite app_nil_r in He.
  split; [|split; [unfold tentries; simpl; by rewrite Hfd|done]].
  eapply intern_ok_change; [done|apply Ht|by exists cells'| |done|simpl; lia].
  unfold tentries. simpl. by rewrite Hfd.
Qed.

(** [tc_scan_intern_add_cell] adds the cell, or leaves the entries alone
    because of an I/O failure or the largest table being full. *)
Lemma tc_scan_intern_add_cell_ok t c :
  intern_ok t -> valid c -> key c ∉ map key (tentries t) ->
  let '(ok, t') := tc_scan_intern_add_cell read_ok write_ok temp_ok t c in
  intern_ok t' /\
  if (ok : bool) then tentries t' ≡ₚ c :: tentries t
  else tentries t' ≡ₚ tentries t /\ (faulty \/ t_capacity t = TC_SCAN_INTERN_MAX).
Proof.
  intros Ht Hv Hk. unfold tc_scan_intern_add_cell.
  pose proof (io_load _ Ht) as Hl. pose proof (io_used _ Ht) as Hu.
  destruct (io_table _ Ht) as (cells & Hfd & Hok).
  pose proof (pow2_bounds _ (to_pow2 _ _ Hok)) as Hb. unfold TC_SCAN_INTERN_MAX in Hb.
  rewrite !u32_id by (unfold in_u32; lia).
  assert (match (if t_capacity t * 7 <=? t_used t * 10 then
                   tc_scan_intern_grow read_ok write_ok temp_ok t else Some t) with
          | Some t1 => intern_ok t1 /\ tentries t1 ≡ₚ tentries t /\
                       t_used t1 * 10 < t_capacity t1 * 7
          | None => faulty \/ t_capacity t = TC_SCAN_INTERN_MAX
          end) as Hg.
  { destruct (Z.leb_spec (t_capacity t * 7) (t_used t * 10)); [|by split].
    pose proof (tc_scan_intern_grow_ok t Ht) as Hg.
    destruct (tc_scan_intern_grow _ _ _ _) as [t1|]; [|done].
    destruct Hg as (H1 & H2 & H3). split; [done|]. split; [done|].
    rewrite (io_used _ H1), H2. lia. }
  match type of Hg with match ?g with _ => _ end => destruct g as [t1|] end; [|by split].
  destruct Hg as (Ht1 & He1 & Hl1).
  destruct (io_table _ Ht1) as (cells1 & Hfd1 & Hok1). rewrite Hfd1.
  assert (c_hash c <> 0) as Hc by (destruct Hv as (v & _ & ->); apply tc_scan_intern_hash_nonzero).
  pose proof (io_used _ Ht1) as Hu1. pose proof (to_length _ _ Hok1) as Hlen1.
  assert (entries cells1 = tentries t1) as Ec by (unfold tentries; by rewrite Hfd1).
  pose proof (tc_scan_intern_place_ok cells1 (t_capacity t1) c Hok1 Hc) as Hpl.
  pose proof (pow2_bounds _ (to_pow2 _ _ Hok1)) as Hb1. unfold TC_SCAN_INTERN_MAX in Hb1.
  rewrite Ec in Hpl. specialize (Hpl ltac:(lia)).
  destruct (tc_scan_intern_place _ _ _ _ _) as [cells2|]; [|by auto].
  destruct Hpl as [Hok2 He2]. rewrite u32_id by (unfold in_u32; lia).
  assert (tentries {| t_fd := Some cells2; t_ready := t_ready t1; t_capacity := t_capacity t1;
                      t_used := t_used t1 + 1 |} ≡ₚ c :: tentries t1) as He by done.
  split; [|by rewrite He, He1]. split; [apply Ht1|by exists cells2| | | |]; simpl.
  - rewrite He. simpl. lia.
  - lia.
  - rewrite He. constructor; [done|apply Ht1].
  - rewrite He. simpl. apply list.NoDup_cons. rewrite He1 at 1. split; [done|apply Ht1].
Qed.

(** ** Probing *)
Definition matches (v : list Z) (c : cell) : Prop := key c = Some (map tolower v).

Lemma matches_hash t v c :
  intern_ok t -> c ∈ tentries t -> matches v c -> c_hash c = tc_scan_intern_hash v.
Proof.
  intros Ht Hc Hm. pose proof (io_valid _ Ht) as Hv. rewrite list.Forall_forall in Hv.
  destruct (Hv c Hc) as (w & Hw & ->). unfold matches, key in Hm. rewrite Hw in Hm.
  injection Hm as Hm. by apply tc_scan_intern_hash_ci.
Qed.

Definition probe_spec (t : intern) (v : list Z) (r : probe_result) : Prop :=
  match r with
  | Found _ w => exists c, c ∈ tentries t /\ matches v c /\
                   tread (c_tag c) (c_seek c) TAGCACHE_PATH_MAX = Some w
  | Absent _ => forall c, c ∈ tentries t -> ~ matches v c
  | ProbeError => exists s, read_ok s = false
  end.

Lemma probe_loop_spec t cells v fuel n :
  intern_ok t -> t_fd t = Some cells -> 0 <= n <= t_capacity t ->
  fuel = Z.to_nat (t_capacity t - n) ->
  path cells (t_capacity t) (tc_scan_intern_hash v) n ->
  (forall m c, 0 <= m < n ->
     cells !! Z.to_nat ((tc_scan_intern_hash v + m) mod t_capacity t) = Some c -> ~ matches v c) ->
  probe_spec t v (probe_loop files read_ok fuel n cells (t_capacity t)
                    (tc_scan_intern_hash v) v TAGCACHE_PATH_MAX).
Proof.
  intros Ht Hfd. destruct (io_table _ Ht) as (cells' & Hfd' & Hok).
  assert (cells' = cells) as -> by congruence. clear Hfd'.
  assert (entries cells = tentries t) as Ec by (unfold tentries; by rewrite Hfd).
  pose proof (pow2_bounds _ (to_pow2 _ _ Hok)) as Hb. set (h := tc_scan_intern_hash v).
  revert n; induction fuel as [|fuel IH]; intros n Hn Hf Hpath Hnone; cbn [probe_loop].
  { exfalso. replace n with (t_capacity t) in Hpath by lia.
    pose proof (path_full _ _ _ Hok Hpath) as Hfull.
    pose proof (io_load _ Ht). pose proof (io_used _ Ht). pose proof (to_length _ _ Hok).
    rewrite Ec in Hfull. lia. }
  rewrite slot_mod by apply Hok. set (z := (h + n) mod t_capacity t).
  unfold read_cell. destruct (read_ok z) eqn:Er; [|by exists z].
  destruct (slot_in cells (t_capacity t) (h + n) Hok) as [c Hc]. fold z in Hc. rewrite Hc.
  destruct (Z.eqb_spec (c_hash c) 0) as [E|E].
  - intros d Hd Hm. pose proof (matches_hash _ _ _ Ht Hd Hm) as Hh. fold h in Hh.
    rewrite <- Ec in Hd. apply entries_elem in Hd as (s & Hs & Hd0).
    destruct (to_reach _ _ Hok s d Hs Hd0) as (n' & Hn' & -> & Hp'). rewrite Hh in Hs, Hp'.
    destruct (Z.lt_trichotomy n' n) as [Hlt|[->|Hgt]].
    + by apply (Hnone n' d ltac:(lia)) in Hs.
    + unfold z in Hc. congruence.
    + destruct (Hp' n ltac:(lia)) as (e & He & He0). fold z in He. congruence.
  - assert (c ∈ tentries t) as Hin by (rewrite <- Ec; apply entries_elem; eauto).
    assert (path cells (t_capacity t) h (n + 1)) as Hpath' by (by apply (path_step _ _ _ _ c)).
    pose proof (io_valid _ Ht) as Hv. rewrite list.Forall_forall in Hv.
    destruct (Hv c Hin) as (w & Hw & Hhw).
    assert (~ matches v c -> probe_spec t v (probe_loop files read_ok fuel (n + 1) cells
              (t_capacity t) h v TAGCACHE_PATH_MAX)) as Hnext.
    { intros Hnm. apply IH; [lia|lia|done|]. intros m d Hm Hd.
      destruct (decide (m = n)) as [->|]; [fold z in Hd; congruence|by apply (Hnone m); [lia|]]. }
    destruct (Z.eqb_spec (c_hash c) h) as [Eh|Eh]; cbn [negb].
    + rewrite Hw. pose proof (tc_scan_intern_equal_ci_spec w v) as Hci.
      destruct (tc_scan_intern_equal_ci w v).
      * exists c. split; [done|]. split; [|done]. unfold matches, key. rewrite Hw. simpl.
        by rewrite (proj1 Hci).
      * apply Hnext. unfold matches, key. rewrite Hw. simpl. intros [=Hm].
        by apply Hci in Hm.
    + apply Hnext. intros Hm. by apply (matches_hash t) in Hm.
Qed.

Lemma tc_scan_intern_probe_spec t v :
  intern_ok t ->
  probe_spec t v (tc_scan_intern_probe files read_ok t v TAGCACHE_PATH_MAX).
Proof.
  intros Ht. destruct (io_table _ Ht) as (cells & Hfd & Hok). unfold tc_scan_intern_probe.
  rewrite Hfd. pose proof (pow2_bounds _ (to_pow2 _ _ Hok)).
  apply probe_loop_spec; [done|done|lia|f_equal; lia| |]; intros m; lia.
Qed.
End proofs.

(** ** Finding and inserting *)
Section tops.
Context (files : tag_files) (read_ok write_ok temp_ok : Z -> bool).
#[local] Abbreviation tread := (tc_scan_intern_read files).

(** An entry is unique for its case-folded spelling. *)
Lemma matches_unique t v c d :
  intern_ok files t -> c ∈ tentries t -> d ∈ tentries t ->
  matches files v c -> matches files v d -> c = d.
Proof.
  intros Ht Hc Hd Hmc Hmd. pose proof (io_distinct _ _ Ht) as Hn.
  apply list_elem_of_lookup in Hc as [i Hi], Hd as [j Hj].
  assert (i = j) as ->; [|congruence]. eapply (NoDup_lookup _ _ _ (Some (map tolower v)) Hn);
    change (map ?f ?l) with (f <$> l); rewrite list_lookup_fmap;
    [rewrite Hi|rewrite Hj]; simpl; by f_equal.
Qed.

Lemma scan_intern_find_some t v out_size w :
  intern_ok files t -> (forall s, read_ok s = true) ->
  scan_intern_find files read_ok t v out_size = (false, Some w) <->
  Z.of_nat (length w) < out_size /\
  exists c, c ∈ tentries t /\ matches files v c /\
            tread (c_tag c) (c_seek c) TAGCACHE_PATH_MAX = Some w.
Proof.
  intros Ht Hr. unfold scan_intern_find. rewrite (io_ready _ _ Ht). cbn [negb orb].
  pose proof (tc_scan_intern_probe_spec files read_ok t v Ht) as Hp.
  destruct (Z.eqb_spec out_size 0) as [->|]; [split; [done|lia]|].
  destruct (tc_scan_intern_probe _ _ _ _ _) as [slot can|slot|].
  - destruct Hp as (c & Hc & Hm & Hcan).
    destruct (Z.leb_spec out_size (Z.of_nat (length can))).
    + split; [done|]. intros (Hlen & d & Hd & Hmd & Hwd).
      rewrite (matches_unique t v d c Ht) in Hwd by done. replace w with can in * by congruence. lia.
    + unfold snprintf_s. rewrite take_ge by lia. split.
      * intros [=->]. split; [lia|]. eauto.
      * intros (Hlen & d & Hd & Hmd & Hwd).
        rewrite (matches_unique t v d c Ht) in Hwd by done. congruence.
  - split; [done|]. intros (_ & c & Hc & Hm & _). by apply Hp in Hc.
  - destruct Hp as [s Hs]. by rewrite Hr in Hs.
Qed.

(** The probe-or-add step that [scan_intern_insert] and [scan_intern_init]
    share. *)
Lemma intern_step_ok t tag seek v :
  intern_ok files t -> tread tag seek TAGCACHE_PATH_MAX = Some v ->
  let '(ok, t') :=
    match tc_scan_intern_probe files read_ok t v TAGCACHE_PATH_MAX with
    | ProbeError => (false, t)
    | Found _ _ => (true, t)
    | Absent _ => tc_scan_intern_add_cell read_ok write_ok temp_ok t
        {| c_hash := tc_scan_intern_hash v; c_seek := seek; c_tag := tag |}
    end in
  intern_ok files t' /\ (forall c, c ∈ tentries t -> c ∈ tentries t') /\
  (ok = true -> exists c, c ∈ tentries t' /\ matches files v c).
Proof.
  intros Ht Ev. pose proof (tc_scan_intern_probe_spec files read_ok t v Ht) as Hp.
  destruct (tc_scan_intern_probe _ _ _ _ _) as [slot can|slot|]; [| |by split].
  - split; [done|]. split; [done|]. intros _. destruct Hp as (c & Hc & Hm & _). by exists c.
  - set (c := {| c_hash := tc_scan_intern_hash v; c_seek := seek; c_tag := tag |}).
    assert (matches files v c) as Hm by (unfold matches, key; simpl; by rewrite Ev).
    assert (key files c ∉ map (key files) (tentries t)) as Hk.
    { intros Hin. apply list_elem_of_In, in_map_iff in Hin as (d & Hd & Hin).
      apply list_elem_of_In in Hin. apply (Hp d Hin). unfold matches in *. congruence. }
    pose proof (tc_scan_intern_add_cell_ok files read_ok write_ok temp_ok t c Ht) as Ha.
    specialize (Ha ltac:(by exists v) Hk).
    destruct (tc_scan_intern_add_cell _ _ _ _ _) as [[] t']; destruct Ha as [Ht' He].
    + split; [done|]. split; [intros d Hd; rewrite He; by right|]. intros _.
      exists c. split; [rewrite He; left|done].
    + destruct He as [He _]. split; [done|]. split; [intros d; by rewrite He|done].
Qed.

Lemma scan_intern_insert_ok t tag seek :
  intern_ok files t ->
  let '(ok, t') := scan_intern_insert files read_ok write_ok temp_ok t tag seek in
  intern_ok files t' /\ (forall c, c ∈ tentries t -> c ∈ tentries t') /\
  (ok = true -> exists v c, tread tag seek TAGCACHE_PATH_MAX = Some v /\
      c ∈ tentries t' /\ matches files v c).
Proof.
  intros Ht. unfold scan_intern_insert. rewrite (io_ready _ _ Ht). cbn [negb orb].
  destruct (_ || _ || _); [by split|].
  destruct (tc_scan_intern_read files tag seek TAGCACHE_PATH_MAX) as [v|] eqn:Ev; [|by split].
  pose proof (intern_step_ok t tag seek v Ht Ev) as Hs.
  match type of Hs with let '(_, _) := ?p in _ => destruct p as [ok t'] end.
  destruct Hs as (H1 & H2 & H3). split; [done|]. split; [done|]. intros Hok.
  destruct (H3 Hok) as (c & Hc & Hm). eauto.
Qed.

(** ** Building the table *)

(** [p] is an entry of the file met when walking it from [pos]. *)
Inductive entry_from (file : list Z) : Z -> Z -> Prop :=
| entry_here pos : pos + ENTRY_SIZE <= Z.of_nat (length file) -> entry_from file pos pos
| entry_next pos len id p :
    pos + ENTRY_SIZE <= Z.of_nat (length file) -> read_entry file pos = Some (len, id) ->
    entry_from file (pos + ENTRY_SIZE + len) p -> entry_from file pos p.

Definition interned (t : intern) (tag p : Z) : Prop :=
  exists v c, tread tag (i32 p) TAGCACHE_PATH_MAX = Some v /\ c ∈ tentries t /\ matches files v c.

Lemma interned_mono t t' tag p :
  (forall c, c ∈ tentries t -> c ∈ tentries t') -> interned t tag p -> interned t' tag p.
Proof. intros Hs (v & c & Hv & Hc & Hm). exists v, c. auto. Qed.

Lemma init_file_ok fuel t tag pos :
  intern_ok files t ->
  let '(ok, t') := init_file files read_ok write_ok temp_ok fuel t tag pos in
  intern_ok files t' /\ (forall c, c ∈ tentries t -> c ∈ tentries t') /\
  (ok = true -> forall p, entry_from (default [] (files tag)) pos p -> interned t' tag p).
Proof.
  revert t pos; induction fuel as [|fuel IH]; intros t pos Ht; cbn [init_file];
    set (file := default [] (files tag));
    (destruct (Z.leb_spec (pos + ENTRY_SIZE) (Z.of_nat (length file))) as [Hin|Hout];
     [| split; [done|]; split; [done|]; intros _ p Hp; inversion Hp; subst; lia]);
    [by split|].
  destruct (read_entry file pos) as [[len id]|] eqn:Ee; [|by split].
  destruct (_ || _); [by split|].
  destruct (tc_scan_intern_read files tag (i32 pos) TAGCACHE_PATH_MAX) as [v|] eqn:Ev; [|by split].
  pose proof (intern_step_ok t tag (i32 pos) v Ht Ev) as Hs.
  match type of Hs with let '(_, _) := ?p in _ => destruct p as [ok t1] end.
  destruct Hs as (H1 & H2 & H3). destruct ok; [|by split].
  specialize (IH t1 (pos + ENTRY_SIZE + len) H1). destruct (init_file _ _ _ _ _ _ _ _) as [ok t'].
  destruct IH as (I1 & I2 & I3). split; [done|]. split; [auto|]. intros -> p Hp.
  inversion Hp as [? _ |? len' id' ? _ Ee' Hp']; subst.
  - apply (interned_mono t1); [done|]. destruct (H3 eq_refl) as (c & Hc & Hm). by exists v, c.
  - fold file in Ee'. rewrite Ee in Ee'. injection Ee' as <- <-. by apply I3.
Qed.

Lemma init_tags_ok tags titles t :
  intern_ok files t ->
  let '(ok, t') := init_tags files read_ok write_ok temp_ok tags titles t in
  intern_ok files t' /\ (forall c, c ∈ tentries t -> c ∈ tentries t') /\
  (ok = true -> forall tag p, tag ∈ tags -> tag <> tag_title \/ titles = true ->
     entry_from (default [] (files tag)) HEADER_SIZE p -> interned t' tag p).
Proof.
  revert t; induction tags as [|tag tags IH]; intros t Ht; cbn [init_tags].
  { split; [done|]. split; [done|]. intros _ tag p Hin. by apply elem_of_nil in Hin. }
  destruct ((tag =? tag_title) && negb titles) eqn:Eskip.
  - specialize (IH t Ht). destruct (init_tags _ _ _ _ _ _ _) as [ok t'].
    destruct IH as (I1 & I2 & I3). split; [done|]. split; [done|].
    intros -> tag' p Hin Ht'. apply I3; [done| |done].
    apply elem_of_cons in Hin as [->|]; [|done]. bool_prop. subst. by destruct Ht'.
  - pose proof (init_file_ok (length (default [] (files tag))) t tag HEADER_SIZE Ht) as Hf.
    destruct (init_file _ _ _ _ _ _ _ _) as [ok1 t1]. destruct Hf as (F1 & F2 & F3).
    destruct ok1; [|by split]. specialize (IH t1 F1).
    destruct (init_tags _ _ _ _ _ _ _) as [ok t'].
    destruct IH as (I1 & I2 & I3). split; [done|]. split; [auto|].
    intros -> tag' p Hin Ht' Hp. apply elem_of_cons in Hin as [->|]; [|by apply I3].
    apply (interned_mono t1); [done|]. by apply F3.
Qed.

Lemma fresh_intern_ok :
  intern_ok files {| t_fd := Some (replicate (Z.to_nat 1024) empty_cell); t_ready := true;
                     t_capacity := 1024; t_used := 0 |}.
Proof.
  split; unfold tentries; cbn [t_fd t_ready t_capacity t_used]; rewrite ?fresh_entries;
    try done; try constructor.
  eexists. split; [done|]. apply fresh_ok. by exists 10.
Qed.
End tops.


(** ** Appending tags *)
Lemma pread_n_app file tail n off :
  0 <= n -> 0 <= off -> off + n <= Z.of_nat (length file) ->
  pread_n (file ++ tail) n off = pread_n file n off.
Proof.
  intros Hn Ho Hl. unfold pread_n. rewrite drop_app_le by lia. rewrite take_app_le; [done|].
  rewrite length_drop. lia.
Qed.

Lemma pread_n_at pre data tail :
  pread_n (pre ++ data ++ tail) (Z.of_nat (length data)) (Z.of_nat (length pre)) = Some data.
Proof.
  unfold pread_n. rewrite !Nat2Z.id, drop_app_length, take_app_length. by rewrite Z.eqb_refl.
Qed.

(** What [append_string] puts at the end of a tag file. *)
Definition tag_entry (slot : Z) (value : list Z) : list Z :=
  le32 (Z.of_nat (length value) + 1) ++ le32 slot ++ value ++ [0].
Lemma append_string_entry file slot value file' off :
  append_string file slot value = Some (file', off) ->
  file' = file ++ tag_entry slot value /\ off = Z.of_nat (length file) /\
  12 <= off /\ off + Z.of_nat (length value) + 9 <= 2147483647.
Proof.
  unfold append_string, tag_entry, HEADER_SIZE, ENTRY_SIZE, INT32_MAX.
  destruct (TAGCACHE_PATH_MAX <? _); [done|]. destruct (_ || _) eqn:E; [done|]. intros [= <- <-]. bool_prop.
  split_and!; done || lia.
Qed.
Lemma append_reads_value file slot value tag cap :
  Forall is_char value -> 12 <= Z.of_nat (length file) ->
  Z.of_nat (length file) + Z.of_nat (length value) + 9 <= 2147483647 ->
  0 <= tag < 23 -> Z.of_nat (length value) < cap ->
  tc_scan_intern_read (fun _ => Some (file ++ tag_entry slot value)) tag (Z.of_nat (length file)) cap = Some value.
Proof.
  intros Hv Hf Hl Htag Hcap. unfold tag_entry. set (len := Z.of_nat (length value) + 1).
  unfold tc_scan_intern_read, HEADER_SIZE, ENTRY_SIZE, TAG_COUNT.
  destruct (Z.ltb_spec tag 0); [lia|]. destruct (Z.leb_spec 23 tag); [lia|].
  destruct (Z.ltb_spec (Z.of_nat (length file)) 12); [lia|].
  destruct (Z.eqb_spec cap 0); [lia|]. cbn [orb]. bind_simpl.
  rewrite !length_app, !length_le32. change (length [0]) with 1%nat.
  destruct (Z.ltb_spec (Z.of_nat (length file + (4 + (4 + (length value + 1)))))
              (Z.of_nat (length file) + 8)); [lia|].
  unfold read_entry, ENTRY_SIZE.
  pose proof (pread_n_at file (le32 len ++ le32 slot) (value ++ [0])) as Hp.
  rewrite <- app_assoc in Hp. change (Z.of_nat (length (le32 len ++ le32 slot))) with 8 in Hp.
  rewrite Hp. bind_simpl. rewrite read_le32. bind_simpl.
  change (drop 4 (le32 len ++ le32 slot)) with (le32 slot ++ []). rewrite read_le32. bind_simpl.
  rewrite i32_u32 by (unfold in_i32, INT_MAX; lia).
  destruct (Z.leb_spec len 0); [lia|]. destruct (Z.ltb_spec cap len); [lia|]. cbn [orb].
  destruct (Z.ltb_spec (Z.of_nat (length file + (4 + (4 + (length value + 1)))))
              (Z.of_nat (length file) + 8 + len)); [lia|].
  pose proof (pread_n_at (file ++ le32 len ++ le32 slot) (value ++ [0]) []) as Hq.
  rewrite app_nil_r, <- !app_assoc, !length_app, !length_le32 in Hq.
  change (length [0]) with 1%nat in Hq.
  replace (Z.of_nat (length file + (4 + 4))) with (Z.of_nat (length file) + 8) in Hq by lia.
  replace (Z.of_nat (length value + 1)) with len in Hq by lia. rewrite Hq. bind_simpl.
  replace (Z.to_nat (len - 1)) with (length value) by lia.
  rewrite lookup_app_r, Nat.sub_diag by lia. bind_simpl. rewrite take_app_length.
  replace (forallb (fun b => negb (b =? 0)) value) with true; [done|].
  symmetry. apply forallb_forall. intros b Hb. apply list_elem_of_In in Hb.
  rewrite list.Forall_forall in Hv. specialize (Hv b Hb). unfold is_char in Hv.
  destruct (Z.eqb_spec b 0); [lia|done].
Qed.
Lemma append_keeps_values file tail tag seek c v :
  tc_scan_intern_read (fun _ => Some file) tag seek c = Some v ->
  tc_scan_intern_read (fun _ => Some (file ++ tail)) tag seek c = Some v.
Proof.
  unfold tc_scan_intern_read.
  destruct (_ || _ || _ || _) eqn:E3; [done|]. bool_prop. bind_simpl.
  unfold HEADER_SIZE, ENTRY_SIZE in *. rewrite length_app.
  destruct (Z.ltb_spec (Z.of_nat (length file)) (seek + 8)); [done|].
  destruct (Z.ltb_spec (Z.of_nat (length file + length tail)) (seek + 8)); [lia|].
  unfold read_entry, ENTRY_SIZE. rewrite pread_n_app by lia.
  destruct (pread_n file 8 seek) as [b|]; bind_simpl; [|done].
  destruct (library_read_u32le b) as [l|]; bind_simpl; [|done].
  destruct (library_read_u32le (drop 4 b)) as [i|]; bind_simpl; [|done].
  destruct (_ || _ || _) eqn:E4; [done|]. bool_prop.
  destruct (Z.leb_spec (i32 l) 0); [lia|]. destruct (Z.ltb_spec c (i32 l)); [lia|].
  destruct (Z.ltb_spec (Z.of_nat (length file + length tail)) (seek + 8 + i32 l)); [lia|].
  cbn [orb]. by rewrite pread_n_app by lia.
Qed.

(** [append_string] and [tc_scan_intern_read] round-trip: the appended
    value reads back from its offset, and every value that was readable in the
    file reads the same. *)
Theorem append_string_roundtrip file slot value file' off tag cap :
  Forall is_char value -> append_string file slot value = Some (file', off) ->
  0 <= tag < TAG_COUNT -> Z.of_nat (length value) < cap ->
  tc_scan_intern_read (fun _ => Some file') tag off cap = Some value /\
  forall seek c v, tc_scan_intern_read (fun _ => Some file) tag seek c = Some v ->
    tc_scan_intern_read (fun _ => Some file') tag seek c = Some v.
Proof.
  intros Hv Ha Htag Hcap. destruct (append_string_entry _ _ _ _ _ Ha) as (-> & -> & H1 & H2).
  split; [by apply append_reads_value|]. intros seek c v. apply append_keeps_values.
Qed.

(** A successful [scan_intern_init] has interned every entry of the title
    (when asked), artist, album, album artist and genre files, in a well-formed
    table. *)
Theorem scan_intern_init_complete files read_ok write_ok temp_ok titles t :
  scan_intern_init files read_ok write_ok temp_ok titles = (true, t) ->
  intern_ok files t /\
  forall tag p, tag ∈ INIT_TAGS -> tag <> tag_title \/ titles = true ->
    entry_from (default [] (files tag)) HEADER_SIZE p -> interned files t tag p.
Proof.
  unfold scan_intern_init, create_temp, TC_SCAN_INTERN_INITIAL.
  destruct (temp_ok 1024); [|done]. intros H.
  pose proof (init_tags_ok files read_ok write_ok temp_ok INIT_TAGS titles _
    (fresh_intern_ok files)) as Hi.
  rewrite H in Hi. destruct Hi as (H1 & _ & H3). auto.
Qed.

(** ** Witnesses *)
Definition example_file : list Z :=
  replicate 12 0 ++ le32 4 ++ le32 0 ++ bs "Bob" ++ [0] ++ le32 4 ++ le32 1 ++ bs "bOB" ++ [0].
Definition example_files : tag_files := fun tag => if tag =? 0 then Some example_file else None.
Definition yes : Z -> bool := fun _ => true.

Lemma scan_intern_init_complete_witness :
  exists t, scan_intern_init example_files yes yes yes false = (true, t) /\ intern_ok example_files t.
Proof.
  destruct (scan_intern_init example_files yes yes yes false) as [ok t] eqn:E.
  assert (ok = true) as ->.
  { change ok with (fst (ok, t)). rewrite <- E. vm_compute. reflexivity. }
  exists t. split; [reflexivity|].
  exact (proj1 (scan_intern_init_complete example_files yes yes yes false t E)).
Defined.


Lemma append_string_roundtrip_witness :
  tc_scan_intern_read (fun _ => Some (replicate 12 0 ++ le32 4 ++ le32 7 ++ bs "Bob" ++ [0])) 0 12 600
    = Some (bs "Bob").
Proof.
  refine (proj1 (append_string_roundtrip (replicate 12 0) 7 (bs "Bob") _ 12 0 600 _ _ _ _)).
  - apply chars_b_true. reflexivity.
  - reflexivity.
  - unfold TAG_COUNT. lia.
  - reflexivity.
Defined.
