(* ===== verification/AudioHelpers.v ===== *)
(** The decision helpers of src/audio/audio_helpers.h: where playback goes
    after a track fails to decode, when an end of file is premature, and what
    of a path may appear in a log. *)
From S2P Require Import Prelude.
Local Open Scope Z_scope.

(** ** Fixed-width readers *)
Definition audio_read_u16le (b : list Z) : option Z :=
  b0 ← b !! 0%nat; b1 ← b !! 1%nat; Some (u16 (Z.lor b0 (Z.shiftl b1 8))).
Definition audio_read_u32le (b : list Z) : option Z :=
  b0 ← b !! 0%nat; b1 ← b !! 1%nat; b2 ← b !! 2%nat; b3 ← b !! 3%nat;
  Some (Z.lor (Z.lor (Z.lor b0 (u32 (Z.shiftl b1 8))) (u32 (Z.shiftl b2 16)))
          (u32 (Z.shiftl b3 24))).
Definition audio_read_u32be (b : list Z) : option Z :=
  b0 ← b !! 0%nat; b1 ← b !! 1%nat; b2 ← b !! 2%nat; b3 ← b !! 3%nat;
  Some (Z.lor (Z.lor (Z.lor (u32 (Z.shiftl b0 24)) (u32 (Z.shiftl b1 16)))
                 (u32 (Z.shiftl b2 8))) b3).
Definition audio_read_u16be (b : list Z) : option Z :=
  b0 ← b !! 0%nat; b1 ← b !! 1%nat; Some (u16 (Z.lor (u16 (Z.shiftl b0 8)) b1)).
(** [v = (v << 8) | b[i]] over the bytes in the order given. *)
Definition fold_bytes (l : list Z) : Z :=
  fold_left (fun v b => Z.lor (u64 (Z.shiftl v 8)) b) l 0.
Definition audio_read_u64be (b : list Z) : option Z :=
  if (8 <=? length b)%nat then Some (fold_bytes (take 8 b)) else None.
Definition audio_read_u64le (b : list Z) : option Z :=
  if (8 <=? length b)%nat then Some (fold_bytes (rev (take 8 b))) else None.

(** ** Log-safe names *)

(** [strstr(path, "://")]. *)
Fixpoint strstr (needle s : list Z) : option nat :=
  if starts_with needle s then Some 0%nat
  else match s with [] => None | _ :: t => S <$> strstr needle t end.

(** [safe_path_tail]: the bytes of the string it returns. *)
Definition safe_path_tail (path : option (list Z)) : list Z :=
  match path with
  | None => bs "(null)"
  | Some path =>
      let query := strchr 63 path in
      let hash := strchr 35 path in
      let end_ := length path in
      let end_ := match query with Some q => if (q <? end_)%nat then q else end_ | None => end_ end in
      let end_ := match hash with Some h => if (h <? end_)%nat then h else end_ | None => end_ end in
      let start :=
        match strstr (bs "://") path with
        | Some scheme =>
            if (scheme + 3 <? end_)%nat then
              let rest := drop (scheme + 3) (take end_ path) in
              match strrchr 47 rest with
              | Some i => (scheme + 3 + i + 1)%nat
              | None => match strchr 64 rest with
                        | Some i => (scheme + 3 + i + 1)%nat
                        | None => (scheme + 3)%nat
                        end
              end
            else match strrchr 47 (take end_ path) with Some i => (i + 1)%nat | None => 0%nat end
        | None => match strrchr 47 (take end_ path) with Some i => (i + 1)%nat | None => 0%nat end
        end in
      if (end_ <=? start)%nat then bs "(endpoint)"
      else
        let start := if (48 <? end_ - start)%nat then (end_ - 48)%nat else start in
        take (end_ - start) (drop start path)
  end.

(** ** Premature ends and write retries *)
Definition MAX_EOF_TOLERANCE_FRAMES : Z := 8192.
Definition is_premature_eof (frames_played_local total_frames : Z) (is_stream : bool) : bool :=
  if is_stream || (total_frames =? 0) then false
  else if total_frames <=? frames_played_local then false
  else MAX_EOF_TOLERANCE_FRAMES <? u64 (total_frames - frames_played_local).

Definition should_abort_write_retry (allow_during_stop_restart stop_req restart_req : bool) : bool :=
  if allow_during_stop_restart then false else stop_req || restart_req.

(** ** Where to go after a decoder failure *)
Record failure_advance_plan_t := {
  target_index : Z; queued_consumed : Z; shuffle_steps : Z; shuffle_wrapped : bool }.
Definition no_target (consumed : Z) : failure_advance_plan_t :=
  {| target_index := -1; queued_consumed := consumed; shuffle_steps := 0;
     shuffle_wrapped := false |}.

(** [for (step = lo; step < lo + todo; step++) if (body) return ...]: the first
    step whose body returns; the outer [None] is a read out of bounds. *)
Fixpoint for_steps {A} (todo : nat) (lo : Z) (body : Z -> option (option A)) : option (option A) :=
  match todo with
  | O => Some None
  | S todo =>
      r ← body lo;
      match r with Some x => Some (Some x) | None => for_steps todo (lo + 1) body end
  end.

Section plan.
Context (is_failed_fn : option (Z -> bool)).
Definition playable (cand : Z) : bool :=
  match is_failed_fn with Some f => negb (f cand) | None => true end.

(** The queued block: the first playable queued track. *)
Definition queued_step (failed_index q : Z) : option (option failure_advance_plan_t) :=
  let cand := failed_index + q in
  Some (if playable cand then
          Some {| target_index := cand; queued_consumed := q; shuffle_steps := 0;
                  shuffle_wrapped := false |}
        else None).

(** One step of the shuffle case. *)
Definition shuffle_step (orig failed count consumed : Z) (order : list Z) (pos : Z)
    (pending : option (list Z)) (step : Z) : option (option failure_advance_plan_t) :=
  let p := pos + step in
  '(cand, wrapped) ←
    (if p <? count then
       if p <? 0 then None else c ← order !! Z.to_nat p; Some (c, false)
     else match pending with
          | Some po =>
              let wrap_pos := p - count in
              if wrap_pos <? count then c ← po !! Z.to_nat wrap_pos; Some (c, true)
              else Some (-1, false)
          | None => Some (-1, false)
          end);
  Some (if (0 <=? cand) && (cand <? count) && negb (cand =? orig) && negb (cand =? failed)
           && playable cand
        then Some {| target_index := cand; queued_consumed := consumed; shuffle_steps := step;
                     shuffle_wrapped := wrapped |}
        else None).

Definition repeat_step (orig failed count consumed step : Z)
    : option (option failure_advance_plan_t) :=
  let cand := (failed + step) mod count in
  Some (if negb (cand =? orig) && negb (cand =? failed) && playable cand then
          Some {| target_index := cand; queued_consumed := consumed; shuffle_steps := 0;
                  shuffle_wrapped := false |}
        else None).

Definition sequential_step (orig consumed cand : Z) : option (option failure_advance_plan_t) :=
  Some (if negb (cand =? orig) && playable cand then
          Some {| target_index := cand; queued_consumed := consumed; shuffle_steps := 0;
                  shuffle_wrapped := false |}
        else None).

Definition compute_decoder_failure_advance_plan (failed_index playlist_count play_mode
    queued_pending_count : Z) (shuffle_order : option (list Z)) (shuffle_pos : Z)
    (pending_shuffle_order : option (list Z)) : option failure_advance_plan_t :=
  if (failed_index <? 0) || (playlist_count <=? 0) then Some (no_target 0) else
  let orig := failed_index in
  let limit := if failed_index + queued_pending_count <? playlist_count
               then queued_pending_count else playlist_count - 1 - failed_index in
  queued ← (if 0 <? queued_pending_count
            then for_steps (Z.to_nat limit) 1 (queued_step failed_index)
            else Some None);
  match queued with
  | Some plan => Some plan
  | None =>
      let consumed := if 0 <? queued_pending_count then queued_pending_count else 0 in
      let failed := if 0 <? queued_pending_count then failed_index + queued_pending_count
                    else failed_index in
      let failed := if (0 <? queued_pending_count) && (playlist_count <=? failed)
                    then playlist_count - 1 else failed in
      if playlist_count <=? 1 then Some (no_target consumed) else
      found ←
        (if play_mode =? 3 then
           match shuffle_order with
           | None => Some None
           | Some order =>
               let remaining := if shuffle_pos <=? playlist_count - 1
                                then playlist_count - 1 - shuffle_pos else 0 in
               let max_steps := match pending_shuffle_order with
                                | Some _ => remaining + playlist_count
                                | None => remaining
                                end in
               for_steps (Z.to_nat max_steps) 1
                 (shuffle_step orig failed playlist_count consumed order shuffle_pos
                    pending_shuffle_order)
           end
         else if (play_mode =? 2) || (play_mode =? 1) then
           for_steps (Z.to_nat (playlist_count - 1)) 1
             (repeat_step orig failed playlist_count consumed)
         else
           for_steps (Z.to_nat (playlist_count - (failed + 1))) (failed + 1)
             (sequential_step orig consumed));
      Some (default (no_target consumed) found)
  end.
End plan.

(** ** Fields of four bytes *)
Lemma lor_u32 x y : in_u32 x -> in_u32 y -> in_u32 (Z.lor x y).
Proof.
  intros Hx Hy. assert (Z.lor x y = u32 (Z.lor x y)) as ->; [|apply u32_range].
  unfold u32. change 4294967296 with (2 ^ 32). rewrite <- Z.land_ones, Z.land_lor_distr_l, !Z.land_ones by lia.
  by rewrite !Z.mod_small by done.
Qed.
Lemma audio_read_u32be_range b v : Forall is_byte b -> audio_read_u32be b = Some v -> in_u32 v.
Proof.
  intros Hb. unfold audio_read_u32be. destruct (b !! 0%nat), (b !! 1%nat), (b !! 2%nat), (b !! 3%nat) as [b3|] eqn:E3; try done.
  cbn. intros [= <-]. repeat apply lor_u32; try apply u32_range. apply (Forall_lookup_1 _ _ _ _ Hb) in E3. unfold is_byte, in_u32 in *. lia.
Qed.

(** ** Properties of the plan *)
Lemma for_steps_total {A} todo lo (body : Z -> option (option A)) :
  (forall s, lo <= s < lo + Z.of_nat todo -> exists r, body s = Some r) ->
  exists r, for_steps todo lo body = Some r.
Proof.
  revert lo; induction todo as [|todo IH]; intros lo Hb; cbn [for_steps]; [by exists None|].
  destruct (Hb lo) as [[x|] Hr]; [lia| |]; rewrite Hr; bind_simpl; [by exists (Some x)|].
  apply IH. intros s Hs. apply Hb. lia.
Qed.

Lemma for_steps_spec {A} todo lo (body : Z -> option (option A)) r :
  for_steps todo lo body = Some r ->
  match r with
  | Some x => exists s, lo <= s < lo + Z.of_nat todo /\ body s = Some (Some x) /\
                forall s', lo <= s' < s -> body s' = Some None
  | None => forall s, lo <= s < lo + Z.of_nat todo -> body s = Some None
  end.
Proof.
  revert lo; induction todo as [|todo IH]; intros lo; cbn [for_steps].
  - intros [=<-]. lia.
  - destruct (body lo) as [[x|]|] eqn:E; bind_simpl; [| |done].
    + intros [=<-]. exists lo. split; [lia|]. split; [done|lia].
    + intros H. apply IH in H. destruct r as [x|].
      * destruct H as (s & Hs & Hx & Hlt). exists s. split; [lia|]. split; [done|].
        intros s' Hs'. destruct (decide (s' = lo)) as [->|]; [done|]. apply Hlt. lia.
      * intros s Hs. destruct (decide (s = lo)) as [->|]; [done|]. apply H. lia.
Qed.

Section plan_proofs.
Context (is_failed_fn : option (Z -> bool)) (count orig : Z).
#[local] Abbreviation ok := (playable is_failed_fn).

(** A plan's target is another track of the playlist that has not failed. *)
Definition sound (queued : Z) (p : failure_advance_plan_t) : Prop :=
  (target_index p = -1 \/
   (0 <= target_index p < count /\ target_index p <> orig /\ ok (target_index p) = true)) /\
  0 <= queued_consumed p <= queued.

Lemma no_target_sound queued consumed :
  0 <= consumed <= queued -> sound queued (no_target consumed).
Proof. intros. split; [by left|done]. Qed.

Lemma queued_step_sound queued q p :
  0 <= orig -> 1 <= q <= queued -> orig + q < count ->
  queued_step is_failed_fn orig q = Some (Some p) -> sound queued p.
Proof.
  unfold queued_step. intros Ho Hq Hc [=H]. destruct (ok (orig + q)) eqn:E; [|done].
  injection H as <-. split; [|simpl; lia]. right. simpl. split; [lia|]. split; [lia|done].
Qed.

Lemma repeat_step_sound queued failed consumed s p :
  0 < count -> 0 <= consumed <= queued ->
  repeat_step is_failed_fn orig failed count consumed s = Some (Some p) -> sound queued p.
Proof.
  unfold repeat_step. intros Hc Hq [=H]. destruct (_ && _ && _) eqn:E; [|done].
  injection H as <-. bool_prop. split; [|done]. right. simpl.
  pose proof (Z.mod_pos_bound (failed + s) count Hc). done.
Qed.

Lemma sequential_step_sound queued consumed s p :
  0 <= s < count -> 0 <= consumed <= queued ->
  sequential_step is_failed_fn orig consumed s = Some (Some p) -> sound queued p.
Proof.
  unfold sequential_step. intros Hc Hq [=H]. destruct (_ && _) eqn:E; [|done].
  injection H as <-. bool_prop. split; [|done]. by right.
Qed.

Lemma shuffle_step_sound queued failed consumed order pos pending s p :
  0 <= consumed <= queued ->
  shuffle_step is_failed_fn orig failed count consumed order pos pending s = Some (Some p) ->
  sound queued p.
Proof.
  unfold shuffle_step. intros Hq H. destruct (if pos + s <? count then _ else _) as [[cand w]|];
    bind_simpl; [|done]. simpl in H. injection H as H.
  destruct (_ && _ && _ && _ && _) eqn:E; [|done].
  injection H as <-. bool_prop. split; [|done]. by right.
Qed.

(** No shuffle step reads outside the two bags. *)
Lemma shuffle_step_total failed consumed order pos pending s :
  -1 <= pos -> 1 <= s -> length order = Z.to_nat count ->
  match pending with Some po => length po = Z.to_nat count | None => True end ->
  exists r, shuffle_step is_failed_fn orig failed count consumed order pos pending s = Some r.
Proof.
  intros Hp Hs Ho Hpo. unfold shuffle_step. destruct (Z.ltb_spec (pos + s) count).
  - destruct (Z.ltb_spec (pos + s) 0); [lia|].
    destruct (lookup_lt_is_Some_2 order (Z.to_nat (pos + s))) as [c ->]; [lia|].
    bind_simpl. eauto.
  - destruct pending as [po|]; [|bind_simpl; eauto].
    destruct (Z.ltb_spec (pos + s - count) count); [|bind_simpl; eauto].
    destruct (lookup_lt_is_Some_2 po (Z.to_nat (pos + s - count))) as [c ->]; [lia|].
    bind_simpl. eauto.
Qed.

Lemma for_steps_plan queued consumed todo lo body :
  0 <= consumed <= queued ->
  (forall s, lo <= s < lo + Z.of_nat todo -> exists r, body s = Some r) ->
  (forall s p, lo <= s < lo + Z.of_nat todo -> body s = Some (Some p) -> sound queued p) ->
  exists plan, (found ← for_steps todo lo body; Some (default (no_target consumed) found)) = Some plan /\
    sound queued plan.
Proof.
  intros Hc Ht Hb. destruct (for_steps_total todo lo body Ht) as [r Hr]. rewrite Hr.
  bind_simpl. eexists. split; [done|]. apply for_steps_spec in Hr.
  destruct r as [p|]; [|by apply no_target_sound]. destruct Hr as (s & Hs & Hx & _). by apply (Hb s).
Qed.
Lemma queued_steps_sound queued limit :
  0 <= orig -> limit <= queued -> orig + limit < count ->
  exists r, (if 0 <? queued then for_steps (Z.to_nat limit) 1 (queued_step is_failed_fn orig) else Some None) = Some r /\
    match r with Some p => sound queued p | None => True end.
Proof.
  intros Ho Hl Hc. destruct (0 <? queued) eqn:Eq; [|by exists None].
  destruct (for_steps_total (Z.to_nat limit) 1 (queued_step is_failed_fn orig)) as [r Hr];
    [intros s _; unfold queued_step; eauto|].
  exists r. split; [done|]. apply for_steps_spec in Hr. destruct r as [p|]; [|done].
  destruct Hr as (s & Hs & Hb & _). eapply queued_step_sound; [| | |done]; lia.
Qed.
End plan_proofs.

(** The plan after a decoder failure always exists (no read outside the
    shuffle bags), and its target is either none or another track of the
    playlist that is not known to have failed; it never consumes more than the
    queued tracks. *)
Theorem failure_plan_sound is_failed_fn failed_index count mode queued order pos pending :
  0 <= queued -> -1 <= pos ->
  match order with Some o => length o = Z.to_nat count | None => True end ->
  match pending with Some o => length o = Z.to_nat count | None => True end ->
  exists plan, compute_decoder_failure_advance_plan is_failed_fn failed_index count mode queued
                 order pos pending = Some plan /\
    sound is_failed_fn count failed_index queued plan.
Proof.
  intros Hq Hpos Ho Hp. unfold compute_decoder_failure_advance_plan.
  destruct ((failed_index <? 0) || (count <=? 0)) eqn:E0;
    [eexists; split; [done|]; apply no_target_sound; lia|]. bool_prop.
  set (limit := if failed_index + queued <? count then queued else count - 1 - failed_index).
  assert (limit <= queued /\ failed_index + limit < count) as Hlim
    by (unfold limit; destruct (Z.ltb_spec (failed_index + queued) count); lia).
  clearbody limit.
  destruct (queued_steps_sound is_failed_fn count failed_index queued limit) as (queued_plan & -> & Hqp); [lia..|].
  bind_simpl. destruct queued_plan as [p|]; [by exists p|].
  set (consumed := if 0 <? queued then queued else 0).
  assert (0 <= consumed <= queued) as Hc by (unfold consumed; destruct (0 <? queued); lia).
  set (failed := if (0 <? queued) && _ then _ else _).
  assert (0 <= failed) as Hf
    by (unfold failed; destruct (0 <? queued); cbn [andb]; [destruct (_ <=? _)|]; lia).
  clearbody consumed failed.
  destruct (count <=? 1) eqn:E1; [eexists; split; [done|]; by apply no_target_sound|].
  destruct (mode =? 3); [destruct order as [o|]|destruct ((mode =? 2) || (mode =? 1))].
  - apply for_steps_plan; [done|..]; intros s; [intros Hs; apply shuffle_step_total; done || lia|].
    intros p Hs. by apply shuffle_step_sound.
  - bind_simpl. eexists. split; [done|]. by apply no_target_sound.
  - apply for_steps_plan; [done|..]; intros s; [unfold repeat_step; eauto|]. intros p Hs.
    apply repeat_step_sound; lia.
  - apply for_steps_plan; [done|..]; intros s; [unfold sequential_step; eauto|]. intros p Hs.
    apply sequential_step_sound; lia.
Qed.

(** ** Giving up *)
Section exhausted.
Context (is_failed_fn : option (Z -> bool)) (count orig : Z).
#[local] Abbreviation ok := (playable is_failed_fn).

Lemma queued_step_none q : queued_step is_failed_fn orig q = Some None -> ok (orig + q) = false.
Proof. unfold queued_step. by destruct (ok (orig + q)). Qed.

Lemma sequential_step_none consumed i :
  sequential_step is_failed_fn orig consumed i = Some None -> i <> orig -> ok i = false.
Proof.
  unfold sequential_step. intros [=H] Hi. destruct (Z.eqb_spec i orig); [done|].
  by destruct (ok i).
Qed.

(** The whole circle of a repeating playlist. *)
Lemma repeat_steps_none failed consumed i :
  0 <= failed < count -> 0 <= i < count -> i <> orig -> i <> failed ->
  (forall s, 1 <= s < count -> repeat_step is_failed_fn orig failed count consumed s = Some None) ->
  ok i = false.
Proof.
  intros Hf Hi Ho Hif Hall. specialize (Hall ((i - failed) mod count)).
  pose proof (Z.mod_pos_bound (i - failed) count ltac:(lia)).
  assert ((i - failed) mod count <> 0) as Hne.
  { intros E. apply Z.mod_divide in E as [k Hk]; [|lia]. assert (k = 0) by nia. lia. }
  specialize (Hall ltac:(lia)). unfold repeat_step in Hall.
  rewrite Zplus_mod_idemp_r in Hall. replace (failed + (i - failed)) with i in Hall by lia.
  rewrite (Z.mod_small i) in Hall by lia. injection Hall as Hall.
  destruct (Z.eqb_spec i orig); [done|]. destruct (Z.eqb_spec i failed); [done|].
  by destruct (ok i).
Qed.

Lemma shuffle_step_none failed consumed order pos pending s i w :
  0 <= i < count -> i <> orig -> i <> failed ->
  (if pos + s <? count then
     if pos + s <? 0 then None else c ← order !! Z.to_nat (pos + s); Some (c, false)
   else match pending with
        | Some po =>
            if pos + s - count <? count then c ← po !! Z.to_nat (pos + s - count); Some (c, true)
            else Some (-1, false)
        | None => Some (-1, false)
        end) = Some (i, w) ->
  shuffle_step is_failed_fn orig failed count consumed order pos pending s = Some None ->
  ok i = false.
Proof.
  unfold shuffle_step. intros Hi Ho Hf -> H. bind_simpl. simpl in H. injection H as H.
  destruct (Z.leb_spec 0 i); [|lia]. destruct (Z.ltb_spec i count); [|lia].
  destruct (Z.eqb_spec i orig); [done|]. destruct (Z.eqb_spec i failed); [done|].
  by destruct (ok i).
Qed.
End exhausted.

(** The tracks the plan may turn to in each play mode, besides the queued
    ones: the later slots, every slot, or the rest of the shuffle bags. *)
Definition candidate (failed_index count mode : Z) (order : option (list Z)) (pos : Z)
    (pending : option (list Z)) (i : Z) : Prop :=
  if mode =? 3 then
    exists o, order = Some o /\
      ((exists j, pos < j < count /\ o !! Z.to_nat j = Some i) \/
       (exists po j, pending = Some po /\ 0 <= j < count /\ po !! Z.to_nat j = Some i))
  else if (mode =? 2) || (mode =? 1) then True
  else failed_index < i.

(** The search after the queued block. *)
Lemma exhausted_search is_failed_fn orig count mode order pos pending failed consumed plan i :
  0 <= orig <= failed -> failed < count -> -1 <= pos < count ->
  match order with Some o => length o = Z.to_nat count | None => True end ->
  (found ←
     (if mode =? 3 then
        match order with
        | None => Some None
        | Some order =>
            let remaining := if pos <=? count - 1 then count - 1 - pos else 0 in
            let max_steps := match pending with Some _ => remaining + count | None => remaining end in
            for_steps (Z.to_nat max_steps) 1
              (shuffle_step is_failed_fn orig failed count consumed order pos pending)
        end
      else if (mode =? 2) || (mode =? 1) then
        for_steps (Z.to_nat (count - 1)) 1 (repeat_step is_failed_fn orig failed count consumed)
      else for_steps (Z.to_nat (count - (failed + 1))) (failed + 1)
             (sequential_step is_failed_fn orig consumed));
   Some (default (no_target consumed) found)) = Some plan ->
  target_index plan = -1 ->
  0 <= i < count -> i <> orig -> i <> failed -> ~ orig < i <= failed ->
  candidate orig count mode order pos pending i ->
  playable is_failed_fn i = false.
Proof.
  intros Ho Hf Hpos Hol Hplan Ht Hi Hio Hif Hr Hcand.
  match type of Hplan with (?q ≫= _) = _ => destruct q as [r|] eqn:Eq end; [|done];
    cbn [mbind option_bind] in Hplan. injection Hplan as Hp.
  assert (forall todo lo body, for_steps todo lo body = Some r ->
    (forall s p, lo <= s -> body s = Some (Some p) -> target_index p <> -1) ->
    forall s, lo <= s < lo + Z.of_nat todo -> body s = Some None) as Hnone.
  { intros todo lo body Hfor Hpos' s Hs. apply for_steps_spec in Hfor. destruct r as [p|].
    - destruct Hfor as (s' & Hs' & Hb & _). simpl in Hp. subst p. by destruct (Hpos' s' plan ltac:(lia) Hb).
    - by apply Hfor. }
  unfold candidate in Hcand. destruct (mode =? 3).
  - destruct Hcand as (o & -> & Hcand).
    assert (length o = Z.to_nat count) as Hlo by done. cbn zeta in Eq.
    match type of Eq with for_steps ?k _ _ = _ => set (n := k) in Eq end.
    assert (forall s w, 1 <= s <= Z.of_nat n ->
      (if pos + s <? count then
         if pos + s <? 0 then None else c ← o !! Z.to_nat (pos + s); Some (c, false)
       else match pending with
            | Some po =>
                if pos + s - count <? count then c ← po !! Z.to_nat (pos + s - count); Some (c, true)
                else Some (-1, false)
            | None => Some (-1, false)
            end) = Some (i, w) -> playable is_failed_fn i = false) as Hs.
    { intros s w Hs He. eapply (shuffle_step_none is_failed_fn count orig failed); [done..|].
      apply (Hnone _ _ _ Eq); [|lia]. intros s' p' _ Hb. unfold shuffle_step in Hb.
      destruct (if pos + s' <? count then _ else _) as [[cand w']|]; [|done]. simpl in Hb.
      injection Hb as Hb. destruct (_ && _ && _ && _ && _) eqn:E; [|done].
      injection Hb as <-. simpl. bool_prop. lia. }
    destruct (Z.leb_spec pos (count - 1)); [|lia].
    destruct Hcand as [(j & Hj & Hji)|(po & j & -> & Hj & Hji)].
    + apply (Hs (j - pos) false); [subst n; destruct pending; lia|].
      replace (pos + (j - pos)) with j by lia. destruct (Z.ltb_spec j count); [|lia].
      destruct (Z.ltb_spec j 0); [lia|]. by rewrite Hji.
    + apply (Hs (count - pos + j) true); [subst n; lia|].
      replace (pos + (count - pos + j)) with (count + j) by lia.
      destruct (Z.ltb_spec (count + j) count); [lia|].
      replace (count + j - count) with j by lia. destruct (Z.ltb_spec j count); [|lia].
      by rewrite Hji.
  - destruct ((mode =? 2) || (mode =? 1)).
    + apply (repeat_steps_none is_failed_fn count orig failed consumed); try done; [lia|].
      intros s Hs. apply (Hnone _ _ _ Eq); [|lia]. intros s' p' _. unfold repeat_step.
      intros [=Hb]. destruct (_ && _ && _); [|done]. injection Hb as <-. simpl.
      pose proof (Z.mod_pos_bound (failed + s') count). lia.
    + apply (sequential_step_none is_failed_fn orig consumed); [|done].
      apply (Hnone _ _ _ Eq); [|lia]. intros s' p' Hs. unfold sequential_step.
      intros [=Hb]. destruct (_ && _); [|done]. injection Hb as <-. simpl. lia.
Qed.

(** C31. The plan only gives up when nothing is left to play: with target -1,
    every queued track and every other candidate of the play mode has failed. *)
Theorem failure_plan_exhaustive is_failed_fn failed_index count mode queued order pos pending plan i :
  0 <= failed_index < count -> 0 <= queued -> -1 <= pos < count ->
  match order with Some o => length o = Z.to_nat count | None => True end ->
  compute_decoder_failure_advance_plan is_failed_fn failed_index count mode queued
    order pos pending = Some plan ->
  target_index plan = -1 ->
  0 <= i < count -> i <> failed_index ->
  failed_index < i <= failed_index + queued \/
    candidate failed_index count mode order pos pending i ->
  playable is_failed_fn i = false.
Proof.
  intros Hfi Hq Hpos Hol Hplan Ht Hi Hne Hcand. unfold compute_decoder_failure_advance_plan in Hplan.
  destruct (Z.ltb_spec failed_index 0); [lia|]. destruct (Z.leb_spec count 0); [lia|].
  cbn [orb] in Hplan.
  set (limit := if failed_index + queued <? count then queued else count - 1 - failed_index) in *.
  match type of Hplan with (?q ≫= _) = _ => destruct q as [[p|]|] eqn:Eq end; [| |done];
    cbn [mbind option_bind] in Hplan.
  { exfalso. injection Hplan as ->. destruct (0 <? queued); [|done].
    apply for_steps_spec in Eq as (s & Hs & Hb & _). unfold queued_step in Hb.
    injection Hb as Hb. destruct (playable _ _); [|done]. injection Hb as <-. simpl in Ht. lia. }
  assert (failed_index < i <= failed_index + queued -> playable is_failed_fn i = false) as Hqueued.
  { intros Hiq. destruct (Z.ltb_spec 0 queued); [|lia].
    pose proof (for_steps_spec _ _ _ _ Eq (i - failed_index)) as Hs. cbn beta in Hs.
    replace i with (failed_index + (i - failed_index)) by lia. apply queued_step_none.
    apply Hs. unfold limit. destruct (Z.ltb_spec (failed_index + queued) count); lia. }
  destruct Hcand as [Hcand|Hcand]; [by apply Hqueued|].
  destruct (decide (failed_index < i <= failed_index + queued)) as [Hd|Hd]; [by apply Hqueued|].
  set (consumed := if 0 <? queued then queued else 0) in *.
  set (failed := if (0 <? queued) && _ then count - 1 else _) in *.
  assert (failed_index <= failed < count /\ failed <= failed_index + queued) as Hf.
  { unfold failed. destruct (Z.ltb_spec 0 queued); cbn [andb]; [|lia].
    destruct (Z.leb_spec count (failed_index + queued)); lia. }
  assert (i <> failed) as Hif by lia.
  assert (failed = failed_index + queued \/ failed = count - 1) as Hf2.
  { unfold failed. destruct (Z.ltb_spec 0 queued); cbn [andb]; [|lia].
    destruct (Z.leb_spec count (failed_index + queued)); lia. }
  clearbody consumed failed. destruct (Z.leb_spec count 1); [lia|].
  apply (exhausted_search is_failed_fn failed_index count mode order pos pending failed consumed plan);
    done || lia.
Qed.

(** ** Log-safe names *)
Lemma strrchr_tail c s :
  match strrchr c s with Some i => c ∉ drop (i + 1) s | None => c ∉ s end.
Proof.
  induction s as [|b s IH]; simpl; [apply not_elem_of_nil|].
  destruct (strrchr c s) as [i|]; [done|]. destruct (Z.eqb_spec b c); [done|].
  rewrite not_elem_of_cons. by split.
Qed.

Lemma not_elem_drop {A} (x : A) n l : x ∉ l -> x ∉ drop n l.
Proof. intros H Hd. apply H. rewrite <- (take_drop n l), elem_of_app. by right. Qed.
Lemma not_elem_take {A} (x : A) n l : x ∉ l -> x ∉ take n l.
Proof. intros H Hd. apply H. rewrite <- (take_drop n l), elem_of_app. by left. Qed.

(** Cutting a string at the first [c]. *)
Lemma strchr_cut c s n :
  c ∉ take (match strchr c s with Some q => if (q <? n)%nat then q else n | None => n end) s.
Proof.
  pose proof (strchr_Some c s) as Hs. destruct (strchr c s) as [q|] eqn:E.
  - destruct (proj1 (Hs q) eq_refl) as [Hq Hlt]. intros Hin.
    apply list_elem_of_lookup in Hin as [j Hj]. apply lookup_take_Some in Hj as [Hj Hjn].
    apply (Hlt j); [|done]. destruct (Nat.ltb_spec q n); [lia|].
    destruct (decide (j < q)%nat); [done|].
    assert (j = q \/ q < j)%nat by lia. lia.
  - apply not_elem_take, strchr_None, E.
Qed.

Definition log_safe (b : Z) : Prop := b <> 47 /\ b <> 63 /\ b <> 35.

(** The end and the start that [safe_path_tail] computes. *)
Definition tail_end (path : list Z) : nat :=
  let e := match strchr 63 path with
           | Some q => if (q <? length path)%nat then q else length path
           | None => length path end in
  match strchr 35 path with Some h => if (h <? e)%nat then h else e | None => e end.
Definition last_component (s : list Z) : nat :=
  match strrchr 47 s with Some i => (i + 1)%nat | None => 0%nat end.
Definition tail_start (path : list Z) : nat :=
  match strstr (bs "://") path with
  | Some scheme =>
      if (scheme + 3 <? tail_end path)%nat then
        let rest := drop (scheme + 3) (take (tail_end path) path) in
        match strrchr 47 rest with
        | Some i => (scheme + 3 + i + 1)%nat
        | None => match strchr 64 rest with
                  | Some i => (scheme + 3 + i + 1)%nat
                  | None => (scheme + 3)%nat
                  end
        end
      else last_component (take (tail_end path) path)
  | None => last_component (take (tail_end path) path)
  end.

Lemma safe_path_tail_eq path :
  safe_path_tail (Some path) =
    if (tail_end path <=? tail_start path)%nat then bs "(endpoint)"
    else
      let start := if (48 <? tail_end path - tail_start path)%nat then (tail_end path - 48)%nat
                   else tail_start path in
      drop start (take (tail_end path) path).
Proof.
  unfold safe_path_tail. fold (tail_end path). unfold tail_start, last_component.
  case_match; [done|]. cbn zeta. by rewrite skipn_firstn_comm.
Qed.

Lemma last_component_clean s : 47 ∉ drop (last_component s) s.
Proof. unfold last_component. pose proof (strrchr_tail 47 s). by destruct (strrchr 47 s). Qed.

Lemma tail_start_clean path : 47 ∉ drop (tail_start path) (take (tail_end path) path).
Proof.
  unfold tail_start. destruct (strstr (bs "://") path) as [scheme|]; [|apply last_component_clean].
  destruct (scheme + 3 <? tail_end path)%nat; [|apply last_component_clean].
  cbn zeta. set (rest := drop (scheme + 3) _). pose proof (strrchr_tail 47 rest) as Hr.
  destruct (strrchr 47 rest) as [i|].
  - rewrite <- Nat.add_assoc, <- drop_drop. exact Hr.
  - destruct (strchr 64 rest) as [i|]; [|done].
    rewrite <- Nat.add_assoc, <- drop_drop. by apply not_elem_drop.
Qed.

Lemma tail_end_clean path : (63 ∉ take (tail_end path) path) /\ (35 ∉ take (tail_end path) path).
Proof.
  split; [|apply strchr_cut]. unfold tail_end. cbn zeta.
  set (e := match strchr 63 path with Some q => if (q <? length path)%nat then q else length path
            | None => length path end).
  assert (63 ∉ take e path) as He by apply strchr_cut. clearbody e.
  destruct (strchr 35 path) as [h|]; [|done]. destruct (Nat.ltb_spec h e); [|done].
  replace h with (Nat.min h e) by lia. rewrite <- take_take. by apply not_elem_take.
Qed.
Lemma tail_end_length path : (tail_end path <= length path)%nat.
Proof.
  unfold tail_end. destruct (strchr 63 path) as [q|]; [destruct (Nat.ltb_spec q (length path))|];
    (destruct (strchr 35 path) as [h|];
      [match goal with |- context [(h <? ?e)%nat] => destruct (Nat.ltb_spec h e) end|]); lia.
Qed.

(** What a log shows of a path or URL never has a directory separator, a
    query or a fragment, and is at most 48 bytes. *)
Theorem safe_path_tail_clean path :
  Forall log_safe (safe_path_tail path) /\ (length (safe_path_tail path) <= 48)%nat.
Proof.
  destruct path as [path|].
  2: { split; [|simpl; lia]. unfold log_safe, safe_path_tail. eval_bs. repeat constructor; lia. }
  rewrite safe_path_tail_eq. destruct (Nat.leb_spec (tail_end path) (tail_start path)) as [H|H].
  { split; [|simpl; lia]. unfold log_safe. eval_bs. repeat constructor; lia. }
  cbn zeta. pose proof (tail_end_length path) as Hl.
  destruct (tail_end_clean path) as [H63 H35]. pose proof (tail_start_clean path) as H47.
  set (start := if (48 <? _)%nat then _ else _).
  assert (tail_start path <= start /\ tail_end path - start <= 48)%nat as [Hs Hs48]
    by (unfold start; destruct (Nat.ltb_spec 48 (tail_end path - tail_start path)); lia).
  clearbody start. split; [|rewrite length_drop, length_take; lia].
  apply list.Forall_forall. intros b Hb. unfold log_safe.
  assert (forall c, c ∉ drop (tail_start path) (take (tail_end path) path) -> b <> c) as Hne.
  { intros c Hc ->. apply Hc. replace start with (tail_start path + (start - tail_start path))%nat
      in Hb by lia. rewrite <- drop_drop in Hb. by apply (not_elem_drop c (start - tail_start path)) in Hc. }
  split; [by apply Hne|]. split; apply Hne; by apply not_elem_drop.
Qed.

Section credentials.
Context (scheme user host : list Z).
Context (Hs : forall c, c ∈ scheme -> c <> 58 /\ c <> 47 /\ c <> 63 /\ c <> 35).
Context (Hu : forall c, c ∈ user ++ host -> c <> 64 /\ c <> 47 /\ c <> 63 /\ c <> 35).
#[local] Abbreviation url := (scheme ++ bs "://" ++ user ++ [64] ++ host).

Lemma url_end : tail_end url = length url.
Proof using Hs Hu.
  assert (forall c, c = 63 \/ c = 35 -> strchr c url = None) as Hnone;
    [|unfold tail_end; rewrite !Hnone by auto; done].
  intros c Hc. apply strchr_None. eval_bs.
  rewrite !elem_of_app, !elem_of_cons, elem_of_nil. intros Hin.
  assert (forall x, x ∈ scheme -> x <> c) as H1 by (intros x Hx; destruct (Hs x Hx); lia).
  assert (forall x, x ∈ user ++ host -> x <> c) as H2 by (intros x Hx; destruct (Hu x Hx); lia).
  destruct Hin as [Hin|[Hin|[Hin|[Hin|Hin]]]]; [by apply H1 in Hin|lia| |lia|];
    apply (H2 c); [|done| |done]; rewrite elem_of_app; auto.
Qed.

Lemma url_scheme : strstr (bs "://") url = Some (length scheme).
Proof using Hs.
  clear Hu. induction scheme as [|x t IH]; [reflexivity|].
  destruct (Hs x) as (Hx & _); [left|].
  assert (strstr (bs "://") (t ++ bs "://" ++ user ++ [64] ++ host) = Some (length t))
    as Hrec by (apply IH; intros c Hc; apply Hs; by right).
  revert Hrec. eval_bs. cbn [app strstr starts_with]. intros ->.
  destruct (Z.eqb_spec 58 x); [congruence|done].
Qed.

Lemma url_rest : drop (length scheme + 3) url = user ++ [64] ++ host.
Proof. rewrite app_assoc. apply drop_app_length'. by rewrite length_app. Qed.
Lemma url_length : length url = (length scheme + 3 + length user + 1 + length host)%nat.
Proof. rewrite !length_app. change (length (bs "://")) with 3%nat. simpl. lia. Qed.

Lemma url_start : tail_start url = (length scheme + 3 + length user + 1)%nat.
Proof using Hs Hu.
  unfold tail_start. rewrite url_scheme, url_end, firstn_all, url_rest, url_length.
  destruct (Nat.ltb_spec (length scheme + 3)
              (length scheme + 3 + length user + 1 + length host)); [|lia]. cbn zeta.
  assert (forall c, c = 47 \/ c = 64 -> (c ∉ user) /\ (c ∉ host)) as Hc.
  { intros c Hc. split; intros Hin; (destruct (Hu c) as (? & ? & _); [|lia]);
      rewrite elem_of_app; auto. }
  destruct (strrchr 47 (user ++ [64] ++ host)) as [i|] eqn:E.
  - apply strrchr_Some in E as [E _]. apply list_elem_of_lookup_2 in E.
    rewrite !elem_of_app, list_elem_of_singleton in E.
    destruct (Hc 47) as [H1 H2]; [by left|]. by destruct E as [?|[?|?]].
  - assert (strchr 64 (user ++ [64] ++ host) = Some (length user)) as ->; [|done].
    apply strchr_Some. split; [by rewrite lookup_app_r, Nat.sub_diag by lia|].
    intros j Hj. rewrite lookup_app_l by done. intros Hin. apply list_elem_of_lookup_2 in Hin.
    by apply Hc in Hin; auto.
Qed.
End credentials.

(** Credentials of a URL without a path stay out of the logs, as long as
    the user information has no ['@'] of its own: only the tail of the host is
    shown. *)
Theorem safe_path_tail_strips_credentials scheme user host :
  (forall c, c ∈ scheme -> c <> 58 /\ c <> 47 /\ c <> 63 /\ c <> 35) ->
  (forall c, c ∈ user ++ host -> c <> 64 /\ c <> 47 /\ c <> 63 /\ c <> 35) -> host <> [] ->
  safe_path_tail (Some (scheme ++ bs "://" ++ user ++ [64] ++ host)) =
    drop (length host - 48) host.
Proof.
  intros Hs Hu Hh. rewrite safe_path_tail_eq, url_end, url_start by done.
  rewrite firstn_all, url_length. assert (length host <> 0%nat) by (by destruct host).
  destruct (Nat.leb_spec (length scheme + 3 + length user + 1 + length host)
              (length scheme + 3 + length user + 1)); [lia|]. cbn zeta.
  set (k := if (48 <? _)%nat then _ else _).
  assert (k = length scheme + 3 + (length user + 1 + (length host - 48)))%nat as ->.
  { unfold k. match goal with |- context [(48 <? ?n)%nat] => destruct (Nat.ltb_spec 48 n) end; lia. }
  rewrite <- drop_drop, url_rest, app_assoc, <- drop_drop. f_equal.
  apply drop_app_length'. rewrite length_app. simpl. lia.
Qed.

(** The first ['@'] ends what is taken for the credentials: a password that
    holds one leaks its tail into the log. *)
Lemma safe_path_tail_leaks_password :
  safe_path_tail (Some (bs "http://user:se@cret@host")) = bs "cret@host".
Proof. reflexivity. Qed.

(** ** Premature ends *)

(** A local track whose decoder stops with more than 8192 frames missing
    is retried, and no other stop is: never a stream, a track of unknown
    length, or one that played through. *)
Theorem is_premature_eof_spec played total is_stream :
  0 <= played < 18446744073709551616 -> 0 <= total < 18446744073709551616 ->
  is_premature_eof played total is_stream = true <->
    is_stream = false /\ total <> 0 /\ played + MAX_EOF_TOLERANCE_FRAMES < total.
Proof.
  intros Hp Ht. unfold is_premature_eof, MAX_EOF_TOLERANCE_FRAMES, u64.
  destruct is_stream; simpl; [split; [done|by intros [? _]]|].
  destruct (Z.eqb_spec total 0); [split; [done|lia]|].
  destruct (Z.leb_spec total played); [split; [done|lia]|].
  rewrite Z.mod_small by lia. rewrite Z.ltb_lt. split; [|lia]. intros. split; [done|lia].
Qed.

(** ** Witnesses *)
Definition example_order : list Z := [2; 0; 1; 3].
Lemma failure_plan_sound_witness :
  exists plan, compute_decoder_failure_advance_plan (Some (fun i => i =? 0)) 2 4 3 0
      (Some example_order) 0 None = Some plan /\ target_index plan = 1.
Proof.
  destruct (failure_plan_sound (Some (fun i => i =? 0)) 2 4 3 0 (Some example_order) 0 None)
    as (plan & Hp & _); [lia|lia|reflexivity|done|].
  exists plan. split; [exact Hp|]. vm_compute in Hp. injection Hp as <-. reflexivity.
Defined.
Lemma failure_plan_exhaustive_witness : playable (Some (fun i => negb (i =? 2))) 3 = false.
Proof.
  apply (failure_plan_exhaustive (Some (fun i => negb (i =? 2))) 2 4 3 0 (Some example_order) 0 None
    (no_target 0) 3); try lia; try reflexivity.
  right. exists example_order. split; [reflexivity|]. left. exists 3. split; [lia|reflexivity].
Defined.
Lemma safe_path_tail_strips_credentials_witness :
  safe_path_tail (Some (bs "http" ++ bs "://" ++ bs "me:pw" ++ [64] ++ bs "nas.local")) =
    drop (length (bs "nas.local") - 48) (bs "nas.local").
Proof.
  apply safe_path_tail_strips_credentials; [| |discriminate]; intros c; eval_bs;
    rewrite ?elem_of_app, ?elem_of_cons, ?elem_of_nil; lia.
Defined.
Lemma is_premature_eof_spec_witness : is_premature_eof 100 100000 false = true.
Proof.
  apply (is_premature_eof_spec 100 100000 false); [lia|lia|].
  unfold MAX_EOF_TOLERANCE_FRAMES. split; [reflexivity|lia].
Defined.
