(* ===== verification/QueueResume.v ===== *)
(** The saved play queue of src/library/queue_resume.c: its binary format, the
    checks on both sides, and the atomic publication of the file. *)
From stdpp Require Import gmap.
From S2P Require Import Prelude Endian PlaybackOrder.
Local Open Scope Z_scope.

(** ** The state *)

(** [position] is the bit pattern of the C double. *)
Record queue_resume_t := {
  paths : option (list (option (list Z))); order : option (list Z);
  continuation : option (list Z);
  count : Z; current : Z; pending : Z; mode : Z; shuffle_pos : Z; position : Z }.

Definition MAX_ENTRIES : Z := 1000000.
Definition magic : list Z := bs "HIBYQ001".

(** [isfinite(p) && p >= 0] on the bits of an IEEE double: a finite exponent,
    and either no sign or the negative zero. *)
Definition position_ok (p : Z) : bool :=
  negb (Z.land (Z.shiftr p 52) 2047 =? 2047) && ((Z.shiftr p 63 =? 0) || (p =? 9223372036854775808)).

Definition valid (s : queue_resume_t) : bool :=
  (0 <? count s) && (count s <=? MAX_ENTRIES) && (0 <=? current s) && (current s <? count s) &&
  (0 <=? pending s) && (pending s <? count s - current s) && (0 <=? mode s) && (mode s <=? 3) &&
  position_ok (position s) &&
  match order s with
  | Some _ => (0 <=? shuffle_pos s) && (shuffle_pos s <? count s)
  | None => true
  end.

(** The loop of [permutation] over the remaining entries. *)
Fixpoint permutation_loop (l : list Z) (count : Z) (seen : list bool) : bool :=
  match l with
  | [] => true
  | v :: l =>
      if (v <? 0) || (count <=? v) || default true (seen !! Z.to_nat v) then false
      else permutation_loop l count (<[Z.to_nat v := true]> seen)
  end.
(** [permutation]; [alloc_ok] is the success of its [calloc]. *)
Definition permutation (alloc_ok : bool) (order : option (list Z)) (count : Z) : bool :=
  match order with
  | None => true
  | Some l => alloc_ok &&
      permutation_loop (take (Z.to_nat count) l) count (replicate (Z.to_nat count) false)
  end.

(** ** Writing *)
Definition le64 (v : Z) : list Z := le32 v ++ le32 (Z.shiftr v 32).
Definition flag {A} (o : option A) : Z := match o with Some _ => 1 | None => 0 end.

(** The records of the path loop; [None] when a path is empty or too long. *)
Fixpoint write_paths (l : list (option (list Z))) : option (list Z) :=
  match l with
  | [] => Some []
  | p :: l =>
      let p := default [] p in
      let n := Z.of_nat (length p) in
      if (0 <? n) && (n <? 4096) then
        rest ← write_paths l; Some (le32 (u32 n) ++ p ++ rest)
      else None
  end.
Definition write_ints (o : option (list Z)) (count : Z) : list Z :=
  match o with Some l => concat (map le32 (take (Z.to_nat count) l)) | None => [] end.

(** What [queue_resume_write_at] writes into its temporary file. *)
Definition serialize (s : queue_resume_t) : option (list Z) :=
  ps ← paths s; body ← write_paths (take (Z.to_nat (count s)) ps);
  Some (magic ++ le32 (count s) ++ le32 (current s) ++ le32 (pending s) ++ le32 (mode s) ++
        le32 (shuffle_pos s) ++ le32 (flag (order s)) ++ le32 (flag (continuation s)) ++
        le64 (position s) ++ body ++
        write_ints (order s) (count s) ++ write_ints (continuation s) (count s)).

(** A directory: file names and their contents. *)
Abbreviation directory := (gmap (list Z) (list Z)).
Definition NAME_MAX : Z := 255.

(** Decimal digits, for [%ld] and [%u] of non-negative numbers. *)
Fixpoint digits (fuel : nat) (n : Z) (acc : list Z) : list Z :=
  match fuel with
  | O => acc
  | S fuel => let acc := 48 + n mod 10 :: acc in
              if n <? 10 then acc else digits fuel (n / 10) acc
  end.
Definition temp_name (name : list Z) (pid attempt : Z) : list Z :=
  bs "." ++ name ++ bs "." ++ digits 20 pid [] ++ bs "." ++ digits 20 attempt [] ++ bs ".tmp".

(** How the system calls of one write turn out. [w_partial] bytes reach the
    temporary file when the writing fails. *)
Record write_env := {
  w_pid : Z; w_alloc : bool; w_openat : bool; w_fdopen : bool; w_partial : nat; w_write : bool;
  w_sync : bool; w_fclose : bool; w_rename : bool }.

(** The loop over [attempt]: the first temporary name that is free. *)
Fixpoint choose_temp (todo : nat) (attempt : Z) (env : write_env) (dir : directory)
    (name : list Z) : option (list Z) :=
  match todo with
  | O => None
  | S todo =>
      let temp := temp_name name (w_pid env) attempt in
      if NAME_MAX <=? Z.of_nat (length temp) then None
      else match dir !! temp with
           | Some _ => choose_temp todo (attempt + 1) env dir name
           | None => if w_openat env then Some temp else None
           end
  end.

Definition queue_resume_write_at (env : write_env) (dir : directory) (name : list Z)
    (s : queue_resume_t) : bool * directory :=
  if negb (valid s) || match paths s with None => true | Some _ => false end ||
     negb (permutation (w_alloc env) (order s) (count s)) ||
     negb (permutation (w_alloc env) (continuation s) (count s))
  then (false, dir)
  else if (length name =? 0)%nat || match strchr 47 name with Some _ => true | None => false end
  then (false, dir)
  else match choose_temp 100 0 env dir name with
  | None => (false, dir)
  | Some temp =>
      let dir := <[temp := []]> dir in
      if negb (w_fdopen env) then (false, delete temp dir) else
      let written := match serialize s with Some b => b | None => [] end in
      let dir := <[temp := if w_write env then written else take (w_partial env) written]> dir in
      let ok := match serialize s with Some _ => w_write env | None => false end in
      let ok := ok && w_sync env && w_fclose env in
      if ok && w_rename env then (true, <[name := written]> (delete temp dir))
      else (false, delete temp dir)
  end.

(** ** Reading *)
Definition get_u32 (b : list Z) : option (Z * list Z) :=
  v ← library_read_u32le b; Some (v, drop 4 b).
Definition get_i32 (b : list Z) : option (Z * list Z) :=
  '(v, b) ← get_u32 b; Some (i32 v, b).
Definition get_u64 (b : list Z) : option (Z * list Z) :=
  '(lo, b) ← get_u32 b; '(hi, b) ← get_u32 b; Some (lo + hi * 4294967296, b).

Definition MAX_TOTAL : Z := 67108864.

Fixpoint read_paths (todo : nat) (total : Z) (b : list Z)
    : option (list (option (list Z)) * list Z) :=
  match todo with
  | O => Some ([], b)
  | S todo =>
      '(n, b) ← get_u32 b;
      if (n <=? 0) || (4096 <=? n) then None else
      let total := total + n in
      if MAX_TOTAL <? total then None else
      let p := take (Z.to_nat n) b in
      if negb (Z.of_nat (length p) =? n) || negb (Z.of_nat (length (cstr p)) =? n) then None else
      '(ps, b) ← read_paths todo total (drop (Z.to_nat n) b);
      Some (Some p :: ps, b)
  end.
Fixpoint read_ints (todo : nat) (b : list Z) : option (list Z * list Z) :=
  match todo with
  | O => Some ([], b)
  | S todo => '(v, b) ← get_i32 b; '(l, b) ← read_ints todo b; Some (v :: l, b)
  end.
Definition read_order (alloc_ok : bool) (present count : Z) (b : list Z)
    : option (option (list Z) * list Z) :=
  if present =? 0 then Some (None, b) else
  '(l, b) ← read_ints (Z.to_nat count) b;
  if alloc_ok && permutation alloc_ok (Some l) count then Some (Some l, b) else None.

(** [queue_resume_read] on the contents of the file; [None] is [return false]. *)
Definition queue_resume_read (alloc_ok : bool) (file : list Z) : option queue_resume_t :=
  if negb (bytes_eqb (take 8 file) magic) then None else
  '(h0, b) ← get_i32 (drop 8 file); '(h1, b) ← get_i32 b; '(h2, b) ← get_i32 b;
  '(h3, b) ← get_i32 b; '(h4, b) ← get_i32 b; '(h5, b) ← get_i32 b; '(h6, b) ← get_i32 b;
  '(pos, b) ← get_u64 b;
  let s := {| paths := None; order := None; continuation := None; count := h0; current := h1;
              pending := h2; mode := h3; shuffle_pos := h4; position := pos |} in
  if negb (valid s) || negb ((h5 =? 0) || (h5 =? 1)) || negb ((h6 =? 0) || (h6 =? 1)) then None else
  if negb alloc_ok then None else
  '(ps, b) ← read_paths (Z.to_nat h0) 0 b;
  '(o, b) ← read_order alloc_ok h5 h0 b;
  '(c, b) ← read_order alloc_ok h6 h0 b;
  let s := {| paths := Some ps; order := o; continuation := c; count := h0; current := h1;
              pending := h2; mode := h3; shuffle_pos := h4; position := pos |} in
  if valid s &&
     match o with Some l => default (-1) (l !! Z.to_nat h4) =? h1 | None => true end &&
     (length b =? 0)%nat
  then Some s else None.

(** ** The format *)
Definition bytes_ok (b : list Z) : Prop := Forall is_byte b.

(** The bytes only depend on the value modulo 2^32. *)
Lemma le32_add v k : le32 (v + k * 4294967296) = le32 v.
Proof.
  assert (forall n d, 0 < d -> n * d * 256 = 4294967296 ->
    (v + k * 4294967296) / d mod 256 = v / d mod 256) as H.
  { intros n d Hd Hn. replace (v + k * 4294967296) with (v + k * n * 256 * d) by (rewrite <- Hn; ring).
    by rewrite Z.div_add, Z_mod_plus_full by lia. }
  unfold le32, u8. rewrite !Z.shiftr_div_pow2 by lia.
  cbn [Z.pow Z.pow_pos Pos.iter Z.mul Pos.mul]. f_equal.
  - pose proof (H 16777216 1) as H1. rewrite !Z.div_1_r in H1. by apply H1.
  - f_equal; [by apply (H 65536)|]. f_equal; [by apply (H 256)|]. f_equal. by apply (H 1).
Qed.
Lemma le32_u32 v : le32 (u32 v) = le32 v.
Proof.
  unfold u32. rewrite <- (le32_add v (- (v / 4294967296))). f_equal. div_lia.
Qed.
Lemma le32_i32 v : le32 (i32 v) = le32 v.
Proof.
  unfold i32. rewrite <- (le32_add v (- ((v + 2147483648) / 4294967296))). f_equal. div_lia.
Qed.

Lemma get_u32_le32 v r : get_u32 (le32 v ++ r) = Some (u32 v, r).
Proof. unfold get_u32. by rewrite read_le32. Qed.
Lemma get_u32_inv b v r :
  bytes_ok b -> get_u32 b = Some (v, r) -> b = le32 v ++ r /\ in_u32 v /\ bytes_ok r.
Proof.
  unfold get_u32. intros Hb. destruct b as [|b0 [|b1 [|b2 [|b3 b]]]]; try done.
  do 4 (apply Forall_cons_iff in Hb as [? Hb]).
  destruct (library_read_u32le_roundtrip 0 [] b0 b1 b2 b3) as [_ (w & Hw & Hr & He)]; try done.
  rewrite library_read_u32le_value in Hw |- * by done. bind_simpl. injection Hw as ->.
  intros [=<- <-]. by rewrite He.
Qed.

Lemma get_i32_le32 v r : in_i32 v -> get_i32 (le32 v ++ r) = Some (v, r).
Proof. intros H. unfold get_i32. rewrite get_u32_le32. bind_simpl. by rewrite i32_u32. Qed.
Lemma get_i32_inv b v r :
  bytes_ok b -> get_i32 b = Some (v, r) -> b = le32 v ++ r /\ in_i32 v /\ bytes_ok r.
Proof.
  unfold get_i32. intros Hb. destruct (get_u32 b) as [[w r']|] eqn:E; bind_simpl; [|done].
  intros [=<- <-]. apply get_u32_inv in E as (-> & _ & Hr); [|done].
  rewrite le32_i32. split; [done|]. split; [apply i32_range|done].
Qed.

Lemma get_u64_le64 v r : 0 <= v < 18446744073709551616 -> get_u64 (le64 v ++ r) = Some (v, r).
Proof.
  intros H. unfold get_u64, le64. rewrite <- app_assoc, get_u32_le32. bind_simpl.
  rewrite get_u32_le32. bind_simpl. do 2 f_equal. unfold u32.
  rewrite Z.shiftr_div_pow2 by lia. change (2 ^ 32) with 4294967296. div_lia.
Qed.
Lemma get_u64_inv b v r :
  bytes_ok b -> get_u64 b = Some (v, r) ->
  b = le64 v ++ r /\ 0 <= v < 18446744073709551616 /\ bytes_ok r.
Proof.
  unfold get_u64. intros Hb. destruct (get_u32 b) as [[lo b1]|] eqn:E; bind_simpl; [|done].
  apply get_u32_inv in E as (-> & Hlo & Hb1); [|done].
  destruct (get_u32 b1) as [[hi b2]|] eqn:E; bind_simpl; [|done].
  apply get_u32_inv in E as (-> & Hhi & Hb2); [|done]. intros [=<- <-].
  unfold in_u32 in *. split; [|split; [lia|done]]. unfold le64.
  rewrite <- app_assoc. f_equal; [|f_equal].
  - rewrite <- (le32_u32 (lo + _)). f_equal. unfold u32. div_lia.
  - f_equal. rewrite Z.shiftr_div_pow2 by lia. change (2 ^ 32) with 4294967296. div_lia.
Qed.

Lemma read_ints_complete l r :
  Forall in_i32 l -> read_ints (length l) (concat (map le32 l) ++ r) = Some (l, r).
Proof.
  induction 1 as [|v l Hv Hl IH]; [done|]. cbn [length read_ints map concat].
  rewrite <- app_assoc, get_i32_le32 by done. bind_simpl. rewrite IH. done.
Qed.
Lemma read_ints_inv n b l r :
  bytes_ok b -> read_ints n b = Some (l, r) ->
  b = concat (map le32 l) ++ r /\ length l = n /\ Forall in_i32 l /\ bytes_ok r.
Proof.
  revert b l. induction n as [|n IH]; intros b l Hb; cbn [read_ints].
  { intros [=<- <-]. repeat split; [constructor|done]. }
  destruct (get_i32 b) as [[v b1]|] eqn:E; bind_simpl; [|done].
  apply get_i32_inv in E as (-> & Hv & Hb1); [|done].
  destruct (read_ints n b1) as [[l' b2]|] eqn:E; bind_simpl; [|done]. intros [=<- <-].
  apply IH in E as (-> & Hl & Hf & Hb2); [|done]. cbn [map concat length]. rewrite <- app_assoc.
  split; [done|]. split; [lia|]. split; [by constructor|done].
Qed.

(** The paths a saved queue can hold. *)
Definition path_ok (p : option (list Z)) : Prop :=
  exists s, p = Some s /\ Forall is_char s /\ (0 < length s < 4096)%nat.
Fixpoint total_length (ps : list (option (list Z))) : Z :=
  match ps with
  | [] => 0
  | p :: ps => Z.of_nat (length (default [] p)) + total_length ps
  end.
Lemma total_length_nonneg ps : 0 <= total_length ps.
Proof. induction ps as [|p ps IH]; simpl; lia. Qed.

Lemma read_paths_complete ps body total r :
  Forall path_ok ps -> write_paths ps = Some body -> total + total_length ps <= MAX_TOTAL ->
  read_paths (length ps) total (body ++ r) = Some (ps, r).
Proof.
  intros Hp. revert body total. induction Hp as [|p ps (s & -> & Hs & Hl) Hps IH]; intros body total;
    cbn [write_paths length read_paths total_length]; [by intros [=<-]|].
  cbn [default from_option]. unfold id.
  destruct (Z.ltb_spec 0 (Z.of_nat (length s))); [|lia].
  destruct (Z.ltb_spec (Z.of_nat (length s)) 4096); [|lia]. cbn [andb].
  destruct (write_paths ps) as [rest|]; bind_simpl; [|done]. intros Hbody Ht.
  assert (body = le32 (u32 (Z.of_nat (length s))) ++ s ++ rest) as -> by congruence.
  pose proof (total_length_nonneg ps).
  rewrite <- app_assoc, get_u32_le32. bind_simpl.
  assert (u32 (Z.of_nat (length s)) = Z.of_nat (length s)) as Hu by (apply u32_id; unfold in_u32; lia).
  rewrite !Hu.
  destruct (Z.leb_spec (Z.of_nat (length s)) 0); [lia|].
  destruct (Z.leb_spec 4096 (Z.of_nat (length s))); [lia|]. cbn [orb].
  destruct (Z.ltb_spec MAX_TOTAL (total + Z.of_nat (length s))); [lia|].
  rewrite Nat2Z.id, <- app_assoc, take_app_length, drop_app_length.
  rewrite cstr_chars, Z.eqb_refl by done. cbn [negb orb]. rewrite IH; [done|done|lia].
Qed.

Lemma cstr_full_chars p : bytes_ok p -> length (cstr p) = length p -> Forall is_char p.
Proof.
  induction 1 as [|b p Hb Hp IH]; simpl; [constructor|].
  destruct (Z.eqb_spec b 0); [done|]. simpl. intros [=H]. constructor; [|by apply IH].
  unfold is_byte in Hb. unfold is_char. lia.
Qed.

Lemma read_paths_inv n total b ps r :
  bytes_ok b -> 0 <= total -> read_paths n total b = Some (ps, r) ->
  length ps = n /\ Forall path_ok ps /\ (n <> 0%nat -> total + total_length ps <= MAX_TOTAL) /\
  exists body, write_paths ps = Some body /\ b = body ++ r /\ bytes_ok r.
Proof.
  revert total b ps. induction n as [|n IH]; intros total b ps Hb Ht; cbn [read_paths].
  { intros [=<- <-]. split; [done|]. split; [constructor|]. split; [done|]. by exists []. }
  destruct (get_u32 b) as [[k b1]|] eqn:E; bind_simpl; [|done].
  apply get_u32_inv in E as (-> & Hk & Hb1); [|done].
  destruct ((k <=? 0) || (4096 <=? k)) eqn:E1; [done|]. bool_prop.
  destruct (MAX_TOTAL <? total + k) eqn:E2; [done|]. bool_prop.
  set (p := take (Z.to_nat k) b1). destruct (_ || _) eqn:E3; [done|]. bool_prop.
  destruct (read_paths n _ _) as [[ps' b2]|] eqn:E; bind_simpl; [|done]. intros [=<- <-].
  assert (bytes_ok p) as Hpb by (by apply Forall_take).
  apply IH in E as (Hl & Hps & Hmax & body & Hw & Hd & Hr); [|by apply Forall_drop|lia].
  split; [simpl; lia|]. split; [|split].
  - constructor; [|done]. exists p. split; [done|]. split; [|lia].
    apply cstr_full_chars; [done|lia].
  - intros _. cbn [total_length default from_option]. unfold id.
    destruct n as [|n]; [|specialize (Hmax ltac:(lia)); lia].
    destruct ps'; [simpl; lia|done].
  - cbn [write_paths default from_option]. unfold id.
    destruct (Z.ltb_spec 0 (Z.of_nat (length p))); [|lia].
    destruct (Z.ltb_spec (Z.of_nat (length p)) 4096); [|lia]. cbn [andb]. rewrite Hw. bind_simpl.
    eexists. split; [done|]. split; [|done]. rewrite le32_u32.
    replace (Z.of_nat (length p)) with k by lia. rewrite <- !app_assoc, <- Hd. f_equal.
    unfold p. by rewrite take_drop.
Qed.

(** ** The states that survive a restart *)
Lemma permutation_loop_spec l count seen :
  length seen = Z.to_nat count ->
  permutation_loop l count seen = true <-> usable count seen l.
Proof.
  revert seen; induction l as [|v l IH]; intros seen Hs; cbn [permutation_loop].
  { split; [intros _; split; constructor|done]. }
  rewrite usable_cons by done.
  destruct (Z.ltb_spec v 0); cbn [orb]; [split; [done|lia]|].
  destruct (Z.leb_spec count v); cbn [orb]; [split; [done|lia]|].
  destruct (lookup_lt_is_Some_2 seen (Z.to_nat v)) as [x Hx]; [lia|].
  rewrite Hx. cbn [default from_option]. unfold id. destruct x.
  - split; [done|]. by intros [[_ ?] _].
  - rewrite IH by (by rewrite length_insert). split; [|tauto]. intros Hu. split; [|done]. split; [lia|done].
Qed.

Lemma permutation_spec l count :
  length l = Z.to_nat count -> permutation true (Some l) count = true <-> bag count l.
Proof.
  intros Hl. unfold permutation. rewrite <- Hl, firstn_all, Hl. cbn [andb].
  rewrite permutation_loop_spec by apply length_replicate.
  by apply (usable_fresh count (replicate (Z.to_nat count) tt)); [apply length_replicate|].
Qed.

(** A play order over all the [n] slots, in C integers. *)
Definition order_ok (n : Z) (o : option (list Z)) : Prop :=
  match o with Some l => bag n l | None => True end.

Lemma bag_in_i32 n l : n <= MAX_ENTRIES -> bag n l -> Forall in_i32 l.
Proof.
  intros Hn Hb. apply list.Forall_forall. intros v Hv. apply (bag_elem _ _ _ Hb) in Hv.
  unfold in_i32, INT_MAX, MAX_ENTRIES in *. lia.
Qed.

Record loadable (s : queue_resume_t) : Prop := {
  lo_valid : valid s = true;
  lo_paths : exists ps, paths s = Some ps /\ length ps = Z.to_nat (count s) /\
               Forall path_ok ps /\ total_length ps <= MAX_TOTAL;
  lo_order : order_ok (count s) (order s);
  lo_cont : order_ok (count s) (continuation s);
  lo_current : match order s with
               | Some l => l !! Z.to_nat (shuffle_pos s) = Some (current s)
               | None => True
               end;
  lo_shuffle : in_i32 (shuffle_pos s);
  lo_position : 0 <= position s < 18446744073709551616 }.

Lemma valid_bounds s : valid s = true -> 0 < count s <= MAX_ENTRIES /\
  0 <= current s < count s /\ 0 <= pending s < count s /\ 0 <= mode s <= 3.
Proof.
  unfold valid. intros H. repeat (apply andb_true_iff in H; destruct H as [H ?]).
  bool_prop. lia.
Qed.

Lemma valid_small s v : valid s = true -> 0 <= v <= count s \/ 0 <= v <= 3 -> in_i32 v.
Proof.
  intros Hv Hr. apply valid_bounds in Hv. unfold in_i32, INT_MAX, MAX_ENTRIES in *. lia.
Qed.

Lemma read_order_complete o n r :
  0 < n <= MAX_ENTRIES -> order_ok n o ->
  read_order true (flag o) n (write_ints o n ++ r) = Some (o, r).
Proof.
  intros Hn Ho. destruct o as [l|]; [|done]. simpl in Ho. pose proof (bag_length _ _ Ho) as Hl.
  unfold read_order, write_ints, flag. cbn [Z.eqb]. rewrite <- Hl, firstn_all.
  rewrite read_ints_complete by (apply (bag_in_i32 n); [lia|done]). bind_simpl.
  by rewrite (proj2 (permutation_spec l n Hl) Ho).
Qed.

Lemma read_order_inv h n b o r :
  bytes_ok b -> h = 0 \/ h = 1 -> read_order true h n b = Some (o, r) ->
  h = flag o /\ order_ok n o /\ b = write_ints o n ++ r /\ bytes_ok r.
Proof.
  intros Hb Hh. unfold read_order. destruct (Z.eqb_spec h 0) as [->|].
  { intros [=<- <-]. repeat split. done. }
  destruct (read_ints _ b) as [[l b1]|] eqn:E; bind_simpl; [|done].
  apply read_ints_inv in E as (-> & Hl & _ & Hb1); [|done].
  destruct (permutation true (Some l) n) eqn:Ep; [|done]. intros [=<- <-].
  apply permutation_spec in Ep; [|done]. split; [simpl; lia|]. split; [done|]. split; [|done].
  unfold write_ints. by rewrite <- Hl, firstn_all.
Qed.

(** Every loadable state can be serialized and reads back. *)
Lemma queue_resume_read_complete s b :
  serialize s = Some b -> loadable s -> queue_resume_read true b = Some s.
Proof.
  intros Hser [Hv (ps & Hps & Hlen & Hpok & Htot) Ho Hc Hcur Hsh Hpos].
  pose proof (valid_bounds s Hv) as Hb. unfold serialize in Hser. rewrite Hps in Hser.
  cbn [mbind option_bind] in Hser. rewrite <- Hlen, firstn_all in Hser.
  destruct (write_paths ps) as [body|] eqn:Ew; cbn [mbind option_bind] in Hser; [|done].
  apply (inj Some) in Hser. subst b. unfold queue_resume_read.
  replace (take 8 _) with magic by (symmetry; by apply take_app_length').
  rewrite bytes_eqb_refl. cbn [negb]. rewrite drop_app_length' by done.
  assert (forall o : option (list Z), in_i32 (flag o)) as Hflag
    by (intros []; unfold in_i32, INT_MAX; simpl; lia).
  repeat (rewrite get_i32_le32 by (first [done | apply Hflag | apply (valid_small s); [done|lia]]);
          bind_simpl).
  rewrite get_u64_le64 by done. bind_simpl. match goal with |- context [negb (valid ?x)] => set (s0 := x) end.
  assert (valid s0 = true) as Hv0.
  { unfold valid in *. unfold s0. cbn [count current pending mode position order].
    apply andb_true_iff in Hv as [-> _]. done. }
  rewrite Hv0. assert (forall o : option (list Z), (flag o =? 0) || (flag o =? 1) = true) as Hf
    by (by intros []). rewrite !Hf. cbn [negb orb].
  rewrite <- Hlen, (read_paths_complete ps body 0) by done. bind_simpl.
  rewrite read_order_complete by (done || lia). bind_simpl.
  rewrite <- (app_nil_r (write_ints (continuation s) (count s))).
  rewrite read_order_complete by (done || lia). bind_simpl.
  assert ({| paths := Some ps; order := order s; continuation := continuation s; count := count s;
             current := current s; pending := pending s; mode := mode s;
             shuffle_pos := shuffle_pos s; position := position s |} = s) as ->
    by (destruct s; simpl in *; congruence).
  rewrite Hv. cbn [length Nat.eqb]. rewrite andb_true_r.
  destruct (order s) as [l|]; [|done]. rewrite Hcur. cbn [default from_option]. unfold id.
  by rewrite Z.eqb_refl.
Qed.

Lemma starts_magic b : bytes_eqb (take 8 b) magic = true -> b = magic ++ drop 8 b.
Proof. intros H. apply bytes_eqb_eq in H. rewrite <- H at 1. symmetry. apply take_drop. Qed.

(** What the reader accepts is a loadable state, and the file is exactly its
    serialization. *)
Lemma queue_resume_read_sound b s :
  bytes_ok b -> queue_resume_read true b = Some s -> serialize s = Some b /\ loadable s.
Proof.
  intros Hb. unfold queue_resume_read.
  destruct (bytes_eqb (take 8 b) magic) eqn:Em; [|done]. cbn [negb].
  apply starts_magic in Em. rewrite Em in Hb. apply list.Forall_app in Hb as [_ Hb].
  destruct (get_i32 (drop 8 b)) as [[h0 b0]|] eqn:E; bind_simpl; [|done].
  apply get_i32_inv in E as (E0 & I0 & Hb0); [|done].
  destruct (get_i32 b0) as [[h1 b1]|] eqn:E; bind_simpl; [|done].
  apply get_i32_inv in E as (-> & I1 & Hb1); [|done].
  destruct (get_i32 b1) as [[h2 b2]|] eqn:E; bind_simpl; [|done].
  apply get_i32_inv in E as (-> & I2 & Hb2); [|done].
  destruct (get_i32 b2) as [[h3 b3]|] eqn:E; bind_simpl; [|done].
  apply get_i32_inv in E as (-> & I3 & Hb3); [|done].
  destruct (get_i32 b3) as [[h4 b4]|] eqn:E; bind_simpl; [|done].
  apply get_i32_inv in E as (-> & I4 & Hb4); [|done].
  destruct (get_i32 b4) as [[h5 b5]|] eqn:E; bind_simpl; [|done].
  apply get_i32_inv in E as (-> & I5 & Hb5); [|done].
  destruct (get_i32 b5) as [[h6 b6]|] eqn:E; bind_simpl; [|done].
  apply get_i32_inv in E as (-> & I6 & Hb6); [|done].
  destruct (get_u64 b6) as [[pos b7]|] eqn:E; bind_simpl; [|done].
  apply get_u64_inv in E as (-> & Ipos & Hb7); [|done].
  destruct (_ || _ || _) eqn:Ev; [done|]. bool_prop.
  destruct (read_paths _ 0 b7) as [[ps b8]|] eqn:E; bind_simpl; [|done].
  apply read_paths_inv in E as (Hlen & Hps & Htot & body & Hw & -> & Hb8); [|done|lia].
  destruct (read_order true h5 h0 b8) as [[o b9]|] eqn:E; bind_simpl; [|done].
  apply read_order_inv in E as (-> & Ho & -> & Hb9); [|done|lia].
  destruct (read_order true h6 h0 b9) as [[c b10]|] eqn:E; bind_simpl; [|done].
  apply read_order_inv in E as (-> & Hc & -> & Hb10); [|done|lia].
  match goal with |- (if valid ?x && _ && _ then _ else _) = _ -> _ => set (s1 := x) end.
  destruct (_ && _ && _) eqn:Ef; [|done]. intros Hs. apply (inj Some) in Hs. subst s.
  apply andb_true_iff in Ef as [[Hval Hcur]%andb_true_iff Hnil].
  apply Nat.eqb_eq, length_zero_iff_nil in Hnil as ->. rewrite app_nil_r in E0.
  pose proof (valid_bounds s1 Hval) as Hvb. unfold s1 in Hvb. cbn [count current pending mode] in Hvb. split.
  - unfold serialize, s1. cbn [paths count]. bind_simpl. rewrite <- Hlen, firstn_all. bind_simpl. rewrite Hw.
    bind_simpl. rewrite Em, E0. done.
  - split; [done|..]; unfold s1; cbn [paths count order continuation current shuffle_pos position]; try done.
    + exists ps. split; [done|]. split; [done|]. split; [done|]. apply Htot. lia.
    + destruct o as [l|]; [|done]. bool_prop. simpl in Ho. pose proof (bag_length _ _ Ho) as Hl.
      destruct (l !! Z.to_nat h4) as [v|] eqn:El; simpl in *; [by subst|lia].
Qed.

(** C22. The saved queue survives a restart: [queue_resume_read] accepts
    exactly the files that [queue_resume_write_at] writes for a loadable state,
    and gives back that very state. *)
Theorem queue_resume_roundtrip b s :
  bytes_ok b -> queue_resume_read true b = Some s <-> serialize s = Some b /\ loadable s.
Proof.
  intros Hb. split; [by apply queue_resume_read_sound|]. intros [Hs Hl].
  by apply queue_resume_read_complete.
Qed.

(** ** Publication *)
Lemma choose_temp_spec todo attempt env dir name temp :
  choose_temp todo attempt env dir name = Some temp ->
  dir !! temp = None /\ exists a, temp = temp_name name (w_pid env) a.
Proof.
  revert attempt; induction todo as [|todo IH]; intros attempt; cbn [choose_temp]; [done|].
  destruct (_ <=? _); [done|].
  destruct (dir !! temp_name name (w_pid env) attempt) eqn:E; [apply IH|].
  destruct (w_openat env); [|done]. intros [=<-]. eauto.
Qed.

Lemma temp_name_ne name pid a : temp_name name pid a <> name.
Proof.
  intros H. apply (f_equal length) in H. unfold temp_name in H. rewrite !length_app in H.
  change (length (bs ".")) with 1%nat in H. lia.
Qed.

(** A save is atomic: whichever system call fails and at whatever point,
    every other file of the directory is untouched, no temporary file is left,
    and the queue file is either what it was, or the complete serialization of
    a valid state, the latter exactly when the save reports success. *)
Theorem queue_resume_write_atomic env dir name s :
  let '(ok, dir') := queue_resume_write_at env dir name s in
  (ok = false -> dir' = dir) /\
  (ok = true -> exists b, serialize s = Some b /\ valid s = true /\ dir' = <[name := b]> dir).
Proof.
  unfold queue_resume_write_at. destruct (_ || _ || _ || _) eqn:E1; [by split|]. bool_prop.
  destruct (_ || _); [by split|].
  destruct (choose_temp 100 0 env dir name) as [temp|] eqn:Ec; [|by split].
  apply choose_temp_spec in Ec as [Hfree (a & Ht)].
  assert (forall x y : list Z, delete temp (<[temp:=x]> (<[temp:=y]> dir)) = dir) as Hdel.
  { intros x y. by rewrite !delete_insert_eq, delete_id by done. }
  destruct (w_fdopen env); cbn [negb].
  2: { split; [|done]. intros _. by rewrite delete_insert_eq, delete_id. }
  destruct (serialize s) as [b|] eqn:Es; cbn [andb]; [|by rewrite Hdel].
  destruct (w_write env && w_sync env && w_fclose env && w_rename env) eqn:E.
  - split; [done|]. intros _. exists b. by rewrite Hdel.
  - split; [|done]. intros _. apply Hdel.
Qed.

(** ** Witnesses *)
Definition example_queue : queue_resume_t :=
  {| paths := Some [Some (bs "/a.flac"); Some (bs "/b.mp3")]; order := Some [1; 0];
     continuation := None; count := 2; current := 1; pending := 0; mode := 3; shuffle_pos := 0;
     position := 4611686018427387904 |}.
Definition queue_bytes (s : queue_resume_t) : list Z := default [] (serialize s).

Lemma queue_resume_roundtrip_witness :
  queue_resume_read true (queue_bytes example_queue) = Some example_queue /\
  loadable example_queue.
Proof.
  assert (bytes_ok (queue_bytes example_queue)) as Hb.
  { apply bytes_b_true. reflexivity. }
  assert (queue_resume_read true (queue_bytes example_queue) = Some example_queue) as H
    by reflexivity.
  split; [exact H|].
  exact (proj2 (proj1 (queue_resume_roundtrip (queue_bytes example_queue) example_queue Hb) H)).
Defined.

(** The writer does not check that the current track is the one the shuffle bag
    points at, but the reader does: such a save succeeds and cannot be read. *)
Definition misplaced_queue : queue_resume_t :=
  {| paths := paths example_queue; order := Some [1; 0]; continuation := None; count := 2;
     current := 0; pending := 0; mode := 3; shuffle_pos := 0; position := 0 |}.
Lemma queue_resume_write_unreadable :
  let env := {| w_pid := 42; w_alloc := true; w_openat := true; w_fdopen := true; w_partial := 0;
                w_write := true; w_sync := true; w_fclose := true; w_rename := true |} in
  fst (queue_resume_write_at env ∅ (bs "queue") misplaced_queue) = true /\
  queue_resume_read true (queue_bytes misplaced_queue) = None.
Proof. split; vm_compute; reflexivity. Qed.
