(* ===== verification/Lyrics.v ===== *)
(** The LRC parser of src/library/lyrics.c: timestamps, tags, lines, and the
    lookup of the active line. *)
From stdpp Require Import sorting.
From S2P Require Import Prelude Doubles Endian Utf8.
Local Open Scope Z_scope.

(** ** Data *)
Record lyrics_line_t := { time_ms : Z; text : list Z }.
Definition lyrics_doc_t := list lyrics_line_t.

Definition LYRICS_MAX_FILE_BYTES : Z := 524288.
Definition LYRICS_MAX_LINES : Z := 4000.
Definition LYRICS_MAX_LINE_BYTES : nat := Z.to_nat 512.
Definition LYRICS_MAX_TIME_MS : Z := 129600000.

(** ** Timestamps *)

(** [atoi_n(s, n)] on the bytes of [s]: at most eight digits. *)
Definition atoi_n (s : list Z) : Z := fold_left (fun v c => v * 10 + (c - 48)) (take 8 s) 0.

(** [parse_timestamp_ms] on [s[0..len)]: the bytes consumed and the time. *)
Definition parse_timestamp_ms (s : list Z) : option (nat * Z) :=
  let min_digits := take_while isdigit s in
  if (length min_digits =? 0)%nat then None else
  let minutes := atoi_n min_digits in
  match drop_while isdigit s with
  | c :: s1 =>
      if negb (c =? 58) then None else
      let sec_digits := take_while isdigit s1 in
      if (length sec_digits =? 0)%nat then None else
      let seconds := atoi_n sec_digits in
      let s2 := drop_while isdigit s1 in
      '(frac_ms, s3) ←
        match s2 with
        | c :: f =>
            if c =? 46 then
              let frac := take_while isdigit f in
              if (length frac =? 0)%nat then None
              else Some (atoi_n (take 3 (frac ++ [48; 48; 48])), drop_while isdigit f)
            else Some (0, s2)
        | [] => Some (0, s2)
        end;
      let total_ms := minutes * 60000 + seconds * 1000 + frac_ms in
      let total_ms := if LYRICS_MAX_TIME_MS <? total_ms then LYRICS_MAX_TIME_MS else total_ms in
      Some ((length s - length s3)%nat, total_ms)
  | [] => None
  end.

(** ** Collecting lines *)

(** [line_builder_t]; [b_alloc] are the outcomes of the allocations to come
    (a list that ran out succeeds). *)
Record line_builder_t := { arr : list lyrics_line_t; cap : Z; b_alloc : list bool }.

Definition next_alloc (b : line_builder_t) : bool * line_builder_t :=
  match b_alloc b with
  | [] => (true, b)
  | ok :: t => (ok, {| arr := arr b; cap := cap b; b_alloc := t |})
  end.

(** The growth of the array when it is full; [false] is a failed [realloc]. *)
Definition builder_reserve (b : line_builder_t) : bool * line_builder_t :=
  if Z.of_nat (length (arr b)) =? cap b then
    let new_cap := if cap b =? 0 then 64 else cap b * 2 in
    let new_cap := if LYRICS_MAX_LINES <? new_cap then LYRICS_MAX_LINES else new_cap in
    let '(ok, b) := next_alloc b in
    (ok, if ok then {| arr := arr b; cap := new_cap; b_alloc := b_alloc b |} else b)
  else (true, b).

Definition clip_text (text : list Z) : list Z :=
  let clipped := take LYRICS_MAX_LINE_BYTES text in
  take (utf8_valid_prefix_len clipped) clipped.

Definition line_builder_push (b : line_builder_t) (time : Z) (text : list Z) : line_builder_t :=
  if LYRICS_MAX_LINES <=? Z.of_nat (length (arr b)) then b else
  let '(ok, b) := builder_reserve b in
  if negb ok then b else
  let '(ok, b) := next_alloc b in
  if negb ok then b else
  {| arr := arr b ++ [{| time_ms := time; text := clip_text text |}]; cap := cap b;
     b_alloc := b_alloc b |}.

(** The number of an [offset:] tag, from the byte after the colon; [None] when
    it has no digit. *)
Definition parse_offset (s : list Z) : option Z :=
  let '(sign, s) := match s with
                    | c :: t => if c =? 45 then (-1, t) else if c =? 43 then (1, t) else (1, s)
                    | [] => (1, s)
                    end in
  let digits := take_while isdigit s in
  if (length digits =? 0)%nat then None else Some (sign * atoi_n digits).

(** A metadata tag: one to six letters, then a colon. *)
Definition is_metadata (inner : list Z) : bool :=
  let p := length (take_while isalpha (take 6 inner)) in
  (0 <? p)%nat && match inner !! p with Some c => c =? 58 | None => false end.

(** What one bracket of a line is. *)
Inductive tag := TagTime (ms : Z) | TagOffset (v : option Z) | TagMetadata | TagText.
Definition classify (inner : list Z) : tag :=
  let timestamp :=
    match inner with
    | c :: _ => if isdigit c then
                  match parse_timestamp_ms inner with
                  | Some (consumed, ms) => if (consumed =? length inner)%nat then Some ms else None
                  | None => None
                  end
                else None
    | [] => None
    end in
  match timestamp with
  | Some ms => TagTime ms
  | None =>
      if (7 <? length inner)%nat && starts_with_ci (bs "offset:") inner
      then TagOffset (parse_offset (drop 7 inner))
      else if is_metadata inner then TagMetadata else TagText
  end.

(** The loop of [process_line] over the leading brackets: the rest of the line,
    the pending times (at most eight) and the offset. *)
Fixpoint strip_tags (fuel : nat) (line pending_times : list Z) (offset_ms : Z)
    : list Z * list Z * Z :=
  match fuel, line with
  | S fuel, c :: t =>
      if negb (c =? 91) then (line, pending_times, offset_ms) else
      match strchr 93 t with
      | None => (line, pending_times, offset_ms)
      | Some close =>
          let rest := drop (close + 1) t in
          match classify (take close t) with
          | TagTime ms =>
              let pending := if (length pending_times <? 8)%nat then pending_times ++ [ms]
                             else pending_times in
              strip_tags fuel rest pending offset_ms
          | TagOffset v => strip_tags fuel rest pending_times (default offset_ms v)
          | TagMetadata => strip_tags fuel rest pending_times offset_ms
          | TagText => (line, pending_times, offset_ms)
          end
      end
  | _, _ => (line, pending_times, offset_ms)
  end.

Definition process_line (line : list Z) (b : line_builder_t) (offset_ms : Z)
    : line_builder_t * Z :=
  let '(rest, pending_times, offset_ms) := strip_tags (length line) line [] offset_ms in
  if (length pending_times =? 0)%nat then (b, offset_ms)
  else
    let text := drop_while (fun c => (c =? 32) || (c =? 9)) rest in
    (fold_left (fun b t => line_builder_push b t text) pending_times b, offset_ms).

(** ** The document *)
Fixpoint parse_lines (fuel : nat) (buf : list Z) (b : line_builder_t) (offset_ms : Z)
    : line_builder_t * Z :=
  match fuel, buf with
  | S fuel, _ :: _ =>
      if Z.of_nat (length (arr b)) <? LYRICS_MAX_LINES then
        let seg := take_while (fun c => negb (c =? 10)) buf in
        let buf := drop (length seg + 1) buf in
        let seg := match list.last seg with
                   | Some c => if c =? 13 then take (length seg - 1) seg else seg
                   | None => seg
                   end in
        if (length seg =? 0)%nat then parse_lines fuel buf b offset_ms
        else let '(b, offset_ms) := process_line seg b offset_ms in
             parse_lines fuel buf b offset_ms
      else (b, offset_ms)
  | _, _ => (b, offset_ms)
  end.

Definition shift_time (offset_ms : Z) (l : lyrics_line_t) : lyrics_line_t :=
  let t := time_ms l + offset_ms in
  let t := if t <? 0 then 0 else t in
  let t := if LYRICS_MAX_TIME_MS <? t then LYRICS_MAX_TIME_MS else t in
  {| time_ms := t; text := text l |}.

Definition compare_lines (a b : lyrics_line_t) : Z :=
  if time_ms a <? time_ms b then -1 else if time_ms b <? time_ms a then 1 else 0.

Section parse.
(** [qsort] with [compare_lines]: it orders the array, but neither its
    algorithm nor the order of equal lines is fixed. *)
Context (qsort : list lyrics_line_t -> list lyrics_line_t).

Definition lyrics_parse_buffer (alloc : list bool) (buf : list Z) : option lyrics_doc_t :=
  let len := Z.of_nat (length buf) in
  if (len =? 0) || (LYRICS_MAX_FILE_BYTES <? len) then None else
  let body := if (3 <=? len) && (library_utf8_bom_skip buf =? 3)%nat then drop 3 buf else buf in
  let '(b, offset_ms) :=
    parse_lines (length buf) body {| arr := []; cap := 0; b_alloc := alloc |} 0 in
  if (length (arr b) =? 0)%nat then None
  else Some (qsort (map (shift_time offset_ms) (arr b))).
End parse.

(** ** The active line *)

(** [1000.0]. *)
Definition thousand : spec_float := S754_finite false 8796093022208000 (-43).

Fixpoint find_loop (fuel : nat) (lines : list lyrics_line_t) (pos_ms lo hi result : Z)
    : option Z :=
  match fuel with
  | O => None
  | S fuel =>
      if lo <=? hi then
        let mid := lo + Z.quot (hi - lo) 2 in
        line ← lines !! Z.to_nat mid;
        if time_ms line <=? pos_ms then find_loop fuel lines pos_ms (mid + 1) hi mid
        else find_loop fuel lines pos_ms lo (mid - 1) result
      else Some result
  end.

(** [lyrics_find_line_at]; [None] is undefined behaviour. *)
Definition lyrics_find_line_at (doc : lyrics_doc_t) (position_seconds : spec_float) : option Z :=
  let count := Z.of_nat (length doc) in
  if count =? 0 then Some (-1) else
  let p := if SFltb position_seconds (S754_zero false) then S754_zero false
           else position_seconds in
  pos_ms ← to_uint32 (dmul p thousand);
  find_loop (S (length doc)) doc pos_ms 0 (count - 1) (-1).

(** [lyrics_load_sidecar]: the name of the sidecar, when it fits [PATH_MAX]. *)
Definition lyrics_sidecar_path (audio_track_path : list Z) : option (list Z) :=
  let path := snprintf_s PATH_MAX audio_track_path in
  let path := match strrchr 46 path, strrchr 47 path with
              | Some dot, Some slash => if (slash <? dot)%nat then take dot path else path
              | Some dot, None => take dot path
              | None, _ => path
              end in
  if (PATH_MAX <=? length path + 4)%nat then None else Some (path ++ bs ".lrc").

(** ** Clipping text *)
Lemma prefix_step_bounds s k : prefix_step s = Some k -> (0 < k <= length s)%nat.
Proof.
  destruct s as [|c t]; [done|]. unfold prefix_step.
  destruct (if c <? 128 then _ else _) as [n|] eqn:E; bind_simpl; [|done].
  assert (0 < n)%nat by (revert E; split_ifs; intros [=<-] || intros [=]; lia).
  destruct (Nat.ltb_spec (length (c :: t)) n); [done|].
  destruct (forallb _ _); [|done]. intros [=<-]. lia.
Qed.

Lemma prefix_loop_fuel fuel s i :
  (length s <= fuel)%nat -> prefix_loop fuel s i = (i + utf8_valid_prefix_len s)%nat.
Proof.
  unfold utf8_valid_prefix_len.
  enough (forall f1 f2 s i j, (length s <= f1)%nat -> (length s <= f2)%nat ->
    (prefix_loop f1 s i + j = prefix_loop f2 s j + i)%nat) as H
    by (intros; specialize (H fuel (length s) s i 0%nat); lia).
  clear. induction f1 as [|f1 IH]; intros f2 s i j H1 H2.
  - destruct s; [|simpl in H1; lia]. by destruct f2; simpl; lia.
  - destruct s as [|c t]; [destruct f2; simpl; lia|].
    destruct f2 as [|f2]; [simpl in H2; lia|]. cbn [prefix_loop].
    destruct (prefix_step (c :: t)) as [k|] eqn:E; [|lia].
    apply prefix_step_bounds in E. specialize (IH f2 (drop k (c :: t)) (i + k) (j + k))%nat.
    rewrite length_drop in IH. lia.
Qed.

Lemma utf8_valid_prefix_len_unfold s :
  utf8_valid_prefix_len s =
    match prefix_step s with
    | Some k => (k + utf8_valid_prefix_len (drop k s))%nat
    | None => 0%nat
    end.
Proof.
  unfold utf8_valid_prefix_len at 1. destruct s as [|c t]; [done|]. cbn [length prefix_loop].
  destruct (prefix_step (c :: t)) as [k|] eqn:E; [|done].
  rewrite prefix_loop_fuel; [done|]. apply prefix_step_bounds in E.
  rewrite length_drop. simpl in *. lia.
Qed.

Lemma utf8_valid_prefix_len_le s : (utf8_valid_prefix_len s <= length s)%nat.
Proof.
  remember (length s) as n eqn:Hn. revert s Hn. induction n as [n IH] using lt_wf_ind.
  intros s ->. rewrite utf8_valid_prefix_len_unfold.
  destruct (prefix_step s) as [k|] eqn:E; [|lia]. apply prefix_step_bounds in E.
  specialize (IH (length (drop k s))). rewrite length_drop in IH.
  specialize (IH ltac:(lia) (drop k s)). rewrite length_drop in IH. lia.
Qed.

Lemma prefix_step_take s k n :
  prefix_step s = Some k -> (k <= n)%nat -> prefix_step (take n s) = Some k.
Proof.
  intros H Hn. pose proof (prefix_step_bounds _ _ H) as Hb. destruct s as [|c t]; [done|].
  destruct n as [|n]; [lia|]. simpl take. unfold prefix_step in *.
  destruct (if c <? 128 then _ else _) as [m|]; bind_simpl; [|done].
  revert H. cbn [mbind option_bind]. destruct (Nat.ltb_spec (length (c :: t)) m); [done|].
  destruct (forallb _ _) eqn:E; [|done]. intros [=->].
  destruct (Nat.ltb_spec (length (c :: take n t)) k) as [Hl|Hl].
  - simpl in *. rewrite length_take in Hl. lia.
  - rewrite take_take. replace (Nat.min (k - 1) n) with (k - 1)%nat by lia. by rewrite E.
Qed.

(** The clipped text is made of complete sequences: clipping is idempotent. *)
Lemma utf8_valid_prefix_len_take s :
  utf8_valid_prefix_len (take (utf8_valid_prefix_len s) s) = utf8_valid_prefix_len s.
Proof.
  remember (length s) as n eqn:Hn. revert s Hn. induction n as [n IH] using lt_wf_ind.
  intros s ->. rewrite (utf8_valid_prefix_len_unfold s).
  destruct (prefix_step s) as [k|] eqn:E; [|done]. pose proof (prefix_step_bounds _ _ E).
  rewrite utf8_valid_prefix_len_unfold, (prefix_step_take s k) by (done || lia). f_equal.
  rewrite skipn_firstn_comm.
  replace (k + utf8_valid_prefix_len (drop k s) - k)%nat with
    (utf8_valid_prefix_len (drop k s)) by lia.
  apply (IH (length (drop k s))); [rewrite length_drop; lia|done].
Qed.

(** ** The lines *)
Definition line_ok (l : lyrics_line_t) : Prop :=
  0 <= time_ms l <= LYRICS_MAX_TIME_MS /\ (length (text l) <= LYRICS_MAX_LINE_BYTES)%nat /\
  utf8_valid_prefix_len (text l) = length (text l).

Lemma clip_text_ok s :
  (length (clip_text s) <= LYRICS_MAX_LINE_BYTES)%nat /\
  utf8_valid_prefix_len (clip_text s) = length (clip_text s).
Proof.
  unfold clip_text. set (c := take LYRICS_MAX_LINE_BYTES s).
  assert (length c <= LYRICS_MAX_LINE_BYTES)%nat by (unfold c; rewrite length_take; lia).
  rewrite utf8_valid_prefix_len_take, length_take. pose proof (utf8_valid_prefix_len_le c). lia.
Qed.

Definition builder_ok (b : line_builder_t) : Prop :=
  Z.of_nat (length (arr b)) <= LYRICS_MAX_LINES /\ Forall line_ok (arr b).

Lemma line_builder_push_ok b t s :
  builder_ok b -> 0 <= t <= LYRICS_MAX_TIME_MS -> builder_ok (line_builder_push b t s).
Proof.
  intros [Hl Hf] Ht. unfold line_builder_push.
  destruct (Z.leb_spec LYRICS_MAX_LINES (Z.of_nat (length (arr b)))); [by split|].
  assert (arr (snd (builder_reserve b)) = arr b) as Hr.
  { unfold builder_reserve, next_alloc. case_match; [|done].
    destruct (b_alloc b) as [|[] ?]; done. }
  destruct (builder_reserve b) as [ok b1]. simpl in Hr. destruct ok; simpl; [|by split; rewrite Hr].
  assert (arr (snd (next_alloc b1)) = arr b) as Hr2
    by (unfold next_alloc; destruct (b_alloc b1) as [|? ?]; done).
  destruct (next_alloc b1) as [ok b2]. simpl in Hr2. destruct ok; simpl; [|by split; rewrite Hr2].
  split; simpl; rewrite Hr2; [rewrite length_app; simpl; lia|].
  apply list.Forall_app. split; [done|]. constructor; [|constructor].
  split; [done|]. apply clip_text_ok.
Qed.

Definition digit_run (l : list Z) : Prop := Forall (fun c => isdigit c = true) l.
Lemma take_while_digits s : digit_run (take_while isdigit s).
Proof.
  induction s as [|c s IH]; simpl; [constructor|]. destruct (isdigit c) eqn:E; by constructor.
Qed.
Lemma atoi_n_nonneg s : digit_run s -> 0 <= atoi_n s.
Proof.
  intros Hs. unfold atoi_n. assert (digit_run (take 8 s)) as Ht by (by apply Forall_take).
  revert Ht. generalize (take 8 s). clear. intros l Hl. enough (forall v, 0 <= v ->
    0 <= fold_left (fun v c => v * 10 + (c - 48)) l v) as H by (apply H; lia).
  induction Hl as [|c l Hc Hl IH]; intros v Hv; simpl; [done|]. apply IH.
  unfold isdigit in Hc. bool_prop. lia.
Qed.

Lemma parse_timestamp_ms_bound s k ms :
  parse_timestamp_ms s = Some (k, ms) -> 0 <= ms <= LYRICS_MAX_TIME_MS.
Proof.
  unfold parse_timestamp_ms. case_match; [done|]. destruct (drop_while isdigit s) as [|c s1]; [done|].
  case_match; [done|]. case_match; [done|].
  pose proof (atoi_n_nonneg _ (take_while_digits s)) as Hmin.
  pose proof (atoi_n_nonneg _ (take_while_digits s1)) as Hsec.
  match goal with |- (?q ≫= _) = _ -> _ => destruct q as [[f s3]|] eqn:E end; bind_simpl; [|done].
  assert (0 <= f).
  { destruct (drop_while isdigit s1) as [|c' f']; [by injection E as <- <-|].
    destruct (c' =? 46); [|by injection E as <- <-]. case_match; [done|]. injection E as <- <-.
    apply atoi_n_nonneg, Forall_take, list.Forall_app. split; [apply take_while_digits|].
    by repeat constructor. }
  intros [=<- <-]. unfold LYRICS_MAX_TIME_MS.
  match goal with |- context [if ?b then _ else _] => destruct b eqn:Eb end; bool_prop; lia.
Qed.

Definition times_ok (l : list Z) : Prop := Forall (fun t => 0 <= t <= LYRICS_MAX_TIME_MS) l.

Lemma strip_tags_times fuel line pend off :
  times_ok pend -> times_ok (snd (fst (strip_tags fuel line pend off))).
Proof.
  revert line pend off. induction fuel as [|fuel IH]; intros line pend off Hp; [done|].
  destruct line as [|c t]; [done|]. cbn [strip_tags]. destruct (c =? 91); [|done]. cbn [negb].
  destruct (strchr 93 t) as [close|]; [|done].
  destruct (classify (take close t)) as [ms|v| |] eqn:Ec; [|by apply IH|by apply IH|done].
  apply IH. destruct (_ <? _)%nat; [|done]. apply list.Forall_app. split; [done|].
  constructor; [|constructor]. unfold classify in Ec.
  destruct (take close t) as [|c' inner]; [by repeat case_match|].
  destruct (isdigit c'); [|by repeat case_match].
  destruct (parse_timestamp_ms (c' :: inner)) as [[k m]|] eqn:Ep; [|by repeat case_match].
  destruct (_ =? _)%nat; [|by repeat case_match]. injection Ec as ->.
  by eapply parse_timestamp_ms_bound.
Qed.

Lemma process_line_ok line b off : builder_ok b -> builder_ok (fst (process_line line b off)).
Proof.
  intros Hb. unfold process_line.
  pose proof (strip_tags_times (length line) line [] off ltac:(constructor)) as Ht.
  destruct (strip_tags (length line) line [] off) as [[rest pend] off']. simpl in Ht.
  destruct (length pend =? 0)%nat; [done|]. cbn [fst]. revert b Hb. induction Ht as [|t pend Ht1 Ht IH]; intros b Hb; [done|].
  simpl. apply IH. by apply line_builder_push_ok.
Qed.

Lemma parse_lines_ok fuel buf b off : builder_ok b -> builder_ok (fst (parse_lines fuel buf b off)).
Proof.
  revert buf b off. induction fuel as [|fuel IH]; intros buf b off Hb; [done|].
  destruct buf as [|c buf]; [done|]. cbn [parse_lines].
  destruct (_ <? LYRICS_MAX_LINES); [|done]. cbn zeta.
  match goal with |- context [(length ?s =? 0)%nat] => destruct (length s =? 0)%nat end;
    [by apply IH|].
  match goal with |- context [process_line ?s b off] =>
    pose proof (process_line_ok s b off Hb) as Hp; destruct (process_line s b off) as [b' off'] end.
  by apply IH.
Qed.

(** C32. A parsed lyric sheet is well formed, whatever the bytes of the file
    and whichever allocations fail: between 1 and 4000 lines, in time order,
    every time clamped to 36 hours, every text at most 512 bytes and cut
    between complete UTF-8 sequences. *)
Theorem lyrics_parse_buffer_wf qsort alloc buf doc :
  (forall l, qsort l ≡ₚ l) ->
  (forall l, StronglySorted (fun a b => compare_lines a b <= 0) (qsort l)) ->
  lyrics_parse_buffer qsort alloc buf = Some doc ->
  0 < Z.of_nat (length doc) <= LYRICS_MAX_LINES /\
  StronglySorted (fun a b => time_ms a <= time_ms b) doc /\ Forall line_ok doc.
Proof.
  intros Hperm Hsorted. unfold lyrics_parse_buffer. case_match; [done|].
  set (body := if _ : bool then drop 3 buf else buf).
  pose proof (parse_lines_ok (length buf) body {| arr := []; cap := 0; b_alloc := alloc |} 0) as Hb.
  destruct (parse_lines _ body _ 0) as [b off]. simpl in Hb.
  destruct Hb as [Hl Hf]; [split; [done|constructor]|].
  destruct (Nat.eqb_spec (length (arr b)) 0); [done|]. intros [=<-].
  set (l := map (shift_time off) (arr b)).
  assert (length l = length (arr b)) as Hll by apply length_map.
  rewrite (Permutation_length (Hperm l)). split; [lia|]. split.
  - specialize (Hsorted l). induction Hsorted as [|x xs Hs IH Hx]; constructor; [done|].
    eapply List.Forall_impl; [|exact Hx]. intros y. unfold compare_lines. split_ifs; lia.
  - rewrite (Hperm l). unfold l. apply Forall_map. eapply List.Forall_impl; [|exact Hf].
    intros x (Ht & Hx1 & Hx2). split; [|by split]. unfold shift_time, LYRICS_MAX_TIME_MS in *.
    simpl. repeat match goal with |- context [?a <? ?b] => destruct (Z.ltb_spec a b) end; lia.
Qed.

(** ** Looking up the active line *)
Lemma sorted_lookup (doc : list lyrics_line_t) i j a b :
  StronglySorted (fun a b => time_ms a <= time_ms b) doc ->
  (i <= j)%nat -> doc !! i = Some a -> doc !! j = Some b -> time_ms a <= time_ms b.
Proof.
  intros Hs. revert i j. induction Hs as [|x l Hl IH Hx]; intros i j Hij Hi Hj; [done|].
  destruct i as [|i], j as [|j]; simpl in *; try lia.
  - replace b with a by congruence. lia.
  - injection Hi as ->. rewrite List.Forall_forall in Hx. apply Hx.
    apply list_elem_of_In. by eapply list_elem_of_lookup_2.
  - apply (IH i j); done || lia.
Qed.

(** [r] is the last line at or before [pos]. *)
Definition active_line (doc : lyrics_doc_t) (pos r : Z) : Prop :=
  -1 <= r < Z.of_nat (length doc) /\
  forall j l, doc !! j = Some l -> time_ms l <= pos <-> Z.of_nat j <= r.

Lemma find_loop_spec doc pos fuel lo hi :
  StronglySorted (fun a b => time_ms a <= time_ms b) doc ->
  0 <= lo <= hi + 1 -> hi < Z.of_nat (length doc) -> hi - lo + 1 < Z.of_nat fuel ->
  (forall j l, doc !! j = Some l -> Z.of_nat j < lo -> time_ms l <= pos) ->
  (forall j l, doc !! j = Some l -> hi < Z.of_nat j -> pos < time_ms l) ->
  exists r, find_loop fuel doc pos lo hi (lo - 1) = Some r /\ active_line doc pos r.
Proof.
  intros Hs. revert lo hi. induction fuel as [|fuel IH]; intros lo hi Hlo Hhi Hf Hbelow Habove; [lia|].
  cbn [find_loop]. destruct (Z.leb_spec lo hi) as [Hle|Hgt].
  - rewrite Z.quot_div_nonneg by lia. pose proof (Z.div_mod (hi - lo) 2 ltac:(lia)).
    pose proof (Z.mod_pos_bound (hi - lo) 2 ltac:(lia)).
    set (mid := lo + (hi - lo) / 2) in *. assert (lo <= mid <= hi) by lia.
    destruct (lookup_lt_is_Some_2 doc (Z.to_nat mid)) as [line Hline]; [lia|].
    rewrite Hline. bind_simpl. destruct (Z.leb_spec (time_ms line) pos).
    + specialize (IH (mid + 1) hi). replace (mid + 1 - 1) with mid in IH by lia.
      apply IH; [lia|lia|lia| |done].
      intros j l Hj Hjm. transitivity (time_ms line); [|done].
      apply (sorted_lookup doc j (Z.to_nat mid)); done || lia.
    + apply IH; [lia|lia|lia|done|]. intros j l Hj Hjm.
      assert (time_ms line <= time_ms l); [|lia].
      apply (sorted_lookup doc (Z.to_nat mid) j); done || lia.
  - exists (lo - 1). split; [done|]. split; [lia|]. intros j l Hj. split.
    + intros Ht. destruct (Z.le_gt_cases (Z.of_nat j) (lo - 1)); [done|].
      assert (pos < time_ms l) by (apply (Habove j); [done|lia]). lia.
    + intros Hjl. apply (Hbelow j); [done|lia].
Qed.

(** C33. The highlighted line is the last one whose time has come: on a sorted
    sheet [lyrics_find_line_at] returns the index of the last line at or before
    the position, -1 when there is none, within [length + 1] rounds; negative
    positions count as zero. *)
Theorem lyrics_find_line_at_correct doc position pos_ms :
  StronglySorted (fun a b => time_ms a <= time_ms b) doc ->
  to_uint32 (dmul (if SFltb position (S754_zero false) then S754_zero false else position)
               thousand) = Some pos_ms ->
  exists r, lyrics_find_line_at doc position = Some r /\ active_line doc pos_ms r.
Proof.
  intros Hs Hpos. unfold lyrics_find_line_at.
  destruct (Z.eqb_spec (Z.of_nat (length doc)) 0) as [E|E].
  - exists (-1). split; [done|]. split; [lia|]. intros j l Hj. apply lookup_lt_Some in Hj. lia.
  - rewrite Hpos. bind_simpl. apply (find_loop_spec doc pos_ms (S (length doc)) 0); try done; try lia.
    intros j l Hj Hlt. apply lookup_lt_Some in Hj. lia.
Qed.

(** ** Timestamps *)

(** [n] printed with [w] digits. *)
Fixpoint dec_w (w : nat) (n : Z) : list Z :=
  match w with
  | O => []
  | S w => dec_w w (n / 10) ++ [48 + n mod 10]
  end.

Lemma dec_w_length w n : length (dec_w w n) = w.
Proof. revert n; induction w as [|w IH]; intros n; simpl; [done|]. rewrite length_app, IH. simpl. lia. Qed.
Lemma dec_w_digits w n : digit_run (dec_w w n).
Proof.
  revert n; induction w as [|w IH]; intros n; simpl; [constructor|].
  apply list.Forall_app. split; [apply IH|]. constructor; [|constructor].
  unfold isdigit. pose proof (Z.mod_pos_bound n 10 ltac:(lia)).
  destruct (Z.leb_spec 48 (48 + n mod 10)); [|lia].
  destruct (Z.leb_spec (48 + n mod 10) 57); [done|lia].
Qed.
Lemma dec_w_value w n :
  0 <= n < 10 ^ Z.of_nat w -> fold_left (fun v c => v * 10 + (c - 48)) (dec_w w n) 0 = n.
Proof.
  revert n; induction w as [|w IH]; intros n Hn; [simpl in Hn; simpl; lia|].
  cbn [dec_w]. rewrite fold_left_app. simpl. rewrite Nat2Z.inj_succ, Z.pow_succ_r in Hn by lia.
  pose proof (Z.div_mod n 10 ltac:(lia)). pose proof (Z.mod_pos_bound n 10 ltac:(lia)).
  rewrite IH; [lia|]. split; [apply Z.div_pos; lia|apply Z.div_lt_upper_bound; lia].
Qed.
Lemma atoi_n_dec w n :
  (w <= 8)%nat -> 0 <= n < 10 ^ Z.of_nat w -> atoi_n (dec_w w n) = n.
Proof.
  intros Hw Hn. unfold atoi_n. rewrite take_ge by (rewrite dec_w_length; lia).
  by apply dec_w_value.
Qed.

Lemma digit_run_while l c r :
  digit_run l -> isdigit c = false ->
  take_while isdigit (l ++ c :: r) = l /\ drop_while isdigit (l ++ c :: r) = c :: r.
Proof.
  intros Hl Hc. induction Hl as [|d l Hd Hl [IH1 IH2]]; simpl; [by rewrite Hc|].
  by rewrite Hd, IH1, IH2.
Qed.
Lemma digit_run_all l : digit_run l -> take_while isdigit l = l /\ drop_while isdigit l = [].
Proof. induction 1 as [|d l Hd Hl [IH1 IH2]]; simpl; [done|]. by rewrite Hd, IH1, IH2. Qed.

(** A printed timestamp parses back to its time: [mm:ss.mmm] with up to
    eight digits of minutes and seconds is consumed whole and gives
    minutes * 60000 + seconds * 1000 + milliseconds, clamped to 36 hours. *)
Theorem parse_timestamp_print wm ws m s f :
  (0 < wm <= 8)%nat -> (0 < ws <= 8)%nat ->
  0 <= m < 10 ^ Z.of_nat wm -> 0 <= s < 10 ^ Z.of_nat ws -> 0 <= f < 1000 ->
  let t := dec_w wm m ++ bs ":" ++ dec_w ws s ++ bs "." ++ dec_w 3 f in
  parse_timestamp_ms t =
    Some (length t, Z.min LYRICS_MAX_TIME_MS (m * 60000 + s * 1000 + f)).
Proof.
  intros Hwm Hws Hm Hs Hf t. unfold parse_timestamp_ms, t.
  change (bs ":") with [58]. change (bs ".") with [46]. cbn [app].
  destruct (digit_run_while (dec_w wm m) 58 (dec_w ws s ++ 46 :: dec_w 3 f)) as [-> ->];
    [apply dec_w_digits|done|].
  rewrite dec_w_length. destruct (Nat.eqb_spec wm 0); [lia|]. cbn [negb Z.eqb Pos.eqb].
  destruct (digit_run_while (dec_w ws s) 46 (dec_w 3 f)) as [-> ->]; [apply dec_w_digits|done|].
  rewrite dec_w_length. destruct (Nat.eqb_spec ws 0); [lia|]. cbn [Z.eqb Pos.eqb].
  destruct (digit_run_all (dec_w 3 f) (dec_w_digits 3 f)) as [-> ->].
  rewrite dec_w_length. cbn [Nat.eqb]. rewrite take_app_length' by (by rewrite dec_w_length).
  bind_simpl. rewrite !atoi_n_dec by (lia || done). f_equal. f_equal.
  - simpl. lia.
  - destruct (Z.ltb_spec LYRICS_MAX_TIME_MS (m * 60000 + s * 1000 + f)); lia.
Qed.

(** ** Witnesses *)
Definition insert_line (x : lyrics_line_t) (l : list lyrics_line_t) : list lyrics_line_t :=
  (fix go l := match l with
               | [] => [x]
               | y :: t => if time_ms x <=? time_ms y then x :: y :: t else y :: go t
               end) l.
Definition sort_lines (l : list lyrics_line_t) : list lyrics_line_t := fold_right insert_line [] l.

Lemma insert_line_perm x l : insert_line x l ≡ₚ x :: l.
Proof.
  induction l as [|y l IH]; simpl; [done|]. case_match; [done|]. rewrite IH. apply Permutation_swap.
Qed.
Lemma sort_lines_perm l : sort_lines l ≡ₚ l.
Proof. induction l as [|x l IH]; simpl; [done|]. by rewrite insert_line_perm, IH. Qed.
Lemma compare_lines_le a b : compare_lines a b <= 0 <-> time_ms a <= time_ms b.
Proof. unfold compare_lines. split_ifs; lia. Qed.
Lemma sort_lines_sorted l : StronglySorted (fun a b => compare_lines a b <= 0) (sort_lines l).
Proof.
  induction l as [|x l IH]; simpl; [constructor|].
  revert IH. generalize (sort_lines l). clear l. intros k Hk.
  induction Hk as [|y l Hl IH Hy]; simpl.
  - by repeat constructor.
  - destruct (Z.leb_spec (time_ms x) (time_ms y)) as [Hxy|Hxy].
    + constructor; [by constructor|]. constructor; [by apply compare_lines_le|].
      eapply List.Forall_impl; [|exact Hy]. intros z. rewrite !compare_lines_le. lia.
    + constructor; [done|]. fold (insert_line x l). rewrite insert_line_perm.
      constructor; [apply compare_lines_le; lia|done].
Qed.

Lemma lyrics_parse_buffer_wf_witness :
  exists doc, lyrics_parse_buffer sort_lines [] (bs "[00:02.5][00:01]La") = Some doc /\
    StronglySorted (fun a b => time_ms a <= time_ms b) doc.
Proof.
  destruct (lyrics_parse_buffer sort_lines [] (bs "[00:02.5][00:01]La")) as [doc|] eqn:E;
    [|vm_compute in E; discriminate].
  exists doc. split; [reflexivity|].
  exact (proj1 (proj2 (lyrics_parse_buffer_wf sort_lines [] _ doc sort_lines_perm
    sort_lines_sorted E))).
Defined.
Lemma lyrics_find_line_at_correct_witness :
  lyrics_find_line_at [{| time_ms := 0; text := [] |}; {| time_ms := 1500; text := [] |}]
    (S754_finite false 4503599627370496 (-51)) = Some 1.
Proof.
  destruct (lyrics_find_line_at_correct
    [{| time_ms := 0; text := [] |}; {| time_ms := 1500; text := [] |}]
    (S754_finite false 4503599627370496 (-51)) 2000) as (r & Hr & _).
  - repeat constructor; simpl; lia.
  - vm_compute. reflexivity.
  - rewrite Hr. vm_compute in Hr. symmetry. exact Hr.
Defined.
Lemma parse_timestamp_print_witness :
  parse_timestamp_ms (dec_w 2 3 ++ bs ":" ++ dec_w 2 7 ++ bs "." ++ dec_w 3 250) =
    Some (9%nat, 187250).
Proof.
  rewrite (parse_timestamp_print 2 2 3 7 250); [reflexivity|lia..].
Defined.

(** A C0 80 pair is overlong, yet the prefix keeps it. *)
Lemma utf8_valid_prefix_len_overlong : utf8_valid_prefix_len [192; 128] = 2%nat.
Proof. reflexivity. Qed.
