(* ===== verification/Cue.v ===== *)
(** The CUE sheet parser of src/library/cue_parser.c. *)
From S2P Require Import Prelude Doubles Endian.
Local Open Scope Z_scope.

(** ** Words of a line *)
Definition blank (c : Z) : bool := (c =? 32) || (c =? 9).

(** [extract_arg]: at most [out_size - 1] bytes. *)
Definition extract_arg (line : list Z) (out_size : nat) : list Z :=
  let line := drop_while blank line in
  let arg := match line with
             | c :: rest =>
                 if c =? 34 then
                   match strchr 34 rest with Some len => take len rest | None => rest end
                 else take_while (fun c => negb (c =? 13) && negb (c =? 10) && negb (isspace c)) line
             | [] => []
             end in
  take (out_size - 1) arg.

(** One field of [parse_cue_time] from its first digit; [None] is [return
    false]. *)
Fixpoint time_field (s : list Z) (digits v : Z) : option (Z * list Z) :=
  match s with
  | c :: s' =>
      if isdigit c then
        if (7 <? digits + 1) || (10000000 <? v) then None
        else time_field s' (digits + 1) (v * 10 + (c - 48))
      else Some (v, s)
  | [] => Some (v, [])
  end.
Definition cue_field (s : list Z) : option (Z * list Z) :=
  match s with
  | c :: _ => if isdigit c then time_field s 0 0 else None
  | [] => None
  end.
Definition skip_colon (s : list Z) : option (list Z) :=
  match s with c :: s => if c =? 58 then Some s else None | [] => None end.
Definition cue_seconds (m s f : Z) : spec_float :=
  dadd (dadd (dmul (dbl m) (dbl 60)) (dbl s)) (ddiv (dbl f) (dbl 75)).
Definition parse_cue_time (s : list Z) : option spec_float :=
  '(m, s) ← cue_field s; s ← skip_colon s;
  '(sec, s) ← cue_field s; s ← skip_colon s;
  '(f, s) ← cue_field s;
  let s := drop_while (fun c => blank c || (c =? 13) || (c =? 10)) s in
  if negb (length s =? 0)%nat || (59 <? sec) || (74 <? f) then None
  else Some (cue_seconds m sec f).

(** [match_keyword]: the text after the keyword and its blanks. *)
Definition match_keyword (line keyword : list Z) : option (list Z) :=
  let len := length keyword in
  if starts_with_ci keyword line then
    let rest := drop len line in
    match rest with
    | [] => Some []
    | next :: _ =>
        if negb (next =? 32) && negb (next =? 9) && negb (next =? 13) && negb (next =? 10) then None
        else Some (drop_while blank rest)
    end
  else None.

(** [atoi]; out of the range of [int] its result is undefined, here clamped as
    [strtol] does on the 32-bit target. *)
Definition atoi (s : list Z) : Z :=
  let s := drop_while isspace s in
  let '(sign, s) := match s with
                    | c :: t => if c =? 45 then (-1, t) else if c =? 43 then (1, t) else (1, s)
                    | [] => (1, [])
                    end in
  let v := sign * fold_left (fun v c => v * 10 + (c - 48)) (take_while isdigit s) 0 in
  Z.max (-2147483648) (Z.min INT_MAX v).

(** The second word of a line: past the first one and its blanks. *)
Definition next_word (arg : list Z) : list Z :=
  drop_while blank (drop_while (fun c => negb (isspace c)) arg).

(** ** The sheet *)
Record cue_track_t := {
  number : Z; title : list Z; performer : list Z; start_seconds : spec_float;
  has_index_01 : bool }.
Record cue_sheet_t := { audio_path : list Z; tracks : list cue_track_t }.

(** The variables of [cue_parse_file]'s loop. *)
Record cue_state := {
  file_name : list Z; file_command_count : Z; cs_tracks : list cue_track_t; capacity : Z;
  have_current_track : bool; current_track_is_audio : bool; first_line : bool;
  allocs : list bool }.
Definition cue_init (alloc : list bool) : cue_state :=
  {| file_name := []; file_command_count := 0; cs_tracks := []; capacity := 0;
     have_current_track := false; current_track_is_audio := false; first_line := true;
     allocs := alloc |}.

Definition new_track (n : Z) : cue_track_t :=
  {| number := n; title := []; performer := []; start_seconds := S754_zero false;
     has_index_01 := false |}.

(** [append_track]; [None] is a failed [realloc]. *)
Definition append_track (st : cue_state) (n : Z) : option cue_state :=
  let full := Z.of_nat (length (cs_tracks st)) =? capacity st in
  let ok := if full then match allocs st with ok :: _ => ok | [] => true end else true in
  if ok then
    Some {| file_name := file_name st; file_command_count := file_command_count st;
            cs_tracks := cs_tracks st ++ [new_track n];
            capacity := if full then (if capacity st =? 0 then 8 else capacity st * 2)
                        else capacity st;
            have_current_track := true; current_track_is_audio := current_track_is_audio st;
            first_line := first_line st; allocs := if full then tail (allocs st) else allocs st |}
  else None.

(** A write to a field of [tracks[track_count - 1]]. *)
Definition update_last (f : cue_track_t -> cue_track_t) (st : cue_state) : cue_state :=
  {| file_name := file_name st; file_command_count := file_command_count st;
     cs_tracks := alter f (length (cs_tracks st) - 1)%nat (cs_tracks st); capacity := capacity st;
     have_current_track := have_current_track st;
     current_track_is_audio := current_track_is_audio st; first_line := first_line st;
     allocs := allocs st |}.
Definition set_title (s : list Z) (t : cue_track_t) : cue_track_t :=
  {| number := number t; title := s; performer := performer t; start_seconds := start_seconds t;
     has_index_01 := has_index_01 t |}.
Definition set_performer (s : list Z) (t : cue_track_t) : cue_track_t :=
  {| number := number t; title := title t; performer := s; start_seconds := start_seconds t;
     has_index_01 := has_index_01 t |}.
Definition set_start (x : spec_float) (t : cue_track_t) : cue_track_t :=
  {| number := number t; title := title t; performer := performer t; start_seconds := x;
     has_index_01 := true |}.

Definition set_flags (file : list Z) (count : Z) (cur audio : bool) (st : cue_state) : cue_state :=
  {| file_name := file; file_command_count := count; cs_tracks := cs_tracks st;
     capacity := capacity st; have_current_track := cur; current_track_is_audio := audio;
     first_line := first_line st; allocs := allocs st |}.
Definition clear_first (st : cue_state) : cue_state :=
  {| file_name := file_name st; file_command_count := file_command_count st;
     cs_tracks := cs_tracks st; capacity := capacity st;
     have_current_track := have_current_track st;
     current_track_is_audio := current_track_is_audio st; first_line := false;
     allocs := allocs st |}.

(** The body of the loop on one line; [None] is [parse_failed]. *)
Definition cue_line (line : list Z) (st : cue_state) : option cue_state :=
  let p := if first_line st && (library_utf8_bom_skip line =? 3)%nat then drop 3 line else line in
  let st := clear_first st in
  let p := drop_while blank p in
  let current := have_current_track st && current_track_is_audio st in
  match match_keyword p (bs "FILE") with
  | Some arg => Some (set_flags (extract_arg arg 512) (file_command_count st + 1)
                        (have_current_track st) (current_track_is_audio st) st)
  | None =>
  match match_keyword p (bs "TRACK") with
  | Some arg =>
      let n := atoi arg in
      if starts_with_ci (bs "AUDIO") (next_word arg) then
        append_track (set_flags (file_name st) (file_command_count st) (have_current_track st)
                        true st) n
      else Some (set_flags (file_name st) (file_command_count st) false false st)
  | None =>
  match (if current then match_keyword p (bs "TITLE") else None) with
  | Some arg => Some (update_last (set_title (extract_arg arg 128)) st)
  | None =>
  match (if current then match_keyword p (bs "PERFORMER") else None) with
  | Some arg => Some (update_last (set_performer (extract_arg arg 128)) st)
  | None =>
  match (if current then match_keyword p (bs "INDEX") else None) with
  | Some arg =>
      if atoi arg =? 1 then
        start ← parse_cue_time (next_word arg); Some (update_last (set_start start) st)
      else Some st
  | None => Some st
  end end end end end.

(** The lines of the sheet, read into a buffer of 1024 bytes. *)
Definition cue_lines (content : list Z) : list (list Z) := fgets_lines 1024 (length content) content.

Fixpoint cue_loop (lines : list (list Z)) (st : cue_state) : option cue_state :=
  match lines with
  | [] => Some st
  | line :: lines => st ← cue_line line st; cue_loop lines st
  end.

(** The check after the loop: every track has INDEX 01, after the previous
    one. *)
Fixpoint tracks_valid (prev : option spec_float) (l : list cue_track_t) : bool :=
  match l with
  | [] => true
  | t :: l =>
      has_index_01 t &&
      match prev with Some p => negb (SFleb (start_seconds t) p) | None => true end &&
      tracks_valid (Some (start_seconds t)) l
  end.

(** The audio path, next to the sheet. *)
Definition resolve_audio (cue_path file : list Z) : list Z :=
  match strrchr 47 cue_path with
  | Some slash =>
      let dir_len := Nat.min (slash + 1) 599 in
      take dir_len cue_path ++ snprintf_s (600 - dir_len) file
  | None => snprintf_s 600 file
  end.

(** [cue_parse_file] on the contents of the file ([None]: it cannot be opened). *)
Definition cue_parse_file (alloc : list bool) (cue_path : list Z) (content : option (list Z))
    : option cue_sheet_t :=
  content ← content;
  st ← cue_loop (cue_lines content) (cue_init alloc);
  if negb (tracks_valid None (cs_tracks st)) || negb (file_command_count st =? 1) ||
     (length (cs_tracks st) =? 0)%nat || (length (file_name st) =? 0)%nat
  then None
  else Some {| audio_path := resolve_audio cue_path (file_name st); tracks := cs_tracks st |}.

(** ** The time grammar *)
Definition digits_value (l : list Z) : Z := fold_left (fun v c => v * 10 + (c - 48)) l 0.
Definition is_digits (l : list Z) : Prop := Forall (fun c => isdigit c = true) l.
Definition starts_digit (s : list Z) : bool :=
  match s with c :: _ => isdigit c | [] => false end.

Lemma time_field_spec s k v r w :
  0 <= k <= 7 -> 0 <= v < 10 ^ k ->
  time_field s k v = Some (w, r) <->
  exists ds, is_digits ds /\ k + Z.of_nat (length ds) <= 7 /\ s = ds ++ r /\
    starts_digit r = false /\ w = fold_left (fun v c => v * 10 + (c - 48)) ds v.
Proof.
  revert k v. induction s as [|c s IH]; intros k v Hk Hv; cbn [time_field].
  { split.
    - intros [=<- <-]. exists []. split; [constructor|]. simpl. split; [lia|done].
    - intros (ds & _ & _ & Hs & _ & ->). symmetry in Hs. by apply app_eq_nil in Hs as [-> ->]. }
  destruct (isdigit c) eqn:Ec.
  - assert (48 <= c <= 57) as Hc by (unfold isdigit in Ec; bool_prop; lia).
    destruct (Z.ltb_spec 7 (k + 1)) as [H7|H7]; cbn [orb].
    { split; [done|]. intros (ds & Hd & Hl & Hs & Hr & _). destruct ds as [|d ds].
      - simpl in Hs. subst r. simpl in Hr. congruence.
      - simpl in Hl. lia. }
    assert (10 ^ k <= 10 ^ 6) by (apply Z.pow_le_mono_r; lia). change (10 ^ 6) with 1000000 in *.
    destruct (Z.ltb_spec 10000000 v); [lia|].
    rewrite IH by (rewrite ?Z.pow_add_r by lia; lia). split.
    + intros (ds & Hd & Hl & -> & Hr & ->). exists (c :: ds).
      split; [by constructor|]. split; [simpl; lia|]. done.
    + intros (ds & Hd & Hl & Hs & Hr & ->). destruct ds as [|d ds].
      { simpl in Hs. subst r. simpl in Hr. congruence. }
      injection Hs as <- ->. apply Forall_cons_iff in Hd as [_ Hd].
      exists ds. split; [done|]. split; [simpl in Hl; lia|]. done.
  - split.
    + intros [=<- <-]. exists []. split; [constructor|]. simpl. split; [lia|done].
    + intros (ds & Hd & _ & Hs & _ & ->). destruct ds as [|d ds]; [by rewrite Hs|].
      injection Hs as <- _. apply Forall_cons_iff in Hd as [Hd _]. congruence.
Qed.

(** A field: one to seven digits, then something else. *)
Definition field (ds r s : list Z) : Prop :=
  is_digits ds /\ (0 < length ds <= 7)%nat /\ s = ds ++ r /\ starts_digit r = false.

Lemma cue_field_spec s w r :
  cue_field s = Some (w, r) <-> exists ds, field ds r s /\ w = digits_value ds.
Proof.
  unfold cue_field, field. destruct s as [|c s].
  { split; [done|]. intros (ds & (_ & Hl & Hs & _) & _). symmetry in Hs.
    apply app_eq_nil in Hs as [-> _]. simpl in Hl. lia. }
  pose proof (time_field_spec (c :: s) 0 0 r w ltac:(lia) ltac:(simpl; lia)) as H.
  destruct (isdigit c) eqn:Ec.
  - rewrite H. split.
    + intros (ds & Hd & Hl & Hs & Hr & Hw). exists ds. split; [|done].
      split; [done|]. split; [|done]. destruct ds; [|simpl in *; lia].
      simpl in Hs. subst r. simpl in Hr. congruence.
    + intros (ds & (Hd & Hl & Hs & Hr) & Hw). exists ds. repeat split; try done. lia.
  - split; [done|]. intros (ds & (Hd & Hl & Hs & _) & _). destruct ds as [|d ds]; [simpl in Hl; lia|].
    injection Hs as <- _. apply Forall_cons_iff in Hd as [Hd _]. congruence.
Qed.

Lemma skip_colon_spec s r : skip_colon s = Some r <-> s = 58 :: r.
Proof.
  destruct s as [|c s]; simpl; [done|]. destruct (Z.eqb_spec c 58) as [->|]; split; congruence.
Qed.

Definition cue_space (c : Z) : bool := blank c || (c =? 13) || (c =? 10).
Lemma drop_spaces s : drop_while cue_space s = [] <-> Forall (fun c => cue_space c = true) s.
Proof.
  induction s as [|c s IH]; simpl; [split; [constructor|done]|].
  destruct (cue_space c) eqn:E; rewrite Forall_cons_iff; [|intuition congruence].
  rewrite IH. intuition congruence.
Qed.

(** [parse_cue_time] accepts exactly the times of the CUE grammar: three
    fields of one to seven digits separated by colons, seconds up to 59 and
    frames up to 74, then only blanks to the end of the line; the result is
    minutes * 60 + seconds + frames / 75 in double arithmetic. *)
Theorem parse_cue_time_grammar s x :
  parse_cue_time s = Some x <->
  exists m sec f sp,
    s = m ++ 58 :: sec ++ 58 :: f ++ sp /\
    is_digits m /\ is_digits sec /\ is_digits f /\
    (0 < length m <= 7)%nat /\ (0 < length sec <= 7)%nat /\ (0 < length f <= 7)%nat /\
    Forall (fun c => cue_space c = true) sp /\
    digits_value sec <= 59 /\ digits_value f <= 74 /\
    x = cue_seconds (digits_value m) (digits_value sec) (digits_value f).
Proof.
  unfold parse_cue_time. split.
  - destruct (cue_field s) as [[vm s1]|] eqn:E1; bind_simpl; [|done].
    apply cue_field_spec in E1 as (m & (Hm & Hlm & -> & _) & ->).
    destruct (skip_colon s1) as [s2|] eqn:E2; bind_simpl; [|done]. apply skip_colon_spec in E2 as ->.
    destruct (cue_field s2) as [[vs s3]|] eqn:E3; bind_simpl; [|done].
    apply cue_field_spec in E3 as (sec & (Hs & Hls & -> & _) & ->).
    destruct (skip_colon s3) as [s4|] eqn:E4; bind_simpl; [|done]. apply skip_colon_spec in E4 as ->.
    destruct (cue_field s4) as [[vf s5]|] eqn:E5; bind_simpl; [|done].
    apply cue_field_spec in E5 as (f & (Hf & Hlf & -> & _) & ->).
    fold cue_space. destruct (_ || _ || _) eqn:E; [done|]. bool_prop. intros [=<-].
    apply Nat.eqb_eq, length_zero_iff_nil in H. apply drop_spaces in H.
    exists m, sec, f, s5. repeat split; done || lia.
  - intros (m & sec & f & sp & -> & Hm & Hs & Hf & Hlm & Hls & Hlf & Hsp & Hs59 & Hf74 & ->).
    assert (forall ds c r, is_digits ds -> (0 < length ds <= 7)%nat -> isdigit c = false ->
      cue_field (ds ++ c :: r) = Some (digits_value ds, c :: r)) as Hfield
      by (intros ds c r Hd Hl Hc; apply cue_field_spec; exists ds; done).
    rewrite Hfield by done. bind_simpl. cbn [skip_colon Z.eqb Pos.eqb]. bind_simpl.
    rewrite Hfield by done. bind_simpl. cbn [skip_colon Z.eqb Pos.eqb]. bind_simpl.
    assert (cue_field (f ++ sp) = Some (digits_value f, sp)) as ->.
    { apply cue_field_spec. exists f. split; [|done]. repeat split; try done; try lia.
      destruct Hsp as [|c sp Hc _]; [done|]. simpl. unfold cue_space, blank in Hc. unfold isdigit.
      destruct (Z.leb_spec 48 c), (Z.leb_spec c 57); try done. bool_prop. lia. }
    bind_simpl. fold cue_space. rewrite (proj2 (drop_spaces sp) Hsp). cbn [length Nat.eqb negb orb].
    destruct (Z.ltb_spec 59 (digits_value sec)); [lia|].
    by destruct (Z.ltb_spec 74 (digits_value f)); [lia|].
Qed.

(** ** Well-formed sheets *)
Definition cstring (n : nat) (s : list Z) : Prop := Forall is_char s /\ (length s < n)%nat.
Definition track_ok (t : cue_track_t) : Prop :=
  cstring 128 (title t) /\ cstring 128 (performer t).
Record cue_ok (st : cue_state) : Prop := {
  co_file : cstring 512 (file_name st); co_tracks : Forall track_ok (cs_tracks st) }.

Lemma drop_while_chars p l : Forall is_char l -> Forall is_char (drop_while p l).
Proof. rewrite <- (take_drop_while p l) at 1. rewrite list.Forall_app. by intros [_ ?]. Qed.
Lemma take_while_chars p l : Forall is_char l -> Forall is_char (take_while p l).
Proof. rewrite <- (take_drop_while p l) at 1. rewrite list.Forall_app. by intros [? _]. Qed.

Lemma extract_arg_ok line n : (0 < n)%nat -> Forall is_char line -> cstring n (extract_arg line n).
Proof.
  intros Hn Hl. split; [|unfold extract_arg; rewrite length_take; lia].
  unfold extract_arg. apply Forall_take.
  pose proof (drop_while_chars blank line Hl) as Hd. destruct (drop_while blank line) as [|c rest]; [done|].
  destruct (c =? 34); [|by apply take_while_chars]. apply Forall_cons_iff in Hd as [_ Hd].
  destruct (strchr 34 rest); [by apply Forall_take|done].
Qed.

Lemma match_keyword_ok line kw arg :
  Forall is_char line -> match_keyword line kw = Some arg -> Forall is_char arg.
Proof.
  intros Hl. unfold match_keyword. destruct (starts_with_ci kw line); [|done].
  pose proof (Forall_drop _ (length kw) _ Hl) as Hd.
  destruct (drop (length kw) line) as [|c r]; [by intros [=<-]|].
  case_match; [done|]. intros [=<-]. by apply (drop_while_chars blank (c :: r)).
Qed.

Lemma update_last_ok f st :
  (forall t, track_ok t -> track_ok (f t)) -> cue_ok st -> cue_ok (update_last f st).
Proof.
  intros Hf [Hfile Ht]. split; [done|]. simpl. by apply Forall_alter; [|intros; apply Hf].
Qed.

Lemma append_track_ok st n st' : cue_ok st -> append_track st n = Some st' -> cue_ok st'.
Proof.
  intros [Hf Ht]. unfold append_track. match goal with |- (if ?c then _ else _) = _ -> _ => destruct c end;
    [|done]. intros [=<-]. split; [done|]. simpl. apply list.Forall_app. split; [done|].
  constructor; [|constructor]. split; split; simpl; first [lia|constructor].
Qed.

Lemma cue_line_ok line st st' :
  Forall is_char line -> cue_ok st -> cue_line line st = Some st' -> cue_ok st'.
Proof.
  intros Hl Hok. unfold cue_line. set (p := drop_while blank _).
  assert (Forall is_char p) as Hp.
  { apply drop_while_chars. case_match; [by apply Forall_drop|done]. }
  clearbody p. assert (cue_ok (clear_first st)) as Hok1 by (by destruct Hok).
  revert Hok1. generalize (clear_first st). clear st Hok. intros st Hok.
  destruct (match_keyword p (bs "FILE")) as [arg|] eqn:E.
  { intros [=<-]. split; [|by apply Hok]. apply extract_arg_ok; [lia|]. by eapply match_keyword_ok. }
  destruct (match_keyword p (bs "TRACK")) as [arg'|] eqn:E'.
  { case_match; [|by intros [=<-]; destruct Hok]. apply append_track_ok. by destruct Hok. }
  destruct (have_current_track st && current_track_is_audio st); [|by intros [=<-]].
  destruct (match_keyword p (bs "TITLE")) as [arg1|] eqn:E1.
  { intros [=<-]. apply update_last_ok; [|done]. intros t [H1 H2]. split; [|done].
    apply extract_arg_ok; [lia|]. by eapply match_keyword_ok. }
  destruct (match_keyword p (bs "PERFORMER")) as [arg2|] eqn:E2.
  { intros [=<-]. apply update_last_ok; [|done]. intros t [H1 H2]. split; [done|].
    apply extract_arg_ok; [lia|]. by eapply match_keyword_ok. }
  destruct (match_keyword p (bs "INDEX")) as [arg3|] eqn:E3; [|by intros [=<-]].
  case_match; [|by intros [=<-]]. destruct (parse_cue_time _); bind_simpl; [|done].
  intros [=<-]. apply update_last_ok; [|done]. by intros t [H1 H2].
Qed.

Lemma cue_loop_ok lines st st' :
  Forall (Forall is_char) lines -> cue_ok st -> cue_loop lines st = Some st' -> cue_ok st'.
Proof.
  intros Hl. revert st. induction Hl as [|line lines Hline Hlines IH]; intros st Hok; simpl.
  - by intros [=<-].
  - destruct (cue_line line st) as [st1|] eqn:E; bind_simpl; [|done]. apply IH.
    by eapply cue_line_ok.
Qed.

Lemma cue_lines_chars content : Forall is_byte content -> Forall (Forall is_char) (cue_lines content).
Proof.
  unfold cue_lines. generalize (length content) as fuel. intros fuel. revert content.
  induction fuel as [|fuel IH]; intros content Hc; [constructor|].
  destruct content as [|c t]; [constructor|]. cbn [fgets_lines].
  constructor; [by apply cstr_bytes, Forall_take|]. by apply IH, Forall_drop.
Qed.

(** The start times of [l] ascend strictly, from [prev] on. *)
Inductive ascending : option spec_float -> list cue_track_t -> Prop :=
| asc_nil prev : ascending prev []
| asc_cons prev t l :
    (forall p, prev = Some p -> SFleb (start_seconds t) p = false) ->
    ascending (Some (start_seconds t)) l -> ascending prev (t :: l).

Lemma tracks_valid_spec prev l :
  tracks_valid prev l = true <-> Forall (fun t => has_index_01 t = true) l /\ ascending prev l.
Proof.
  revert prev; induction l as [|t l IH]; intros prev; simpl.
  - split; [|done]. intros _. split; constructor.
  - rewrite !andb_true_iff, IH, Forall_cons_iff. split.
    + intros [[H1 H2] [H3 H4]]. split; [done|]. constructor; [|done].
      intros p ->. by apply negb_true_iff.
    + intros [[H1 H2] Ha]. inversion Ha as [|? ? ? Hp Ha']; subst. repeat split; try done.
      destruct prev as [p|]; [|done]. apply negb_true_iff. by apply Hp.
Qed.

(** C36. A sheet that parses is well formed, whatever the file holds: at least
    one track, every track with its INDEX 01, start times strictly ascending,
    every string inside its array and free of NULs. *)
Theorem cue_parse_file_wf alloc cue_path content sheet :
  Forall is_char cue_path -> Forall is_byte content ->
  cue_parse_file alloc cue_path (Some content) = Some sheet ->
  tracks sheet <> [] /\ Forall (fun t => has_index_01 t = true) (tracks sheet) /\
  ascending None (tracks sheet) /\ Forall track_ok (tracks sheet) /\
  cstring 600 (audio_path sheet).
Proof.
  intros Hp Hc. unfold cue_parse_file. bind_simpl.
  destruct (cue_loop _ _) as [st|] eqn:E; bind_simpl; [|done].
  apply cue_loop_ok in E as [Hf Ht]; [|by apply cue_lines_chars|split; [split|]; simpl; first [lia|constructor]].
  destruct (_ || _ || _ || _) eqn:Ev; [done|]. bool_prop. intros [=<-]. simpl.
  apply tracks_valid_spec in H as [Hi Ha].
  split; [by destruct (cs_tracks st)|]. split; [done|]. split; [done|]. split; [done|].
  unfold resolve_audio, snprintf_s. destruct Hf as [Hfc Hfl].
  destruct (strrchr 47 cue_path) as [slash|].
  - split; [apply list.Forall_app; split; by apply Forall_take|].
    rewrite length_app, !length_take. lia.
  - split; [by apply Forall_take|]. rewrite length_take. lia.
Qed.

(** ** Witnesses *)
Definition cue_lf : list Z := [10].
Definition example_cue : list Z :=
  bs "FILE disc.flac WAVE" ++ cue_lf ++ bs "TRACK 01 AUDIO" ++ cue_lf ++ bs "TITLE One" ++ cue_lf ++
  bs "INDEX 01 00:00:00" ++ cue_lf ++ bs "TRACK 02 AUDIO" ++ cue_lf ++ bs "INDEX 01 03:02:74" ++ cue_lf.

Lemma parse_cue_time_grammar_witness : parse_cue_time (bs "03:02:74") = Some (cue_seconds 3 2 74).
Proof.
  apply (parse_cue_time_grammar (bs "03:02:74") (cue_seconds 3 2 74)).
  exists (bs "03"), (bs "02"), (bs "74"), [].
  split; [reflexivity|]. do 3 (split; [repeat constructor|]).
  do 3 (split; [simpl; lia|]). split; [constructor|]. split; [vm_compute; discriminate|].
  split; [vm_compute; discriminate|reflexivity].
Defined.
Lemma cue_parse_file_wf_witness :
  exists sheet, cue_parse_file [] (bs "/m/disc.cue") (Some example_cue) = Some sheet /\
    tracks sheet <> [] /\ audio_path sheet = bs "/m/disc.flac".
Proof.
  destruct (cue_parse_file [] (bs "/m/disc.cue") (Some example_cue)) as [sheet|] eqn:E;
    [|vm_compute in E; discriminate].
  exists sheet. split; [reflexivity|]. split.
  - apply (cue_parse_file_wf [] (bs "/m/disc.cue") example_cue sheet).
    + apply chars_b_true. reflexivity.
    + apply bytes_b_true. vm_compute. reflexivity.
    + exact E.
  - vm_compute in E. injection E as <-. vm_compute. reflexivity.
Defined.

(** A sheet whose first track has no INDEX 01 is rejected, not started at 0. *)
Lemma cue_parse_file_no_index :
  cue_parse_file [] (bs "/m/disc.cue")
    (Some (bs "FILE disc.flac WAVE" ++ cue_lf ++ bs "TRACK 01 AUDIO" ++ cue_lf)) = None.
Proof. vm_compute. reflexivity. Qed.
