(* ===== verification/PlaylistPaths.v ===== *)
(** The path arithmetic of src/library/playlist_files.c: the directory of a
    file, the normalisation of "x/..", playlist entries relative to the
    playlist's directory, and their resolution. *)
From S2P Require Import Prelude.
Local Open Scope Z_scope.

(** ** Operations *)
Definition slash : Z := 47.
Definition dot : list Z := bs ".".
Definition dotdot : list Z := bs "..".

(** [dir_of]: everything before the last slash, cut to the buffer. *)
Definition dir_of (path : list Z) (out_size : nat) : list Z :=
  let len := match strrchr slash path with Some i => i | None => 0%nat end in
  take (Nat.min len (out_size - 1)) path.

Definition emit (cur : list Z) : list (list Z) :=
  match cur with [] => [] | _ => [cur] end.
(** The successive results of [strtok_r(_, "/", _)]; [cur] is the token being
    read. *)
Fixpoint strtok_r (cur s : list Z) : list (list Z) :=
  match s with
  | [] => emit cur
  | c :: s => if c =? slash then emit cur ++ strtok_r [] s else strtok_r (cur ++ [c]) s
  end.

Definition NORMALIZE_MAX_COMPONENTS : nat := 64.
(** One round of [normalize_path]'s loop: ".." drops the last component unless
    that is "." or ".." itself; a component past the 64th is ignored. *)
Definition normalize_step (parts : list (list Z)) (tok : list Z) : list (list Z) :=
  if bytes_eqb tok dotdot &&
     match list.last parts with
     | Some p => negb (bytes_eqb p dotdot) && negb (bytes_eqb p dot)
     | None => false
     end
  then take (length parts - 1) parts
  else if (length parts <? NORMALIZE_MAX_COMPONENTS)%nat then parts ++ [tok] else parts.

(** The loop [snprintf(path + used, path_size - used, "%s%s", part, "/")], which
    stops when a piece does not fit. *)
Fixpoint join_parts (size : nat) (out : list Z) (parts : list (list Z)) : list Z :=
  match parts with
  | [] => out
  | p :: rest =>
      let piece := p ++ match rest with [] => [] | _ => [slash] end in
      if (size - length out <=? length piece)%nat
      then out ++ take (size - length out - 1) piece
      else join_parts size (out ++ piece) rest
  end.
Definition is_absolute (path : list Z) : bool :=
  match path with c :: _ => c =? slash | [] => false end.
Definition normalize_path (path : list Z) (path_size : nat) : list Z :=
  let copy := snprintf_s PATH_MAX path in
  let parts := fold_left normalize_step (strtok_r [] copy) [] in
  join_parts path_size (if is_absolute copy then snprintf_s path_size [slash] else []) parts.

Definition MAKE_RELATIVE_MAX_COMPONENTS : nat := 64.
Fixpoint common_prefix (a b : list (list Z)) : nat :=
  match a, b with
  | x :: a, y :: b => if bytes_eqb x y then S (common_prefix a b) else 0%nat
  | _, _ => 0%nat
  end.
(** The loops that print "../" and then the remaining components; [None] when
    one does not fit. *)
Fixpoint print_up (size : nat) (out : list Z) (n : nat) : option (list Z) :=
  match n with
  | O => Some out
  | S n => if (size - length out <=? 3)%nat then None else print_up size (out ++ bs "../") n
  end.
Fixpoint print_down (size : nat) (out : list Z) (parts : list (list Z)) : option (list Z) :=
  match parts with
  | [] => Some out
  | p :: rest =>
      let piece := p ++ match rest with [] => [] | _ => [slash] end in
      if (size - length out <=? length piece)%nat then None
      else print_down size (out ++ piece) rest
  end.
(** [make_relative_path]; [None] stands for [false]. *)
Definition make_relative_path (base_dir target_abs_path : list Z) (out_size : nat)
    : option (list Z) :=
  let base_parts := take MAKE_RELATIVE_MAX_COMPONENTS
                      (strtok_r [] (snprintf_s PATH_MAX base_dir)) in
  let target_parts := take MAKE_RELATIVE_MAX_COMPONENTS
                        (strtok_r [] (snprintf_s PATH_MAX target_abs_path)) in
  let common := common_prefix base_parts target_parts in
  if (common =? 0)%nat then None else
  out ← print_up out_size [] (length base_parts - common);
  print_down out_size out (drop common target_parts).

Definition playlist_files_resolve_path (m3u_path line : list Z) (out_size : nat) : list Z :=
  if is_absolute line then normalize_path (snprintf_s out_size line) out_size
  else normalize_path (snprintf_s out_size (dir_of m3u_path PATH_MAX ++ [slash] ++ line)) out_size.

(** The line the writers store for a song: relative to the playlist's directory
    when that is possible. *)
Definition entry_line (dir song_path : list Z) : list Z :=
  match make_relative_path dir song_path PATH_MAX with Some rel => rel | None => song_path end.

(** ** Paths as lists of components *)

(** A component of a path, and one that names an entry of its directory. *)
Definition component (p : list Z) : Prop := p <> [] /\ slash ∉ p.
Definition entry_name (p : list Z) : Prop := component p /\ p <> dot /\ p <> dotdot.

Fixpoint join_slash (parts : list (list Z)) : list Z :=
  match parts with
  | [] => []
  | [p] => p
  | p :: rest => p ++ slash :: join_slash rest
  end.
(** The path with these components, from the root or from the working
    directory. *)
Definition path_of (absolute : bool) (parts : list (list Z)) : list Z :=
  (if absolute then [slash] else []) ++ join_slash parts.

Lemma strtok_skip cur p s : slash ∉ p -> strtok_r cur (p ++ s) = strtok_r (cur ++ p) s.
Proof.
  revert cur; induction p as [|c p IH]; intros cur H; [by rewrite app_nil_r|].
  apply not_elem_of_cons in H as [Hc Hp]. cbn [app strtok_r].
  rewrite (proj2 (Z.eqb_neq c slash)) by congruence. rewrite IH by done. by rewrite <- app_assoc.
Qed.
Lemma strtok_slash cur s : strtok_r cur (slash :: s) = emit cur ++ strtok_r [] s.
Proof. done. Qed.
Lemma emit_component p : p <> [] -> emit p = [p].
Proof. by destruct p. Qed.

Lemma strtok_cons p s : component p -> strtok_r [] (p ++ slash :: s) = p :: strtok_r [] s.
Proof.
  intros [Hn Hs]. rewrite strtok_skip by done. cbn [app].
  by rewrite strtok_slash, emit_component.
Qed.
Lemma strtok_app cur s t : strtok_r cur (s ++ slash :: t) = strtok_r cur s ++ strtok_r [] t.
Proof.
  revert cur; induction s as [|c s IH]; intros cur; cbn [app strtok_r]; [done|].
  destruct (c =? slash); [by rewrite IH, app_assoc | apply IH].
Qed.

(** Splitting undoes joining, and gives components. *)
Lemma strtok_join parts : Forall component parts -> strtok_r [] (join_slash parts) = parts.
Proof.
  induction 1 as [|p parts [Hn Hs] Hf IH]; [done|]. destruct parts as [|q rest].
  - cbn [join_slash]. rewrite <- (app_nil_r p) at 1. rewrite strtok_skip by done.
    cbn [strtok_r app]. by apply emit_component.
  - change (join_slash (p :: q :: rest)) with (p ++ slash :: join_slash (q :: rest)).
    by rewrite strtok_cons, IH.
Qed.
Lemma strtok_path_of a parts : Forall component parts -> strtok_r [] (path_of a parts) = parts.
Proof. intros H. destruct a; [rewrite <- (strtok_join parts) at 2 by done|]; [done|by apply strtok_join]. Qed.

Lemma strtok_components s cur : slash ∉ cur -> Forall component (strtok_r cur s).
Proof.
  assert (forall c, slash ∉ c -> Forall component (emit c)) as He.
  { intros [|x c] Hc; repeat constructor; done. }
  revert cur; induction s as [|c s IH]; intros cur Hc; cbn [strtok_r]; [by apply He|].
  destruct (c =? slash) eqn:E; bool_prop.
  - apply list.Forall_app. split; [by apply He|]. apply IH, not_elem_of_nil.
  - apply IH. rewrite not_elem_of_app, not_elem_of_cons. repeat split; [done|congruence|].
    apply not_elem_of_nil.
Qed.

(** Printing components within the buffer joins them. *)
Lemma join_parts_fits size out parts :
  (length out + length (join_slash parts) < size)%nat ->
  join_parts size out parts = out ++ join_slash parts.
Proof.
  revert out; induction parts as [|p rest IH]; intros out H; [by rewrite app_nil_r|].
  cbn [join_parts]. destruct rest as [|q rest].
  - cbn [join_slash] in *. rewrite app_nil_r. rewrite (proj2 (Nat.leb_gt _ _)) by lia. done.
  - change (join_slash (p :: q :: rest)) with (p ++ slash :: join_slash (q :: rest)) in *.
    rewrite length_app in H. cbn [length] in H.
    rewrite (proj2 (Nat.leb_gt _ _)) by (rewrite length_app; cbn [length]; lia).
    rewrite IH by (rewrite !length_app; cbn [length]; lia). by rewrite <- !app_assoc.
Qed.
Lemma print_down_fits size out parts :
  (length out + length (join_slash parts) < size)%nat ->
  print_down size out parts = Some (out ++ join_slash parts).
Proof.
  revert out; induction parts as [|p rest IH]; intros out H; [by rewrite app_nil_r|].
  cbn [print_down]. destruct rest as [|q rest].
  - cbn [join_slash] in *. rewrite app_nil_r. rewrite (proj2 (Nat.leb_gt _ _)) by lia. done.
  - change (join_slash (p :: q :: rest)) with (p ++ slash :: join_slash (q :: rest)) in *.
    rewrite length_app in H. cbn [length] in H.
    rewrite (proj2 (Nat.leb_gt _ _)) by (rewrite length_app; cbn [length]; lia).
    rewrite IH by (rewrite !length_app; cbn [length]; lia). by rewrite <- !app_assoc.
Qed.

(** ** Normalisation of component lists *)
Definition normalize_parts (toks : list (list Z)) : list (list Z) := fold_left normalize_step toks [].

Lemma normalize_step_name parts tok :
  (tok <> dotdot \/ forall p, list.last parts = Some p -> p = dotdot \/ p = dot) ->
  (length parts < 64)%nat -> normalize_step parts tok = parts ++ [tok].
Proof.
  intros H Hl. unfold normalize_step, NORMALIZE_MAX_COMPONENTS.
  rewrite (proj2 (Nat.ltb_lt _ _)) by done.
  destruct (bytes_eqb_spec tok dotdot) as [->|Hn]; [|done]. destruct H as [H|H]; [done|].
  destruct (list.last parts) as [p|]; [|done]. destruct (H p eq_refl) as [-> | ->]; done.
Qed.

Lemma fold_names toks parts :
  Forall entry_name toks -> (length parts + length toks <= 64)%nat ->
  fold_left normalize_step toks parts = parts ++ toks.
Proof.
  intros H. revert parts; induction H as [|t toks (_ & _ & Ht) _ IH]; intros parts Hl; simpl.
  - by rewrite app_nil_r.
  - cbn [length] in Hl. rewrite normalize_step_name; [|by left|lia].
    rewrite IH by (rewrite length_app; cbn [length]; lia). by rewrite <- app_assoc.
Qed.

Lemma normalize_step_up parts p : entry_name p -> normalize_step (parts ++ [p]) dotdot = parts.
Proof.
  intros (_ & Hd & Hdd). unfold normalize_step. rewrite last_snoc.
  destruct (bytes_eqb_spec p dotdot); [done|]. destruct (bytes_eqb_spec p dot); [done|].
  cbn [negb andb bytes_eqb dotdot]. rewrite bytes_eqb_refl. cbn [andb].
  rewrite length_app. cbn [length]. replace (length parts + 1 - 1)%nat with (length parts) by lia.
  apply take_app_length.
Qed.
Lemma fold_ups parts names :
  Forall entry_name names ->
  fold_left normalize_step (replicate (length names) dotdot) (parts ++ names) = parts.
Proof.
  induction names as [|p names IH] using rev_ind; intros H; [by rewrite app_nil_r|].
  apply list.Forall_app in H as [H Hp]. rewrite length_app, Nat.add_comm. cbn [length Nat.add].
  cbn [replicate fold_left]. rewrite app_assoc, normalize_step_up; [by apply IH|].
  by inversion Hp.
Qed.

(** ".." never follows the name of an entry. *)
Fixpoint settled (parts : list (list Z)) : Prop :=
  match parts with
  | p :: (q :: _) as rest => (q = dotdot -> p = dotdot \/ p = dot) /\ settled rest
  | _ => True
  end.

Lemma settled_snoc parts t :
  settled parts ->
  (t <> dotdot \/ forall p, list.last parts = Some p -> p = dotdot \/ p = dot) ->
  settled (parts ++ [t]).
Proof.
  intros Hs Ht. induction parts as [|p [|q rest] IH]; [done| |].
  - simpl. split; [|done]. intros ->. destruct Ht as [Ht|Ht]; [done|by apply Ht].
  - destruct Hs as [Hpq Hs]. split; [done|]. apply IH; [done|]. destruct Ht; [by left|by right].
Qed.
Lemma settled_take parts n : settled parts -> settled (take n parts).
Proof.
  revert n; induction parts as [|p [|q rest] IH]; intros n Hs; [by destruct n|by destruct n as [|[]]|].
  destruct n as [|[|n]]; [done|done|]. destruct Hs as [Hpq Hs]. split; [done|]. apply (IH (S n) Hs).
Qed.

Lemma normalize_step_settled parts tok : settled parts -> settled (normalize_step parts tok).
Proof.
  intros Hs. unfold normalize_step. destruct (bytes_eqb_spec tok dotdot) as [->|Hn].
  - destruct (list.last parts) as [p|] eqn:El; cbn [andb].
    + destruct (bytes_eqb_spec p dotdot); cbn [negb andb];
        [|destruct (bytes_eqb_spec p dot); cbn [negb andb]; [|by apply settled_take]].
      all: destruct (_ <? _)%nat; [|done]; apply settled_snoc; [done|]; right; intros ? HH; simplify_eq; auto.
    + destruct (_ <? _)%nat; [|done]. apply settled_snoc; [done|]. right. intros ? HH; simplify_eq.
  - cbn [andb]. destruct (_ <? _)%nat; [|done]. apply settled_snoc; [done|]. by left.
Qed.
Lemma normalize_step_length parts tok :
  (length parts <= 64)%nat -> (length (normalize_step parts tok) <= 64)%nat.
Proof.
  intros H. unfold normalize_step, NORMALIZE_MAX_COMPONENTS. destruct (_ && _).
  - rewrite length_take. lia.
  - destruct (length parts <? 64)%nat eqn:E; [|done]. apply Nat.ltb_lt in E.
    rewrite length_app. cbn [length]. lia.
Qed.
Lemma normalize_step_sub (P : list Z -> Prop) parts tok :
  Forall P parts -> P tok -> Forall P (normalize_step parts tok).
Proof.
  intros H Ht. unfold normalize_step. destruct (_ && _); [by apply Forall_take|].
  destruct (_ <? _)%nat; [|done]. apply list.Forall_app. by split; [|constructor].
Qed.

Lemma normalize_parts_invariant toks parts :
  Forall component toks -> Forall component parts -> settled parts -> (length parts <= 64)%nat ->
  let r := fold_left normalize_step toks parts in
  Forall component r /\ settled r /\ (length r <= 64)%nat.
Proof.
  intros H. revert parts; induction H as [|t toks Ht _ IH]; intros parts H1 H2 H3; [done|].
  apply IH; [by apply normalize_step_sub|by apply normalize_step_settled|by apply normalize_step_length].
Qed.

(** Settled lists are fixed by another pass. *)
Lemma fold_settled toks parts :
  settled (parts ++ toks) -> (length (parts ++ toks) <= 64)%nat ->
  fold_left normalize_step toks parts = parts ++ toks.
Proof.
  revert parts; induction toks as [|t toks IH]; intros parts Hs Hl; [by rewrite app_nil_r|].
  rewrite length_app in Hl. cbn [length fold_left] in *. rewrite normalize_step_name; [| |lia].
  - rewrite IH; [by rewrite <- app_assoc|by rewrite <- app_assoc|].
    rewrite !length_app. cbn [length]. lia.
  - destruct (decide (t = dotdot)) as [->|]; [right|by left]. intros p Hp.
    apply last_Some in Hp as [l ->]. clear -Hs. induction l as [|x l IH].
    + by destruct Hs as [Hs _]; apply Hs.
    + apply IH. destruct l; apply Hs.
Qed.

(** ** Lengths *)
Definition weight (parts : list (list Z)) : nat := sum_list_with (fun p => length p + 1)%nat parts.

Lemma weight_app a b : weight (a ++ b) = (weight a + weight b)%nat.
Proof. apply sum_list_with_app. Qed.
Lemma weight_take n parts : (weight (take n parts) <= weight parts)%nat.
Proof. rewrite <- (take_drop n parts) at 2. rewrite weight_app. lia. Qed.
Lemma length_join parts : (length (join_slash parts) <= weight parts - 1)%nat.
Proof.
  induction parts as [|p [|q rest] IH]; [done|cbn; lia|].
  change (join_slash (p :: q :: rest)) with (p ++ slash :: join_slash (q :: rest)).
  rewrite length_app. cbn [length]. unfold weight in *. cbn [sum_list_with] in *. lia.
Qed.
Lemma weight_strtok cur s : (weight (strtok_r cur s) <= length cur + length s + 1)%nat.
Proof.
  assert (forall c, weight (emit c) <= length c + 1)%nat as He.
  { intros [|x c]; unfold weight; cbn; lia. }
  revert cur; induction s as [|c s IH]; intros cur; cbn [strtok_r length].
  - specialize (He cur). lia.
  - destruct (c =? slash).
    + rewrite weight_app. specialize (IH []). specialize (He cur). cbn [length] in IH. lia.
    + specialize (IH (cur ++ [c])). rewrite length_app in IH. cbn [length] in IH. lia.
Qed.
Lemma weight_fold toks parts :
  (weight (fold_left normalize_step toks parts) <= weight parts + weight toks)%nat.
Proof.
  revert parts; induction toks as [|t toks IH]; intros parts; simpl; [unfold weight; simpl; lia|].
  specialize (IH (normalize_step parts t)).
  assert (weight (normalize_step parts t) <= weight parts + (length t + 1))%nat.
  { unfold normalize_step. destruct (_ && _).
    - pose proof (weight_take (length parts - 1) parts). lia.
    - destruct (_ <? _)%nat; [|lia]. rewrite weight_app. unfold weight. simpl. lia. }
  unfold weight in *. cbn [sum_list_with] in *. lia.
Qed.

Lemma length_normalized path :
  (length (path_of (is_absolute path) (normalize_parts (strtok_r [] path))) <= length path)%nat.
Proof.
  unfold path_of. pose proof (length_join (normalize_parts (strtok_r [] path))) as Hj.
  unfold normalize_parts in *. pose proof (weight_fold (strtok_r [] path) []) as Hw.
  unfold weight at 2 in Hw. cbn [sum_list_with] in Hw.
  destruct path as [|c path]; [done|]. rewrite length_app. cbn [is_absolute length].
  destruct (c =? slash) eqn:E.
  - cbn [strtok_r] in *. rewrite E in *. cbn [app emit] in *. pose proof (weight_strtok [] path).
    cbn [length] in *. lia.
  - pose proof (weight_strtok [] (c :: path)). cbn [length] in *. lia.
Qed.

(** Normalisation, when everything fits, is normalisation of the components. *)
Lemma normalize_path_parts path size :
  (length path < size)%nat -> (size <= PATH_MAX)%nat ->
  normalize_path path size = path_of (is_absolute path) (normalize_parts (strtok_r [] path)).
Proof.
  intros Hl Hs. pose proof (length_normalized path) as Hn. unfold normalize_path, snprintf_s.
  rewrite (take_ge path) by lia.
  replace (if is_absolute path then take (size - 1) [slash] else [])
    with (if is_absolute path then [slash] else [])
    by (destruct path as [|c p]; cbn [length] in *; [done|]; by rewrite (take_ge [slash]) by (cbn [length]; lia)).
  unfold path_of in *. rewrite length_app in Hn.
  rewrite join_parts_fits; [done|]. fold (normalize_parts (strtok_r [] path)). lia.
Qed.

Lemma is_absolute_path_of a parts : Forall component parts -> is_absolute (path_of a parts) = a.
Proof.
  intros H. destruct a; [done|]. destruct H as [|p rest [Hp Hs] _]; [done|].
  destruct p as [|c p]; [done|]. apply not_elem_of_cons in Hs as [Hc _].
  assert ((c =? slash) = false) as E by (apply Z.eqb_neq; congruence).
  unfold path_of. by destruct rest.
Qed.

(** A normalised path is canonical: it has no "name/.." left, it is no
    longer than the path, and normalising it again changes nothing. *)
Theorem normalize_path_canonical path size :
  (length path < size)%nat -> (size <= PATH_MAX)%nat ->
  (exists parts, normalize_path path size = path_of (is_absolute path) parts /\
     Forall component parts /\ settled parts) /\
  (length (normalize_path path size) <= length path)%nat /\
  normalize_path (normalize_path path size) size = normalize_path path size.
Proof.
  intros Hl Hs. rewrite normalize_path_parts by done. pose proof (length_normalized path) as Hn.
  destruct (normalize_parts_invariant (strtok_r [] path) []) as (H1 & H2 & H3);
    [by apply strtok_components, not_elem_of_nil|done|done|cbn; lia|].
  fold (normalize_parts (strtok_r [] path)) in *.
  set (parts := normalize_parts (strtok_r [] path)) in *. clearbody parts.
  split; [by exists parts|]. split; [done|].
  rewrite normalize_path_parts by lia. rewrite is_absolute_path_of, strtok_path_of by done.
  unfold normalize_parts. by rewrite fold_settled.
Qed.
Lemma normalize_path_canonical_witness :
  normalize_path (normalize_path (bs "/usr/data/Playlists/../Ghost//song.flac") PATH_MAX) PATH_MAX =
    normalize_path (bs "/usr/data/Playlists/../Ghost//song.flac") PATH_MAX /\
  normalize_path (bs "/usr/data/Playlists/../Ghost//song.flac") PATH_MAX = bs "/usr/data/Ghost/song.flac".
Proof.
  split; [|reflexivity].
  apply (normalize_path_canonical (bs "/usr/data/Playlists/../Ghost//song.flac") PATH_MAX);
    [apply Nat.ltb_lt; reflexivity|reflexivity].
Defined.

(** ** Relative entries *)
Lemma common_prefix_spec a b :
  let n := common_prefix a b in
  take n a = take n b /\ (n <= length a)%nat /\ (n <= length b)%nat.
Proof.
  revert b; induction a as [|x a IH]; intros [|y b]; cbn [common_prefix length];
    try (split; [done|lia]).
  destruct (bytes_eqb_spec x y) as [->|]; [|split; [done|lia]].
  destruct (IH b) as (H1 & H2 & H3). cbn [take]. split; [by f_equal|lia].
Qed.

Definition ups (n : nat) : list Z := concat (replicate n (bs "../")).
Lemma length_ups n : length (ups n) = (3 * n)%nat.
Proof.
  induction n as [|n IH]; [done|]. unfold ups in *. cbn [replicate concat].
  rewrite length_app, IH. change (length (bs "../")) with 3%nat. lia.
Qed.
Lemma print_up_fits size out n :
  (length out + 3 * n < size)%nat -> print_up size out n = Some (out ++ ups n).
Proof.
  revert out; induction n as [|n IH]; intros out H; cbn [print_up]; [by rewrite app_nil_r|].
  rewrite (proj2 (Nat.leb_gt _ _)) by lia. rewrite IH; [unfold ups; cbn [replicate concat]; by rewrite app_assoc|].
  rewrite length_app. change (length (bs "../")) with 3%nat. lia.
Qed.
Lemma strtok_ups n s : strtok_r [] (ups n ++ s) = replicate n dotdot ++ strtok_r [] s.
Proof.
  induction n as [|n IH]; [done|].
  change (ups (S n)) with ((dotdot ++ [slash]) ++ ups n). rewrite <- !app_assoc.
  change ([slash] ++ ?l) with (slash :: l). by rewrite strtok_app, IH.
Qed.

Lemma make_relative_path_of a base target size :
  Forall component base -> Forall component target ->
  (length base <= 64)%nat -> (length target <= 64)%nat ->
  (length (path_of a base) < PATH_MAX)%nat -> (length (path_of a target) < PATH_MAX)%nat ->
  let n := common_prefix base target in
  let rel := ups (length base - n) ++ join_slash (drop n target) in
  n <> 0%nat -> (length rel < size)%nat ->
  make_relative_path (path_of a base) (path_of a target) size = Some rel.
Proof.
  intros Hb Ht Lb Lt Pb Pt n rel Hn Hr. unfold make_relative_path, snprintf_s,
    MAKE_RELATIVE_MAX_COMPONENTS.
  rewrite (take_ge (path_of a base)), (take_ge (path_of a target)) by lia.
  rewrite !strtok_path_of by done. rewrite (take_ge base), (take_ge target) by lia.
  fold n. apply Nat.eqb_neq in Hn as ->. unfold rel in Hr. rewrite length_app, length_ups in Hr.
  rewrite print_up_fits by (cbn [length]; lia). bind_simpl.
  rewrite print_down_fits by (cbn [app]; rewrite length_ups; lia). done.
Qed.

Lemma strrchr_last c s t : c ∉ t -> strrchr c (s ++ c :: t) = Some (length s).
Proof.
  intros H. induction s as [|b s IH]; cbn [app strrchr length]; [|by rewrite IH].
  replace (strrchr c t) with (@None nat); [by rewrite Z.eqb_refl|].
  symmetry. induction t as [|b t IH]; [done|]. apply not_elem_of_cons in H as [Hb Ht].
  cbn [strrchr]. rewrite IH by done. by rewrite (proj2 (Z.eqb_neq _ _)) by congruence.
Qed.
Lemma dir_of_file dir name size :
  slash ∉ name -> (length dir < size)%nat -> dir_of (dir ++ slash :: name) size = dir.
Proof.
  intros Hn Hl. unfold dir_of. rewrite strrchr_last by done. rewrite Nat.min_l by lia.
  apply take_app_length.
Qed.

Lemma is_absolute_app s t : s <> [] -> is_absolute (s ++ t) = is_absolute s.
Proof. by destruct s. Qed.
Lemma relative_not_absolute k rest :
  Forall component rest -> is_absolute (ups k ++ join_slash rest) = false.
Proof.
  intros H. destruct k as [|k]; [|done]. apply (is_absolute_path_of false rest H).
Qed.

Lemma Forall_drop_pos {A} (P : A -> Prop) n x l :
  n <> 0%nat -> Forall P l -> Forall P (drop n (x :: l)).
Proof. destruct n as [|n]; [done|]. intros _ H. by apply (Forall_drop P n l). Qed.

(** The components of the joined path normalise to the target. *)
Lemma normalize_relative h dtl stl :
  Forall entry_name dtl -> Forall entry_name stl ->
  (length dtl < 64)%nat -> (length stl < 64)%nat ->
  let base := h :: dtl in let target := h :: stl in
  let n := common_prefix base target in
  normalize_parts (base ++ replicate (length base - n) dotdot ++ drop n target) = target.
Proof.
  intros Hd Hs Ld Ls base target n. destruct (common_prefix_spec base target) as (Ht & H1 & H2).
  fold n in Ht, H1, H2. unfold normalize_parts. rewrite !fold_left_app.
  assert (fold_left normalize_step base [] = base) as ->.
  { unfold base. cbn [fold_left]. rewrite (normalize_step_name [] h); [|by right|cbn; lia].
    rewrite fold_names; [done|done|cbn [app length]; lia]. }
  assert (n <> 0)%nat as Hn.
  { unfold n, base, target. cbn [common_prefix]. by rewrite bytes_eqb_refl. }
  rewrite <- (take_drop n base) at 2. rewrite <- length_drop, fold_ups.
  - rewrite Ht, fold_names; [apply take_drop| |].
    + by apply Forall_drop_pos.
    + rewrite length_take, length_drop. cbn [target length] in *. lia.
  - by apply Forall_drop_pos.
Qed.

Lemma component_name p : entry_name p -> component p.
Proof. by intros []. Qed.
#[export] Hint Resolve component_name : core.

Lemma length_join_drop n parts : (length (join_slash (drop n parts)) <= length (join_slash parts))%nat.
Proof.
  revert n; induction parts as [|p [|q rest] IH]; intros [|n]; try done; try (cbn; lia).
  - destruct n; cbn; lia.
  - change (drop (S n) (p :: q :: rest)) with (drop n (q :: rest)).
    change (join_slash (p :: q :: rest)) with (p ++ slash :: join_slash (q :: rest)).
    specialize (IH n). rewrite length_app. cbn [length]. lia.
Qed.

Lemma elem_of_join_drop c n parts : c ∈ join_slash (drop n parts) -> c ∈ join_slash parts.
Proof.
  revert n; induction parts as [|p [|q rest] IH]; intros [|n] H; try done.
  - cbn [drop] in H. rewrite drop_nil in H. by apply elem_of_nil in H.
  - change (drop (S n) (p :: q :: rest)) with (drop n (q :: rest)) in H.
    change (join_slash (p :: q :: rest)) with (p ++ slash :: join_slash (q :: rest)).
    rewrite elem_of_app, elem_of_cons. right. right. by apply (IH n).
Qed.
Lemma elem_of_ups c n : c ∈ ups n -> c = 46 \/ c = 47.
Proof.
  induction n as [|n IH]; [by intros ?%elem_of_nil|].
  change (ups (S n)) with (bs "../" ++ ups n). rewrite elem_of_app. intros [H|H]; [|by apply IH].
  change (bs "../") with [46; 46; 47] in H. rewrite !elem_of_cons, elem_of_nil in H.
  destruct H as [->|[->|[->|[]]]]; auto.
Qed.

(** The entry written for a song is its relative form, and resolves back to the
    song. *)
Section entry.
Context (a : bool) (h : list Z) (dtl stl : list (list Z)).
Context (Hh : component h) (Hd : Forall entry_name dtl) (Hs : Forall entry_name stl).
Context (Ld : (length dtl < 64)%nat) (Ls : (length stl < 64)%nat).
Let dir := path_of a (h :: dtl).
Let song := path_of a (h :: stl).
Context (Hfit : (length dir + 1 + 3 * length dtl + length song < PATH_MAX)%nat).

#[local] Lemma base_components : Forall component (h :: dtl).
Proof. constructor; [done|]. by apply (List.Forall_impl _ component_name). Qed.
#[local] Lemma target_components : Forall component (h :: stl).
Proof. constructor; [done|]. by apply (List.Forall_impl _ component_name). Qed.

Let n := common_prefix (h :: dtl) (h :: stl).
Let rel := ups (length (h :: dtl) - n) ++ join_slash (drop n (h :: stl)).

#[local] Lemma n_pos : n <> 0%nat.
Proof using. unfold n. cbn [common_prefix]. by rewrite bytes_eqb_refl. Qed.
#[local] Lemma length_rel : (length rel <= 3 * length dtl + length song)%nat.
Proof using.
  clear Hfit Ld Ls Hh Hd Hs. unfold rel. rewrite length_app, length_ups. pose proof (length_join_drop n (h :: stl)).
  pose proof n_pos. unfold song, path_of. rewrite length_app. cbn [length]. lia.
Qed.

Lemma entry_line_rel : entry_line dir song = rel.
Proof using All.
  pose proof length_rel as Hr. unfold entry_line. subst dir song.
  rewrite make_relative_path_of; try done;
    [apply base_components|apply target_components|cbn [length]; lia..|apply n_pos|].
  fold n. fold rel. lia.
Qed.

Lemma entry_resolves name :
  slash ∉ name ->
  playlist_files_resolve_path (dir ++ slash :: name) (entry_line dir song) PATH_MAX = song.
Proof using All.
  intros Hn. pose proof length_rel as Hr. rewrite entry_line_rel.
  assert (Forall component (drop n (h :: stl))) as Hc by (apply Forall_drop, target_components).
  unfold playlist_files_resolve_path. unfold rel at 1.
  rewrite relative_not_absolute by done. rewrite dir_of_file by (done || lia).
  assert (dir <> []) as Hne.
  { intros E. pose proof (strtok_path_of a (h :: dtl) base_components) as Hb.
    fold dir in Hb. by rewrite E in Hb. }
  assert (length (dir ++ [slash] ++ rel) < PATH_MAX)%nat as Hlen.
  { rewrite !length_app. cbn [length]. lia. }
  unfold snprintf_s. rewrite (take_ge (dir ++ _)) by lia.
  rewrite normalize_path_parts, is_absolute_app by done.
  change (dir ++ [slash] ++ rel) with (dir ++ slash :: rel).
  rewrite strtok_app. unfold rel. rewrite strtok_ups, (strtok_join (drop _ _)) by done.
  unfold dir. rewrite strtok_path_of, is_absolute_path_of by apply base_components.
  unfold n. by rewrite normalize_relative.
Qed.

Lemma length_entry_line : (length (entry_line dir song) <= 3 * length dtl + length song)%nat.
Proof using All. rewrite entry_line_rel. apply length_rel. Qed.
Lemma elem_of_entry_line c : c ∈ entry_line dir song -> c = 46 \/ c = 47 \/ c ∈ song.
Proof using All.
  rewrite entry_line_rel. unfold rel. rewrite elem_of_app. intros [H|H].
  - apply elem_of_ups in H. tauto.
  - apply elem_of_join_drop in H. right. right. unfold song, path_of. rewrite elem_of_app. by right.
Qed.

(** The entry of a song outside the directory climbs out of it. *)
Lemma entry_line_up : ~ (h :: dtl) `prefix_of` (h :: stl) -> exists rest, entry_line dir song = bs "../" ++ rest.
Proof using All.
  intros Hp. rewrite entry_line_rel. unfold rel.
  destruct (length (h :: dtl) - n)%nat as [|k] eqn:E.
  - destruct Hp. destruct (common_prefix_spec (h :: dtl) (h :: stl)) as (Ht & _).
    fold n in Ht. rewrite take_ge in Ht by lia. exists (drop n (h :: stl)).
    rewrite Ht. symmetry. apply take_drop.
  - unfold ups. cbn [replicate concat]. rewrite <- app_assoc. by eexists.
Qed.
End entry.
