(* ===== verification/PlaylistFiles.v ===== *)
(** The playlist files of src/library/playlist_files.c: reading an M3U file,
    and the operations that rewrite one. A file system is a map from paths to
    contents; an operation yields its result and the list of file-system steps
    it takes, so that a theorem can speak of every state in between. *)
From stdpp Require Import gmap.
From S2P Require Import Prelude Endian QueueResume PlaylistPaths.
Local Open Scope Z_scope.

(** ** File system *)
Abbreviation files := (gmap (list Z) (list Z)).

Inductive fs_op :=
| Create (path : list Z)
| Append (path data : list Z)
| Unlink (path : list Z)
| Rename (from to : list Z).

Definition apply_op (fs : files) (op : fs_op) : files :=
  match op with
  | Create p => <[p := []]> fs
  | Append p d => alter (fun old => old ++ d) p fs
  | Unlink p => delete p fs
  | Rename a b => match fs !! a with Some d => <[b := d]> (delete a fs) | None => fs end
  end.
Definition run (ops : list fs_op) (fs : files) : files := fold_left apply_op ops fs.

(** How the system calls of one operation turn out. [io_read_stop] is where a
    read error ends the input; [io_partial] bytes reach the output file when
    the writing fails; [io_alloc i] is the success of the allocations for entry
    [i]; [io_suffix] replaces the X's of [mkstemp]. *)
Record io_env := {
  io_open : bool; io_read_stop : option nat; io_suffix : list Z; io_mkstemp : bool;
  io_fdopen : bool; io_create : bool; io_write : bool; io_partial : nat; io_sync : bool;
  io_fclose : bool; io_rename : bool; io_alloc : nat -> bool }.

(** The bytes a stream yields before its end or its error. *)
Definition stream (io : io_env) (content : list Z) : list Z :=
  match io_read_stop io with Some n => take n content | None => content end.
Definition ferror (io : io_env) : bool :=
  match io_read_stop io with Some _ => true | None => false end.
Definition absent (fs : files) (path : list Z) : bool :=
  match fs !! path with Some _ => false | None => true end.
(** What reaches a file whose writers mean to put [out] there. *)
Definition flushed (io : io_env) (out : list Z) : list Z :=
  if io_write io then out else take (io_partial io) out.

Definition has (c : Z) (s : list Z) : bool :=
  match strchr c s with Some _ => true | None => false end.

(** ** Reading *)

(** The lines [getline] delivers, each with its newline; [cur] is the line being
    read. *)
Fixpoint getlines (cur s : list Z) : list (list Z) :=
  match s with
  | [] => emit cur
  | c :: s => if c =? 10 then (cur ++ [10]) :: getlines [] s else getlines (cur ++ [c]) s
  end.

Inductive playlist_read_status_t :=
| PLAYLIST_READ_OK | PLAYLIST_READ_EMPTY | PLAYLIST_READ_IO_ERROR | PLAYLIST_READ_INVALID
| PLAYLIST_READ_NO_MEMORY.

(** The loop of [playlist_files_read_ex]. *)
Fixpoint read_loop (alloc : nat -> bool) (path : list Z) (lines : list (list Z)) (first : bool)
    (capacity : Z) (paths : list (list Z)) : playlist_read_status_t * list (list Z) :=
  match lines with
  | [] => (PLAYLIST_READ_OK, paths)
  | line :: lines =>
      if negb (length line =? length (cstr line))%nat then (PLAYLIST_READ_INVALID, paths) else
      let entry := if first then drop (library_utf8_bom_skip line) line else line in
      let entry := library_trim_eol entry in
      if match entry with [] => true | c :: _ => c =? 35 end
      then read_loop alloc path lines false capacity paths else
      let dir := dir_of path PATH_MAX in
      if (PATH_MAX <=? length entry + (if is_absolute entry then 0 else length dir + 1))%nat
      then (PLAYLIST_READ_INVALID, paths) else
      let full := playlist_files_resolve_path path entry PATH_MAX in
      let count := Z.of_nat (length paths) in
      if (count =? capacity) && (INT_MAX / 2 <? capacity) then (PLAYLIST_READ_NO_MEMORY, paths) else
      let next := if count =? capacity then (if capacity =? 0 then 16 else capacity * 2) else capacity in
      if alloc (length paths) then read_loop alloc path lines false next (paths ++ [full])
      else (PLAYLIST_READ_NO_MEMORY, paths)
  end.
Definition playlist_files_read_ex (io : io_env) (fs : files) (path : list Z)
    : playlist_read_status_t * list (list Z) :=
  match fs !! path with
  | None => (PLAYLIST_READ_IO_ERROR, [])
  | Some content =>
      if negb (io_open io) then (PLAYLIST_READ_IO_ERROR, []) else
      let '(status, paths) :=
        read_loop (io_alloc io) path (getlines [] (stream io content)) true 0 [] in
      let status := if ferror io then PLAYLIST_READ_IO_ERROR else status in
      match status with
      | PLAYLIST_READ_OK =>
          (match paths with [] => PLAYLIST_READ_EMPTY | _ => PLAYLIST_READ_OK end, paths)
      | s => (s, [])
      end
  end.
Definition playlist_files_read (io : io_env) (fs : files) (path : list Z) : option (list (list Z)) :=
  match playlist_files_read_ex io fs path with
  | (PLAYLIST_READ_OK, paths) | (PLAYLIST_READ_EMPTY, paths) => Some paths
  | _ => None
  end.

(** The lines as [fgets] delivers them into [char line[PATH_MAX]], trimmed. *)
Definition trimmed_lines (content : list Z) : list (list Z) :=
  map library_trim_eol (fgets_lines PATH_MAX (length content) content).
Definition resolves_to (m3u_path song_path line : list Z) : bool :=
  bytes_eqb (playlist_files_resolve_path m3u_path line PATH_MAX) song_path.
Definition nonempty (line : list Z) : bool := match line with [] => false | _ => true end.

Definition playlist_files_contains (io : io_env) (fs : files) (m3u_path song_path : list Z) : bool :=
  match fs !! m3u_path with
  | None => false
  | Some content =>
      io_open io &&
      existsb (fun line => nonempty line && resolves_to m3u_path song_path line)
        (trimmed_lines (stream io content))
  end.

(** ** Adding an entry *)
Definition temp_template (dir : list Z) (io : io_env) : list Z :=
  dir ++ bs "/.playlist-" ++ io_suffix io.
Definition template_fits (dir : list Z) : bool :=
  (length (dir ++ bs "/.playlist-XXXXXX") <? PATH_MAX)%nat.
Definition mkstemp (io : io_env) (fs : files) (temp : list Z) : bool :=
  io_mkstemp io && absent fs temp.

Definition playlist_files_append (io : io_env) (fs : files) (path song_path : list Z)
    : bool * list fs_op :=
  if negb (nonempty song_path) || has 10 song_path || has 13 song_path then (false, []) else
  let dir := dir_of path PATH_MAX in
  let temp := temp_template dir io in
  let fd := template_fits dir && io_open io && mkstemp io fs temp in
  let output := fd && io_fdopen io in
  let input := stream io (default [] (fs !! path)) in
  let read_error := ferror io && negb (absent fs path) in
  let newline := match list.last input with Some c => if c =? 10 then [] else [10] | None => [] end in
  let out := if read_error then input
             else input ++ newline ++ entry_line dir song_path ++ [10] in
  let ok := output && negb read_error && io_write io && io_sync io && io_fclose io in
  let ok := ok && io_rename io in
  let ops := (if fd then [Create temp] else []) ++
             (if output then [Append temp (flushed io out)] else []) in
  (ok, ops ++ if ok then [Rename temp path] else if fd then [Unlink temp] else []).

(** ** Removing a song, migrating a file *)
Definition tmp_name (m3u_path : list Z) : list Z := snprintf_s (PATH_MAX + 8) (m3u_path ++ bs ".tmp").

Definition playlist_files_remove (io : io_env) (fs : files) (m3u_path song_path : list Z)
    : bool * list fs_op :=
  match fs !! m3u_path with
  | None => (false, [])
  | Some content =>
      if negb (io_open io) || negb (io_create io) then (false, []) else
      let tmp_path := tmp_name m3u_path in
      let kept := List.filter (fun line => nonempty line && negb (resolves_to m3u_path song_path line))
                    (trimmed_lines (stream io content)) in
      let out := concat (map (fun line => line ++ [10]) kept) in
      let ok := io_write io && negb (ferror io) && io_sync io && io_fclose io && io_rename io in
      (ok, [Create tmp_path; Append tmp_path (flushed io out);
            if ok then Rename tmp_path m3u_path else Unlink tmp_path])
  end.

(** Comments go, and every other line is rewritten relative to [dir_path]. *)
Definition migrate_line (m3u_path dir_path line : list Z) : list Z :=
  match line with
  | [] => []
  | c :: _ => if c =? 35 then []
              else entry_line dir_path (playlist_files_resolve_path m3u_path line PATH_MAX) ++ [10]
  end.
Definition migrate_one_file (io : io_env) (fs : files) (m3u_path : list Z) : bool * list fs_op :=
  match fs !! m3u_path with
  | None => (false, [])
  | Some content =>
      if negb (io_open io) || negb (io_create io) then (false, []) else
      let dir_path := dir_of m3u_path PATH_MAX in
      let tmp_path := tmp_name m3u_path in
      let out := concat (map (migrate_line m3u_path dir_path) (trimmed_lines (stream io content))) in
      let ops := [Create tmp_path; Append tmp_path (flushed io out)] in
      if ferror io then (false, ops ++ [Unlink tmp_path])
      else (true, ops ++ if io_rename io then [Rename tmp_path m3u_path] else [])
  end.

(** ** Editing *)

(** The variables of [playlist_files_edit_entry]'s loop: the finished blocks,
    each an entry with the comments before it, and the lines since. *)
Record edit_state := { blocks : list (list Z); pending : list Z; bom : bool }.

Definition EXTM3U : list Z := bs "#EXTM3U".
Definition utf8_bom : list Z := [239; 187; 191].

(** A line that belongs to the entry after it. *)
Definition is_comment (text : list Z) : bool :=
  match text with [] => true | c :: _ => (c =? 35) || (c =? 13) || (c =? 10) end.

Definition edit_line (st : edit_state) (line : list Z) : edit_state :=
  let text := cstr line in
  let skip := (length (blocks st) =? 0)%nat && (length (pending st) =? 0)%nat &&
              (library_utf8_bom_skip text =? 3)%nat in
  let text := if skip then drop 3 text else text in
  let st := {| blocks := blocks st; pending := pending st; bom := bom st || skip |} in
  if starts_with EXTM3U text then st else
  let pending' := pending st ++ text in
  if is_comment text then {| blocks := blocks st; pending := pending'; bom := bom st |}
  else {| blocks := blocks st ++ [pending']; pending := []; bom := bom st |}.
Definition edit_parse (content : list Z) : edit_state :=
  fold_left edit_line (getlines [] content) {| blocks := []; pending := []; bom := false |}.

(** The two [memmove]s. *)
Definition move_entry {A} (l : list A) (from : nat) (to : Z) : list A :=
  match l !! from with
  | None => l
  | Some entry =>
      let l := take from l ++ drop (S from) l in
      if to <? 0 then l else take (Z.to_nat to) l ++ entry :: drop (Z.to_nat to) l
  end.

Definition block_text (b : list Z) : list Z :=
  match list.last b with Some c => if c =? 10 then b else b ++ [10] | None => b end.
(** What [playlist_files_edit_entry] prints. *)
Definition edit_print (bom : bool) (blocks : list (list Z)) (pending : list Z) : list Z :=
  (if bom then utf8_bom else []) ++ EXTM3U ++ [10] ++ concat (map block_text blocks) ++ pending.

Definition playlist_files_edit_entry (io : io_env) (fs : files) (path : list Z) (from to : Z)
    : bool * list fs_op :=
  if from <? 0 then (false, []) else
  match fs !! path with
  | None => (false, [])
  | Some content =>
      if negb (io_open io) then (false, []) else
      let st := edit_parse (stream io content) in
      let count := Z.of_nat (length (blocks st)) in
      if ferror io || (count <=? from) || (count <=? to) then (false, []) else
      let dir := dir_of path PATH_MAX in
      let temp := temp_template dir io in
      let fd := template_fits dir && mkstemp io fs temp in
      let f := fd && io_fdopen io in
      let out := edit_print (bom st) (move_entry (blocks st) (Z.to_nat from) to) (pending st) in
      let ok := f && io_write io && io_sync io && io_fclose io && io_rename io in
      let ops := (if fd then [Create temp] else []) ++ (if f then [Append temp (flushed io out)] else []) in
      (ok, ops ++ if ok then [Rename temp path] else if fd then [Unlink temp] else [])
  end.

(** ** New playlists *)
Definition forbidden : list Z := 34 :: bs "/\:*?<>|".
Definition valid_playlist_name (name : list Z) : bool :=
  match name with
  | [] => false
  | c :: _ =>
      negb (c =? 46) && (length name <=? 200)%nat &&
      forallb (fun p => negb (p <? 32) && negb (has p forbidden)) name &&
      match list.last name with Some l => negb (l =? 32) && negb (l =? 46) | None => false end
  end.

(** The loop over the provider: what is printed, and whether every path was
    there and free of line breaks. *)
Fixpoint provided (provider : Z -> option (list Z)) (print : list Z -> list Z) (todo : nat) (i : Z)
    : list Z * bool :=
  match todo with
  | O => ([], true)
  | S todo =>
      match provider i with
      | None => ([], false)
      | Some path =>
          if has 10 path || has 13 path then ([], false)
          else let '(out, ok) := provided provider print todo (i + 1) in
               (print path ++ [10] ++ out, ok)
      end
  end.

Definition with_extension (name ext : list Z) : list Z :=
  name ++ if library_is_m3u_file name then [] else ext.

(** The result, the string stored through [out] (of [size] bytes), the steps. *)
Definition playlist_files_write_new_stream (io : io_env) (fs : files) (dir name : list Z) (count : Z)
    (provider : Z -> option (list Z)) (size : option nat) : bool * option (list Z) * list fs_op :=
  if negb (valid_playlist_name name) || (count <? 0) then (false, None, []) else
  let path := dir ++ [slash] ++ with_extension name (bs ".m3u") in
  if (PATH_MAX <=? length path)%nat ||
     match size with Some n => (n <=? length path)%nat | None => false end ||
     negb (template_fits dir)
  then (false, None, []) else
  let temp := temp_template dir io in
  let reserved := io_create io && absent fs path in
  let fs1 := if reserved then <[path := []]> fs else fs in
  let fd := reserved && mkstemp io fs1 temp in
  let f := fd && io_fdopen io in
  let '(lines, provided_ok) := provided provider (entry_line dir) (Z.to_nat count) 0 in
  let out := EXTM3U ++ [10] ++ lines in
  let ok := f && provided_ok && io_write io && io_sync io && io_fclose io && io_rename io in
  let ops := (if reserved then [Create path] else []) ++ (if fd then [Create temp] else []) ++
             (if f then [Append temp (flushed io out)] else []) in
  (ok, if ok then match size with Some n => Some (snprintf_s n path) | None => None end else None,
   ops ++ if ok then [Rename temp path]
          else (if fd then [Unlink temp] else []) ++ (if reserved then [Unlink path] else [])).

Definition playlist_files_write_new (io : io_env) (fs : files) (dir name : list Z)
    (paths : list (option (list Z))) (size : option nat) : bool * option (list Z) * list fs_op :=
  playlist_files_write_new_stream io fs dir name (Z.of_nat (length paths))
    (fun index => mjoin (paths !! Z.to_nat index)) size.
Definition playlist_files_create (io : io_env) (fs : files) (dir name song_path : list Z)
    (size : option nat) : bool * option (list Z) * list fs_op :=
  playlist_files_write_new io fs dir name (if nonempty song_path then [Some song_path] else []) size.

(** The variant on a directory handle: names are leaves of [dir], the paths are
    stored as they are, and the rename refuses to replace a file. *)
Fixpoint choose_temp_at (io : io_env) (dir : files) (pid : Z) (todo : nat) (attempt : Z)
    : option (list Z) :=
  match todo with
  | O => None
  | S todo =>
      let temp := bs ".playlist." ++ digits 20 pid [] ++ bs "." ++ digits 20 attempt [] ++ bs ".tmp" in
      if NAME_MAX <=? Z.of_nat (length temp) then None
      else if absent dir temp then (if io_mkstemp io then Some temp else None)
      else choose_temp_at io dir pid todo (attempt + 1)
  end.
Definition playlist_files_write_new_stream_at (io : io_env) (dir : files) (pid : Z) (name : list Z)
    (count : Z) (provider : Z -> option (list Z)) (size : option nat)
    : bool * option (list Z) * list fs_op :=
  if negb (valid_playlist_name name) || (count <? 0) || has slash name then (false, None, []) else
  let leaf := with_extension name (bs ".m3u") in
  if (NAME_MAX <=? Z.of_nat (length leaf)) ||
     match size with Some n => (n <=? length leaf)%nat | None => false end
  then (false, None, []) else
  let temp := choose_temp_at io dir pid 100 0 in
  let f := match temp with Some _ => io_fdopen io | None => false end in
  let '(lines, provided_ok) := provided provider (fun path => path) (Z.to_nat count) 0 in
  let out := EXTM3U ++ [10] ++ lines in
  let ok := f && provided_ok && io_write io && io_sync io && io_fclose io && io_rename io &&
            absent dir leaf in
  let stored := match size with Some n => Some (snprintf_s n leaf) | None => None end in
  match temp with
  | None => (false, stored, [])
  | Some temp =>
      (ok, if ok then stored else None,
       Create temp :: (if f then [Append temp (flushed io out)] else []) ++
       [if ok then Rename temp leaf else Unlink temp])
  end.

Definition playlist_files_rename (io : io_env) (fs : files) (path name : list Z) (size : option nat)
    : bool * option (list Z) * list fs_op :=
  if negb (valid_playlist_name name) then (false, None, []) else
  let dir := dir_of path PATH_MAX in
  let ext := match strrchr 46 path with Some i => drop i path | None => bs ".m3u" end in
  let dest := dir ++ [slash] ++ with_extension name ext in
  if (PATH_MAX <=? length dest)%nat ||
     match size with Some n => (n <=? length dest)%nat | None => false end
  then (false, None, []) else
  let same := bytes_eqb path dest in
  let reserved := negb same && io_create io && absent fs dest in
  let renamed := reserved && io_rename io && negb (absent fs path) in
  let ok := same || renamed in
  (ok, if ok then match size with Some n => Some (snprintf_s n dest) | None => None end else None,
   if reserved then [Create dest; if renamed then Rename path dest else Unlink dest] else []).

Definition playlist_files_delete (io : io_env) (fs : files) (m3u_path : list Z) : bool * list fs_op :=
  if absent fs m3u_path || negb (io_create io) then (false, []) else (true, [Unlink m3u_path]).
