(* ===== verification/PlaylistAtomic.v ===== *)
(** The rewriting operations of PlaylistFiles publish a file atomically: what
    every state on the way holds, and what is left when a step fails. *)
From stdpp Require Import gmap.
From S2P Require Import Prelude Endian PlaylistPaths PlaylistFiles.
Local Open Scope Z_scope.

Lemma run_cons op ops fs : run (op :: ops) fs = run ops (apply_op fs op).
Proof. done. Qed.

(** In every state of the steps a file other than [temp] holds what it held, or
    it is [path] with the whole of [new], which only a success gives. *)
Definition atomic (ok : bool) (fs : files) (ops : list fs_op) (temp path new : list Z) : Prop :=
  forall n p, p <> temp ->
    run (take n ops) fs !! p = fs !! p \/
    (ok = true /\ p = path /\ run (take n ops) fs !! p = Some new).

Lemma atomic_nil ok fs temp path new : atomic ok fs [] temp path new.
Proof. intros n p _. left. by rewrite firstn_nil. Qed.

Lemma atomic_failed fs ops temp path new new' :
  atomic false fs ops temp path new -> atomic false fs ops temp path new'.
Proof. intros H n p Hp. destruct (H n p Hp) as [?|[? _]]; [by left|done]. Qed.

(** Steps on the temporary file alone. *)
Definition on_temp (temp : list Z) (op : fs_op) : Prop :=
  match op with
  | Create p | Append p _ | Unlink p => p = temp
  | Rename _ _ => False
  end.
Lemma run_on_temp temp ops fs p :
  Forall (on_temp temp) ops -> p <> temp -> run ops fs !! p = fs !! p.
Proof.
  intros H Hp. revert fs; induction H as [|op ops Ho _ IH]; intros fs; [done|].
  rewrite run_cons, IH. destruct op; simpl in *; subst; try done;
    [by rewrite lookup_insert_ne|by rewrite lookup_alter_ne|by rewrite lookup_delete_ne].
Qed.

Lemma atomic_temp ok fs ops temp path new :
  Forall (on_temp temp) ops -> atomic ok fs ops temp path new.
Proof. intros H n p Hp. left. apply run_on_temp with temp; [by apply Forall_take|done]. Qed.

Lemma run_app a b fs : run (a ++ b) fs = run b (run a fs).
Proof. apply fold_left_app. Qed.

Lemma atomic_publish fs temp path new :
  atomic true fs [Create temp; Append temp new; Rename temp path] temp path new.
Proof.
  intros n p Hp. destruct (decide (n <= 2)%nat) as [Hn|Hn].
  - left. apply run_on_temp with temp; [|done].
    destruct n as [|[|[|n]]]; [constructor|repeat constructor..|lia].
  - rewrite take_ge by (cbn [length]; lia). cbn.
    rewrite lookup_alter_eq, lookup_insert_eq. cbn.
    destruct (decide (p = path)) as [->|Hpp].
    + right. by rewrite lookup_insert_eq.
    + left. rewrite lookup_insert_ne, lookup_delete_ne by congruence.
      by rewrite lookup_alter_ne, lookup_insert_ne by congruence.
Qed.

Lemma run_publish fs temp path new :
  run [Create temp; Append temp new; Rename temp path] fs = <[path := new]> (delete temp fs).
Proof.
  cbn. rewrite lookup_alter_eq, lookup_insert_eq. cbn [fmap option_fmap option_map app].
  by rewrite delete_alter_eq, delete_insert_eq.
Qed.
Lemma run_discard fs temp d :
  run [Create temp; Append temp d; Unlink temp] fs = delete temp fs.
Proof. cbn. by rewrite delete_alter_eq, delete_insert_eq. Qed.
Lemma run_abandon fs temp : run [Create temp; Unlink temp] fs = delete temp fs.
Proof. cbn. by rewrite delete_insert_eq. Qed.

Lemma absent_None fs p : absent fs p = true <-> fs !! p = None.
Proof. unfold absent. by destruct (fs !! p). Qed.

(** The tail the operations share, on a temporary name that was free. *)
Definition publish_ops (io : io_env) (fd f ok : bool) (temp path out : list Z) : list fs_op :=
  (if fd then [Create temp] else []) ++ (if f then [Append temp (flushed io out)] else []) ++
  if ok then [Rename temp path] else if fd then [Unlink temp] else [].

Lemma publish_ops_spec io fs (fd f ok : bool) temp path out :
  (fd = true -> fs !! temp = None) -> (f = true -> fd = true) ->
  (ok = true -> f = true /\ io_write io = true) ->
  let ops := publish_ops io fd f ok temp path out in
  run ops fs = (if ok then <[path := out]> fs else fs) /\ atomic ok fs ops temp path out.
Proof.
  intros Hfd Hf Hok. unfold publish_ops. cbn zeta. destruct ok.
  - destruct (Hok eq_refl) as [-> Hw]. rewrite (Hf eq_refl) in *. cbn [app].
    unfold flushed. rewrite Hw, run_publish, delete_id by auto.
    split; [done|apply atomic_publish].
  - destruct fd; [|destruct f; [by specialize (Hf eq_refl)|]; split; [done|apply atomic_nil]].
    split; [|destruct f; apply atomic_temp; repeat constructor].
    destruct f; cbn [app]; [rewrite run_discard|rewrite run_abandon]; by rewrite delete_id by auto.
Qed.

Lemma mkstemp_absent io fs temp : mkstemp io fs temp = true -> fs !! temp = None.
Proof. unfold mkstemp. rewrite andb_true_iff, absent_None. by intros []. Qed.

(** What a playlist becomes when a song is appended, when a song is removed and
    when an entry is moved or deleted. *)
Definition add_line (old e : list Z) : list Z :=
  old ++ match list.last old with Some c => if c =? 10 then [] else [10] | None => [] end ++ e ++ [10].
Definition appended (old dir song_path : list Z) : list Z := add_line old (entry_line dir song_path).
Definition removed (old m3u_path song_path : list Z) : list Z :=
  concat (map (fun line => line ++ [10])
    (List.filter (fun line => nonempty line && negb (resolves_to m3u_path song_path line))
       (trimmed_lines old))).
Definition edited (old : list Z) (from to : Z) : list Z :=
  edit_print (bom (edit_parse old)) (move_entry (blocks (edit_parse old)) (Z.to_nat from) to)
    (pending (edit_parse old)).

Lemma stream_input io fs path :
  ferror io && negb (absent fs path) = false ->
  stream io (default [] (fs !! path)) = default [] (fs !! path).
Proof.
  unfold stream, ferror, absent. destruct (io_read_stop io); [|done].
  destruct (fs !! path); [done|]. intros _. apply firstn_nil.
Qed.

Lemma append_outcome io fs path song ok ops :
  playlist_files_append io fs path song = (ok, ops) ->
  let temp := temp_template (dir_of path PATH_MAX) io in
  let new := appended (default [] (fs !! path)) (dir_of path PATH_MAX) song in
  run ops fs = (if ok then <[path := new]> fs else fs) /\ atomic ok fs ops temp path new.
Proof.
  unfold playlist_files_append. destruct (negb _ || _ || _).
  { intros [=<- <-]. split; [done|apply atomic_nil]. }
  set (temp := temp_template (dir_of path PATH_MAX) io).
  set (fd := template_fits _ && io_open io && mkstemp io fs temp).
  set (f := fd && io_fdopen io). set (err := ferror io && negb (absent fs path)).
  set (out := if err then _ else _). cbn zeta.
  set (k := f && negb err && io_write io && io_sync io && io_fclose io && io_rename io).
  intros [=<- <-].
  assert (k = true -> f = true /\ io_write io = true) as Hk.
  { unfold k. rewrite !andb_true_iff. tauto. }
  assert (k = true -> out = appended (default [] (fs !! path)) (dir_of path PATH_MAX) song) as Ho.
  { intros Hkt. assert (err = false) as He.
    { unfold k in Hkt. rewrite !andb_true_iff, negb_true_iff in Hkt. tauto. }
    unfold out. rewrite He. unfold err in He. by rewrite stream_input. }
  destruct (publish_ops_spec io fs fd f k temp path out) as [H1 H2]; [| |done|].
  - unfold fd. rewrite !andb_true_iff. intros [_ H]. by apply mkstemp_absent in H.
  - unfold f. rewrite andb_true_iff. tauto.
  - unfold publish_ops in H1, H2. rewrite app_assoc in H1, H2. destruct k.
    + rewrite <- (Ho eq_refl). by split.
    + split; [done|]. by apply atomic_failed with out.
Qed.

Lemma edit_outcome io fs path from to ok ops :
  playlist_files_edit_entry io fs path from to = (ok, ops) ->
  let temp := temp_template (dir_of path PATH_MAX) io in
  let new := edited (default [] (fs !! path)) from to in
  run ops fs = (if ok then <[path := new]> fs else fs) /\ atomic ok fs ops temp path new /\
  (ok = true -> 0 <= from < Z.of_nat (length (blocks (edit_parse (default [] (fs !! path))))) /\
     to < Z.of_nat (length (blocks (edit_parse (default [] (fs !! path))))) /\ is_Some (fs !! path)).
Proof.
  unfold playlist_files_edit_entry. assert (forall temp new (P : Prop), (false, []) = (ok, ops) ->
    run ops fs = (if ok then <[path := new]> fs else fs) /\ atomic ok fs ops temp path new /\
    (ok = true -> P)) as Hfail.
  { intros temp new P [=<- <-]. split; [done|]. split; [apply atomic_nil|done]. }
  destruct (from <? 0) eqn:E0; [apply Hfail|].
  destruct (fs !! path) as [content|] eqn:Ep; [|apply Hfail].
  destruct (negb (io_open io)); [apply Hfail|].
  cbn zeta. destruct (ferror io || _ || _) eqn:E1; [apply Hfail|].
  clear Hfail. bool_prop. cbn [default from_option]. unfold id.
  assert (stream io content = content) as -> by (unfold stream, ferror in *; by destruct (io_read_stop io)).
  set (temp := temp_template (dir_of path PATH_MAX) io).
  set (fd := template_fits _ && mkstemp io fs temp). set (f := fd && io_fdopen io).
  fold (edited content from to).
  set (k := f && io_write io && io_sync io && io_fclose io && io_rename io).
  intros [=<- <-]. destruct (publish_ops_spec io fs fd f k temp path (edited content from to)) as [H3 H4].
  - unfold fd. rewrite !andb_true_iff. intros [_ Hm]. by apply mkstemp_absent in Hm.
  - unfold f. rewrite andb_true_iff. tauto.
  - unfold k. rewrite !andb_true_iff. tauto.
  - unfold publish_ops in H3, H4. rewrite app_assoc in H3, H4. split; [done|]. split; [done|].
    intros _. unfold edited in *. unfold stream, ferror in *.
    destruct (io_read_stop io); [done|]. split; [|split]; [lia|lia|by eexists].
Qed.

Lemma remove_outcome io fs path song ok ops :
  playlist_files_remove io fs path song = (ok, ops) ->
  let temp := tmp_name path in
  let new := removed (default [] (fs !! path)) path song in
  (run ops fs = (if ok then <[path := new]> (delete temp fs) else delete temp fs) \/
   ok = false /\ run ops fs = fs) /\
  atomic ok fs ops temp path new.
Proof.
  unfold playlist_files_remove. destruct (fs !! path) as [content|] eqn:Ep.
  2: { intros [=<- <-]. split; [by right|apply atomic_nil]. }
  destruct (negb (io_open io) || _).
  { intros [=<- <-]. split; [by right|apply atomic_nil]. }
  cbn zeta. cbn [default from_option]. unfold id.
  set (out := concat _). set (k := io_write io && _ && _ && _ && _). intros [=<- <-].
  assert (k = true -> flushed io out = removed content path song) as Hk.
  { unfold k. rewrite !andb_true_iff, negb_true_iff. intros ((((Hw & Hf) & _) & _) & _).
    unfold flushed, ferror, out, removed, stream in *. rewrite Hw.
    destruct (io_read_stop io); done. }
  destruct k.
  - rewrite Hk by done. split; [left; apply run_publish|apply atomic_publish].
  - split; [left; apply run_discard|]. apply atomic_temp. repeat constructor.
Qed.

(** [r], the outcome of an operation on [path], leaves no trace but [temp] when
    it fails, replaces [path] by [new] when it succeeds, and never shows
    anything else on the way. *)
Definition crash_safe (fs : files) (temp path new : list Z) (r : bool * list fs_op) : Prop :=
  (forall p, p <> temp ->
     run r.2 fs !! p = if r.1 then (if decide (p = path) then Some new else fs !! p) else fs !! p) /\
  atomic r.1 fs r.2 temp path new.

Lemma lookup_published (fs : files) (temp path new p : list Z) :
  p <> temp ->
  <[path := new]> (delete temp fs) !! p = if decide (p = path) then Some new else fs !! p.
Proof.
  intros Hp. destruct (decide (p = path)) as [->|Hn]; [by rewrite lookup_insert_eq|].
  by rewrite lookup_insert_ne, lookup_delete_ne by congruence.
Qed.

(** C26. Appending, removing and editing are atomic whatever the system calls
    do and wherever the steps are cut: a failure leaves every playlist as it
    was, a success replaces the one playlist by its complete new text, and in
    between it is one or the other. *)
Theorem playlist_rewrites_atomic io fs path song from to :
  let old := default [] (fs !! path) in
  let dir := dir_of path PATH_MAX in
  crash_safe fs (temp_template dir io) path (appended old dir song)
    (playlist_files_append io fs path song) /\
  crash_safe fs (tmp_name path) path (removed old path song)
    (playlist_files_remove io fs path song) /\
  crash_safe fs (temp_template dir io) path (edited old from to)
    (playlist_files_edit_entry io fs path from to).
Proof.
  intros old dir. split; [|split].
  - destruct (playlist_files_append io fs path song) as [ok ops] eqn:E.
    apply append_outcome in E as [Hr Ha]. split; [|done]. intros p Hp. cbn [fst snd]. rewrite Hr.
    destruct ok; [|done]. destruct (decide (p = path)) as [->|]; [by rewrite lookup_insert_eq|].
    by rewrite lookup_insert_ne by congruence.
  - destruct (playlist_files_remove io fs path song) as [ok ops] eqn:E.
    apply remove_outcome in E as [Hr Ha]. split; [|done]. intros p Hp. cbn [fst snd].
    destruct Hr as [-> | [-> ->]]; [|done].
    destruct ok; [by apply lookup_published|by rewrite lookup_delete_ne by congruence].
  - destruct (playlist_files_edit_entry io fs path from to) as [ok ops] eqn:E.
    apply edit_outcome in E as (Hr & Ha & _). split; [|done]. intros p Hp. cbn [fst snd]. rewrite Hr.
    destruct ok; [|done]. destruct (decide (p = path)) as [->|]; [by rewrite lookup_insert_eq|].
    by rewrite lookup_insert_ne by congruence.
Qed.

(** The migration, by contrast, ignores its writes: when the card is full it
    reports success and puts a truncated file in the playlist's place. *)
Definition full_disk : io_env :=
  {| io_open := true; io_read_stop := None; io_suffix := bs "AAAAAA"; io_mkstemp := true;
     io_fdopen := true; io_create := true; io_write := false; io_partial := 0; io_sync := false;
     io_fclose := false; io_rename := true; io_alloc := fun _ => true |}.
Lemma migrate_one_file_truncates :
  let fs := <[bs "/m/P/a.m3u" := bs "/m/x.flac"]> ∅ in
  let '(ok, ops) := migrate_one_file full_disk fs (bs "/m/P/a.m3u") in
  ok = true /\ run ops fs !! bs "/m/P/a.m3u" = Some [].
Proof. vm_compute. by split. Qed.
