(* ===== verification/PlaylistEntries.v ===== *)
(** The entries of a playlist file: what readers see of the text that the
    operations of PlaylistFiles write. *)
From stdpp Require Import gmap.
From S2P Require Import Prelude Endian PlaylistPaths PlaylistFiles PlaylistAtomic.
Local Open Scope Z_scope.

(** ** Lines *)

(** A line with its newline, which is its only one. *)
Definition whole_line (l : list Z) : Prop := exists t, l = t ++ [10] /\ 10 ∉ t.

Lemma getlines_open cur s : 10 ∉ s -> getlines cur s = emit (cur ++ s).
Proof.
  revert cur; induction s as [|c s IH]; intros cur H; cbn [getlines]; [by rewrite app_nil_r|].
  apply not_elem_of_cons in H as [Hc H]. rewrite (proj2 (Z.eqb_neq _ _)) by congruence.
  rewrite IH by done. by rewrite <- app_assoc.
Qed.
Lemma getlines_line cur t s : 10 ∉ t -> getlines cur (t ++ 10 :: s) = (cur ++ t ++ [10]) :: getlines [] s.
Proof.
  revert cur; induction t as [|c t IH]; intros cur H; [done|]. apply not_elem_of_cons in H as [Hc H].
  cbn [app getlines]. rewrite (proj2 (Z.eqb_neq _ _)) by congruence.
  rewrite IH by done. by rewrite <- app_assoc.
Qed.
Lemma getlines_lines lines s :
  Forall whole_line lines -> getlines [] (concat lines ++ s) = lines ++ getlines [] s.
Proof.
  induction 1 as [|l lines (t & -> & Ht) _ IH]; [done|]. cbn [concat app].
  rewrite <- !app_assoc. change ([10] ++ ?x) with (10 :: x). by rewrite getlines_line, IH.
Qed.

(** Every text is whole lines and a possibly empty rest without a newline. *)
Lemma text_lines s : exists lines rest,
  s = concat lines ++ rest /\ Forall whole_line lines /\ (10 ∉ rest) /\
  getlines [] s = lines ++ emit rest.
Proof.
  enough (forall s cur, 10 ∉ cur -> exists lines rest, cur ++ s = concat lines ++ rest /\
    Forall whole_line lines /\ 10 ∉ rest) as H.
  { destruct (H s []) as (lines & rest & Hs & Hl & Hr); [apply not_elem_of_nil|].
    cbn [app] in Hs. subst s. exists lines, rest. repeat split; [done..|].
    rewrite getlines_lines by done. by rewrite getlines_open. }
  clear s. induction s as [|c s IH]; intros cur Hc.
  - exists [], cur. rewrite app_nil_r. repeat split; [constructor|done].
  - destruct (decide (c = 10)) as [->|Hn].
    + destruct (IH []) as (lines & rest & Hs & Hl & Hr); [apply not_elem_of_nil|].
      cbn [app] in Hs. exists ((cur ++ [10]) :: lines), rest. cbn [concat].
      rewrite <- !app_assoc, <- Hs. repeat split; [|done]. constructor; [|done]. by exists cur.
    + destruct (IH (cur ++ [c])) as (lines & rest & Hs & Hl & Hr).
      * rewrite not_elem_of_app, not_elem_of_cons. repeat split; [done|congruence|apply not_elem_of_nil].
      * exists lines, rest. rewrite <- app_assoc in Hs. by repeat split.
Qed.

(** ** Entries *)
Definition is_entry (e : list Z) : bool :=
  match e with [] => false | c :: _ => negb (c =? 35) end.
Definition without_bom (lines : list (list Z)) : list (list Z) :=
  match lines with [] => [] | l :: ls => drop (library_utf8_bom_skip l) l :: ls end.
(** The lines of a file that name a song, in order. *)
Definition entries (lines : list (list Z)) : list (list Z) :=
  List.filter is_entry (map library_trim_eol (without_bom lines)).

(** The reader accepts a line without NULs, and an entry that fits. *)
Definition no_nul (l : list Z) : Prop := cstr l = l.
Definition fits (path entry : list Z) : Prop :=
  (length entry + (if is_absolute entry then 0 else length (dir_of path PATH_MAX) + 1) < PATH_MAX)%nat.
Definition resolve (path entry : list Z) : list Z := playlist_files_resolve_path path entry PATH_MAX.

Lemma length_cstr_le l : (length (cstr l) <= length l)%nat.
Proof. induction l as [|b l IH]; simpl; [done|]. destruct (b =? 0); simpl; lia. Qed.
Lemma no_nul_length l : length l = length (cstr l) <-> no_nul l.
Proof.
  unfold no_nul. split; [|by intros ->]. induction l as [|b l IH]; simpl; [done|].
  destruct (b =? 0); simpl; [lia|]. intros [=H]. by rewrite IH.
Qed.
Lemma no_nul_elem l : no_nul l <-> 0 ∉ l.
Proof.
  unfold no_nul. induction l as [|b l IH]; simpl; [split; [intros _; apply not_elem_of_nil|done]|].
  rewrite not_elem_of_cons, <- IH. destruct (b =? 0) eqn:E; bool_prop.
  - split; [done|]. intros [? _]. congruence.
  - split; [by intros [=H]; split; [congruence|]|]. intros [_ ->]. done.
Qed.

Definition no_fail (alloc : nat -> bool) : Prop := forall i, alloc i = true.
(** The reader's loop, when memory does not fail: it returns the entries,
    resolved, and it accepts every line. *)
Lemma read_loop_sound alloc path lines first capacity paths l :
  let es := List.filter is_entry (map library_trim_eol (if first : bool then without_bom lines else lines)) in
  read_loop alloc path lines first capacity paths = (PLAYLIST_READ_OK, l) ->
  l = paths ++ map (resolve path) es /\ Forall no_nul lines /\ Forall (fits path) es.
Proof.
  revert first capacity paths. induction lines as [|line lines IH]; intros first capacity paths es.
  - unfold es. intros [=<-]. destruct first; cbn; rewrite app_nil_r; repeat split; constructor.
  - cbn [read_loop]. destruct (Nat.eqb_spec (length line) (length (cstr line))) as [Hn|]; [|done].
    apply no_nul_length in Hn. cbn [negb].
    set (text := if first then drop (library_utf8_bom_skip line) line else line).
    assert (es = List.filter is_entry (library_trim_eol text :: map library_trim_eol lines)) as He
      by (unfold es, text; by destruct first).
    clearbody es. cbn [List.filter] in He. specialize (IH false). rewrite Forall_cons_iff.
    destruct (library_trim_eol text) as [|c e]; [|destruct (c =? 35) eqn:Ec];
      unfold is_entry at 1 in He; try rewrite Ec in He; cbn [negb] in He; subst es.
    1, 2: intros H; apply IH in H; tauto.
    destruct (PATH_MAX <=? _)%nat eqn:Hf; [done|]. apply Nat.leb_gt in Hf.
    destruct (_ && _); [done|]. destruct (alloc _); [|done]. intros H. apply IH in H as (-> & H1 & H2).
    rewrite <- app_assoc. repeat split; [done..|]. by constructor.
Qed.
Lemma read_loop_complete alloc path lines first capacity paths :
  no_fail alloc ->
  let es := List.filter is_entry (map library_trim_eol (if first : bool then without_bom lines else lines)) in
  Z.of_nat (length paths + length es) <= 1073741824 ->
  Forall no_nul lines -> Forall (fits path) es ->
  read_loop alloc path lines first capacity paths = (PLAYLIST_READ_OK, paths ++ map (resolve path) es).
Proof.
  intros Ha. revert first capacity paths. induction lines as [|line lines IH]; intros first capacity paths es.
  - unfold es. destruct first; cbn; by rewrite app_nil_r.
  - intros Hc [Hn Hl]%Forall_cons_iff Hf. cbn [read_loop].
    rewrite (proj2 (Nat.eqb_eq _ _)) by (by apply no_nul_length). cbn [negb].
    set (text := if first then drop (library_utf8_bom_skip line) line else line).
    assert (es = List.filter is_entry (library_trim_eol text :: map library_trim_eol lines)) as He
      by (unfold es, text; by destruct first).
    clearbody es. cbn [List.filter] in He. specialize (IH false).
    destruct (library_trim_eol text) as [|c e]; [|destruct (c =? 35) eqn:Ec];
      unfold is_entry at 1 in He; try rewrite Ec in He; cbn [negb] in He; subst es.
    1, 2: by apply IH.
    apply Forall_cons_iff in Hf as [Hf Hfs]. unfold fits in Hf. cbn [length] in Hc.
    rewrite (proj2 (Nat.leb_gt _ _)) by done.
    destruct (_ && _) eqn:Ecap.
    { bool_prop. unfold INT_MAX in *. change (2147483647 / 2) with 1073741823 in *. lia. }
    rewrite Ha. rewrite IH; [by rewrite <- app_assoc| |done|done].
    rewrite length_app. cbn [length]. lia.
Qed.

(** A reader whose system calls and allocations succeed. *)
Definition good_reader (r : io_env) : Prop :=
  io_open r = true /\ io_read_stop r = None /\ no_fail (io_alloc r).
Definition accepted (path : list Z) (lines : list (list Z)) : Prop :=
  Forall no_nul lines /\ Forall (fits path) (entries lines).

Lemma no_nul_nil : no_nul [].
Proof. done. Qed.

Lemma read_loop_not_empty alloc path lines first capacity paths :
  (read_loop alloc path lines first capacity paths).1 <> PLAYLIST_READ_EMPTY.
Proof.
  revert first capacity paths; induction lines as [|line lines IH]; intros; cbn [read_loop]; [done|].
  repeat match goal with |- context [if ?c then _ else _] => destruct c; try done; try apply IH end.
Qed.

Lemma read_sound r fs path content ps :
  good_reader r -> fs !! path = Some content -> playlist_files_read r fs path = Some ps ->
  ps = map (resolve path) (entries (getlines [] content)) /\ accepted path (getlines [] content).
Proof.
  intros (Ho & Hs & _) Hp. unfold playlist_files_read, playlist_files_read_ex, accepted.
  rewrite Hp, Ho. unfold stream, ferror. rewrite Hs. cbn [negb].
  pose proof (read_loop_sound (io_alloc r) path (getlines [] content) true 0 []) as H.
  pose proof (read_loop_not_empty (io_alloc r) path (getlines [] content) true 0 []) as He.
  destruct (read_loop _ _ _ _ _ _) as [st l]. intros Hr.
  assert (st = PLAYLIST_READ_OK /\ l = ps) as [-> ->].
  { destruct st; try done. split; [done|]. destruct l; by apply (inj Some) in Hr. }
  by apply H.
Qed.
Lemma read_complete r fs path content :
  good_reader r -> fs !! path = Some content ->
  Z.of_nat (length (entries (getlines [] content))) <= 1073741824 ->
  accepted path (getlines [] content) ->
  playlist_files_read r fs path = Some (map (resolve path) (entries (getlines [] content))).
Proof.
  intros (Ho & Hs & Ha) Hp Hl [H1 H2]. unfold playlist_files_read, playlist_files_read_ex.
  rewrite Hp, Ho. unfold stream, ferror. rewrite Hs. cbn [negb].
  rewrite (read_loop_complete _ _ _ true) by done. by destruct (map _ _).
Qed.

(** ** Appending *)
Lemma Forall_emit (P : list Z -> Prop) s : P s -> Forall P (emit s).
Proof. destruct s; intros; repeat constructor; done. Qed.
Lemma has_false c s : has c s = false <-> c ∉ s.
Proof. unfold has. rewrite <- strchr_None. by destruct (strchr c s). Qed.

Lemma playlist_entries_app a b : a <> [] ->
  entries (a ++ b) = entries a ++ List.filter is_entry (map library_trim_eol b).
Proof.
  intros H. destruct a as [|l ls]; [done|]. unfold entries. cbn [app without_bom].
  by rewrite app_comm_cons, map_app, List.filter_app.
Qed.

Lemma add_line_lines old e :
  10 ∉ e ->
  exists lines rest, old = concat lines ++ rest /\ Forall whole_line lines /\ (10 ∉ rest) /\
    getlines [] old = lines ++ emit rest /\
    getlines [] (add_line old e) =
      lines ++ match rest with [] => [] | _ => [rest ++ [10]] end ++ [e ++ [10]].
Proof.
  intros He. destruct (text_lines old) as (lines & rest & Ho & Hl & Hr & Hg).
  exists lines, rest. split; [done|]. split; [done|]. split; [done|]. split; [done|].
  unfold add_line.
  assert (getlines [] (e ++ [10]) = [e ++ [10]]) as Hge by (by apply (getlines_line [] e [])).
  destruct rest as [|c rest'] eqn:Er.
  - rewrite app_nil_r in Ho. cbn [app].
    replace (match list.last old with Some c => if c =? 10 then [] else [10] | None => [] end)
      with (@nil Z).
    + cbn [app]. rewrite Ho. by rewrite getlines_lines, Hge.
    + rewrite Ho. destruct lines as [|l lines' _] using rev_ind; [done|].
      apply list.Forall_app in Hl as [_ Hl]. inversion Hl as [|? ? (t & -> & _)]; subst.
      rewrite concat_app. cbn [concat]. by rewrite app_nil_r, (app_assoc (concat lines')), last_snoc.
  - rewrite <- Er in *. assert (rest <> []) as Hne by (by rewrite Er). clear Er.
    destruct (exists_last Hne) as (r & x & ->). assert (x <> 10) as Hx.
    { intros ->. destruct Hr. rewrite elem_of_app, elem_of_cons. tauto. }
    replace (list.last old) with (Some x) by (by rewrite Ho, app_assoc, last_snoc).
    rewrite (proj2 (Z.eqb_neq x 10)) by done.
    rewrite Ho, <- (app_assoc (concat lines)), getlines_lines by done. f_equal.
    change ([10] ++ e ++ [10]) with (10 :: e ++ [10]). rewrite getlines_line by done.
    by rewrite Hge.
Qed.

Lemma entry_up_spec rest :
  is_entry (library_trim_eol (bs "../" ++ rest)) = true /\
  library_utf8_bom_skip (bs "../" ++ rest) = 0%nat.
Proof.
  split; [|done]. destruct (trim_eol_cons 46 (46 :: 47 :: rest)) as [t Ht]; [done|].
  change (bs "../" ++ rest) with (46 :: 46 :: 47 :: rest). by rewrite Ht.
Qed.

Lemma trim_newline l : library_trim_eol (l ++ [10]) = library_trim_eol l.
Proof. by apply trim_eol_snoc_eol. Qed.
Lemma bom_skip_app l c : l <> [] -> c <> 187 -> c <> 191 ->
  library_utf8_bom_skip (l ++ [c]) = library_utf8_bom_skip l.
Proof.
  intros Hn H1 H2. unfold library_utf8_bom_skip.
  destruct l as [|a [|b [|d l]]]; [done|..]; cbn [app starts_with];
    rewrite ?(proj2 (Z.eqb_neq 187 c)), ?(proj2 (Z.eqb_neq 191 c)) by congruence;
    rewrite ?andb_false_r; done.
Qed.
Lemma bom_skip_le l : (library_utf8_bom_skip l <= length l)%nat.
Proof.
  unfold library_utf8_bom_skip. destruct (starts_with _ l) eqn:E; [|lia].
  apply starts_with_spec in E as [t ->]. cbn. lia.
Qed.
(** Completing the last line of a text with its newline changes no entry. *)
Lemma entries_complete lines rest :
  entries (lines ++ emit rest) = entries (lines ++ match rest with [] => [] | _ => [rest ++ [10]] end).
Proof.
  destruct rest as [|c rest]; [done|]. set (l := c :: rest). destruct lines as [|l0 lines].
  - cbn [app emit]. unfold entries. cbn [without_bom map]. rewrite bom_skip_app by done.
    rewrite drop_app_le by apply bom_skip_le. by rewrite trim_newline.
  - rewrite !playlist_entries_app by done. subst l. cbn [emit map]. by rewrite trim_newline.
Qed.

Lemma elem_not_nil {A} (x : A) l : x ∈ l -> l <> [].
Proof. by intros H ->; apply elem_of_nil in H. Qed.
Lemma no_nul_app a b : no_nul (a ++ b) <-> no_nul a /\ no_nul b.
Proof. rewrite !no_nul_elem, not_elem_of_app. done. Qed.
Lemma Forall_no_nul_emit rest : Forall no_nul (emit rest) -> no_nul rest.
Proof. destruct rest; [done|]. by inversion 1. Qed.

(** What the reader makes of a file with one more line at its end. *)
Lemma accepted_add_line path old e :
  10 ∉ e -> no_nul e -> is_entry (library_trim_eol e) = true ->
  library_utf8_bom_skip e = 0%nat -> library_trim_eol e = e ->
  fits path e -> accepted path (getlines [] old) ->
  entries (getlines [] (add_line old e)) = entries (getlines [] old) ++ [e] /\
  accepted path (getlines [] (add_line old e)).
Proof.
  intros He Hn Hi Hb Ht Hf [Ha1 Ha2].
  destruct (add_line_lines old e He) as (lines & rest & Ho & Hl & Hr & Hg & ->).
  rewrite Hg in *. set (last := match rest with [] => [] | _ => _ end).
  assert (entries (lines ++ last ++ [e ++ [10]]) = entries (lines ++ emit rest) ++ [e]) as Hent.
  { rewrite entries_complete. fold last. rewrite app_assoc.
    destruct (lines ++ last) as [|l0 ls]; [|rewrite playlist_entries_app by done].
    - cbn [app]. unfold entries. cbn [without_bom map]. rewrite bom_skip_app, Hb; [|by intros ->|done|done].
      rewrite drop_0. cbn [List.filter map]. by rewrite trim_newline, Hi, Ht.
    - f_equal. cbn [map List.filter]. by rewrite trim_newline, Hi, Ht. }
  split; [done|]. split; [|rewrite Hent].
  - apply list.Forall_app in Ha1 as [H1 H2]. apply list.Forall_app. split; [done|].
    apply list.Forall_app. split; [|constructor; [by apply no_nul_app|constructor]].
    unfold last. destruct rest as [|c rest]; [constructor|]. constructor; [|constructor].
    apply no_nul_app. split; [by inversion H2|done].
  - apply list.Forall_app. split; [done|]. by constructor.
Qed.

Lemma trim_no_eol e : 10 ∉ e -> 13 ∉ e -> library_trim_eol e = e.
Proof.
  intros H1 H2. destruct e as [|x e _] using rev_ind; [done|]. apply trim_eol_snoc.
  rewrite not_elem_of_app, list_elem_of_singleton in H1, H2. unfold is_eol.
  destruct H1 as [_ H1], H2 as [_ H2].
  by rewrite (proj2 (Z.eqb_neq x 10)), (proj2 (Z.eqb_neq x 13)) by congruence.
Qed.

Lemma append_true io fs path song ops :
  playlist_files_append io fs path song = (true, ops) -> song <> [] /\ (10 ∉ song) /\ (13 ∉ song).
Proof.
  unfold playlist_files_append. destruct (negb _ || _ || _) eqn:E; [done|]. intros _. bool_prop.
  match goal with H1 : has 10 _ = false, H2 : has 13 _ = false |- _ =>
    apply has_false in H1; apply has_false in H2 end.
  split; [|done]. by intros ->.
Qed.

Definition working : io_env :=
  {| io_open := true; io_read_stop := None; io_suffix := bs "Xk3pQz"; io_mkstemp := true;
     io_fdopen := true; io_create := true; io_write := true; io_partial := 0; io_sync := true;
     io_fclose := true; io_rename := true; io_alloc := fun _ => true |}.
