(* ===== verification/PlaylistEdit.v ===== *)
(** Editing a playlist: moving or deleting the entry at an offset does that to
    the songs the reader returns, and removing a song removes exactly it. *)
From stdpp Require Import gmap.
From S2P Require Import Prelude Endian PlaylistPaths PlaylistFiles PlaylistAtomic PlaylistEntries.
Local Open Scope Z_scope.

(** ** Grouping the lines into blocks *)

(** A line the editor and the readers agree on: only a blank line starts with
    an end of line, and a byte-order mark opens the file only. *)
Definition regular (t : list Z) : Prop :=
  (forall c u, t = c :: u -> is_eol c = true -> library_trim_eol t = []) /\
  library_utf8_bom_skip t = 0%nat.

Definition group_step (g : list (list (list Z)) * list (list Z)) (t : list Z) :=
  if starts_with EXTM3U t then g
  else if is_comment t then (g.1, g.2 ++ [t]) else (g.1 ++ [g.2 ++ [t]], []).
Definition group (lines : list (list Z)) : list (list (list Z)) * list (list Z) :=
  fold_left group_step lines ([], []).
Definition state_of (b : bool) (g : list (list (list Z)) * list (list Z)) : edit_state :=
  {| blocks := map (@concat Z) g.1; pending := concat g.2; bom := b |}.

Lemma concat_snoc (l : list (list Z)) t : concat (l ++ [t]) = concat l ++ t.
Proof. rewrite concat_app. cbn [concat]. by rewrite app_nil_r. Qed.

Lemma group_step_state b g t :
  {| blocks := blocks (state_of b (group_step g t)); pending := pending (state_of b (group_step g t)); bom := b |} =
  let st := state_of b g in
  if starts_with EXTM3U t then st
  else if is_comment t then {| blocks := blocks st; pending := pending st ++ t; bom := bom st |}
  else {| blocks := blocks st ++ [pending st ++ t]; pending := []; bom := bom st |}.
Proof.
  unfold group_step. destruct (starts_with EXTM3U t); [done|]. destruct (is_comment t); unfold state_of; cbn.
  - by rewrite concat_snoc.
  - by rewrite map_app; cbn; rewrite concat_snoc.
Qed.

Lemma bom_skip_cases t : library_utf8_bom_skip t = 0%nat \/ library_utf8_bom_skip t = 3%nat.
Proof. unfold library_utf8_bom_skip. destruct (starts_with _ t); auto. Qed.

Lemma edit_line_group b g t : no_nul t -> library_utf8_bom_skip t = 0%nat ->
  edit_line (state_of b g) t = state_of b (group_step g t).
Proof.
  intros Hn Hb. unfold edit_line. rewrite Hn, Hb. cbn [Nat.eqb]. rewrite andb_false_r, orb_false_r.
  transitivity {| blocks := blocks (state_of b (group_step g t));
                  pending := pending (state_of b (group_step g t)); bom := b |}; [|done].
  rewrite group_step_state. unfold state_of. cbn [blocks pending bom]. done.
Qed.
Lemma edit_first_line t : no_nul t ->
  edit_line (state_of false ([], [])) t =
    state_of (library_utf8_bom_skip t =? 3)%nat (group_step ([], []) (drop (library_utf8_bom_skip t) t)).
Proof.
  intros Hn. unfold edit_line. rewrite Hn. cbn [state_of blocks pending map concat length fst snd].
  rewrite !Nat.eqb_refl. cbn [andb].
  set (b := (library_utf8_bom_skip t =? 3)%nat).
  transitivity {| blocks := blocks (state_of b (group_step ([], []) (drop (library_utf8_bom_skip t) t)));
     pending := pending (state_of b (group_step ([], []) (drop (library_utf8_bom_skip t) t))); bom := b |}; [|done].
  rewrite group_step_state. unfold b. by destruct (bom_skip_cases t) as [-> | ->].
Qed.

Lemma edit_lines_group b g lines :
  Forall no_nul lines -> Forall regular lines ->
  fold_left edit_line lines (state_of b g) = state_of b (fold_left group_step lines g).
Proof.
  intros Hn. revert g; induction Hn as [|t lines Ht _ IH]; intros g Hr; [done|].
  apply Forall_cons_iff in Hr as [[_ Hb] Hr]. cbn [fold_left]. rewrite edit_line_group by done. by apply IH.
Qed.
(** The editor's state after the file is the grouping of its lines. *)
Lemma edit_parse_group content :
  let lines := getlines [] content in
  Forall no_nul lines -> Forall regular (without_bom lines) ->
  exists b, edit_parse content = state_of b (group (without_bom lines)).
Proof.
  cbn zeta. unfold edit_parse, group. change {| blocks := []; pending := []; bom := false |} with (state_of false ([], [])).
  destruct (getlines [] content) as [|t lines]; [by exists false|]. cbn [without_bom fold_left].
  intros [Hn Hl]%Forall_cons_iff [_ Hr]%Forall_cons_iff. rewrite edit_first_line by done.
  eexists. by apply edit_lines_group.
Qed.

(** ** What the blocks hold *)
Definition silent (t : list Z) : Prop := is_entry (library_trim_eol t) = false.
Definition closed (t : list Z) : Prop := whole_line t \/ 10 ∉ t.

(** A block: lines without an entry, and then an entry. *)
Definition block_ok (b : list (list Z)) : Prop := exists cs e,
  b = cs ++ [e] /\ Forall whole_line cs /\ Forall silent cs /\ Forall no_nul b /\
  is_entry (library_trim_eol e) = true /\ closed e.
Definition block_entry (b : list (list Z)) : list Z := library_trim_eol (default [] (list.last b)).
(** The lines after the last block; only the last may lack its newline. *)
Definition pending_ok (p : list (list Z)) : Prop := exists cs rest,
  concat p = concat cs ++ rest /\ Forall whole_line cs /\ (10 ∉ rest) /\
  Forall silent cs /\ silent rest /\ Forall no_nul cs /\ no_nul rest.
Definition pending_whole (p : list (list Z)) : Prop :=
  Forall whole_line p /\ Forall silent p /\ Forall no_nul p.

Lemma comment_silent t : regular t -> is_comment t = true -> silent t.
Proof.
  intros [Hr _] Hc. unfold silent. destruct t as [|c u]; [done|]. cbn [is_comment] in Hc.
  destruct (is_eol c) eqn:E; [by rewrite (Hr c u)|].
  destruct (trim_eol_cons c u E) as [v ->]. unfold is_eol in E. cbn. bool_prop.
  rewrite negb_false_iff. apply Z.eqb_eq. lia.
Qed.
Lemma not_comment_entry t : is_comment t = false -> is_entry (library_trim_eol t) = true.
Proof.
  destruct t as [|c u]; [done|]. cbn [is_comment]. intros H.
  destruct (trim_eol_cons c u) as [v ->].
  - unfold is_eol. destruct (c =? 10), (c =? 13); rewrite ?orb_true_r in H; done.
  - cbn. by destruct (c =? 35).
Qed.
Lemma header_silent t : starts_with EXTM3U t = true -> silent t.
Proof.
  intros [u ->]%starts_with_spec. unfold silent.
  destruct (trim_eol_cons 35 (bs "EXTM3U" ++ u)) as [v Hv]; [done|].
  change (EXTM3U ++ u) with (35 :: bs "EXTM3U" ++ u). by rewrite Hv.
Qed.

Lemma entries_lines_silent ls : Forall silent ls -> List.filter is_entry (map library_trim_eol ls) = [].
Proof. unfold silent. induction 1 as [|t ls Ht _ IH]; [done|]. cbn [map List.filter]. by rewrite Ht. Qed.

Lemma block_entry_snoc cs e : block_entry (cs ++ [e]) = library_trim_eol e.
Proof. unfold block_entry. by rewrite last_snoc. Qed.

(** One line keeps the blocks, and adds its entry if it has one. *)
Lemma group_step_ok g t :
  Forall block_ok g.1 -> pending_whole g.2 -> regular t -> no_nul t -> closed t ->
  let g' := group_step g t in
  Forall block_ok g'.1 /\
  map block_entry g'.1 = map block_entry g.1 ++ List.filter is_entry (map library_trim_eol [t]) /\
  (whole_line t -> pending_whole g'.2) /\ pending_ok g'.2.
Proof.
  intros Hb (Hw & Hs & Hn) Hr Ht Hc. cbn [map List.filter]. unfold group_step.
  assert (pending_ok g.2) as Hp.
  { exists g.2, []. rewrite app_nil_r. repeat split; try done. apply not_elem_of_nil. }
  destruct (starts_with EXTM3U t) eqn:Eh.
  { pose proof (header_silent t Eh) as Hsil. unfold silent in Hsil. rewrite Hsil, app_nil_r.
    repeat split; done. }
  destruct (is_comment t) eqn:Ec; cbn [fst snd].
  - pose proof (comment_silent t Hr Ec) as Hsil. pose proof Hsil as Hsil'. unfold silent in Hsil'.
    rewrite Hsil', app_nil_r. split; [done|]. split; [done|]. split.
    + intros Hwt. repeat split; apply list.Forall_app; split; try done; by constructor.
    + destruct Hc as [Hc|Hc].
      * exists (g.2 ++ [t]), []. rewrite app_nil_r. repeat split;
          try (apply list.Forall_app; split; try done; by constructor); try done. apply not_elem_of_nil.
      * exists g.2, t. rewrite concat_snoc. by repeat split.
  - pose proof (not_comment_entry t Ec) as He. rewrite He, map_app. cbn [map]. rewrite block_entry_snoc.
    split; [|split; [done|split; [by repeat split; constructor|]]].
    + apply list.Forall_app. split; [done|]. constructor; [|constructor]. exists g.2, t.
      repeat split; try done. apply list.Forall_app. split; [done|by constructor].
    + exists [], []. repeat split; try constructor. apply not_elem_of_nil.
Qed.

Lemma whole_line_closed t : whole_line t -> closed t.
Proof. by left. Qed.
Lemma group_whole lines g :
  Forall whole_line lines -> Forall regular lines -> Forall no_nul lines ->
  Forall block_ok g.1 -> pending_whole g.2 ->
  let g' := fold_left group_step lines g in
  Forall block_ok g'.1 /\
  map block_entry g'.1 = map block_entry g.1 ++ List.filter is_entry (map library_trim_eol lines) /\
  pending_whole g'.2.
Proof.
  intros Hw. revert g; induction Hw as [|t lines Ht _ IH]; intros g Hr Hn Hb Hp;
    [by rewrite app_nil_r|].
  apply Forall_cons_iff in Hr as [Hrt Hr], Hn as [Hnt Hn]. cbn [fold_left].
  destruct (group_step_ok g t) as (H1 & H2 & H3 & _); try done; [by left|].
  destruct (IH (group_step g t)) as (H4 & H5 & H6); auto. split; [done|]. split; [|done].
  rewrite H5, H2, <- app_assoc. f_equal. change (t :: lines) with ([t] ++ lines).
  by rewrite map_app, List.filter_app.
Qed.

Lemma group_ok lines opt :
  Forall whole_line lines -> opt = [] \/ (exists t, opt = [t] /\ closed t) ->
  Forall regular (lines ++ opt) -> Forall no_nul (lines ++ opt) ->
  let g := group (lines ++ opt) in
  Forall block_ok g.1 /\ pending_ok g.2 /\
  map block_entry g.1 = List.filter is_entry (map library_trim_eol (lines ++ opt)).
Proof.
  intros Hw Ho [Hr Hr']%list.Forall_app [Hn Hn']%list.Forall_app. unfold group. cbn zeta.
  rewrite fold_left_app.
  destruct (group_whole lines ([], [])) as (H1 & H2 & H3); try done; try (by repeat split; constructor).
  set (g := fold_left group_step lines ([], [])) in *. destruct Ho as [-> | (t & -> & Hc)].
  - rewrite app_nil_r. cbn [fold_left]. split; [done|]. split; [|done].
    destruct H3 as (Hw' & Hs & Hn2). exists g.2, []. rewrite app_nil_r.
    repeat split; try done. apply not_elem_of_nil.
  - apply Forall_cons_iff in Hr' as [Hrt _], Hn' as [Hnt _]. cbn [fold_left].
    destruct (group_step_ok g t) as (H4 & H5 & _ & H6); try done. split; [done|]. split; [done|].
    rewrite H5, H2. cbn [map app fst]. by rewrite map_app, List.filter_app.
Qed.

Lemma drop_bom_app t : exists b, t = b ++ drop (library_utf8_bom_skip t) t /\ (10 ∉ b) /\
  (t <> [] -> list.last b <> Some 10).
Proof.
  exists (take (library_utf8_bom_skip t) t). rewrite take_drop. split; [done|].
  unfold library_utf8_bom_skip. destruct (starts_with _ t) eqn:E.
  - apply starts_with_spec in E as [u ->]. cbn. split; [|done].
    rewrite !not_elem_of_cons. repeat split; try done. apply not_elem_of_nil.
  - cbn. split; [apply not_elem_of_nil|done].
Qed.
Lemma drop_bom_whole t : whole_line t -> whole_line (drop (library_utf8_bom_skip t) t).
Proof.
  intros (u & Hu & H10). destruct (drop_bom_app t) as (b & Hb & Hb10 & Hlast).
  set (d := drop (library_utf8_bom_skip t) t) in *. clearbody d.
  destruct d as [|x d _] using rev_ind.
  - destruct Hlast; [intros ->; by destruct u|]. rewrite app_nil_r in Hb. rewrite <- Hb, Hu. apply last_snoc.
  - rewrite Hu, app_assoc in Hb. apply app_inj_tail in Hb as [-> <-].
    exists d. split; [done|]. intros ?. destruct H10. rewrite elem_of_app. by right.
Qed.
Lemma drop_bom_no_nul t : no_nul t -> no_nul (drop (library_utf8_bom_skip t) t).
Proof.
  destruct (drop_bom_app t) as (b & Hb & _). intros Hn. rewrite Hb in Hn.
  by apply no_nul_app in Hn as [_ ?].
Qed.
Lemma drop_bom_open t : 10 ∉ t -> 10 ∉ drop (library_utf8_bom_skip t) t.
Proof.
  destruct (drop_bom_app t) as (b & Hb & _). intros Hn Hin. destruct Hn. rewrite Hb, elem_of_app. by right.
Qed.

(** The lines of a text, without its mark: whole lines, and maybe one more. *)
Lemma without_bom_lines content :
  exists lines opt, without_bom (getlines [] content) = lines ++ opt /\
    Forall whole_line lines /\ (opt = [] \/ exists t, opt = [t] /\ closed t).
Proof.
  destruct (text_lines content) as (lines & rest & _ & Hl & Hr & ->).
  destruct Hl as [|t lines Ht Hl].
  - exists []. destruct rest as [|c rest]; [by exists []; repeat constructor|].
    eexists [_]. repeat split; [constructor|]. right. eexists. split; [done|].
    right. by apply (drop_bom_open (c :: rest)).
  - exists (drop (library_utf8_bom_skip t) t :: lines), (emit rest). cbn [app without_bom].
    split; [done|]. split; [constructor; [by apply drop_bom_whole|done]|].
    destruct rest as [|c rest]; [by left|]. right. eexists. split; [done|]. by right.
Qed.
Lemma without_bom_no_nul lines : Forall no_nul lines -> Forall no_nul (without_bom lines).
Proof. destruct 1; [constructor|]. constructor; [by apply drop_bom_no_nul|done]. Qed.

(** ** What is printed *)
Lemma block_text_lines b : block_ok b -> exists ls,
  block_text (concat b) = concat ls /\ Forall whole_line ls /\ Forall no_nul ls /\
  List.filter is_entry (map library_trim_eol ls) = [block_entry b].
Proof.
  intros (cs & e & -> & Hw & Hs & Hn & He & Hc). rewrite concat_snoc, block_entry_snoc.
  apply list.Forall_app in Hn as [Hn Hne]. apply Forall_cons_iff in Hne as [Hne _].
  assert (forall e', is_entry (library_trim_eol e') = true -> whole_line e' -> no_nul e' ->
    library_trim_eol e' = library_trim_eol e ->
    exists ls, concat cs ++ e' = concat ls /\ Forall whole_line ls /\ Forall no_nul ls /\
      List.filter is_entry (map library_trim_eol ls) = [library_trim_eol e]) as H.
  { intros e' H1 H2 H3 H4. exists (cs ++ [e']). rewrite concat_snoc. split; [done|].
    split; [by apply list.Forall_app; split; [|constructor]|].
    split; [by apply list.Forall_app; split; [|constructor]|].
    rewrite map_app, List.filter_app, entries_lines_silent by done.
    cbn [app map List.filter]. by rewrite H1, H4. }
  destruct e as [|x e _] using rev_ind; [done|]. unfold block_text.
  rewrite (app_assoc (concat cs)), last_snoc. destruct (x =? 10) eqn:Ex; rewrite <- app_assoc.
  - apply H; try done. bool_prop. subst x. destruct Hc as [Hc|Hc]; [done|].
    destruct Hc. rewrite elem_of_app. right. by apply elem_of_cons; left.
  - rewrite <- app_assoc, (app_assoc e). apply H; [by rewrite trim_newline| | |by rewrite trim_newline].
    + destruct Hc as [(u & [-> ->]%app_inj_tail & _)|Hc]; [by rewrite Z.eqb_refl in Ex|]. by exists (e ++ [x]).
    + by apply no_nul_app.
Qed.

Lemma blocks_text_lines bs : Forall block_ok bs -> exists ls,
  concat (map block_text (map (@concat Z) bs)) = concat ls /\ Forall whole_line ls /\ Forall no_nul ls /\
  List.filter is_entry (map library_trim_eol ls) = map block_entry bs.
Proof.
  induction 1 as [|b bs Hb _ (ls & H1 & H2 & H3 & H4)]; [exists []; by repeat split|].
  destruct (block_text_lines b Hb) as (lb & H5 & H6 & H7 & H8). exists (lb ++ ls). cbn [map concat].
  rewrite concat_app, H1, H5. split; [done|]. rewrite map_app, List.filter_app, H4, H8.
  repeat split; by apply list.Forall_app.
Qed.

(** The printed text has the entries of its blocks, and no NUL. *)
Lemma edit_print_entries b bs p :
  Forall block_ok bs -> pending_ok p ->
  let lines := getlines [] (edit_print b (map (@concat Z) bs) (concat p)) in
  entries lines = map block_entry bs /\ Forall no_nul lines.
Proof.
  intros Hb (cs & rest & Hp & Hcw & Hr & Hcs & Hrs & Hcn & Hrn). unfold edit_print. rewrite Hp.
  destruct (blocks_text_lines bs Hb) as (ls & -> & Hw & Hn & He).
  set (hdr := (if b then utf8_bom else []) ++ EXTM3U).
  assert (whole_line (hdr ++ [10])) as Hh.
  { exists hdr. split; [done|]. apply strchr_None. by destruct b. }
  replace ((if b then utf8_bom else []) ++ EXTM3U ++ [10] ++ concat ls ++ concat cs ++ rest)
    with (concat ((hdr ++ [10]) :: ls ++ cs) ++ rest)
    by (cbn [concat]; rewrite concat_app; unfold hdr; by rewrite <- !app_assoc).
  rewrite getlines_lines by (constructor; [done|by apply list.Forall_app]).
  rewrite getlines_open by done. cbn [app]. split.
  - unfold entries. cbn [without_bom map List.filter].
    replace (is_entry _) with false by (by destruct b). rewrite !map_app, !List.filter_app, He.
    rewrite entries_lines_silent by done. rewrite entries_lines_silent; [by rewrite !app_nil_r|].
    by apply Forall_emit.
  - constructor; [by destruct b|]. repeat (apply list.Forall_app; split); try done. by apply Forall_emit.
Qed.

(** ** Moving *)
Lemma move_entry_map {A B} (f : A -> B) l from to :
  map f (move_entry l from to) = move_entry (map f l) from to.
Proof.
  unfold move_entry. rewrite lookup_map. destruct (l !! from); [|done]. cbn [fmap option_fmap option_map].
  by destruct (to <? 0);
    repeat (rewrite map_app || rewrite <- firstn_map || rewrite <- skipn_map || (progress (cbn [map]))).
Qed.
Lemma move_entry_Forall {A} (P : A -> Prop) l from to : Forall P l -> Forall P (move_entry l from to).
Proof.
  intros H. unfold move_entry. destruct (l !! from) as [x|] eqn:E; [|done].
  assert (P x) by (by eapply Forall_lookup_1). assert (Forall P (take from l ++ drop (S from) l)) as H'
    by (apply list.Forall_app; split; [by apply Forall_take|by apply Forall_drop]).
  destruct (to <? 0); [done|]. apply list.Forall_app. split; [by apply Forall_take|].
  constructor; [done|by apply Forall_drop].
Qed.
(** The entry ends up at offset [to], the others keep their order. *)
Lemma move_entry_spec {A} (l : list A) from to :
  (from < length l)%nat -> to < Z.of_nat (length l) ->
  (to < 0 -> move_entry l from to = delete from l) /\
  (0 <= to -> move_entry l from to !! Z.to_nat to = l !! from /\
              delete (Z.to_nat to) (move_entry l from to) = delete from l).
Proof.
  intros Hf Ht. unfold move_entry. destruct (lookup_lt_is_Some_2 l from Hf) as [x Hx]. rewrite Hx.
  rewrite <- delete_take_drop. split; intros H.
  - by rewrite (proj2 (Z.ltb_lt to 0)).
  - rewrite (proj2 (Z.ltb_ge to 0)) by done.
    assert (length (take (Z.to_nat to) (delete from l)) = Z.to_nat to) as Hlen.
    { rewrite length_take, length_delete by (by eexists). lia. }
    split; [by rewrite list_lookup_middle|]. rewrite delete_take_drop.
    rewrite take_app_length' by done. rewrite (cons_middle x), app_assoc, drop_app_length'.
    + apply take_drop.
    + rewrite length_app, Hlen. cbn [length]. lia.
Qed.


(** Moving down puts the entry after the one at offset [to], not before it. *)
Lemma edit_entry_down_lands_after :
  let path := bs "/P/x.m3u" in
  let fs := <[path := bs "a" ++ [10] ++ bs "b" ++ [10]]> ∅ in
  let '(ok, ops) := playlist_files_edit_entry working fs path 0 1 in
  ok = true /\ playlist_files_read working (run ops fs) path = Some [bs "/P/b"; bs "/P/a"].
Proof. vm_compute. by split. Qed.

(** ** Removing a song *)

(** The lines [fgets] and the trimming leave, blank ones apart. *)
Definition song_lines (content : list Z) : list (list Z) := List.filter nonempty (trimmed_lines content).
Definition kept_line (l : list Z) : Prop :=
  l <> [] /\ (length l < PATH_MAX)%nat /\ no_nul l /\ (10 ∉ l) /\ library_trim_eol l = l.

Lemma fgets_fuel size n content : (length content <= n)%nat -> (1 < size)%nat ->
  fgets_lines size n content = fgets_lines size (length content) content.
Proof.
  intros Hn Hs. revert content Hn. induction n as [n IH] using lt_wf_ind. intros content Hn.
  destruct content as [|c t]; [by destruct n|]. destruct n as [|n]; [cbn in Hn; lia|].
  cbn [fgets_lines length]. f_equal.
  set (m := Nat.min _ _). assert (1 <= m)%nat.
  { unfold m. destruct (strchr 10 (c :: t)); cbn [length]; lia. }
  assert (length (drop m (c :: t)) <= length t)%nat by (rewrite length_drop; cbn [length]; lia).
  cbn [length] in Hn. rewrite (IH n) by lia. symmetry. apply IH; lia.
Qed.
Lemma trimmed_unfold c t :
  let content := c :: t in
  let n := Nat.min match strchr 10 content with Some i => (i + 1)%nat | None => length content end (PATH_MAX - 1) in
  trimmed_lines content = library_trim_eol (cstr (take n content)) :: trimmed_lines (drop n content).
Proof.
  cbn zeta. unfold trimmed_lines. cbn [length fgets_lines map]. f_equal. f_equal.
  pose proof PATH_MAX_Z. apply fgets_fuel; [|lia].
  set (m := Nat.min _ _). assert (1 <= m)%nat.
  { unfold m. destruct (strchr 10 (c :: t)); cbn [length]; lia. }
  rewrite length_drop. cbn [length]. lia.
Qed.

Lemma strchr_line l rest : 10 ∉ l -> strchr 10 (l ++ 10 :: rest) = Some (length l).
Proof.
  intros H. apply strchr_Some. split.
  - by rewrite list_lookup_middle.
  - intros j Hj. rewrite lookup_app_l by done. intros E. destruct H.
    apply list_elem_of_lookup. by exists j.
Qed.

(** A kept line comes back, even when it fills the buffer. *)
Lemma song_lines_cons l rest :
  kept_line l -> song_lines (l ++ 10 :: rest) = l :: song_lines rest.
Proof.
  intros (Hn & Hl & H0 & H10 & Ht). pose proof PATH_MAX_Z as HP. unfold song_lines.
  destruct l as [|c t] eqn:El; [done|]. rewrite <- El in *. clear Hn.
  assert (nonempty l = true) as Hne by (by rewrite El).
  assert (trimmed_lines (l ++ 10 :: rest) =
    library_trim_eol (cstr (take (Nat.min (length l + 1) (PATH_MAX - 1)) (l ++ 10 :: rest))) ::
    trimmed_lines (drop (Nat.min (length l + 1) (PATH_MAX - 1)) (l ++ 10 :: rest))) as Hu.
  { rewrite El at 1. cbn [app]. rewrite trimmed_unfold. rewrite app_comm_cons, <- El.
    by rewrite strchr_line. }
  rewrite Hu. clear Hu. rewrite (cons_middle 10).
  destruct (decide (length l + 1 <= PATH_MAX - 1)%nat) as [Hs|Hs].
  - rewrite Nat.min_l by done. rewrite app_assoc, take_app_length', drop_app_length'
      by (rewrite length_app; cbn [length]; lia).
    assert (cstr (l ++ [10]) = l ++ [10]) as -> by (apply no_nul_app; split; [done|done]).
    rewrite trim_newline, Ht. cbn [List.filter]. by rewrite Hne.
  - rewrite Nat.min_r by lia. rewrite take_app_length', drop_app_length' by lia.
    rewrite H0, Ht. cbn [List.filter app]. rewrite Hne. reflexivity.
Qed.
Lemma song_lines_kept ls :
  Forall kept_line ls -> song_lines (concat (map (fun l => l ++ [10]) ls)) = ls.
Proof.
  induction 1 as [|l ls Hl _ IH]; [done|]. cbn [map concat]. rewrite <- app_assoc.
  change ([10] ++ ?x) with (10 :: x). by rewrite song_lines_cons, IH.
Qed.

Lemma trim_eol_prefix l : exists t, l = library_trim_eol l ++ t.
Proof.
  induction l as [|x l [t Ht] ] using rev_ind; [by exists []|]. destruct (is_eol x) eqn:E.
  - exists (t ++ [x]). rewrite trim_eol_snoc_eol by done. by rewrite app_assoc, <- Ht.
  - exists []. rewrite trim_eol_snoc by done. by rewrite app_nil_r.
Qed.
Lemma trim_eol_elem x l : x ∈ library_trim_eol l -> x ∈ l.
Proof. destruct (trim_eol_prefix l) as [t Ht]. intros H. rewrite Ht, elem_of_app. by left. Qed.
Lemma length_trim_eol l : (length (library_trim_eol l) <= length l)%nat.
Proof. destruct (trim_eol_prefix l) as [t Ht]. rewrite Ht at 2. rewrite length_app. lia. Qed.
Lemma no_nul_cstr l : no_nul (cstr l).
Proof. unfold no_nul. induction l as [|b l IH]; simpl; [done|]. destruct (b =? 0) eqn:E; simpl; [done|]. by rewrite E, IH. Qed.
Lemma cstr_elem x l : x ∈ cstr l -> x ∈ l.
Proof.
  induction l as [|b l IH]; simpl; [done|]. destruct (b =? 0); [by intros ?%elem_of_nil|].
  rewrite !elem_of_cons. tauto.
Qed.
Lemma cstr_snoc l c : cstr (l ++ [c]) = cstr l \/ cstr (l ++ [c]) = l ++ [c].
Proof.
  induction l as [|b l IH]; simpl; [destruct (c =? 0); auto|]. destruct (b =? 0); [by left|].
  destruct IH as [-> | ->]; auto.
Qed.

(** One chunk of [fgets], trimmed: it has no newline. *)
Lemma trimmed_chunk content n :
  (n <= match strchr 10 content with Some i => i + 1 | None => length content end)%nat ->
  10 ∉ library_trim_eol (cstr (take n content)).
Proof.
  intros Hn. assert (forall m, (match strchr 10 content with Some i => m <= i | None => True end)%nat -> 10 ∉ take m content) as Hfree.
  { intros m Hm (j & Hj)%list_elem_of_lookup. apply lookup_take_Some in Hj as [Hj Hjm].
    destruct (strchr 10 content) as [i|] eqn:E.
    - apply strchr_Some in E as [_ E]. apply (E j); [lia|done].
    - apply strchr_None in E. destruct E. apply list_elem_of_lookup. by exists j. }
  destruct (strchr 10 content) as [i|] eqn:E.
  - destruct (decide (n <= i)%nat) as [Hi|Hi].
    + intros H%trim_eol_elem%cstr_elem. by apply (Hfree n).
    + assert (n = S i) as -> by lia. apply strchr_Some in E as [Hc _].
      rewrite (take_S_r _ _ 10) by done. destruct (cstr_snoc (take i content) 10) as [-> | ->].
      * intros H%trim_eol_elem%cstr_elem. by apply (Hfree i).
      * rewrite trim_newline. intros H%trim_eol_elem. by apply (Hfree i).
  - intros H%trim_eol_elem%cstr_elem. by apply (Hfree n).
Qed.

Lemma trimmed_lines_kept content :
  Forall (fun l => l <> [] -> kept_line l) (trimmed_lines content).
Proof.
  unfold trimmed_lines. generalize (length content) as fuel. intros fuel. revert content.
  induction fuel as [|fuel IH]; intros content; [constructor|].
  destruct content as [|c t]; [constructor|]. cbn [fgets_lines map]. constructor; [|apply IH].
  set (n := Nat.min _ _). pose proof PATH_MAX_Z. intros Hne. repeat split.
  - done.
  - eapply Nat.le_lt_trans; [apply length_trim_eol|]. eapply Nat.le_lt_trans; [apply length_cstr_le|].
    rewrite length_take. unfold n. lia.
  - apply no_nul_elem. intros H0%trim_eol_elem. by apply (proj1 (no_nul_elem _) (no_nul_cstr _)) in H0.
  - apply trimmed_chunk. unfold n. lia.
  - apply trim_eol_idemp.
Qed.
Lemma song_lines_all_kept content : Forall kept_line (song_lines content).
Proof.
  unfold song_lines. induction (trimmed_lines_kept content) as [|l ls Hl _ IH]; [constructor|].
  cbn [List.filter]. destruct l; [done|]. constructor; [by apply Hl|done].
Qed.

Lemma filter_filter_andb {A} (f g : A -> bool) l :
  List.filter (fun x => f x && g x) l = List.filter g (List.filter f l).
Proof.
  induction l as [|x l IH]; [done|]. cbn [List.filter]. destruct (f x); cbn [List.filter andb]; [|done].
  destruct (g x); by rewrite IH.
Qed.
Lemma existsb_filter {A} (f g : A -> bool) l :
  existsb f (List.filter g l) = existsb (fun x => g x && f x) l.
Proof.
  induction l as [|x l IH]; [done|]. cbn [List.filter existsb]. destruct (g x); cbn [existsb andb orb];
    by rewrite IH.
Qed.
Lemma existsb_ext' {A} (f g : A -> bool) l : (forall x, f x = g x) -> existsb f l = existsb g l.
Proof. intros H. induction l as [|x l IH]; [done|]. cbn. by rewrite H, IH. Qed.

(** C29. Removing a song from a playlist drops every line that resolves to it
    and keeps the others in their order: afterwards the playlist contains
    exactly the songs it contained, without that one. *)
Theorem remove_exact io r fs path song ops content :
  fs !! path = Some content -> io_open r = true -> io_read_stop r = None ->
  playlist_files_remove io fs path song = (true, ops) ->
  (exists new, run ops fs !! path = Some new /\
     song_lines new = List.filter (fun l => negb (resolves_to path song l)) (song_lines content)) /\
  forall s, playlist_files_contains r (run ops fs) path s =
            playlist_files_contains r fs path s && negb (bytes_eqb s song).
Proof.
  intros Hp Ho Hs Hrm. apply remove_outcome in Hrm as [[Hrun|[? _]] _]; [|done].
  rewrite Hp in Hrun. change (default [] (Some content)) with content in Hrun.
  assert (run ops fs !! path = Some (removed content path song)) as Hnew
    by (rewrite Hrun; apply lookup_insert_eq).
  assert (song_lines (removed content path song) =
    List.filter (fun l => negb (resolves_to path song l)) (song_lines content)) as Hl.
  { unfold removed. rewrite filter_filter_andb. apply song_lines_kept.
    pose proof (song_lines_all_kept content) as Hk. fold (song_lines content).
    induction Hk as [|l ls Hl _ IH]; [constructor|]. cbn [List.filter].
    destruct (negb _); [by constructor|done]. }
  split; [by eexists|]. intros s. unfold playlist_files_contains, stream. rewrite Hnew, Hp, Ho, Hs.
  cbn [andb]. rewrite <- !existsb_filter. fold (song_lines content) (song_lines (removed content path song)).
  rewrite Hl, existsb_filter. clear. induction (song_lines content) as [|l ls IH]; [done|].
  cbn [existsb]. rewrite IH, andb_orb_distrib_l. f_equal. unfold resolves_to.
  destruct (bytes_eqb_spec (playlist_files_resolve_path path l PATH_MAX) s) as [->|];
    [|by rewrite andb_false_r].
  by rewrite andb_true_r.
Qed.
Lemma remove_exact_witness :
  let path := bs "/sd/P/x.m3u" in
  let fs := <[path := bs "../a.mp3" ++ [10] ++ bs "../b.mp3" ++ [10]]> ∅ in
  let r := playlist_files_remove working fs path (bs "/sd/a.mp3") in
  r.1 = true /\
  playlist_files_contains working (run r.2 fs) path (bs "/sd/b.mp3") = true /\
  playlist_files_contains working (run r.2 fs) path (bs "/sd/a.mp3") = false.
Proof.
  intros path fs r. assert (r = (true, r.2)) as E by (vm_compute; reflexivity).
  split; [by rewrite E|].
  destruct (remove_exact working working fs path (bs "/sd/a.mp3") r.2
              (bs "../a.mp3" ++ [10] ++ bs "../b.mp3" ++ [10])) as [_ H];
    [vm_compute; reflexivity|reflexivity|reflexivity|exact E|].
  split; rewrite H; vm_compute; reflexivity.
Defined.
