(* ===== verification/OggCrc.v ===== *)
(** The Ogg page checksum of src/audio/ogg_demux.c: the table-driven routine
    computes the bit-serial CRC of RFC 3533. *)
From S2P Require Import Prelude.
Local Open Scope Z_scope.

(** ** Operations *)
Definition OGG_POLY : Z := 0x04C11DB7.
(** One step of the loop over [j]. *)
Definition crc_round (r : Z) : Z :=
  if negb (Z.land r 0x80000000 =? 0) then Z.lxor (u32 (Z.shiftl r 1)) OGG_POLY
  else u32 (Z.shiftl r 1).
Definition ogg_crc_init_table : list Z :=
  map (fun i => Nat.iter 8 crc_round (u32 (Z.shiftl (Z.of_nat i) 24))) (seq 0 256).

(** One step of the loop of [ogg_crc32]; the table is read inside its bounds. *)
Definition crc_byte (table : list Z) (crc b : Z) : Z :=
  Z.lxor (u32 (Z.shiftl crc 8))
    (default 0 (table !! Z.to_nat (Z.lxor (Z.land (Z.shiftr crc 24) 255) b))).
Definition ogg_crc32 (table data : list Z) : Z := fold_left (crc_byte table) data 0.

(** ** The bit-serial specification *)

(** A 32-bit shift register over x^32 + OGG_POLY, fed most significant bit
    first, initially 0. *)
Definition crc_bit (crc : Z) (bit : bool) : Z :=
  Z.lxor (u32 (Z.shiftl crc 1)) (if xorb (Z.testbit crc 31) bit then OGG_POLY else 0).
Definition bits_of_byte (b : Z) : list bool := map (Z.testbit b) [7; 6; 5; 4; 3; 2; 1; 0].
Definition crc_serial (data : list Z) : Z := fold_left crc_bit (concat (map bits_of_byte data)) 0.

(** ** Bits *)
Lemma u32_spec z i : 0 <= i -> Z.testbit (u32 z) i = (i <? 32) && Z.testbit z i.
Proof.
  intros Hi. unfold u32. change 4294967296 with (2 ^ 32). destruct (Z.ltb_spec i 32).
  - by rewrite Z.mod_pow2_bits_low by lia.
  - by rewrite Z.mod_pow2_bits_high by lia.
Qed.
Lemma in_u32_high z i : in_u32 z -> 32 <= i -> Z.testbit z i = false.
Proof.
  intros Hz Hi. rewrite <- (u32_id z Hz), u32_spec by lia. by rewrite (proj2 (Z.ltb_ge i 32)) by lia.
Qed.
Lemma testbit_31 r : (Z.land r 0x80000000 =? 0) = negb (Z.testbit r 31).
Proof. by apply (land_bit r 31). Qed.

Lemma crc_round_bit r : crc_round r = crc_bit r false.
Proof.
  unfold crc_round, crc_bit. rewrite testbit_31, negb_involutive, xorb_false_r.
  destruct (Z.testbit r 31); [done|]. by rewrite Z.lxor_0_r.
Qed.
Lemma crc_bit_range r b : in_u32 (crc_bit r b).
Proof.
  unfold crc_bit. assert (in_u32 (if xorb (Z.testbit r 31) b then OGG_POLY else 0)) as H
    by (destruct (xorb _ _); unfold in_u32, OGG_POLY; lia).
  set (p := if xorb _ _ then _ else _) in *. clearbody p.
  enough (Z.lxor (u32 (Z.shiftl r 1)) p = u32 (Z.lxor (u32 (Z.shiftl r 1)) p)) as ->
    by apply u32_range.
  apply Z.bits_inj'. intros i Hi. rewrite (u32_spec _ i Hi), Z.lxor_spec, u32_spec by done.
  destruct (Z.ltb_spec i 32); [done|]. rewrite (in_u32_high p) by (done || lia). done.
Qed.

(** The register is linear in the bits that do not reach its top. *)
Lemma crc_bit_lxor a l b b' :
  Z.testbit l 31 = b' ->
  crc_bit (Z.lxor a l) b = Z.lxor (crc_bit a (xorb b' b)) (u32 (Z.shiftl l 1)).
Proof.
  intros Hl. unfold crc_bit. rewrite Z.lxor_spec, Hl, <- xorb_assoc.
  set (p := if xorb _ _ then _ else _). clearbody p.
  apply Z.bits_inj'. intros i Hi. rewrite !Z.lxor_spec, !u32_spec by done.
  rewrite !Z.shiftl_spec, Z.lxor_spec by done.
  destruct (i <? 32); cbn [andb]; destruct (Z.testbit a (i - 1)), (Z.testbit l (i - 1)), (Z.testbit p i); done.
Qed.

Lemma rounds_lxor n a l :
  (n <= 32)%nat -> 0 <= l < 2 ^ (32 - Z.of_nat n) ->
  Nat.iter n crc_round (Z.lxor a l) = Z.lxor (Nat.iter n crc_round a) (Z.shiftl l (Z.of_nat n)).
Proof.
  intros Hn Hl. induction n as [|n IH]; [by rewrite Z.shiftl_0_r|].
  assert (2 ^ (32 - Z.of_nat n) = 2 * 2 ^ (32 - Z.of_nat (S n))) as Hp.
  { rewrite <- Z.pow_succ_r by lia. f_equal. lia. }
  cbn [Nat.iter nat_rect]. unfold Nat.iter in IH. rewrite IH by lia. rewrite !crc_round_bit.
  assert (0 <= Z.shiftl l (Z.of_nat n) < 2 ^ 31) as Hs.
  { rewrite Z.shiftl_mul_pow2 by lia.
    replace (2 ^ 31) with (2 ^ (32 - Z.of_nat (S n)) * 2 ^ Z.of_nat n)
      by (rewrite <- Z.pow_add_r by lia; f_equal; lia).
    pose proof (Z.pow_pos_nonneg 2 (Z.of_nat n)). nia. }
  rewrite (crc_bit_lxor _ _ _ false); [|].
  - f_equal. rewrite Z.shiftl_shiftl by lia. replace (Z.of_nat n + 1) with (Z.of_nat (S n)) by lia.
    rewrite u32_id; [done|]. unfold in_u32. rewrite Nat2Z.inj_succ, <- Z.add_1_r, <- Z.shiftl_shiftl by lia.
    rewrite (Z.shiftl_mul_pow2 _ 1) by lia. change (2 ^ 1) with 2. change (2 ^ 31) with 2147483648 in Hs. lia.
  - rewrite <- (Z.mod_small _ (2 ^ 31) Hs). apply Z.mod_pow2_bits_high. lia.
Qed.

(** Feeding the bits of a byte is placing it at the top and shifting. *)
Lemma feed_byte crc b : is_byte b -> in_u32 crc ->
  fold_left crc_bit (bits_of_byte b) crc = Nat.iter 8 crc_round (Z.lxor crc (Z.shiftl b 24)).
Proof.
  intros Hb _. enough (forall n crc, (n <= 8)%nat ->
    fold_left crc_bit (map (fun i => Z.testbit b (Z.of_nat i)) (rev (seq 0 n))) crc =
    Nat.iter n crc_round (Z.lxor crc (Z.shiftl (b mod 2 ^ Z.of_nat n) (32 - Z.of_nat n)))) as H.
  { specialize (H 8%nat crc ltac:(lia)). change (2 ^ Z.of_nat 8) with 256 in H.
    rewrite Z.mod_small in H by done. exact H. }
  clear crc. induction n as [|n IH]; intros crc Hn.
  { change (b mod 2 ^ Z.of_nat 0) with (b mod 1). rewrite Z.mod_1_r. cbn [Nat.iter nat_rect seq rev map fold_left]. rewrite Z.shiftl_0_l. by rewrite Z.lxor_0_r. }
  rewrite seq_S, rev_unit. cbn [map fold_left Nat.add]. rewrite IH by lia.
  change (Nat.iter (S n) crc_round ?x) with (crc_round (Nat.iter n crc_round x)).
  rewrite <- Nat.iter_swap. f_equal. rewrite crc_round_bit.
  set (v := b mod 2 ^ Z.of_nat (S n)). set (t := Z.testbit b (Z.of_nat n)).
  rewrite (crc_bit_lxor _ _ _ t).
  - rewrite xorb_false_r. f_equal. apply Z.bits_inj'. intros i Hi.
    rewrite Z.shiftl_shiftl by lia. rewrite u32_spec, !Z.shiftl_spec by lia. unfold v.
    destruct (Z.ltb_spec i 32); cbn [andb].
    2: { destruct (Z.ltb_spec (i - (32 - Z.of_nat n)) 0); [lia|]. rewrite Z.mod_pow2_bits_high by lia. done. }
    replace (i - (32 - Z.of_nat (S n) + 1)) with (i - (32 - Z.of_nat n)) by lia.
    destruct (Z.ltb_spec (i - (32 - Z.of_nat n)) 0); [by rewrite !Z.testbit_neg_r by lia|].
    by rewrite !Z.mod_pow2_bits_low by lia.
  - rewrite Z.shiftl_spec by lia. unfold v. rewrite Z.mod_pow2_bits_low by lia. unfold t. f_equal. lia.
Qed.

Lemma table_lookup i : is_byte i ->
  ogg_crc_init_table !! Z.to_nat i = Some (Nat.iter 8 crc_round (Z.shiftl i 24)).
Proof.
  intros Hi. unfold is_byte in Hi. unfold ogg_crc_init_table.
  rewrite lookup_map, lookup_seq_lt by lia.
  cbn [fmap option_fmap option_map Nat.add]. f_equal. rewrite Z2Nat.id by lia. rewrite u32_id; [done|].
  unfold in_u32. rewrite Z.shiftl_mul_pow2 by lia. change (2 ^ 24) with 16777216. lia.
Qed.

Lemma lxor_byte a b : is_byte a -> is_byte b -> is_byte (Z.lxor a b).
Proof.
  intros Ha Hb. enough (Z.lxor a b = u8 (Z.lxor a b)) as -> by apply u8_range.
  rewrite <- (u8_id a Ha), <- (u8_id b Hb). apply Z.bits_inj'. intros i Hi. unfold u8.
  change 256 with (2 ^ 8). destruct (Z.ltb_spec i 8).
  - rewrite Z.mod_pow2_bits_low by lia. done.
  - rewrite Z.lxor_spec, !Z.mod_pow2_bits_high by lia. done.
Qed.

Lemma crc_byte_serial crc b : is_byte b -> in_u32 crc ->
  crc_byte ogg_crc_init_table crc b = fold_left crc_bit (bits_of_byte b) crc.
Proof.
  intros Hb Hc. rewrite feed_byte by done. unfold crc_byte.
  set (hi := Z.land (Z.shiftr crc 24) 255). set (low := crc mod 2 ^ 24).
  assert (hi = crc / 2 ^ 24) as Hhi.
  { unfold hi. change 255 with (Z.ones 8). rewrite Z.land_ones, Z.shiftr_div_pow2 by lia.
    apply Z.mod_small. unfold in_u32 in Hc. change (2 ^ 8) with 256. change (2 ^ 24) with 16777216. div_lia. }
  assert (is_byte hi) as Hhb.
  { rewrite Hhi. unfold is_byte, in_u32 in *. change (2 ^ 24) with 16777216. div_lia. }
  assert (0 <= low < 2 ^ 24) as Hl by (apply Z.mod_pos_bound; lia).
  assert (crc = Z.lxor (Z.shiftl hi 24) low) as Hcrc.
  { rewrite <- Z.add_nocarry_lxor by (apply land_shiftl_low; lia).
    rewrite Z.shiftl_mul_pow2, Hhi by lia. unfold low. pose proof (Z.div_mod crc (2 ^ 24)). lia. }
  rewrite table_lookup by (by apply lxor_byte). cbn [default from_option]. unfold id.
  replace (Z.lxor crc (Z.shiftl b 24)) with (Z.lxor (Z.shiftl (Z.lxor hi b) 24) low).
  2: { rewrite Z.shiftl_lxor, Hcrc at 1. rewrite !Z.lxor_assoc. f_equal. apply Z.lxor_comm. }
  rewrite rounds_lxor by (lia || done). rewrite Z.lxor_comm. f_equal.
  change (Z.of_nat 8) with 8. rewrite Hcrc. apply Z.bits_inj'. intros i Hi.
  rewrite u32_spec, !Z.shiftl_spec, Z.lxor_spec by done. destruct (Z.ltb_spec i 32); cbn [andb].
  - destruct (Z.ltb_spec (i - 8) 0); [by rewrite !Z.testbit_neg_r by lia|].
    rewrite Z.shiftl_spec by lia. by rewrite (Z.testbit_neg_r hi) by lia.
  - unfold low. by rewrite Z.mod_pow2_bits_high by lia.
Qed.

(** The table-driven [ogg_crc32] is the CRC of RFC 3533: polynomial
    0x04C11DB7, most significant bit first, initial value and final mask 0. *)
Theorem ogg_crc32_serial data :
  Forall is_byte data -> ogg_crc32 ogg_crc_init_table data = crc_serial data.
Proof.
  intros H. unfold ogg_crc32, crc_serial. assert (in_u32 0) as H0 by (unfold in_u32; lia).
  revert H0. generalize 0 as crc. induction H as [|b data Hb _ IH]; intros crc Hc; [done|].
  cbn [fold_left map concat]. rewrite fold_left_app, crc_byte_serial by done. apply IH.
  rewrite feed_byte by done. cbn [Nat.iter nat_rect]. rewrite crc_round_bit. apply crc_bit_range.
Qed.
Lemma ogg_crc32_serial_witness : ogg_crc32 ogg_crc_init_table (bs "OggS") = crc_serial (bs "OggS").
Proof. apply ogg_crc32_serial. apply bytes_b_true. reflexivity. Defined.
