(* ===== verification/Ogg.v ===== *)
(** The Ogg demuxer of src/audio/ogg_demux.c: pages and their checksum,
    segments, packets across pages, the OpusHead and OpusTags headers, the seek
    index. A file is the list of its bytes; [fread] is short at its end. *)
From S2P Require Import Prelude AudioHelpers OggCrc.
Local Open Scope Z_scope.

(** ** The state *)
Definition OGG_MAX_PAGE_SEGMENTS : nat := 255.
Definition OGG_MAX_HEADER_PACKET_SIZE : Z := 8 * 1024 * 1024.

(** [page_buf] holds the bytes written since its allocation. *)
Record ogg_demux := {
  serial_number : Z; channels : Z; pre_skip : Z; comments : list (list Z);
  page_index : list (Z * Z); total_granule : Z; page_buf : list Z;
  current_page_offset : Z; segment_table : list Z; segment_count : nat; segment_index : nat;
  payload_cursor : Z; header_type : Z; next_page_offset : Z }.

(** The zeroed struct of [calloc]. *)
Definition fresh_demux : ogg_demux :=
  {| serial_number := 0; channels := 0; pre_skip := 0; comments := []; page_index := [];
     total_granule := 0; page_buf := []; current_page_offset := 0;
     segment_table := replicate OGG_MAX_PAGE_SEGMENTS 0; segment_count := 0; segment_index := 0;
     payload_cursor := 0; header_type := 0; next_page_offset := 0 |}.

Definition with_page_buf (d : ogg_demux) (b : list Z) : ogg_demux :=
  {| serial_number := serial_number d; channels := channels d; pre_skip := pre_skip d;
     comments := comments d; page_index := page_index d; total_granule := total_granule d;
     page_buf := b; current_page_offset := current_page_offset d;
     segment_table := segment_table d; segment_count := segment_count d;
     segment_index := segment_index d; payload_cursor := payload_cursor d;
     header_type := header_type d; next_page_offset := next_page_offset d |}.
Definition with_page (d : ogg_demux) (b : list Z) (offset : Z) (table : list Z) (count : nat)
    (flags next : Z) : ogg_demux :=
  {| serial_number := serial_number d; channels := channels d; pre_skip := pre_skip d;
     comments := comments d; page_index := page_index d; total_granule := total_granule d;
     page_buf := b; current_page_offset := offset; segment_table := table;
     segment_count := count; segment_index := 0; payload_cursor := 0; header_type := flags;
     next_page_offset := next |}.
Definition with_cursor (d : ogg_demux) (count index : nat) (cursor next : Z) : ogg_demux :=
  {| serial_number := serial_number d; channels := channels d; pre_skip := pre_skip d;
     comments := comments d; page_index := page_index d; total_granule := total_granule d;
     page_buf := page_buf d; current_page_offset := current_page_offset d;
     segment_table := segment_table d; segment_count := count; segment_index := index;
     payload_cursor := cursor; header_type := header_type d; next_page_offset := next |}.
Definition with_headers (d : ogg_demux) (serial chans skip : Z) (tags : list (list Z)) : ogg_demux :=
  {| serial_number := serial; channels := chans; pre_skip := skip;
     comments := tags; page_index := page_index d; total_granule := total_granule d;
     page_buf := page_buf d; current_page_offset := current_page_offset d;
     segment_table := segment_table d; segment_count := segment_count d;
     segment_index := segment_index d; payload_cursor := payload_cursor d;
     header_type := header_type d; next_page_offset := next_page_offset d |}.
Definition with_index (d : ogg_demux) (index : list (Z * Z)) (total : Z) : ogg_demux :=
  {| serial_number := serial_number d; channels := channels d; pre_skip := pre_skip d;
     comments := comments d; page_index := index; total_granule := total;
     page_buf := page_buf d; current_page_offset := current_page_offset d;
     segment_table := segment_table d; segment_count := segment_count d;
     segment_index := segment_index d; payload_cursor := payload_cursor d;
     header_type := header_type d; next_page_offset := next_page_offset d |}.

(** ** Pages and segments *)

(** [fseek(f, offset)] and [fread] of [n] bytes; short at the end. *)
Definition fread (file : list Z) (offset : Z) (n : nat) : list Z :=
  take n (drop (Z.to_nat offset) file).
(** [memcpy] to the start of a buffer. *)
Definition overlay (new old : list Z) : list Z := new ++ drop (length new) old.
Definition sum_bytes (l : list Z) : Z := fold_right Z.add 0 l.
Definition capture : list Z := bs "OggS".

Definition load_page_at (file : list Z) (d : ogg_demux) (offset : Z) : bool * ogg_demux :=
  let hdr := fread file offset 27 in
  if negb (length hdr =? 27)%nat then (false, d) else
  if negb (starts_with capture hdr) || negb (default 1 (hdr !! 4%nat) =? 0) then (false, d) else
  let page_segments := Z.to_nat (default 0 (hdr !! 26%nat)) in
  let seg_table := fread file (offset + 27) page_segments in
  if negb (length seg_table =? page_segments)%nat then (false, d) else
  let payload_size := sum_bytes seg_table in
  let total_size := 27 + Z.of_nat page_segments + payload_size in
  let payload := fread file (offset + 27 + Z.of_nat page_segments) (Z.to_nat payload_size) in
  let page := hdr ++ seg_table ++ payload in
  let d := with_page_buf d (overlay page (page_buf d)) in
  if negb (length payload =? Z.to_nat payload_size)%nat then (false, d) else
  let saved_crc := take 4 (drop 22 page) in
  let computed := ogg_crc32 ogg_crc_init_table (take 22 page ++ [0; 0; 0; 0] ++ drop 26 page) in
  if negb (match audio_read_u32le saved_crc with Some v => computed =? v | None => false end)
  then (false, d) else
  (true, with_page d (page_buf d) offset (overlay seg_table (segment_table d)) page_segments
           (default 0 (hdr !! 5%nat)) (offset + total_size)).

(** The length of the next segment and its bytes. *)
Definition next_segment (file : list Z) (d : ogg_demux) : option (Z * list Z) * ogg_demux :=
  let '(ok, d) := if (segment_count d <=? segment_index d)%nat
                  then load_page_at file d (next_page_offset d) else (true, d) in
  if negb ok then (None, d) else
  let seg_len := default 0 (segment_table d !! segment_index d) in
  let seg_data := take (Z.to_nat seg_len)
                    (drop (27 + segment_count d + Z.to_nat (payload_cursor d)) (page_buf d)) in
  (Some (seg_len, seg_data),
   with_cursor d (segment_count d) (S (segment_index d)) (payload_cursor d + seg_len)
     (next_page_offset d)).

(** ** Packets *)

(** The loop of [ogg_demux_read_packet]: the size returned, what is in [buf]. *)
Fixpoint read_packet_loop (fuel : nat) (file : list Z) (d : ogg_demux) (buf_size written : Z)
    (buf : list Z) : Z * list Z * ogg_demux :=
  match fuel with
  | O => (0, buf, d)
  | S fuel =>
      match next_segment file d with
      | (None, d) => (0, buf, d)
      | (Some (seg_len, seg_data), d) =>
          if (0 <? seg_len) && (buf_size <? u32 (written + seg_len)) then (0, buf, d) else
          let buf := if 0 <? seg_len then buf ++ seg_data else buf in
          let written := if 0 <? seg_len then u32 (written + seg_len) else written in
          if seg_len <? 255 then (written, buf, d)
          else read_packet_loop fuel file d buf_size written buf
      end
  end.
(** Every round but the last adds 255 bytes to a buffer of [buf_size]. *)
Definition ogg_demux_read_packet (file : list Z) (d : ogg_demux) (buf_size : Z)
    : Z * list Z * ogg_demux :=
  read_packet_loop (Z.to_nat (buf_size / 255) + 2) file d buf_size 0 [].

(** The [while] that doubles the capacity, up to the limit. *)
Fixpoint grow_capacity (fuel : nat) (needed capacity : Z) : Z :=
  match fuel with
  | O => capacity
  | S fuel =>
      if capacity <? needed then
        if OGG_MAX_HEADER_PACKET_SIZE / 2 <=? capacity then OGG_MAX_HEADER_PACKET_SIZE
        else grow_capacity fuel needed (capacity * 2)
      else capacity
  end.
(** [alloc n] is the success of an allocation of [n] bytes. *)
Fixpoint growable_loop (fuel : nat) (alloc : Z -> bool) (file : list Z) (d : ogg_demux)
    (capacity written : Z) (buf : list Z) : option (list Z) * ogg_demux :=
  match fuel with
  | O => (None, d)
  | S fuel =>
      match next_segment file d with
      | (None, d) => (None, d)
      | (Some (seg_len, seg_data), d) =>
          if OGG_MAX_HEADER_PACKET_SIZE - seg_len <? written then (None, d) else
          let needed := written + seg_len in
          let new_capacity := if capacity <? needed then grow_capacity 32 needed capacity else capacity in
          if (capacity <? needed) && negb (alloc new_capacity) then (None, d) else
          let buf := buf ++ seg_data in
          if seg_len <? 255 then (Some buf, d)
          else growable_loop fuel alloc file d new_capacity needed buf
      end
  end.
Definition read_packet_growable (alloc : Z -> bool) (file : list Z) (d : ogg_demux)
    : option (list Z) * ogg_demux :=
  if negb (alloc 4096) then (None, d)
  else growable_loop (Z.to_nat (OGG_MAX_HEADER_PACKET_SIZE / 255) + 2) alloc file d 4096 0 [].

(** ** Headers *)

(** [parse_opus_head]: the channels and the pre-skip. *)
Definition parse_opus_head (data : list Z) : option (Z * Z) :=
  if (Z.of_nat (length data) <? 19) || negb (starts_with (bs "OpusHead") data) then None else
  version ← data !! 8%nat; chans ← data !! 9%nat; skip ← audio_read_u16le (drop 10 data);
  family ← data !! 18%nat;
  if negb (Z.land version 240 =? 0) then None
  else if negb (family =? 0) || (chans =? 0) || (2 <? chans) then None
  else Some (chans, skip).

Definition large_keys : list (list Z) :=
  [bs "METADATA_BLOCK_PICTURE="; bs "LYRICS="; bs "UNSYNCEDLYRICS="].
Definition comment_is_large_scan_value (value : list Z) (len : Z) : bool :=
  existsb (fun k => (Z.of_nat (length k) <=? len) && starts_with_ci k value) large_keys.

(** The loop of [parse_opus_tags] over uint32_t positions; [None] stands for a
    copy that reads outside the packet. *)
Fixpoint tags_loop (todo : nat) (alloc : Z -> bool) (skip_large_values : bool) (data : list Z)
    (pos : Z) (stored : list (list Z)) : option (list (list Z)) :=
  let size := Z.of_nat (length data) in
  match todo with
  | O => Some stored
  | S todo =>
      if size <? u32 (pos + 4) then Some stored else
      clen ← audio_read_u32le (drop (Z.to_nat pos) data);
      let pos := u32 (pos + 4) in
      if size <? u32 (pos + clen) then Some stored else
      let value := drop (Z.to_nat pos) data in
      if skip_large_values && comment_is_large_scan_value value clen
      then tags_loop todo alloc skip_large_values data (u32 (pos + clen)) stored
      else if alloc (clen + 1) then
        if clen <=? Z.of_nat (length value)
        then tags_loop todo alloc skip_large_values data (u32 (pos + clen))
               (stored ++ [take (Z.to_nat clen) value])
        else None
      else tags_loop todo alloc skip_large_values data (u32 (pos + clen)) stored
  end.
Definition parse_opus_tags (alloc : Z -> bool) (skip_large_values : bool) (data : list Z)
    : option (list (list Z)) :=
  let size := Z.of_nat (length data) in
  if (size <? 8) || negb (starts_with (bs "OpusTags") data) then Some [] else
  if size <? 12 then Some [] else
  vendor_len ← audio_read_u32le (drop 8 data);
  if size <? u32 (12 + vendor_len) then Some [] else
  let pos := u32 (12 + vendor_len) in
  if size <? u32 (pos + 4) then Some [] else
  comment_count ← audio_read_u32le (drop (Z.to_nat pos) data);
  let pos := u32 (pos + 4) in
  let max_possible := (size - pos) / 4 in
  let comment_count := Z.min comment_count max_possible in
  if (comment_count =? 0) || negb (alloc comment_count) then Some []
  else tags_loop (Z.to_nat comment_count) alloc skip_large_values data pos [].

(** ** The seek index *)

(** The loop of [build_page_index] from [offset]; [alloc] is asked when the
    index has to grow, [capacity] entries at a time doubled. *)
Fixpoint index_loop (fuel : nat) (alloc : Z -> bool) (file : list Z) (offset capacity total : Z)
    (index : list (Z * Z)) : Z * list (Z * Z) :=
  match fuel with
  | O => (total, index)
  | S fuel =>
      let hdr := fread file offset 27 in
      if negb (length hdr =? 27)%nat then (total, index) else
      if negb (starts_with capture hdr) || negb (default 1 (hdr !! 4%nat) =? 0) then (total, index) else
      let flags := default 0 (hdr !! 5%nat) in
      let granule := default 0 (audio_read_u64le (drop 6 hdr)) in
      let page_segments := Z.to_nat (default 0 (hdr !! 26%nat)) in
      let seg_table := fread file (offset + 27) page_segments in
      if negb (length seg_table =? page_segments)%nat then (total, index) else
      let payload_size := sum_bytes seg_table in
      let next := offset + (27 + Z.of_nat page_segments + payload_size) in
      let boundary := Z.land flags 1 =? 0 in
      let full := boundary && (Z.of_nat (length index) =? capacity) in
      if full && negb (alloc (capacity * 2)) then (granule, index) else
      let capacity := if full then capacity * 2 else capacity in
      let index := if boundary then index ++ [(offset, granule)] else index in
      if next <=? offset then (granule, index)
      else index_loop fuel alloc file next capacity granule index
  end.
(** A page takes 27 bytes at least. *)
Definition build_page_index (alloc : Z -> bool) (file : list Z) (d : ogg_demux) : bool * ogg_demux :=
  if negb (alloc 64) then (false, d) else
  let '(total, index) := index_loop (length file / 27 + 1) alloc file 0 64 0 [] in
  (0 <? Z.of_nat (length index), with_index d index total).

(** The binary search of [ogg_demux_seek_near_granule] over [count] entries. *)
Fixpoint seek_loop (fuel : nat) (index : list (Z * Z)) (target lo hi result : Z) : Z :=
  match fuel with
  | O => result
  | S fuel =>
      if hi <? lo then result else
      let mid := lo + (hi - lo) / 2 in
      match index !! Z.to_nat mid with
      | None => result
      | Some (_, granule) =>
          if granule <=? target then
            if mid =? Z.of_nat (length index) - 1 then mid
            else seek_loop fuel index target (mid + 1) hi mid
          else if mid =? 0 then result
          else seek_loop fuel index target lo (mid - 1) result
      end
  end.
Definition ogg_demux_seek_near_granule (d : ogg_demux) (target_granule : Z) : Z * ogg_demux :=
  let count := Z.of_nat (length (page_index d)) in
  if count =? 0 then (0, d) else
  let result := seek_loop (S (length (page_index d))) (page_index d) target_granule 0 (count - 1) 0 in
  let '(offset, granule) := default (0, 0) (page_index d !! Z.to_nat result) in
  (granule, with_cursor d 0 0 0 offset).

(** ** Opening *)
Inductive ogg_codec_t := OGG_CODEC_UNKNOWN | OGG_CODEC_OPUS | OGG_CODEC_VORBIS.

Definition ogg_detect_codec (file : list Z) : ogg_codec_t :=
  let header := fread file 0 27 in
  if negb (length header =? 27)%nat || negb (starts_with capture header) ||
     negb (default 1 (header !! 4%nat) =? 0) || (Z.land (default 0 (header !! 5%nat)) 2 =? 0)
  then OGG_CODEC_UNKNOWN else
  let segment_count := default 0 (header !! 26%nat) in
  match file !! 27%nat with
  | None => OGG_CODEC_UNKNOWN
  | Some first_lacing =>
      if segment_count =? 0 then OGG_CODEC_UNKNOWN else
      let signature := fread file (27 + segment_count) 8 in
      if (first_lacing <? 8) || negb (length signature =? 8)%nat then OGG_CODEC_UNKNOWN
      else if bytes_eqb signature (bs "OpusHead") then OGG_CODEC_OPUS
      else if bytes_eqb (take 7 signature) (1 :: bs "vorbis") then OGG_CODEC_VORBIS
      else OGG_CODEC_UNKNOWN
  end.

Inductive opened := OpenFailed | Opened (d : ogg_demux) | OutOfBounds.

Definition ogg_demux_open_internal (alloc : Z -> bool) (file : option (list Z))
    (build_index skip_large_values : bool) : opened :=
  match file with
  | None => OpenFailed
  | Some file =>
      let '(ok, d) := load_page_at file fresh_demux 0 in
      if negb ok || (Z.land (header_type d) 2 =? 0) then OpenFailed else
      let serial := default 0 (audio_read_u32le (drop 14 (page_buf d))) in
      match read_packet_growable alloc file d with
      | (None, _) => OpenFailed
      | (Some head_packet, d) =>
          match parse_opus_head head_packet with
          | None => OpenFailed
          | Some (chans, skip) =>
              match read_packet_growable alloc file d with
              | (None, _) => OpenFailed
              | (Some tags_packet, d) =>
                  match parse_opus_tags alloc skip_large_values tags_packet with
                  | None => OutOfBounds
                  | Some tags =>
                      let d := with_headers d serial chans skip tags in
                      if negb build_index then Opened d else
                      let '(indexed, di) := build_page_index alloc file d in
                      if negb indexed then OpenFailed else
                      let '(ok, dl) := load_page_at file di (current_page_offset d) in
                      if negb ok then OpenFailed
                      else Opened (with_cursor dl (segment_count dl) (segment_index d)
                                     (payload_cursor d) (next_page_offset dl))
                  end
              end
          end
      end
  end.
Definition ogg_demux_open (alloc : Z -> bool) (file : option (list Z)) : opened :=
  ogg_demux_open_internal alloc file true false.
Definition ogg_demux_open_metadata (alloc : Z -> bool) (file : option (list Z)) (skip : bool) : opened :=
  ogg_demux_open_internal alloc file false skip.

Definition ogg_demux_get_comment (d : ogg_demux) (index : Z) : option (list Z) * Z :=
  match comments d !! Z.to_nat index with
  | Some c => (Some c, Z.of_nat (length c))
  | None => (None, 0)
  end.
