(* ===== verification/OggProofs.v ===== *)
(** The Ogg demuxer delivers the packets a muxer laid out: pages are accepted,
    segments come in order, packets are reassembled across pages. *)
From S2P Require Import Prelude Endian AudioHelpers QueueResume OggCrc Ogg.
Local Open Scope Z_scope.

(** ** Pages as a muxer writes them *)

(** [granule] is the eight bytes of its field, [other] the serial and sequence
    numbers; a segment is at most 255 bytes. *)
Record page := { p_flags : Z; p_granule : list Z; p_other : list Z; p_segments : list (list Z) }.

Definition lacing (p : page) : list Z := map (fun s => Z.of_nat (length s)) (p_segments p).
Definition page_bytes (p : page) (crc : list Z) : list Z :=
  capture ++ [0; p_flags p] ++ p_granule p ++ p_other p ++ crc ++
  [Z.of_nat (length (p_segments p))] ++ lacing p ++ concat (p_segments p).
Definition encode_page (p : page) : list Z :=
  page_bytes p (le32 (ogg_crc32 ogg_crc_init_table (page_bytes p [0; 0; 0; 0]))).

(** A page has at least one segment; the demuxer does not handle an empty one
    (see [empty_page_stale_segment]). *)
Definition page_ok (p : page) : Prop :=
  is_byte (p_flags p) /\ length (p_granule p) = 8%nat /\ Forall is_byte (p_granule p) /\
  length (p_other p) = 8%nat /\ Forall is_byte (p_other p) /\
  (0 < length (p_segments p) <= 255)%nat /\
  Forall (fun s => (length s <= 255)%nat /\ Forall is_byte s) (p_segments p).

Lemma lacing_bytes p : page_ok p -> Forall is_byte (lacing p).
Proof.
  intros (_ & _ & _ & _ & _ & _ & H). unfold lacing. induction H as [|s l [Hs _] _ IH]; [constructor|].
  constructor; [unfold is_byte; lia|done].
Qed.
Lemma segments_bytes p : page_ok p -> Forall is_byte (concat (p_segments p)).
Proof.
  intros (_ & _ & _ & _ & _ & _ & H). induction H as [|s l [_ Hs] _ IH]; [constructor|].
  cbn [concat]. by apply list.Forall_app.
Qed.
Lemma sum_lacing l : sum_bytes (map (fun s : list Z => Z.of_nat (length s)) l) = Z.of_nat (length (concat l)).
Proof.
  induction l as [|s l IH]; [done|]. cbn [map concat]. unfold sum_bytes in *. cbn [fold_right].
  rewrite IH, length_app. lia.
Qed.

Lemma ogg_crc32_range data : Forall is_byte data -> in_u32 (ogg_crc32 ogg_crc_init_table data).
Proof.
  intros H. unfold ogg_crc32. assert (in_u32 0) as H0 by (unfold in_u32; lia). revert H0.
  generalize 0 as crc. induction H as [|b data Hb _ IH]; intros crc Hc; [done|]. cbn [fold_left].
  apply IH. rewrite crc_byte_serial by done. rewrite feed_byte by done.
  cbn [Nat.iter nat_rect]. rewrite crc_round_bit. apply crc_bit_range.
Qed.

Lemma page_bytes_bytes p crc : page_ok p -> Forall is_byte crc -> Forall is_byte (page_bytes p crc).
Proof.
  intros Hp Hc. pose proof (lacing_bytes p Hp). pose proof (segments_bytes p Hp).
  destruct Hp as (Hf & _ & Hg & _ & Ho & Hn & _). unfold page_bytes.
  rewrite !list.Forall_app, !Forall_cons_iff. assert (Forall is_byte capture) by (apply bytes_b_true; reflexivity).
  assert (Forall is_byte []) by constructor. unfold is_byte in Hf |- *. split_and!; done || lia.
Qed.

Lemma audio_read_le32 v rest : in_u32 v -> audio_read_u32le (le32 v ++ rest) = Some v.
Proof. intros H. rewrite <- (u32_id v H) at 2. rewrite <- read_le32 with (rest := rest). done. Qed.

(** The pieces of a page's fixed header. *)
Definition page_head (p : page) (crc : list Z) : list Z :=
  capture ++ [0; p_flags p] ++ p_granule p ++ p_other p ++ crc ++ [Z.of_nat (length (p_segments p))].
Lemma page_bytes_head p crc :
  page_bytes p crc = page_head p crc ++ lacing p ++ concat (p_segments p).
Proof. unfold page_bytes, page_head. by rewrite <- !app_assoc. Qed.
Lemma length_page_head p crc : page_ok p -> length crc = 4%nat -> length (page_head p crc) = 27%nat.
Proof.
  intros (_ & Hg & _ & Ho & _) Hc. unfold page_head. rewrite !length_app, Hg, Ho, Hc. done.
Qed.
Lemma page_head_fields p crc : page_ok p -> length crc = 4%nat ->
  starts_with capture (page_head p crc) = true /\ page_head p crc !! 4%nat = Some 0 /\
  page_head p crc !! 5%nat = Some (p_flags p) /\
  page_head p crc !! 26%nat = Some (Z.of_nat (length (p_segments p))) /\
  (forall t, take 22 (page_head p crc ++ t) = capture ++ [0; p_flags p] ++ p_granule p ++ p_other p) /\
  (forall t, drop 22 (page_head p crc ++ t) = crc ++ [Z.of_nat (length (p_segments p))] ++ t).
Proof.
  destruct p as [fl g o segs]. intros (_ & Hg & _ & Ho & _) Hc. unfold page_head.
  cbn [p_flags p_granule p_other p_segments] in *.
  do 8 (destruct g as [|? g]; [done|]). destruct g; [|done].
  do 8 (destruct o as [|? o]; [done|]). destruct o; [|done].
  do 4 (destruct crc as [|? crc]; [done|]). destruct crc; [|done]. by repeat split.
Qed.

(** ** Loading a page *)
Lemma fread_at file pre l rest n offset :
  drop (Z.to_nat offset) file = pre ++ l ++ rest -> 0 <= offset -> length l = n ->
  fread file (offset + Z.of_nat (length pre)) n = l.
Proof.
  intros Hd Ho <-. unfold fread. rewrite Z2Nat.inj_add, Nat2Z.id, <- drop_drop, Hd by lia.
  by rewrite drop_app_length, take_app_length.
Qed.

Lemma length_lacing p : length (lacing p) = length (p_segments p).
Proof. apply length_map. Qed.

(** The state after loading page [p] at [offset]. *)
Definition loaded (d : ogg_demux) (p : page) (offset : Z) : ogg_demux :=
  with_page (with_page_buf d (overlay (encode_page p) (page_buf d)))
    (overlay (encode_page p) (page_buf d)) offset
    (overlay (lacing p) (segment_table d)) (length (p_segments p)) (p_flags p)
    (offset + Z.of_nat (length (encode_page p))).

Lemma length_encode_page p : page_ok p ->
  length (encode_page p) = (27 + length (p_segments p) + length (concat (p_segments p)))%nat.
Proof.
  intros Hp. unfold encode_page. rewrite page_bytes_head, !length_app, length_page_head, length_lacing by done.
  lia.
Qed.

Lemma load_page_at_encode file d p offset rest :
  page_ok p -> 0 <= offset -> drop (Z.to_nat offset) file = encode_page p ++ rest ->
  load_page_at file d offset = (true, loaded d p offset).
Proof.
  intros Hp Ho Hd. unfold load_page_at.
  set (crc := ogg_crc32 ogg_crc_init_table (page_bytes p [0; 0; 0; 0])).
  assert (in_u32 crc) as Hcrc by (apply ogg_crc32_range, page_bytes_bytes; [done|by apply bytes_b_true]).
  assert (encode_page p = page_head p (le32 crc) ++ lacing p ++ concat (p_segments p)) as He
    by apply page_bytes_head.
  pose proof (length_page_head p (le32 crc) Hp eq_refl) as Hlen.
  destruct (page_head_fields p (le32 crc) Hp eq_refl) as (H1 & H2 & H3 & H4 & H5 & H6).
  assert (fread file offset 27 = page_head p (le32 crc)) as ->.
  { rewrite <- (Z.add_0_r offset). change 0 with (Z.of_nat (length (@nil Z))).
    apply fread_at with (lacing p ++ concat (p_segments p) ++ rest); [|done|done].
    rewrite Hd, He. cbn [app]. by rewrite <- !app_assoc. }
  rewrite Hlen, Nat.eqb_refl, H1, H2, H3, H4. cbn [negb orb default from_option]. unfold id.
  rewrite Z.eqb_refl. cbn [negb]. rewrite Nat2Z.id.
  assert (fread file (offset + 27) (length (p_segments p)) = lacing p) as ->.
  { change 27 with (Z.of_nat 27). rewrite <- Hlen.
    apply fread_at with (concat (p_segments p) ++ rest); [|done|apply length_lacing].
    rewrite Hd, He. by rewrite <- !app_assoc. }
  rewrite length_lacing, Nat.eqb_refl. cbn [negb].
  assert (sum_bytes (lacing p) = Z.of_nat (length (concat (p_segments p)))) as -> by apply sum_lacing.
  rewrite !Nat2Z.id.
  assert (fread file (offset + 27 + Z.of_nat (length (p_segments p))) (length (concat (p_segments p)))
          = concat (p_segments p)) as ->.
  { replace (offset + 27 + Z.of_nat (length (p_segments p)))
      with (offset + Z.of_nat (length (page_head p (le32 crc) ++ lacing p)))
      by (rewrite length_app, Hlen, length_lacing; lia).
    apply fread_at with rest; [|done|done]. rewrite Hd, He. by rewrite <- !app_assoc. }
  rewrite Nat.eqb_refl. cbn [negb]. rewrite <- He.
  assert (audio_read_u32le (take 4 (drop 22 (encode_page p))) = Some crc) as ->.
  { rewrite He, H6. change (take 4 (le32 crc ++ ?x)) with (le32 crc). rewrite <- (app_nil_r (le32 crc)).
    by apply audio_read_le32. }
  assert (take 22 (encode_page p) ++ [0; 0; 0; 0] ++ drop 26 (encode_page p) =
          page_bytes p [0; 0; 0; 0]) as ->.
  { replace 26%nat with (22 + 4)%nat by done. rewrite <- (drop_drop _ 4 22), He, H5, H6.
    change (drop 4 (le32 crc ++ ?x)) with x. unfold page_bytes. by rewrite <- !app_assoc. }
  fold crc. rewrite Z.eqb_refl. cbn [negb]. unfold loaded. do 2 f_equal.
  rewrite length_encode_page by done. lia.
Qed.

(** ** The segments ahead *)

(** [cur] are the segments of the buffered page that are still to come. *)
Definition current (d : ogg_demux) (cur : list (list Z)) : Prop :=
  segment_count d = (segment_index d + length cur)%nat /\ 0 <= payload_cursor d /\
  take (length cur) (drop (segment_index d) (segment_table d)) = map (fun s => Z.of_nat (length s)) cur /\
  exists tail, drop (27 + segment_count d + Z.to_nat (payload_cursor d)) (page_buf d) = concat cur ++ tail.
(** [segs] are the segments ahead of the read cursor, in the buffered page and
    in the pages that follow it in the file. *)
Definition view (file : list Z) (d : ogg_demux) (segs : list (list Z)) : Prop :=
  exists cur pages post,
    segs = cur ++ concat (map p_segments pages) /\ current d cur /\ 0 <= next_page_offset d /\
    drop (Z.to_nat (next_page_offset d)) file = concat (map encode_page pages) ++ post /\
    Forall page_ok pages.

Lemma current_loaded d p offset : page_ok p -> current (loaded d p offset) (p_segments p).
Proof.
  intros Hp. unfold current, loaded. cbn [segment_count segment_index payload_cursor segment_table page_buf with_page].
  split; [done|]. split; [done|]. split.
  - rewrite drop_0. unfold overlay. rewrite take_app_length' by (by rewrite length_lacing). done.
  - exists (drop (length (encode_page p)) (page_buf d)). unfold overlay, encode_page at 1.
    rewrite page_bytes_head, !app_assoc, <- app_assoc. apply drop_app_length'.
    rewrite length_app, length_page_head, length_lacing by done. lia.
Qed.

Lemma current_next d s cur : current d (s :: cur) ->
  segment_table d !! segment_index d = Some (Z.of_nat (length s)) /\
  take (length s) (drop (27 + segment_count d + Z.to_nat (payload_cursor d)) (page_buf d)) = s /\
  current (with_cursor d (segment_count d) (S (segment_index d))
             (payload_cursor d + Z.of_nat (length s)) (next_page_offset d)) cur.
Proof.
  intros (Hc & Hp & Ht & tail & Hb). cbn [length map] in *. split; [|split].
  - assert (take (S (length cur)) (drop (segment_index d) (segment_table d)) !! 0%nat =
            Some (Z.of_nat (length s))) as H by (by rewrite Ht).
    rewrite lookup_take_lt, lookup_drop, Nat.add_0_r in H by lia. done.
  - rewrite Hb. cbn [concat]. rewrite <- app_assoc. apply take_app_length.
  - unfold current. cbn [segment_count segment_index payload_cursor segment_table page_buf with_cursor].
    split; [lia|]. split; [lia|]. split.
    + rewrite <- (Nat.add_1_r (segment_index d)), <- drop_drop.
      destruct (drop (segment_index d) (segment_table d)) as [|x l]; [done|].
      cbn [take] in Ht. injection Ht as _ Ht. exact Ht.
    + exists tail. rewrite Z2Nat.inj_add, Nat2Z.id, Nat.add_assoc, <- drop_drop, Hb by lia.
      cbn [concat]. rewrite <- app_assoc. apply drop_app_length.
Qed.

(** [next_segment] hands out the segments ahead, one by one. *)
Lemma next_segment_view file d s segs :
  view file d (s :: segs) ->
  exists d', next_segment file d = (Some (Z.of_nat (length s), s), d') /\ view file d' segs.
Proof.
  intros (cur & pages & post & Hs & Hc & H0 & Hf & Hp). unfold next_segment.
  destruct cur as [|s' cur].
  - destruct Hp as [|p pages Hp Hps]; [done|]. cbn [map concat app] in *.
    assert ((segment_count d <=? segment_index d)%nat = true) as ->.
    { apply Nat.leb_le. destruct Hc as [Hc _]. cbn [length] in Hc. lia. }
    rewrite <- app_assoc in Hf. rewrite (load_page_at_encode file d p _ _ Hp H0 Hf).
    pose proof (current_loaded d p (next_page_offset d) Hp) as Hcl.
    assert (p_segments p <> []) as Hne.
    { destruct Hp as (_ & _ & _ & _ & _ & [Hn _] & _). intros E. rewrite E in Hn. cbn [length] in Hn. lia. }
    destruct (p_segments p) as [|s' cur]; [done|]. clear Hne.
    injection Hs as -> ->. destruct (current_next _ _ _ Hcl) as (H1 & H2 & H3).
    rewrite H1. cbn [negb default from_option]. unfold id. rewrite Nat2Z.id, H2.
    eexists. split; [done|]. exists cur, pages, post. split; [done|]. split; [exact H3|].
    cbn [next_page_offset with_cursor loaded with_page]. split; [lia|]. split; [|done].
    rewrite Z2Nat.inj_add, Nat2Z.id, <- drop_drop, Hf by lia. by rewrite drop_app_length.
  - injection Hs as -> ->. destruct (current_next _ _ _ Hc) as (H1 & H2 & H3).
    assert ((segment_count d <=? segment_index d)%nat = false) as ->.
    { apply Nat.leb_gt. destruct Hc as [Hc _]. cbn [length] in Hc. lia. }
    rewrite H1. cbn [negb default from_option]. unfold id. rewrite Nat2Z.id, H2.
    eexists. split; [done|]. exists cur, pages, post. exact (conj eq_refl (conj H3 (conj H0 (conj Hf Hp)))).
Qed.

(** ** Packets *)

(** How a muxer cuts a packet: pieces of 255 bytes and a shorter last one. *)
Fixpoint lace_from (fuel : nat) (packet : list Z) : list (list Z) :=
  match fuel with
  | O => [packet]
  | S fuel => if (length packet <? 255)%nat then [packet]
              else take 255 packet :: lace_from fuel (drop 255 packet)
  end.
Definition lace (packet : list Z) : list (list Z) := lace_from (length packet) packet.

Lemma lace_from_fuel n m packet :
  (length packet <= n)%nat -> (length packet <= m)%nat -> lace_from n packet = lace_from m packet.
Proof.
  revert m packet. induction n as [|n IH]; intros m packet Hn Hm.
  - destruct packet; [|cbn in Hn; lia]. by destruct m.
  - destruct m as [|m]; [destruct packet; [done|cbn in Hm; lia]|]. cbn [lace_from].
    destruct (length packet <? 255)%nat eqn:E; [done|]. apply Nat.ltb_ge in E.
    f_equal. apply IH; rewrite length_drop; lia.
Qed.
Lemma lace_long packet : (255 <= length packet)%nat ->
  lace packet = take 255 packet :: lace (drop 255 packet).
Proof.
  intros H. unfold lace. destruct (length packet) as [|n] eqn:E; [lia|]. cbn [lace_from].
  rewrite (proj2 (Nat.ltb_ge _ _)) by lia. f_equal. apply lace_from_fuel; rewrite length_drop; lia.
Qed.
Lemma lace_short packet : (length packet < 255)%nat -> lace packet = [packet].
Proof.
  intros H. unfold lace. destruct (length packet) eqn:E; [done|]. cbn [lace_from].
  by rewrite (proj2 (Nat.ltb_lt _ _)) by lia.
Qed.

Lemma read_packet_loop_lace fuel file d buf_size written buf packet segs :
  view file d (lace packet ++ segs) -> (length packet / 255 < fuel)%nat ->
  0 <= written -> written + Z.of_nat (length packet) <= buf_size < 4294967296 ->
  exists d', read_packet_loop fuel file d buf_size written buf =
    (written + Z.of_nat (length packet), buf ++ packet, d') /\ view file d' segs.
Proof.
  revert d written buf packet. induction fuel as [|fuel IH]; intros d written buf packet Hv Hf Hw Hb; [lia|].
  cbn [read_packet_loop]. destruct (decide (255 <= length packet)%nat) as [Hl|Hl].
  - rewrite lace_long in Hv by done. cbn [app] in Hv.
    destruct (next_segment_view _ _ _ _ Hv) as (d1 & -> & Hv1). rewrite length_take, Nat.min_l by lia.
    change (0 <? Z.of_nat 255) with true. change (Z.of_nat 255 <? 255) with false.
    rewrite u32_id by (unfold in_u32; lia). cbn [andb].
    rewrite (proj2 (Z.ltb_ge _ _)) by lia.
    destruct (IH d1 (written + Z.of_nat 255) (buf ++ take 255 packet) (drop 255 packet)) as (d' & -> & Hv');
      [done| |lia|rewrite length_drop; lia|].
    + rewrite length_drop. assert (length packet = (length packet - 255) + 1 * 255)%nat as E by lia.
      rewrite E, Nat.div_add in Hf by done. lia.
    + exists d'. split; [|done]. rewrite <- app_assoc, take_drop, length_drop. do 2 f_equal. lia.
  - rewrite lace_short in Hv by lia. cbn [app] in Hv.
    destruct (next_segment_view _ _ _ _ Hv) as (d1 & -> & Hv1).
    rewrite u32_id by (unfold in_u32; lia).
    rewrite (proj2 (Z.ltb_ge buf_size _)), andb_false_r by lia.
    rewrite (proj2 (Z.ltb_lt (Z.of_nat (length packet)) 255)) by lia.
    exists d1. split; [|done]. destruct packet; cbn [length]; [|done].
    change (0 <? Z.of_nat 0) with false. cbn iota. by rewrite app_nil_r, Z.add_0_r.
Qed.

(** Reading [n] packets in a row. *)
Fixpoint read_packets (n : nat) (file : list Z) (d : ogg_demux) (buf_size : Z) : list (Z * list Z) :=
  match n with
  | O => []
  | S n => let '(size, buf, d) := ogg_demux_read_packet file d buf_size in
           (size, buf) :: read_packets n file d buf_size
  end.

Lemma read_packet_view file d buf_size packet segs :
  view file d (lace packet ++ segs) -> Z.of_nat (length packet) <= buf_size < 4294967296 ->
  exists d', ogg_demux_read_packet file d buf_size = (Z.of_nat (length packet), packet, d') /\
    view file d' segs.
Proof.
  intros Hv Hb. unfold ogg_demux_read_packet.
  destruct (read_packet_loop_lace (Z.to_nat (buf_size / 255) + 2) file d buf_size 0 [] packet segs)
    as (d' & -> & Hv'); [done| |lia|lia|by exists d'].
  assert (Z.of_nat (length packet) / 255 <= buf_size / 255) by (apply Z.div_le_mono; lia).
  change 255%nat with (Z.to_nat 255). rewrite <- (Nat2Z.id (length packet)), <- Z2Nat.inj_div by lia. lia.
Qed.


(** A file of pages is ahead of a demuxer whose cursor is at its first byte. *)
Lemma view_start file pages d offset pre :
  Forall page_ok pages -> file = pre ++ concat (map encode_page pages) ->
  offset = Z.of_nat (length pre) ->
  view file (with_cursor d 0 0 0 offset) (concat (map p_segments pages)).
Proof.
  intros Hp -> ->. exists [], pages, []. split; [done|].
  split.
  { unfold current. cbn [segment_count segment_index payload_cursor segment_table page_buf with_cursor].
    split; [done|]. split; [done|]. split; [done|]. by eexists. }
  cbn [next_page_offset with_cursor]. split; [lia|]. split; [|done].
  by rewrite Nat2Z.id, drop_app_length, app_nil_r.
Qed.

(** A packet of 300 bytes over two pages. *)
Definition example_pages : list page :=
  [ {| p_flags := 0; p_granule := [1; 0; 0; 0; 0; 0; 0; 0]; p_other := replicate 8 7;
       p_segments := [repeat 65 255] |};
    {| p_flags := 1; p_granule := [2; 0; 0; 0; 0; 0; 0; 0]; p_other := replicate 8 7;
       p_segments := [repeat 66 45; [67; 68]] |} ].
Definition page_ok_b (p : page) : bool :=
  bytes_b [p_flags p] && (length (p_granule p) =? 8)%nat && bytes_b (p_granule p) &&
  (length (p_other p) =? 8)%nat && bytes_b (p_other p) &&
  negb (length (p_segments p) =? 0)%nat && (length (p_segments p) <=? 255)%nat &&
  forallb (fun s => (length s <=? 255)%nat && bytes_b s) (p_segments p).
Lemma page_ok_b_ok p : page_ok_b p = true -> page_ok p.
Proof.
  unfold page_ok_b, page_ok. rewrite !andb_true_iff, negb_true_iff, forallb_forall, Nat.eqb_neq,
    !Nat.eqb_eq, Nat.leb_le.
  intros (((((((Hf & Hg) & Hgb) & Ho) & Hob) & Hn) & Hm) & Hs).
  apply bytes_b_true in Hf, Hgb, Hob. apply Forall_cons_iff in Hf as [Hf _].
  split_and!; try done; try lia. apply List.Forall_forall. intros s Hin.
  specialize (Hs s Hin). apply andb_true_iff in Hs as [H1 H2].
  split; [by apply Nat.leb_le|by apply bytes_b_true].
Qed.

(** An empty page is legal Ogg; loading one makes [next_segment] hand out a
    lacing value left over from the page before it. *)
Definition empty_page : page :=
  {| p_flags := 0; p_granule := replicate 8 0; p_other := replicate 8 7; p_segments := [] |}.
Definition one_packet_page : page :=
  {| p_flags := 0; p_granule := replicate 8 0; p_other := replicate 8 7; p_segments := [[1; 2; 3]] |}.
Lemma empty_page_stale_segment :
  let file := encode_page one_packet_page ++ encode_page empty_page in
  let '(_, _, d) := ogg_demux_read_packet file fresh_demux 4000 in
  (ogg_demux_read_packet file d 4000).1.1 = 3.
Proof. vm_compute. reflexivity. Qed.
