(* ===== verification/OggSeek.v ===== *)
(** Seeking in Ogg files, and the OpusTags header: the page index, the binary
    search over it, and the comments of a well-formed header. *)
From S2P Require Import Prelude Endian AudioHelpers QueueResume OggCrc Ogg OggProofs.
Local Open Scope Z_scope.

(** ** The index of a file of pages *)
Definition granule_of (p : page) : Z := default 0 (audio_read_u64le (p_granule p)).
(** A page on which no packet of the page before goes on. *)
Definition boundary (p : page) : bool := Z.land (p_flags p) 1 =? 0.
Definition page_length (p : page) : Z := Z.of_nat (length (encode_page p)).
(** The boundary pages from [offset], with their offsets and granules. *)
Fixpoint index_of (offset : Z) (pages : list page) : list (Z * Z) :=
  match pages with
  | [] => []
  | p :: pages =>
      (if boundary p then [(offset, granule_of p)] else []) ++ index_of (offset + page_length p) pages
  end.

Lemma audio_read_u64le_take b t : length b = 8%nat -> audio_read_u64le (b ++ t) = audio_read_u64le b.
Proof.
  intros H. unfold audio_read_u64le. rewrite length_app, (proj2 (Nat.leb_le _ _)) by lia.
  rewrite H. cbn [Nat.leb]. by rewrite take_app_length', (take_ge b) by lia.
Qed.
Lemma head_granule p crc : page_ok p -> length crc = 4%nat ->
  audio_read_u64le (drop 6 (page_head p crc)) = audio_read_u64le (p_granule p).
Proof.
  intros (_ & Hg & _) _. unfold page_head.
  change (drop 6 (capture ++ [0; p_flags p] ++ ?x)) with x. by apply audio_read_u64le_take.
Qed.
Lemma page_length_pos p : page_ok p -> 27 < page_length p.
Proof.
  intros Hp. unfold page_length. rewrite length_encode_page by done.
  destruct Hp as (_ & _ & _ & _ & _ & [H _] & _). lia.
Qed.

Definition all_alloc (alloc : Z -> bool) : Prop := forall n, alloc n = true.
(** What the indexing loop reads of one page. *)
Lemma index_loop_page fuel alloc file offset capacity total index p rest :
  all_alloc alloc -> page_ok p -> 0 <= offset ->
  drop (Z.to_nat offset) file = encode_page p ++ rest ->
  exists capacity', index_loop (S fuel) alloc file offset capacity total index =
    index_loop fuel alloc file (offset + page_length p) capacity' (granule_of p)
      (index ++ if boundary p then [(offset, granule_of p)] else []).
Proof.
  intros Ha Hp Ho Hd. set (crc := le32 (ogg_crc32 ogg_crc_init_table (page_bytes p [0; 0; 0; 0]))).
  assert (encode_page p = page_head p crc ++ lacing p ++ concat (p_segments p)) as He
    by apply page_bytes_head.
  pose proof (length_page_head p crc Hp eq_refl) as Hlen.
  destruct (page_head_fields p crc Hp eq_refl) as (H1 & H2 & H3 & H4 & _).
  cbn [index_loop].
  assert (fread file offset 27 = page_head p crc) as ->.
  { rewrite <- (Z.add_0_r offset). change 0 with (Z.of_nat (length (@nil Z))).
    apply fread_at with (lacing p ++ concat (p_segments p) ++ rest); [|done|done].
    rewrite Hd, He. cbn [app]. by rewrite <- !app_assoc. }
  rewrite Hlen, Nat.eqb_refl, H1, H2, H3, H4, head_granule by done.
  cbn [negb orb default from_option]. unfold id. rewrite Z.eqb_refl, Nat2Z.id. cbn [negb].
  assert (fread file (offset + 27) (length (p_segments p)) = lacing p) as ->.
  { change 27 with (Z.of_nat 27). rewrite <- Hlen.
    apply fread_at with (concat (p_segments p) ++ rest); [|done|apply length_lacing].
    rewrite Hd, He. by rewrite <- !app_assoc. }
  rewrite length_lacing, Nat.eqb_refl, Ha, andb_false_r. cbn [negb].
  assert (sum_bytes (lacing p) = Z.of_nat (length (concat (p_segments p)))) as -> by apply sum_lacing.
  fold (boundary p).
  replace (offset + (27 + Z.of_nat (length (p_segments p)) + Z.of_nat (length (concat (p_segments p)))))
    with (offset + page_length p) by (unfold page_length; rewrite length_encode_page by done; lia).
  pose proof (page_length_pos p Hp). rewrite (proj2 (Z.leb_gt _ _)) by lia.
  eexists. f_equal. destruct (boundary p); [done|]. by rewrite app_nil_r.
Qed.


Definition last_granule (pages : list page) (total : Z) : Z :=
  fold_left (fun _ p => granule_of p) pages total.
Lemma index_loop_pages fuel alloc file offset capacity total index pages :
  all_alloc alloc -> Forall page_ok pages -> 0 <= offset ->
  drop (Z.to_nat offset) file = concat (map encode_page pages) -> (length pages < fuel)%nat ->
  index_loop fuel alloc file offset capacity total index =
    (last_granule pages total, index ++ index_of offset pages).
Proof.
  intros Ha Hp. revert fuel offset capacity total index.
  induction Hp as [|p pages Hp _ IH]; intros fuel offset capacity total index Ho Hd Hf;
    (destruct fuel as [|fuel]; [cbn in Hf; lia|]).
  - cbn [index_loop map concat] in *. unfold fread. rewrite Hd. cbn. by rewrite app_nil_r.
  - cbn [map concat] in Hd.
    destruct (index_loop_page fuel alloc file offset capacity total index p _ Ha Hp Ho Hd) as [c ->].
    pose proof (page_length_pos p Hp). rewrite IH; [|lia| |cbn in Hf; lia].
    + cbn [index_of last_granule fold_left]. by rewrite <- app_assoc.
    + unfold page_length. rewrite Z2Nat.inj_add, Nat2Z.id, <- drop_drop, Hd by lia.
      apply drop_app_length.
Qed.

Lemma pages_fuel pages : Forall page_ok pages ->
  (length pages < length (concat (map encode_page pages)) / 27 + 1)%nat.
Proof.
  intros H. enough (27 * length pages <= length (concat (map encode_page pages)))%nat as Hl.
  { apply Nat.div_le_lower_bound in Hl; lia. }
  induction H as [|p pages Hp _ IH]; [cbn; lia|]. cbn [map concat length]. rewrite length_app.
  pose proof (page_length_pos p Hp) as Hpos. unfold page_length in Hpos. lia.
Qed.

(** The index of a file of pages is its boundary pages, and the total is the
    granule of its last page. *)
Lemma build_page_index_pages alloc d pages :
  all_alloc alloc -> Forall page_ok pages ->
  build_page_index alloc (concat (map encode_page pages)) d =
    (0 <? Z.of_nat (length (index_of 0 pages)), with_index d (index_of 0 pages) (last_granule pages 0)).
Proof.
  intros Ha Hp. unfold build_page_index. rewrite Ha. cbn [negb].
  rewrite (index_loop_pages _ _ _ _ _ _ _ pages); [done|done|done|lia|done|by apply pages_fuel].
Qed.

(** ** The binary search *)
Definition at_most (index : list (Z * Z)) (i target : Z) : Prop :=
  exists e, index !! Z.to_nat i = Some e /\ e.2 <= target.
Definition above (index : list (Z * Z)) (i target : Z) : Prop :=
  forall e, index !! Z.to_nat i = Some e -> target < e.2.
Definition granules_sorted (index : list (Z * Z)) : Prop :=
  forall i j e e', (i <= j)%nat -> index !! i = Some e -> index !! j = Some e' -> e.2 <= e'.2.

Lemma seek_loop_spec fuel index target lo hi result :
  let n := Z.of_nat (length index) in
  granules_sorted index -> 0 <= result < n -> at_most index result target ->
  0 <= lo <= hi + 1 -> hi < n -> lo = result + 1 \/ lo = 0 /\ result = 0 ->
  (forall j, hi < j < n -> above index j target) -> hi - lo + 1 < Z.of_nat fuel ->
  let r := seek_loop fuel index target lo hi result in
  0 <= r < n /\ at_most index r target /\ forall j, r < j < n -> above index j target.
Proof.
  cbn zeta. intros Hs. revert lo hi result.
  induction fuel as [|fuel IH]; intros lo hi result Hr Hrt Hlo Hhi Hlr Habove Hf; [lia|].
  cbn [seek_loop]. destruct (hi <? lo) eqn:E; bool_prop.
  { split; [done|]. split; [done|]. intros j Hj. apply Habove. lia. }
  set (mid := lo + (hi - lo) / 2).
  assert (lo <= mid <= hi) as Hmid by (unfold mid; div_lia).
  destruct (lookup_lt_is_Some_2 index (Z.to_nat mid)) as [[o g] Hg]; [lia|]. rewrite Hg.
  destruct (g <=? target) eqn:Eg; bool_prop.
  - assert (at_most index mid target) as Hm by (by exists (o, g)).
    destruct (mid =? _) eqn:Em; bool_prop.
    { split; [lia|]. split; [done|]. intros j Hj. lia. }
    apply IH; try done; lia.
  - assert (forall j, mid - 1 < j < Z.of_nat (length index) -> above index j target) as Ha.
    { intros j Hj e He. assert (g <= e.2); [|lia].
      apply (Hs (Z.to_nat mid) (Z.to_nat j) (o, g) e); [lia|done|done]. }
    destruct (mid =? 0) eqn:Em; bool_prop.
    + destruct Hrt as (e & He & Hle). specialize (Ha result ltac:(lia) e He). lia.
    + apply IH; try done; lia.
Qed.

(** ** Where an entry of the index points *)
Lemma index_of_lookup offset pages i o g :
  index_of offset pages !! i = Some (o, g) ->
  exists before p after, pages = before ++ p :: after /\ boundary p = true /\
    o = offset + Z.of_nat (length (concat (map encode_page before))) /\ g = granule_of p /\
    index_of (o + page_length p) after = drop (S i) (index_of offset pages).
Proof.
  revert offset i. induction pages as [|p pages IH]; intros offset i H; [done|].
  cbn [index_of] in *. destruct (boundary p) eqn:Eb.
  - destruct i as [|i].
    + injection H as <- <-. exists [], p, pages. cbn. rewrite Z.add_0_r. by repeat split.
    + destruct (IH _ _ H) as (before & q & after & -> & Hq & -> & -> & Hi).
      exists (p :: before), q, after. split; [done|]. split; [done|].
      cbn [map concat app drop]. rewrite length_app, Nat2Z.inj_add, Z.add_assoc. unfold page_length in *.
      by repeat split.
  - destruct (IH _ _ H) as (before & q & after & -> & Hq & -> & -> & Hi).
    exists (p :: before), q, after. split; [done|]. split; [done|].
    cbn [map concat app]. rewrite length_app, Nat2Z.inj_add, Z.add_assoc. unfold page_length in *.
    by repeat split.
Qed.
Lemma index_of_boundary offset pages p : p ∈ pages -> boundary p = true ->
  exists i o, index_of offset pages !! i = Some (o, granule_of p).
Proof.
  revert offset. induction pages as [|q pages IH]; intros offset H Hb; [by apply elem_of_nil in H|].
  apply elem_of_cons in H as [<-|H]; cbn [index_of].
  - rewrite Hb. by exists 0%nat, offset.
  - destruct (IH (offset + page_length q) H Hb) as (i & o & Hi).
    destruct (boundary q); [by exists (S i), o|by exists i, o].
Qed.

Definition seek_pages : list page :=
  map (fun g => {| p_flags := 0; p_granule := [g; 0; 0; 0; 0; 0; 0; 0]; p_other := replicate 8 7;
                   p_segments := [[g; g]] |}) [0; 10; 20; 30].

(** A target before the first granule lands after it. *)
Lemma seek_below_first :
  (ogg_demux_seek_near_granule (with_index fresh_demux [(0, 5); (60, 9)] 9) 3).1 = 5.
Proof. reflexivity. Qed.

(** ** OpusTags *)
Definition encode_comment (c : list Z) : list Z := le32 (Z.of_nat (length c)) ++ c.
Definition encode_tags (vendor : list Z) (cs : list (list Z)) : list Z :=
  bs "OpusTags" ++ encode_comment vendor ++ le32 (Z.of_nat (length cs)) ++ concat (map encode_comment cs).
(** The comments a scan keeps: all, or all but the large values. *)
Definition kept (skip : bool) (c : list Z) : bool :=
  negb (skip && comment_is_large_scan_value c (Z.of_nat (length c))).

Lemma starts_with_app p s t : (length p <= length s)%nat -> starts_with p (s ++ t) = starts_with p s.
Proof.
  revert s; induction p as [|x p IH]; intros [|y s] H; cbn in *; try done; try lia.
  by rewrite IH by lia.
Qed.
Lemma large_value_app c t : comment_is_large_scan_value (c ++ t) (Z.of_nat (length c)) =
  comment_is_large_scan_value c (Z.of_nat (length c)).
Proof.
  unfold comment_is_large_scan_value. induction large_keys as [|k ks IH]; [done|]. cbn [existsb].
  rewrite IH. f_equal. destruct (Z.leb_spec (Z.of_nat (length k)) (Z.of_nat (length c))); [|done].
  unfold starts_with_ci. rewrite map_app. cbn [andb]. apply starts_with_app. rewrite !length_map. lia.
Qed.
Lemma length_comments cs : (4 * length cs <= length (concat (map encode_comment cs)))%nat.
Proof.
  induction cs as [|c cs IH]; [cbn; lia|]. cbn [map concat length]. unfold encode_comment at 1.
  rewrite !length_app, length_le32. lia.
Qed.

Definition small (n : Z) : Prop := n <= OGG_MAX_HEADER_PACKET_SIZE.
Lemma tags_loop_comments alloc skip pre cs stored :
  all_alloc alloc ->
  let data := pre ++ concat (map encode_comment cs) in
  small (Z.of_nat (length data)) ->
  tags_loop (length cs) alloc skip data (Z.of_nat (length pre)) stored =
    Some (stored ++ List.filter (kept skip) cs).
Proof.
  intros Ha. unfold small, OGG_MAX_HEADER_PACKET_SIZE. revert pre stored.
  induction cs as [|c cs IH]; intros pre stored Hsize; [cbn [tags_loop List.filter length]; by rewrite app_nil_r|].
  set (data := pre ++ _) in *. cbn [length tags_loop]. specialize (IH (pre ++ encode_comment c)).
  assert (data = (pre ++ encode_comment c) ++ concat (map encode_comment cs)) as Hd
    by (unfold data; cbn [map concat]; by rewrite app_assoc).
  assert (Z.of_nat (length data) = Z.of_nat (length pre) + 4 + Z.of_nat (length c) +
            Z.of_nat (length (concat (map encode_comment cs)))) as Hlen.
  { rewrite Hd, !length_app. unfold encode_comment at 1. rewrite length_app, length_le32. lia. }
  assert (drop (length pre) data = le32 (Z.of_nat (length c)) ++ c ++ concat (map encode_comment cs)) as Hdrop.
  { unfold data. rewrite drop_app_length. cbn [map concat]. unfold encode_comment at 1. by rewrite <- app_assoc. }
  rewrite (u32_id (_ + 4)) by (unfold in_u32; lia). rewrite (proj2 (Z.ltb_ge _ _)) by lia.
  rewrite Nat2Z.id, Hdrop, audio_read_le32 by (unfold in_u32; lia). bind_simpl.
  rewrite (u32_id (_ + _ + _)) by (unfold in_u32; lia). rewrite (proj2 (Z.ltb_ge _ _)) by lia.
  assert (drop (Z.to_nat (Z.of_nat (length pre) + 4)) data = c ++ concat (map encode_comment cs)) as ->.
  { rewrite Z2Nat.inj_add, Nat2Z.id, <- drop_drop, Hdrop by lia. done. }
  rewrite large_value_app, Ha, Nat2Z.id, take_app_length.
  rewrite (proj2 (Z.leb_le _ _)) by (rewrite length_app; lia).
  replace (Z.of_nat (length pre) + 4 + Z.of_nat (length c)) with (Z.of_nat (length (pre ++ encode_comment c)))
    by (unfold encode_comment; rewrite !length_app, length_le32; lia).
  cbn [List.filter]. unfold kept at 1. rewrite Hd in Hsize |- *.
  destruct (skip && _); rewrite IH by done; [done|]. cbn [negb]. by rewrite <- app_assoc.
Qed.

Lemma parse_opus_tags_encode alloc skip vendor cs :
  all_alloc alloc -> small (Z.of_nat (length (encode_tags vendor cs))) ->
  parse_opus_tags alloc skip (encode_tags vendor cs) = Some (List.filter (kept skip) cs).
Proof.
  intros Ha Hsize. unfold small, OGG_MAX_HEADER_PACKET_SIZE in Hsize. unfold parse_opus_tags.
  set (data := encode_tags vendor cs) in *.
  set (pre := bs "OpusTags" ++ encode_comment vendor).
  set (tail := le32 (Z.of_nat (length cs)) ++ concat (map encode_comment cs)).
  assert (data = pre ++ tail) as Hd by (unfold data, pre, tail, encode_tags; by rewrite <- app_assoc).
  assert (length pre = 12 + length vendor)%nat as Hpre by (unfold pre, encode_comment; rewrite !length_app, length_le32; cbn; lia).
  pose proof (length_comments cs) as Hc.
  assert (length tail = 4 + length (concat (map encode_comment cs)))%nat as Htail
    by (unfold tail; by rewrite length_app, length_le32).
  assert (length data = length pre + length tail)%nat as Hlen by (by rewrite Hd, length_app).
  rewrite (proj2 (Z.ltb_ge _ 8)), (proj2 (Z.ltb_ge _ 12)) by lia.
  replace (starts_with (bs "OpusTags") data) with true by (rewrite Hd; reflexivity).
  assert (drop 8 data = le32 (Z.of_nat (length vendor)) ++ vendor ++ tail) as ->.
  { rewrite Hd. unfold pre, encode_comment. by rewrite <- !app_assoc. }
  cbn [orb negb]. rewrite audio_read_le32 by (unfold in_u32; lia). bind_simpl.
  rewrite (u32_id (12 + _)) by (unfold in_u32; lia). rewrite (proj2 (Z.ltb_ge _ _)) by lia.
  rewrite (u32_id (_ + 4)) by (unfold in_u32; lia). rewrite (proj2 (Z.ltb_ge _ _)) by lia.
  replace (Z.to_nat (12 + Z.of_nat (length vendor))) with (length pre) by lia.
  assert (drop (length pre) data = tail) as -> by (rewrite Hd; apply drop_app_length).
  unfold tail. rewrite audio_read_le32 by (unfold in_u32; lia). bind_simpl. fold tail.
  assert (Z.min (Z.of_nat (length cs)) ((Z.of_nat (length data) - (12 + Z.of_nat (length vendor) + 4)) / 4) =
          Z.of_nat (length cs)) as -> by (rewrite Z.min_l; [done|]; apply Z.div_le_lower_bound; lia).
  rewrite Ha, orb_false_r. destruct cs as [|c cs]; [done|]. rewrite (proj2 (Z.eqb_neq _ 0)) by (cbn [length]; lia).
  rewrite Nat2Z.id. replace (12 + Z.of_nat (length vendor) + 4)
    with (Z.of_nat (length (pre ++ le32 (Z.of_nat (length (c :: cs)))))) by (rewrite length_app, length_le32; lia).
  rewrite Hd. unfold tail. rewrite app_assoc. rewrite tags_loop_comments; [done|done|].
  unfold small, OGG_MAX_HEADER_PACKET_SIZE. rewrite <- app_assoc. fold tail. rewrite <- Hd. lia.
Qed.
(** Tags round-trip: of a well-formed OpusTags packet within the size limit
    exactly the comments come back, in order, without the pictures and lyrics
    when these are skipped. *)
Theorem parse_opus_tags_roundtrip alloc skip vendor cs :
  all_alloc alloc -> small (Z.of_nat (length (encode_tags vendor cs))) ->
  parse_opus_tags alloc skip (encode_tags vendor cs) = Some (List.filter (kept skip) cs).
Proof. apply parse_opus_tags_encode. Qed.
Lemma parse_opus_tags_roundtrip_witness :
  parse_opus_tags (fun _ => true) true (encode_tags (bs "x") [bs "TITLE=a"; bs "Lyrics=la la"; bs "ARTIST=b"]) =
    Some [bs "TITLE=a"; bs "ARTIST=b"].
Proof.
  apply (parse_opus_tags_roundtrip (fun _ => true) true (bs "x") [bs "TITLE=a"; bs "Lyrics=la la"; bs "ARTIST=b"]).
  - done.
  - apply Z.leb_le. reflexivity.
Defined.

(** The length check wraps: a comment that claims 2^32-1 bytes passes it, and
    the copy reads outside the packet. *)
Lemma parse_opus_tags_overrun :
  parse_opus_tags (fun _ => true) false
    (bs "OpusTags" ++ le32 0 ++ le32 1 ++ le32 4294967295) = None.
Proof. vm_compute. reflexivity. Qed.
