(* ===== verification/OggOpen.v ===== *)
(** Opening an Ogg Opus file: from the pages of a well-formed file to the state
    in which playback starts. *)
From S2P Require Import Prelude Endian AudioHelpers QueueResume OggCrc Ogg OggProofs OggSeek.
Local Open Scope Z_scope.

(** A header packet is read whole, whatever its size up to the limit. *)
Lemma growable_loop_lace fuel alloc file d capacity written buf packet segs :
  all_alloc alloc -> view file d (lace packet ++ segs) -> (length packet / 255 < fuel)%nat ->
  0 <= written -> small (written + Z.of_nat (length packet)) ->
  exists d', growable_loop fuel alloc file d capacity written buf = (Some (buf ++ packet), d') /\
    view file d' segs.
Proof.
  intros Ha. unfold small, OGG_MAX_HEADER_PACKET_SIZE. revert d capacity written buf packet.
  induction fuel as [|fuel IH]; intros d capacity written buf packet Hv Hf Hw Hb; [lia|].
  cbn [growable_loop]. unfold OGG_MAX_HEADER_PACKET_SIZE at 1. destruct (decide (255 <= length packet)%nat) as [Hl|Hl].
  - rewrite lace_long in Hv by done. cbn [app] in Hv.
    destruct (next_segment_view _ _ _ _ Hv) as (d1 & -> & Hv1). rewrite length_take, Nat.min_l by lia.
    rewrite (proj2 (Z.ltb_ge _ _)) by lia. rewrite Ha, andb_false_r. cbn iota.
    change (Z.of_nat 255 <? 255) with false.
    destruct (IH d1 (if capacity <? written + Z.of_nat 255 then grow_capacity 32 (written + Z.of_nat 255) capacity else capacity)
                (written + Z.of_nat 255) (buf ++ take 255 packet) (drop 255 packet)) as (d' & -> & Hv');
      [done| |lia|rewrite length_drop; lia|].
    + rewrite length_drop. assert (length packet = (length packet - 255) + 1 * 255)%nat as E by lia.
      rewrite E, Nat.div_add in Hf by done. lia.
    + exists d'. split; [|done]. by rewrite <- app_assoc, take_drop.
  - rewrite lace_short in Hv by lia. cbn [app] in Hv.
    destruct (next_segment_view _ _ _ _ Hv) as (d1 & -> & Hv1).
    rewrite (proj2 (Z.ltb_ge _ _)) by lia. rewrite Ha, andb_false_r. cbn iota.
    rewrite (proj2 (Z.ltb_lt (Z.of_nat (length packet)) 255)) by lia. by exists d1.
Qed.
Lemma read_packet_growable_view alloc file d packet segs :
  all_alloc alloc -> view file d (lace packet ++ segs) -> small (Z.of_nat (length packet)) ->
  exists d', read_packet_growable alloc file d = (Some packet, d') /\ view file d' segs.
Proof.
  intros Ha Hv Hs. unfold read_packet_growable. rewrite Ha. cbn [negb].
  change packet with ([] ++ packet) at 1. apply growable_loop_lace; try done. unfold small in Hs.
  assert (Z.of_nat (length packet) / 255 <= OGG_MAX_HEADER_PACKET_SIZE / 255) by (apply Z.div_le_mono; lia).
  change 255%nat with (Z.to_nat 255). rewrite <- (Nat2Z.id (length packet)), <- Z2Nat.inj_div by lia. lia.
Qed.

(** The OpusHead packet of a mono or stereo stream. *)
Definition opus_head (version channels pre_skip : Z) (rate_and_gain : list Z) : list Z :=
  bs "OpusHead" ++ [version; channels; u8 pre_skip; u8 (Z.shiftr pre_skip 8)] ++ rate_and_gain ++ [0].
Lemma parse_opus_head_ok version channels pre_skip rg :
  0 <= version < 16 -> channels = 1 \/ channels = 2 -> 0 <= pre_skip < 65536 -> length rg = 6%nat ->
  parse_opus_head (opus_head version channels pre_skip rg) = Some (channels, pre_skip).
Proof.
  intros Hv Hc Hp Hr. do 6 (destruct rg as [|? rg]; [done|]). destruct rg; [|done].
  assert (Z.land version 240 = 0) as Hland.
  { apply Z.bits_inj'. intros i Hi. rewrite Z.land_spec, Z.bits_0. change 240 with (Z.shiftl 15 4).
    destruct (Z.ltb_spec i 4).
    - rewrite Z.shiftl_spec_low by lia. apply andb_false_r.
    - rewrite <- (Z.mod_small version (2 ^ 4)) by lia. by rewrite Z.mod_pow2_bits_high by lia. }
  unfold parse_opus_head. set (data := opus_head _ _ _ _).
  assert (audio_read_u16le (drop 10 data) = Some pre_skip) as ->.
  { change (Some (u16 (Z.lor (u8 pre_skip) (Z.shiftl (u8 (Z.shiftr pre_skip 8)) 8))) = Some pre_skip).
    f_equal. rewrite Z.lor_comm, lor_shiftl_add by (try lia; apply u8_range). unfold u8, u16.
    rewrite Z.shiftr_div_pow2 by lia. change (2 ^ 8) with 256. div_lia. }
  change (data !! 8%nat) with (Some version). change (data !! 9%nat) with (Some channels).
  change (data !! 18%nat) with (Some 0). change (Z.of_nat (length data) <? 19) with false.
  change (starts_with (bs "OpusHead") data) with true. bind_simpl. rewrite Hland.
  by destruct Hc as [-> | ->].
Qed.

(** C27. Opening a well-formed Ogg Opus file for its metadata yields the stream
    it holds: the head's channels and pre-skip, the tags' comments, and the
    audio segments, all of them and nothing else, ahead of the read cursor --
    the state [ogg_read_packets] starts from. *)
Theorem ogg_demux_open_metadata_ok alloc pages page0 version channels pre_skip rg vendor cs segs skip :
  let file := concat (map encode_page (page0 :: pages)) in
  all_alloc alloc -> Forall page_ok (page0 :: pages) -> Z.land (p_flags page0) 2 <> 0 ->
  0 <= version < 16 -> channels = 1 \/ channels = 2 -> 0 <= pre_skip < 65536 -> length rg = 6%nat ->
  small (Z.of_nat (length (encode_tags vendor cs))) ->
  concat (map p_segments (page0 :: pages)) =
    lace (opus_head version channels pre_skip rg) ++ lace (encode_tags vendor cs) ++ segs ->
  exists d, ogg_demux_open_metadata alloc (Some file) skip = Opened d /\
    Ogg.channels d = channels /\ Ogg.pre_skip d = pre_skip /\
    comments d = List.filter (kept skip) cs /\ view file d segs.
Proof.
  intros file Ha Hp Hbos Hv Hc Hps Hr Hsmall Hsegs.
  unfold ogg_demux_open_metadata, ogg_demux_open_internal.
  assert (Forall page_ok (page0 :: pages)) as Hall by done. apply Forall_cons_iff in Hp as [Hp0 Hp].
  rewrite (load_page_at_encode file fresh_demux page0 0 (concat (map encode_page pages)) Hp0) by done.
  cbn [negb orb header_type loaded with_page]. rewrite (proj2 (Z.eqb_neq _ 0)) by done.
  set (d0 := loaded fresh_demux page0 0).
  assert (view file d0 (lace (opus_head version channels pre_skip rg) ++ lace (encode_tags vendor cs) ++ segs)) as Hv0.
  { rewrite <- Hsegs. exists (p_segments page0), pages, []. split; [done|].
    split; [by apply current_loaded|]. cbn [d0 next_page_offset loaded with_page]. split; [lia|].
    split; [|done]. rewrite app_nil_r. rewrite Z.add_0_l, Nat2Z.id. apply drop_app_length. }
  destruct (read_packet_growable_view alloc file d0 _ _ Ha Hv0) as (d1 & -> & Hv1).
  { unfold small, OGG_MAX_HEADER_PACKET_SIZE, opus_head. rewrite !length_app, Hr. cbn. lia. }
  rewrite parse_opus_head_ok by done.
  destruct (read_packet_growable_view alloc file d1 _ _ Ha Hv1) as (d2 & -> & Hv2); [done|].
  rewrite parse_opus_tags_encode by done. cbn [negb].
  eexists. split; [done|]. split; [done|]. split; [done|]. split; [done|]. exact Hv2.
Qed.
Definition opus_pages (cs : list (list Z)) (audio : list Z) : list page :=
  [ {| p_flags := 2; p_granule := replicate 8 0; p_other := replicate 8 1;
       p_segments := lace (opus_head 1 2 312 (replicate 6 0)) |};
    {| p_flags := 0; p_granule := replicate 8 0; p_other := replicate 8 1;
       p_segments := lace (encode_tags (bs "v") cs) |};
    {| p_flags := 4; p_granule := 9 :: replicate 7 0; p_other := replicate 8 1;
       p_segments := lace audio |} ].
Lemma ogg_demux_open_metadata_ok_witness :
  let file := concat (map encode_page (opus_pages [bs "TITLE=x"] [1; 2; 3])) in
  exists d, ogg_demux_open_metadata (fun _ => true) (Some file) false = Opened d /\
    channels d = 2 /\ pre_skip d = 312 /\ comments d = [bs "TITLE=x"] /\ view file d [[1; 2; 3]].
Proof.
  apply (ogg_demux_open_metadata_ok (fun _ => true)
           (drop 1 (opus_pages [bs "TITLE=x"] [1; 2; 3])) (hd empty_page (opus_pages [bs "TITLE=x"] [1; 2; 3]))
           1 2 312 (replicate 6 0) (bs "v") [bs "TITLE=x"] [[1; 2; 3]] false).
  - done.
  - repeat (constructor; [apply page_ok_b_ok; vm_compute; reflexivity|]). constructor.
  - done.
  - lia.
  - by right.
  - lia.
  - done.
  - apply Z.leb_le. reflexivity.
  - vm_compute. reflexivity.
Defined.
