(* ===== verification/SdReady.v ===== *)
(** Waiting for the SD card in src/bootloader/sd_ready.c: the polling state
    machine over injected probes. The probes are a parameter: each acts on a
    world, which it may change (time passes, a mount appears). *)
From S2P Require Import Prelude.
Local Open Scope Z_scope.

(** ** Data *)
Inductive sd_ready_stage_t :=
| SD_READY_STAGE_NONE | SD_READY_STAGE_MMC_EVIDENCE | SD_READY_STAGE_NODE_PRESENT
| SD_READY_STAGE_MOUNTED | SD_READY_STAGE_EXEC_READY.
Definition stage_value (s : sd_ready_stage_t) : Z :=
  match s with
  | SD_READY_STAGE_NONE => 0 | SD_READY_STAGE_MMC_EVIDENCE => 1 | SD_READY_STAGE_NODE_PRESENT => 2
  | SD_READY_STAGE_MOUNTED => 3 | SD_READY_STAGE_EXEC_READY => 4
  end.
#[export] Instance stage_eq_dec : EqDecision sd_ready_stage_t.
Proof. solve_decision. Defined.

(** [sd_ready_probes_t] on a world [W]. *)
Record sd_ready_probes_t (W : Type) := {
  path_exists : W -> list Z -> bool * W;
  mount_point_mounted : W -> bool * W;
  try_mount : W -> list Z -> Z -> W;
  mmc_evidence_present : W -> bool * W;
  path_is_executable : W -> list Z -> bool * W;
  monotonic_ms : W -> Z * W;
  wait_ms : W -> Z -> W }.
Arguments path_exists {W}. Arguments mount_point_mounted {W}. Arguments try_mount {W}.
Arguments mmc_evidence_present {W}. Arguments path_is_executable {W}.
Arguments monotonic_ms {W}. Arguments wait_ms {W}.

Record sd_ready_result_t := {
  stage : sd_ready_stage_t; saw_mmc_evidence : bool; saw_whole_node : bool;
  saw_partition_node : bool; r_mounted : bool; executable_ready : bool;
  device_node_used : option (list Z); elapsed_ms : Z }.

Definition stage_from_evidence (mmc_evidence whole_node partition_node mounted exec_ready : bool)
    : sd_ready_stage_t :=
  if exec_ready then SD_READY_STAGE_EXEC_READY
  else if mounted then SD_READY_STAGE_MOUNTED
  else if whole_node || partition_node then SD_READY_STAGE_NODE_PRESENT
  else if mmc_evidence then SD_READY_STAGE_MMC_EVIDENCE else SD_READY_STAGE_NONE.

(** The arguments of [wait_for_sd_ready] after the probes. *)
Record sd_config := {
  partition_node : list Z; whole_disk_node : list Z; exec_candidates : list (list Z);
  short_deadline_ms : Z; extended_deadline_ms : Z; hard_deadline_ms : Z;
  poll_interval_ms : Z; exec_grace_ms : Z }.

(** The local variables that live across rounds, [result] unpacked. *)
Record sd_state := {
  mmc : bool; whole : bool; partition : bool; mounted_once : bool; used : option (list Z);
  stage_at_short_checkpoint : sd_ready_stage_t; short_checkpoint_done : bool;
  extended_checkpoint_done : bool; mounted_at_ms : Z }.
Definition sd_init : sd_state :=
  {| mmc := false; whole := false; partition := false; mounted_once := false; used := None;
     stage_at_short_checkpoint := SD_READY_STAGE_NONE; short_checkpoint_done := false;
     extended_checkpoint_done := false; mounted_at_ms := -1 |}.
Definition result_of (s : sd_state) (st : sd_ready_stage_t) (exec : bool) (elapsed : Z) : sd_ready_result_t :=
  {| stage := st; saw_mmc_evidence := mmc s; saw_whole_node := whole s;
     saw_partition_node := partition s; r_mounted := mounted_once s; executable_ready := exec;
     device_node_used := used s; elapsed_ms := elapsed |}.
Definition current_stage (s : sd_state) : sd_ready_stage_t :=
  stage_from_evidence (mmc s) (whole s) (partition s) (mounted_once s) false.

Section Wait.
Context {W : Type} (probes : sd_ready_probes_t W) (c : sd_config).

Fixpoint any_exec_ready (w : W) (candidates : list (list Z)) : bool * W :=
  match candidates with
  | [] => (false, w)
  | p :: rest => let '(ok, w) := path_is_executable probes w p in
                 if ok then (true, w) else any_exec_ready w rest
  end.

(** Whether the node was seen, whether it got mounted, the world. *)
Definition try_mount_candidate_node (w : W) (node : list Z) (start elapsed : Z) : bool * bool * W :=
  let '(exists_, w) := path_exists probes w node in
  if negb exists_ then (false, false, w) else
  let '(before, w) := monotonic_ms probes w in
  let remaining := hard_deadline_ms c - (if 0 <=? before then before - start else elapsed) in
  let w := try_mount probes w node remaining in
  let '(mounted, w) := mount_point_mounted probes w in
  (true, mounted, w).

(** A round ends the wait, or goes on with or without having slept. *)
Inductive round :=
| Return (r : sd_ready_result_t)
| Continue (s : sd_state) (w : W).

(** The end of a round: the deadlines, and the sleep. *)
Definition finish_round (s : sd_state) (w : W) (elapsed : Z) : round :=
  let cur := current_stage s in
  if hard_deadline_ms c <=? elapsed then Return (result_of s cur false elapsed) else
  let at_extended := (extended_deadline_ms c <=? elapsed) && negb (extended_checkpoint_done s) in
  if at_extended && (stage_value cur <=? stage_value (stage_at_short_checkpoint s))
  then Return (result_of s cur false elapsed) else
  let at_short := (short_deadline_ms c <=? elapsed) && negb (short_checkpoint_done s) in
  if at_short && bool_decide (cur = SD_READY_STAGE_NONE)
  then Return (result_of s cur false elapsed) else
  let s := {| mmc := mmc s; whole := whole s; partition := partition s; mounted_once := mounted_once s;
              used := used s;
              stage_at_short_checkpoint := if at_short then cur else stage_at_short_checkpoint s;
              short_checkpoint_done := at_short || short_checkpoint_done s;
              extended_checkpoint_done := at_extended || extended_checkpoint_done s;
              mounted_at_ms := mounted_at_ms s |} in
  let time_left_to_hard := hard_deadline_ms c - elapsed in
  let sleep_ms := if time_left_to_hard <? poll_interval_ms c then time_left_to_hard else poll_interval_ms c in
  Continue s (wait_ms probes w sleep_ms).

Definition see (s : sd_state) (mmc' whole' partition' : bool) (used' : option (list Z)) : sd_state :=
  {| mmc := mmc'; whole := whole'; partition := partition'; mounted_once := mounted_once s;
     used := used'; stage_at_short_checkpoint := stage_at_short_checkpoint s;
     short_checkpoint_done := short_checkpoint_done s;
     extended_checkpoint_done := extended_checkpoint_done s; mounted_at_ms := mounted_at_ms s |}.
Definition see_mounted (s : sd_state) (at_ms : Z) : sd_state :=
  {| mmc := mmc s; whole := whole s; partition := partition s; mounted_once := true; used := used s;
     stage_at_short_checkpoint := stage_at_short_checkpoint s;
     short_checkpoint_done := short_checkpoint_done s;
     extended_checkpoint_done := extended_checkpoint_done s; mounted_at_ms := at_ms |}.

(** One round of the [for (;;)]. *)
Definition poll_round (s : sd_state) (w : W) (start : Z) : round :=
  let '(now, w) := monotonic_ms probes w in
  if now <? 0 then Return (result_of s SD_READY_STAGE_NONE false (-1)) else
  let elapsed := now - start in
  let '(mounted, w) := mount_point_mounted probes w in
  if mounted then
    let s := see_mounted s (if mounted_at_ms s <? 0 then elapsed else mounted_at_ms s) in
    let '(ready, w) := any_exec_ready w (exec_candidates c) in
    if ready then Return (result_of s SD_READY_STAGE_EXEC_READY true elapsed)
    else if exec_grace_ms c <=? elapsed - mounted_at_ms s
    then Return (result_of s SD_READY_STAGE_MOUNTED false elapsed)
    else finish_round s w elapsed
  else
    let '(seen, ok, w) := try_mount_candidate_node w (partition_node c) start elapsed in
    let s := see s (mmc s) (whole s) (seen || partition s) (used s) in
    if ok then Continue (see s (mmc s) (whole s) (partition s) (Some (partition_node c))) w else
    let '(seen, ok, w) := try_mount_candidate_node w (whole_disk_node c) start elapsed in
    let s := see s (mmc s) (seen || whole s) (partition s) (used s) in
    if ok then Continue (see s (mmc s) (whole s) (partition s) (Some (whole_disk_node c))) w else
    if negb (whole s) && negb (partition s) then
      let '(evidence, w) := mmc_evidence_present probes w in
      finish_round (see s (evidence || mmc s) (whole s) (partition s) (used s)) w elapsed
    else finish_round s w elapsed.

Fixpoint poll_loop (fuel : nat) (s : sd_state) (w : W) (start : Z) : option sd_ready_result_t :=
  match fuel with
  | O => None
  | S fuel => match poll_round s w start with
              | Return r => Some r
              | Continue s w => poll_loop fuel s w start
              end
  end.

(** [wait_for_sd_ready]; [None] when [fuel] rounds do not end the wait. *)
Definition wait_for_sd_ready (fuel : nat) (w : W) : option sd_ready_result_t :=
  let '(start, w) := monotonic_ms probes w in
  if start <? 0 then
    let '(mounted, w) := mount_point_mounted probes w in
    let ready := if mounted then fst (any_exec_ready w (exec_candidates c)) else false in
    Some {| stage := stage_from_evidence false false false mounted ready;
            saw_mmc_evidence := false; saw_whole_node := false; saw_partition_node := false;
            r_mounted := mounted; executable_ready := ready; device_node_used := None; elapsed_ms := -1 |}
  else poll_loop fuel sd_init w start.
End Wait.

(** ** What a result means *)

(** The flags of a result agree with each other and with its stage; a wait
    whose clock works ends without a mount only at one of its deadlines. *)
Definition result_consistent (c : sd_config) (r : sd_ready_result_t) : Prop :=
  (0 <= elapsed_ms r ->
     stage r = stage_from_evidence (saw_mmc_evidence r) (saw_whole_node r) (saw_partition_node r)
                 (r_mounted r) (executable_ready r)) /\
  (executable_ready r = true -> r_mounted r = true) /\
  (forall n, device_node_used r = Some n ->
     n = partition_node c /\ saw_partition_node r = true \/
     n = whole_disk_node c /\ saw_whole_node r = true) /\
  (0 <= elapsed_ms r -> r_mounted r = false ->
     short_deadline_ms c <= elapsed_ms r \/ extended_deadline_ms c <= elapsed_ms r \/
     hard_deadline_ms c <= elapsed_ms r).

Section Facts.
Context {W : Type} (probes : sd_ready_probes_t W) (c : sd_config).

Definition used_seen (s : sd_state) : Prop :=
  forall n, used s = Some n ->
    n = partition_node c /\ partition s = true \/ n = whole_disk_node c /\ whole s = true.
Definition round_ok (r : round (W := W)) : Prop :=
  match r with Return r => result_consistent c r | Continue s _ => used_seen s end.

Lemma finish_round_ok s w elapsed : used_seen s -> round_ok (finish_round (W := W) probes c s w elapsed).
Proof.
  intros Hs. unfold finish_round.
  destruct (hard_deadline_ms c <=? elapsed) eqn:E1; bool_prop;
    [|destruct (_ && (_ <=? _)) eqn:E2; [|destruct (_ && bool_decide _) eqn:E3; [|done]]];
    (split; [done|split; [done|split; [exact Hs|cbn; intros _ _; bool_prop; lia]]]).
Qed.

Lemma poll_round_ok s w start : used_seen s -> round_ok (poll_round probes c s w start).
Proof.
  intros Hs. unfold poll_round. destruct (monotonic_ms probes w) as [now w1].
  destruct (now <? 0); [by repeat split|]. destruct (mount_point_mounted probes w1) as [m w2].
  destruct m.
  - destruct (any_exec_ready probes w2 _) as [ready w3]. destruct ready; [by repeat split|].
    destruct (_ <=? _); [by repeat split|]. by apply finish_round_ok.
  - destruct (try_mount_candidate_node probes c w2 (partition_node c) _ _) as [[seen ok] w3] eqn:E1.
    assert (ok = true -> seen = true) as H1.
    { revert E1. unfold try_mount_candidate_node. destruct (path_exists _ _ _) as [[] ?]; [|by intros [=<- <- _]].
      destruct (monotonic_ms _ _). destruct (mount_point_mounted _ _). by intros [=<- _ _]. }
    destruct ok; [intros n [=<-]; left; by rewrite H1|].
    destruct (try_mount_candidate_node probes c w3 (whole_disk_node c) _ _) as [[seen2 ok2] w4] eqn:E2.
    assert (ok2 = true -> seen2 = true) as H2.
    { revert E2. unfold try_mount_candidate_node. destruct (path_exists _ _ _) as [[] ?]; [|by intros [=<- <- _]].
      destruct (monotonic_ms _ _). destruct (mount_point_mounted _ _). by intros [=<- _ _]. }
    destruct ok2; [intros n [=<-]; right; by rewrite H2|].
    assert (used_seen (see (see s (mmc s) (whole s) (seen || partition s) (used s)) (mmc s)
              (seen2 || whole s) (seen || partition s) (used s))) as Hs'.
    { intros n Hn. cbn in Hn. destruct (Hs n Hn) as [[-> Hp]|[-> Hp]]; cbn; rewrite Hp, orb_true_r; auto. }
    cbn [see mmc whole partition used]. destruct (negb _ && negb _); [|by apply finish_round_ok].
    destruct (mmc_evidence_present probes w4). by apply finish_round_ok.
Qed.

(** What the wait reports is consistent, whatever the probes answer: the
    stage is the highest milestone its flags record, a ready executable implies
    a mount, the device node named is one that was seen, and while the clock
    works it gives up on an unmounted card only at a deadline. *)
Theorem wait_for_sd_ready_consistent fuel w r :
  wait_for_sd_ready probes c fuel w = Some r -> result_consistent c r.
Proof.
  unfold wait_for_sd_ready. destruct (monotonic_ms probes w) as [start w1]. destruct (start <? 0).
  - destruct (mount_point_mounted probes w1) as [m w2]. intros [=<-].
    repeat split; cbn; try lia; try done. by destruct m.
  - assert (used_seen sd_init) as Hs by done. revert Hs. generalize sd_init as s. revert w1.
    induction fuel as [|fuel IH]; intros w1 s Hs; [done|]. cbn [poll_loop].
    pose proof (poll_round_ok s w1 start Hs) as Hr.
    destruct (poll_round probes c s w1 start) as [r'|s' w']; [by intros [=<-]|]. by apply IH.
Qed.

(** ** Termination *)

(** What the code relies on: a clock that does not go back and, once broken,
    stays broken; a wait that takes time; a mount that is still there when it
    is looked at right after it was seen. *)
Definition time (w : W) : Z := fst (monotonic_ms probes w).
Definition later (w w' : W) : Prop := time w' < 0 \/ 0 <= time w <= time w'.
Record probe_laws : Prop := {
  law_exists : forall w p, later w (snd (path_exists probes w p));
  law_mounted : forall w, later w (snd (mount_point_mounted probes w));
  law_try : forall w n ms, later w (try_mount probes w n ms);
  law_mmc : forall w, later w (snd (mmc_evidence_present probes w));
  law_exec : forall w p, later w (snd (path_is_executable probes w p));
  law_clock : forall w, later w (snd (monotonic_ms probes w));
  law_wait : forall w ms, 1 <= ms ->
    time (wait_ms probes w ms) < 0 \/ 0 <= time w /\ time w + 1 <= time (wait_ms probes w ms);
  law_mount_stable : forall w w', mount_point_mounted probes w = (true, w') ->
    fst (mount_point_mounted probes (snd (monotonic_ms probes w'))) = true }.
Context (laws : probe_laws) (Hpoll : 1 <= poll_interval_ms c).

Lemma later_trans w1 w2 w3 : later w1 w2 -> later w2 w3 -> later w1 w3.
Proof using. clear. unfold later. lia. Qed.

Lemma later_refl w : later w w.
Proof using. clear. unfold later. lia. Qed.
Lemma any_exec_later w l : later w (snd (any_exec_ready probes w l)).
Proof using laws.
  revert w; induction l as [|p l IH]; intros w; [apply later_refl|]. cbn [any_exec_ready].
  pose proof (law_exec laws w p) as H. destruct (path_is_executable probes w p) as [[] w']; [done|].
  by apply later_trans with w'.
Qed.
Lemma candidate_later w node start elapsed seen ok w' :
  try_mount_candidate_node probes c w node start elapsed = (seen, ok, w') ->
  later w w' /\ (ok = true -> fst (mount_point_mounted probes (snd (monotonic_ms probes w'))) = true).
Proof using laws.
  unfold try_mount_candidate_node. pose proof (law_exists laws w node) as H1.
  destruct (path_exists probes w node) as [[] w1]; [|intros [=<- <- <-]; by split].
  pose proof (law_clock laws w1) as H2. destruct (monotonic_ms probes w1) as [before w2].
  set (w3 := try_mount probes w2 node _). pose proof (law_try laws w2 node _ : later w2 w3) as H3.
  pose proof (law_mounted laws w3) as H4. pose proof (law_mount_stable laws w3) as H5.
  destruct (mount_point_mounted probes w3) as [m w4]. intros [=<- <- <-]. cbn [fst snd] in *. split.
  - eapply later_trans; [|exact H4]. eapply later_trans; [|exact H3]. by eapply later_trans.
  - intros ->. by apply H5.
Qed.

Lemma finish_round_sleeps s w elapsed :
  (exists r, finish_round probes c s w elapsed = Return r) \/
  elapsed < hard_deadline_ms c /\ exists s' ms, 1 <= ms /\
    finish_round probes c s w elapsed = Continue s' (wait_ms probes w ms).
Proof using Hpoll.
  clear laws. unfold finish_round. destruct (hard_deadline_ms c <=? elapsed) eqn:E1; [left; by eexists|]. bool_prop.
  destruct (_ && (_ <=? _)); [left; by eexists|]. destruct (_ && bool_decide _); [left; by eexists|].
  right. split; [done|]. do 2 eexists. split; [|done]. destruct (_ <? poll_interval_ms c); lia.
Qed.

(** A world where the card will be seen mounted in the next round. *)
Definition stable (w : W) : Prop :=
  fst (mount_point_mounted probes (snd (monotonic_ms probes w))) = true.
(** A round returns, or the clock moves on before the hard deadline, or the card
    has just been mounted. *)
Definition progress (w : W) (start : Z) (r : round (W := W)) : Prop :=
  (exists res, r = Return res) \/
  (exists s' w', r = Continue s' w' /\
     time w - start < hard_deadline_ms c /\ (time w' < 0 \/ time w + 1 <= time w')) \/
  (exists s' w', r = Continue s' w' /\ later w w' /\ stable w').

Lemma finish_progress s w w0 start :
  later w0 w -> progress w0 start (finish_round probes c s w (time w0 - start)).
Proof using laws Hpoll.
  intros Hl. destruct (finish_round_sleeps s w (time w0 - start)) as [[r Hr]|(He & s' & ms & Hms & Hr)].
  - left. by exists r.
  - right. left. do 2 eexists. split; [exact Hr|]. split; [done|]. destruct (law_wait laws w ms Hms) as [?|[? ?]]; [by left|].
    destruct Hl; [lia|]. right. lia.
Qed.

Lemma poll_round_progress s w start :
  progress w start (poll_round probes c s w start) /\
  (stable w -> (exists r, poll_round probes c s w start = Return r) \/
     exists s' w', poll_round probes c s w start = Continue s' w' /\
       time w - start < hard_deadline_ms c /\ (time w' < 0 \/ time w + 1 <= time w')).
Proof using laws Hpoll.
  unfold poll_round, stable. pose proof (law_clock laws w) as H1. change (fst (monotonic_ms probes w)) with (time w) in *.
  assert (fst (monotonic_ms probes w) = time w) as Ht by done.
  destruct (monotonic_ms probes w) as [now w1]. cbn [fst snd] in *. subst now.
  destruct (time w <? 0); [by split; [left|intros _; left]; eexists|].
  pose proof (law_mounted laws w1) as H2. destruct (mount_point_mounted probes w1) as [m w2]. cbn [fst snd] in *.
  assert (later w w2) as Hw2 by (by eapply later_trans). destruct m.
  - pose proof (any_exec_later w2 (exec_candidates c)) as H3.
    destruct (any_exec_ready probes w2 _) as [ready w3]. cbn [snd] in H3.
    destruct ready; [by split; [left|intros _; left]; eexists|].
    destruct (_ <=? _); [by split; [left|intros _; left]; eexists|].
    set (s1 := see_mounted _ _). assert (later w w3) as Hl by (by eapply later_trans).
    split; [by apply finish_progress|]. intros _.
    destruct (finish_round_sleeps s1 w3 (time w - start)) as [[r Hr]|(He & s' & ms & Hms & Hr)];
      [left; by exists r|]. right. do 2 eexists. split; [exact Hr|].
    split; [done|]. destruct (law_wait laws w3 ms Hms) as [?|[? ?]]; [by left|]. destruct Hl; [lia|]. right. lia.
  - split; [|done].
    destruct (try_mount_candidate_node probes c w2 (partition_node c) _ _) as [[seen ok] w3] eqn:E1.
    apply candidate_later in E1 as [H3 H3s]. assert (later w w3) as Hl3 by (by eapply later_trans).
    destruct ok; [right; right; do 2 eexists; split; [done|]; split; [done|]; by apply H3s|].
    destruct (try_mount_candidate_node probes c w3 (whole_disk_node c) _ _) as [[seen2 ok2] w4] eqn:E2.
    apply candidate_later in E2 as [H4 H4s]. assert (later w w4) as Hl4 by (by eapply later_trans).
    destruct ok2; [right; right; do 2 eexists; split; [done|]; split; [done|]; by apply H4s|].
    destruct (negb _ && negb _); [|by apply finish_progress].
    pose proof (law_mmc laws w4) as H5. destruct (mmc_evidence_present probes w4) as [ev w5].
    apply finish_progress. by eapply later_trans.
Qed.

Lemma poll_round_broken s w start : time w < 0 -> exists r, poll_round probes c s w start = Return r.
Proof using.
  clear laws Hpoll. intros H. unfold poll_round, time in *. destruct (monotonic_ms probes w) as [now w1]. cbn [fst] in H.
  rewrite (proj2 (Z.ltb_lt now 0)) by done. by eexists.
Qed.
Lemma poll_loop_broken fuel s w start : time w < 0 ->
  exists r, poll_loop probes c (S fuel) s w start = Some r.
Proof using.
  clear laws Hpoll. intros H. cbn [poll_loop]. destruct (poll_round_broken s w start H) as [r ->]. by exists r.
Qed.

Lemma poll_loop_ends k fuel s w start :
  hard_deadline_ms c - (time w - start) <= Z.of_nat k ->
  (2 * k + 2 <= fuel)%nat \/ (2 * k + 1 <= fuel)%nat /\ stable w ->
  exists r, poll_loop probes c fuel s w start = Some r.
Proof using laws Hpoll.
  revert k s w. induction fuel as [|fuel IH]; intros k s w Hk Hf; [lia|]. cbn [poll_loop].
  destruct (poll_round_progress s w start) as [Hp Hst].
  assert ((exists r, poll_round probes c s w start = Return r) \/
    (exists s' w', poll_round probes c s w start = Continue s' w' /\
       time w - start < hard_deadline_ms c /\ (time w' < 0 \/ time w + 1 <= time w')) \/
    (2 * k + 2 <= S fuel)%nat /\ exists s' w', poll_round probes c s w start = Continue s' w' /\
       later w w' /\ stable w') as [[r ->]|[(s' & w' & -> & H)|(Hf' & s' & w' & -> & Hl & Hs)]].
  { destruct Hf as [Hf|[Hf Hs]].
    - destruct Hp as [?|[?|?]]; auto.
    - destruct (Hst Hs); auto. }
  - by exists r.
  - destruct H as [H1 [H|H2]]; [destruct fuel as [|fuel]; [lia|by apply poll_loop_broken]|].
    destruct k as [|k]; [lia|]. apply (IH k); [lia|]. left. lia.
  - destruct Hl as [Hl|Hl]; [destruct fuel as [|fuel]; [lia|by apply poll_loop_broken]|].
    apply (IH k); [lia|]. right. split; [lia|done].
Qed.

End Facts.

(** ** A card that appears *)

(** A world is a time and a mount; the card's node appears after [appears], a
    mount of it then succeeds, and the executable is there. *)
Record example_world := { now : nat; is_mounted : bool }.
Definition example_probes (appears : Z) : sd_ready_probes_t example_world :=
  {| path_exists := fun w _ => (appears <=? Z.of_nat (now w), w);
     mount_point_mounted := fun w => (is_mounted w, w);
     try_mount := fun w _ _ => {| now := now w + 5; is_mounted := true |};
     mmc_evidence_present := fun w => (appears <=? Z.of_nat (now w) + 1000, w);
     path_is_executable := fun w _ => (true, w);
     monotonic_ms := fun w => (Z.of_nat (now w), w);
     wait_ms := fun w ms => {| now := now w + Z.to_nat ms; is_mounted := is_mounted w |} |}.
Definition example_config : sd_config :=
  {| partition_node := bs "/dev/mmcblk0p1"; whole_disk_node := bs "/dev/mmcblk0";
     exec_candidates := [bs "/data/mnt/sd_0/player"]; short_deadline_ms := 300;
     extended_deadline_ms := 1500; hard_deadline_ms := 3000; poll_interval_ms := 100;
     exec_grace_ms := 200 |}.
Definition example_start : example_world := {| now := 10%nat; is_mounted := false |}.

(** The card's evidence extends the wait past the short deadline, and it is
    found; without a card the wait ends at the short deadline. *)
Lemma example_card : exists r,
  wait_for_sd_ready (example_probes 900) example_config 100 example_start = Some r /\
  stage r = SD_READY_STAGE_EXEC_READY /\ elapsed_ms r = 905.
Proof. eexists. split; [vm_compute; reflexivity|]. by split. Qed.
Lemma wait_for_sd_ready_consistent_witness : exists r,
  wait_for_sd_ready (example_probes 100000) example_config 100 example_start = Some r /\
  result_consistent example_config r.
Proof.
  destruct (wait_for_sd_ready (example_probes 100000) example_config 100 example_start) as [r|] eqn:E.
  - exists r. split; [reflexivity|]. exact (wait_for_sd_ready_consistent _ _ 100 example_start r E).
  - exfalso. vm_compute in E. discriminate.
Defined.
