(* ===== verification/SdFsck.v ===== *)
(** The decisions of src/core/sd_fsck.c about repairing the SD card: the mount
    table, the checker and its arguments. *)
From S2P Require Import Prelude.
Local Open Scope Z_scope.

(** ** Operations *)
Inductive sd_fs_kind_t := SD_FS_KIND_UNKNOWN | SD_FS_KIND_VFAT | SD_FS_KIND_EXFAT | SD_FS_KIND_NTFS.
#[export] Instance sd_fs_kind_eq_dec : EqDecision sd_fs_kind_t.
Proof. solve_decision. Defined.

Definition SD_FSCK_DEVICE_BYTES : nat := 96.
Definition SD_FSCK_MOUNT_BYTES : nat := 160.
Definition SD_FSCK_FSTYPE_BYTES : nat := 32.
Definition SD_FSCK_TOOL_BYTES : nat := 128.

Record sd_mount_info_t := {
  found : bool; readonly : bool; kind : sd_fs_kind_t; device : list Z; mount_point : list Z;
  fstype : list Z }.
Definition no_mount : sd_mount_info_t :=
  {| found := false; readonly := false; kind := SD_FS_KIND_UNKNOWN; device := []; mount_point := [];
     fstype := [] |}.

Definition is_octal (b : Z) : bool := (48 <=? b) && (b <=? 55).
(** [unescape_field]: the bytes written before the terminator, or [None] when
    they do not fit. *)
Fixpoint unescape_loop (fuel : nat) (s : list Z) (out_size : nat) (out : list Z) : option (list Z) :=
  match fuel with
  | O => Some out
  | S fuel =>
      match s with
      | [] => Some out
      | c :: rest =>
          let '(value, rest) :=
            match rest with
            | a :: b :: d :: rest' =>
                if (c =? 92) && is_octal a && is_octal b && is_octal d
                then (u8 ((a - 48) * 64 + (b - 48) * 8 + (d - 48)), rest') else (c, rest)
            | _ => (c, rest)
            end in
          if (out_size <=? length out + 1)%nat then None
          else unescape_loop fuel rest out_size (out ++ [value])
      end
  end.
Definition unescape_field (s : list Z) (out_size : nat) : option (list Z) :=
  unescape_loop (length s) s out_size [].

(** The pieces between the separators. *)
Fixpoint split_on (sep : Z) (cur s : list Z) : list (list Z) :=
  match s with
  | [] => [cur]
  | c :: s => if c =? sep then cur :: split_on sep [] s else split_on sep (cur ++ [c]) s
  end.
(** [option_token]: a trailing empty piece is not looked at. *)
Fixpoint option_pieces (token : list Z) (pieces : list (list Z)) : bool :=
  match pieces with
  | [] => false
  | [p] => match p with [] => false | _ => bytes_eqb p token end
  | p :: rest => bytes_eqb p token || option_pieces token rest
  end.
Definition option_token (options token : list Z) : bool := option_pieces token (split_on 44 [] options).

Definition sd_mount_point (path : list Z) : bool :=
  bytes_eqb path (bs "/data/mnt/sd_0") || bytes_eqb path (bs "/usr/data/mnt/sd_0").

Definition one_of (s : list Z) (names : list (list Z)) : bool := existsb (bytes_eqb s) names.
Definition sd_fsck_kind_from_type (fstype : list Z) : sd_fs_kind_t :=
  match fstype with
  | [] => SD_FS_KIND_UNKNOWN
  | _ =>
      if one_of fstype [bs "vfat"; bs "msdos"; bs "fat"] then SD_FS_KIND_VFAT
      else if one_of fstype [bs "exfat"; bs "fuse.exfat"] then SD_FS_KIND_EXFAT
      else if one_of fstype [bs "ntfs"; bs "ntfs3"; bs "fuseblk"; bs "fuse.ntfs-3g"; bs "ntfs-3g"]
      then SD_FS_KIND_NTFS else SD_FS_KIND_UNKNOWN
  end.
Definition sd_fsck_device_allowed (device : option (list Z)) : bool :=
  match device with
  | Some d => one_of d [bs "/dev/mmcblk0"; bs "/dev/mmcblk0p1"]
  | None => false
  end.

(** The fields of a line, between blanks and tabs; the loop stops at four. *)
Fixpoint line_fields (cur s : list Z) : list (list Z) :=
  match s with
  | [] => match cur with [] => [] | _ => [cur] end
  | c :: s => if (c =? 32) || (c =? 9)
              then match cur with [] => line_fields [] s | _ => cur :: line_fields [] s end
              else line_fields (cur ++ [c]) s
  end.
(** What one line of the table makes of [out]. *)
Definition mount_line (out : sd_mount_info_t) (line : list Z) : sd_mount_info_t :=
  match take 4 (line_fields [] line) with
  | [f0; f1; f2; f3] =>
      match unescape_field f0 SD_FSCK_DEVICE_BYTES, unescape_field f1 SD_FSCK_MOUNT_BYTES,
            unescape_field f2 SD_FSCK_FSTYPE_BYTES, unescape_field f3 512 with
      | Some dev, Some mp, Some ty, Some options =>
          let dev := cstr dev in let mp := cstr mp in let ty := cstr ty in let options := cstr options in
          if sd_mount_point mp then
            {| found := true;
               readonly := option_token options (bs "ro") && negb (option_token options (bs "rw"));
               kind := sd_fsck_kind_from_type ty;
               device := snprintf_s SD_FSCK_DEVICE_BYTES dev;
               mount_point := snprintf_s SD_FSCK_MOUNT_BYTES mp;
               fstype := snprintf_s SD_FSCK_FSTYPE_BYTES ty |}
          else out
      | _, _, _, _ => out
      end
  | _ => out
  end.
Definition sd_fsck_parse_mounts (mounts_text : option (list Z)) : bool * sd_mount_info_t :=
  match mounts_text with
  | None => (false, no_mount)
  | Some text => let out := fold_left mount_line (split_on 10 [] text) no_mount in (found out, out)
  end.

Definition sd_fsck_tool_candidates (k : sd_fs_kind_t) : list (list Z) :=
  match k with
  | SD_FS_KIND_VFAT => [bs "/usr/sbin/fsck.vfat"; bs "/usr/sbin/fsck.fat"; bs "/sbin/fsck.vfat"]
  | SD_FS_KIND_EXFAT => [bs "/usr/sbin/fsck.exfat"; bs "/sbin/fsck.exfat"]
  | SD_FS_KIND_NTFS => [bs "/usr/sbin/ntfsfix"; bs "/usr/bin/ntfsfix"]
  | SD_FS_KIND_UNKNOWN => []
  end.
Definition sd_fsck_select_tool (k : sd_fs_kind_t) (exists_ : list Z -> bool) : option (list Z) :=
  List.find exists_ (sd_fsck_tool_candidates k).

(** The argument vector, its first entry the tool. *)
Definition sd_fsck_plan (k : sd_fs_kind_t) (tool device : option (list Z)) : option (list (list Z)) :=
  match tool, device with
  | Some tool, Some dev =>
      if match tool with [] => true | _ => false end || negb (sd_fsck_device_allowed device) then None else
      let tool := snprintf_s SD_FSCK_TOOL_BYTES tool in
      let dev := snprintf_s SD_FSCK_DEVICE_BYTES dev in
      match k with
      | SD_FS_KIND_VFAT => Some [tool; bs "-a"; bs "-w"; dev]
      | SD_FS_KIND_EXFAT => Some [tool; bs "-y"; dev]
      | SD_FS_KIND_NTFS => Some [tool; dev]
      | SD_FS_KIND_UNKNOWN => None
      end
  | _, _ => None
  end.
Definition sd_fsck_exit_usable (exit_code : Z) : bool :=
  (0 <=? exit_code) && (exit_code <=? 255) && (Z.land exit_code (Z.lnot 3) =? 0).
Definition sd_repair_attempt_key (device cid : option (list Z)) (out_size : nat) : list Z :=
  if (out_size =? 0)%nat then [] else
  match cid with
  | Some (c :: rest) => snprintf_s out_size (bs "cid:" ++ c :: rest)
  | _ => snprintf_s out_size (bs "dev:" ++ default [] device)
  end.

(** ** The mount table as the kernel prints it *)

(** Blanks, tabs, newlines and backslashes appear as octal escapes. *)
Definition escape_byte (b : Z) : list Z :=
  if (b =? 32) || (b =? 9) || (b =? 10) || (b =? 92)
  then [92; 48 + b / 64; 48 + b / 8 mod 8; 48 + b mod 8] else [b].
Definition escape (s : list Z) : list Z := concat (map escape_byte s).
Fixpoint join_options (tokens : list (list Z)) : list Z :=
  match tokens with
  | [] => []
  | [t] => t
  | t :: rest => t ++ 44 :: join_options rest
  end.
Record mount_entry := { e_device : list Z; e_dir : list Z; e_type : list Z; e_options : list (list Z) }.
Definition format_entry (e : mount_entry) : list Z :=
  escape (e_device e) ++ 32 :: escape (e_dir e) ++ 32 :: escape (e_type e) ++ 32 ::
  escape (join_options (e_options e)) ++ 32 :: bs "0 0".
Definition format_table (l : list mount_entry) : list Z := concat (map (fun e => format_entry e ++ [10]) l).

Definition field_ok (s : list Z) (size : nat) : Prop :=
  s <> [] /\ Forall is_char s /\ (length s < size)%nat.
Definition entry_ok (e : mount_entry) : Prop :=
  field_ok (e_device e) SD_FSCK_DEVICE_BYTES /\ field_ok (e_dir e) SD_FSCK_MOUNT_BYTES /\
  field_ok (e_type e) SD_FSCK_FSTYPE_BYTES /\ field_ok (join_options (e_options e)) 512 /\
  Forall (fun t => t <> [] /\ 44 ∉ t) (e_options e).

Definition is_sd (e : mount_entry) : Prop := sd_mount_point (e_dir e) = true.
#[export] Instance is_sd_dec e : Decision (is_sd e).
Proof. unfold is_sd. apply _. Defined.
(** Read-only: an "ro" option and no "rw" option. *)
Definition info_of (e : mount_entry) : sd_mount_info_t :=
  {| found := true;
     readonly := bool_decide (bs "ro" ∈ e_options e) && negb (bool_decide (bs "rw" ∈ e_options e));
     kind := sd_fsck_kind_from_type (e_type e); device := e_device e; mount_point := e_dir e;
     fstype := e_type e |}.

(** ** Proofs *)
Lemma escape_cons b s : escape (b :: s) = escape_byte b ++ escape s.
Proof. done. Qed.
Lemma escape_no_separator s c : (c = 32 \/ c = 9 \/ c = 10) -> c ∉ escape s.
Proof.
  intros Hc. induction s as [|b s IH]; [apply not_elem_of_nil|]. rewrite escape_cons, elem_of_app.
  intros [H|H]; [|done]. unfold escape_byte in H. destruct (_ || _) eqn:E.
  - rewrite !elem_of_cons, elem_of_nil in H. bool_prop. pose proof (Z.mod_pos_bound b 8).
    pose proof (Z.mod_pos_bound (b / 8) 8). assert (0 <= b < 256) by (destruct E as [E|E]; bool_prop; [|lia]; destruct E as [E|E]; bool_prop; [destruct E as [E|E]; bool_prop|]; lia).
    assert (0 <= b / 64) by (apply Z.div_pos; lia). lia.
  - apply list_elem_of_singleton in H. bool_prop. lia.
Qed.
Lemma escape_nonempty s : s <> [] -> escape s <> [].
Proof. destruct s as [|b s]; [done|]. intros _. rewrite escape_cons. unfold escape_byte. by destruct (_ || _). Qed.

Lemma unescape_loop_escape s fuel size out :
  (length (escape s) <= fuel)%nat -> (length out + length s < size)%nat ->
  unescape_loop fuel (escape s) size out = Some (out ++ s).
Proof.
  revert fuel out. induction s as [|b s IH]; intros fuel out Hf Hs.
  { destruct fuel; cbn; by rewrite app_nil_r. }
  rewrite escape_cons, length_app in Hf. cbn [length] in Hs. rewrite escape_cons.
  destruct fuel as [|fuel]; [unfold escape_byte in Hf; destruct (_ || _); cbn in Hf; lia|].
  assert (forall rest, rest = escape s -> (length (escape s) <= fuel)%nat ->
    (if (size <=? length out + 1)%nat then None else unescape_loop fuel rest size (out ++ [b])) = Some (out ++ b :: s)) as H.
  { intros rest -> Hl. rewrite (proj2 (Nat.leb_gt _ _)) by lia.
    rewrite IH; [by rewrite <- app_assoc|done|rewrite length_app; cbn; lia]. }
  unfold escape_byte in *. destruct ((b =? 32) || _ || _ || _) eqn:E.
  - cbn [app unescape_loop].
    assert (is_octal (48 + b / 64) = true /\ is_octal (48 + b / 8 mod 8) = true /\ is_octal (48 + b mod 8) = true /\
      u8 ((48 + b / 64 - 48) * 64 + (48 + b / 8 mod 8 - 48) * 8 + (48 + b mod 8 - 48)) = b) as (-> & -> & -> & ->).
    { rewrite !orb_true_iff, !Z.eqb_eq in E. destruct E as [[[-> | ->]| ->]| ->]; by vm_compute. }
    cbn [Z.eqb Pos.eqb andb]. apply H; [done|]. cbn [length] in Hf. lia.
  - cbn [app unescape_loop]. bool_prop.
    assert ((b =? 92) = false) as Hb by (by apply Z.eqb_neq).
    rewrite Hb. cbn [andb length] in *. destruct (escape s) as [|x [|y [|z t]]]; apply H; (done || cbn in *; lia).
Qed.
Lemma unescape_escape s size : (length s < size)%nat -> unescape_field (escape s) size = Some s.
Proof. intros H. unfold unescape_field. by rewrite unescape_loop_escape. Qed.

Lemma line_fields_field cur f rest :
  32 ∉ f -> 9 ∉ f -> cur ++ f <> [] -> line_fields cur (f ++ 32 :: rest) = (cur ++ f) :: line_fields [] rest.
Proof.
  revert cur. induction f as [|c f IH]; intros cur H1 H2 Hn.
  - rewrite app_nil_r in *. cbn [app line_fields Z.eqb Pos.eqb orb]. by destruct cur.
  - apply not_elem_of_cons in H1 as [H1 H1'], H2 as [H2 H2']. cbn [app line_fields].
    rewrite (proj2 (Z.eqb_neq c 32)), (proj2 (Z.eqb_neq c 9)) by congruence. cbn [orb].
    rewrite IH; [by rewrite <- app_assoc|done|done|]. by destruct cur.
Qed.

Lemma split_on_piece sep cur p rest : sep ∉ p -> split_on sep cur (p ++ sep :: rest) = (cur ++ p) :: split_on sep [] rest.
Proof.
  revert cur. induction p as [|c p IH]; intros cur H.
  - cbn [app split_on]. by rewrite Z.eqb_refl, app_nil_r.
  - apply not_elem_of_cons in H as [H H']. cbn [app split_on]. rewrite (proj2 (Z.eqb_neq c sep)) by congruence.
    rewrite IH by done. by rewrite <- app_assoc.
Qed.
Lemma split_on_last sep cur p : sep ∉ p -> split_on sep cur p = [cur ++ p].
Proof.
  revert cur. induction p as [|c p IH]; intros cur H; [by rewrite app_nil_r|].
  apply not_elem_of_cons in H as [H H']. cbn [split_on]. rewrite (proj2 (Z.eqb_neq c sep)) by congruence.
  rewrite IH by done. by rewrite <- app_assoc.
Qed.

Lemma option_token_join tokens token :
  Forall (fun t => t <> [] /\ 44 ∉ t) tokens ->
  option_token (join_options tokens) token = bool_decide (token ∈ tokens).
Proof.
  intros H. unfold option_token. induction H as [|t rest [Hn Hc] Hr IH].
  - cbn. symmetry. apply bool_decide_eq_false_2, not_elem_of_nil.
  - assert (bool_decide (token ∈ t :: rest) = bytes_eqb t token || bool_decide (token ∈ rest)) as ->.
    { apply eq_bool_prop_intro. rewrite orb_True, !bool_decide_spec, elem_of_cons, Is_true_true, bytes_eqb_eq.
      intuition congruence. }
    destruct rest as [|t' rest].
    + cbn [join_options]. rewrite split_on_last by done. cbn [option_pieces app].
      destruct t; [done|]. symmetry. apply orb_false_r.
    + change (join_options (t :: t' :: rest)) with (t ++ 44 :: join_options (t' :: rest)).
      rewrite split_on_piece by done. rewrite <- IH. cbn [app option_pieces].
      destruct (split_on 44 [] (join_options (t' :: rest))) eqn:E; [|done].
      exfalso. revert E. generalize (join_options (t' :: rest)) as s. generalize (@nil Z).
      intros cur s. revert cur. induction s as [|c s IHs]; intros cur; cbn [split_on]; [done|].
      destruct (c =? 44); [done|apply IHs].
Qed.

Lemma format_no_newline e : 10 ∉ format_entry e.
Proof.
  pose proof (fun s => escape_no_separator s 10 ltac:(auto)) as He.
  assert (10 ∉ bs "0 0") by (apply strchr_None; reflexivity).
  unfold format_entry. rewrite !not_elem_of_app, !not_elem_of_cons, !not_elem_of_app, !not_elem_of_cons,
    !not_elem_of_app, !not_elem_of_cons, !not_elem_of_app, !not_elem_of_cons. by repeat split.
Qed.

(** One line of the table is one entry. *)
Lemma mount_line_format out e : entry_ok e ->
  mount_line out (format_entry e) = if decide (is_sd e) then info_of e else out.
Proof.
  intros ((Hd & Hdc & Hdl) & (Hm & Hmc & Hml) & (Ht & Htc & Htl) & (Ho & Hoc & Hol) & Htok).
  unfold mount_line, format_entry.
  pose proof (fun s => escape_no_separator s 32 ltac:(auto)) as H32.
  pose proof (fun s => escape_no_separator s 9 ltac:(auto)) as H9.
  assert (forall s rest, s <> [] -> line_fields [] (escape s ++ 32 :: rest) = escape s :: line_fields [] rest) as Hf.
  { intros s rest Hs. rewrite line_fields_field; [done|done|done|]. by apply escape_nonempty. }
  rewrite (Hf _ _ Hd), (Hf _ _ Hm), (Hf _ _ Ht), (Hf _ _ Ho). cbn [take]. rewrite !unescape_escape by done. rewrite !cstr_chars by done.
  destruct (decide (is_sd e)) as [E|E]; unfold is_sd in E.
  - rewrite E. unfold info_of, snprintf_s. rewrite !option_token_join by done.
    unfold SD_FSCK_DEVICE_BYTES, SD_FSCK_MOUNT_BYTES, SD_FSCK_FSTYPE_BYTES in *.
    rewrite take_0. by rewrite !take_ge by lia.
  - apply not_true_is_false in E. by rewrite E, take_0.
Qed.

Lemma split_lines (lines : list (list Z)) : Forall (fun l => 10 ∉ l) lines ->
  split_on 10 [] (concat (map (fun l => l ++ [10]) lines)) = lines ++ [[]].
Proof.
  induction 1 as [|l lines Hl _ IH]; [done|]. cbn [map concat]. rewrite <- app_assoc.
  change ([10] ++ ?x) with (10 :: x). by rewrite split_on_piece, IH.
Qed.

(** C39. Of a mount table as the kernel prints it, with its octal escapes, the
    parser reports the last entry at an SD mount point, with its fields
    unescaped, and read-only exactly when that entry's options have "ro" and
    not "rw"; without such an entry it reports nothing found. *)
Theorem sd_fsck_parse_mounts_last entries :
  Forall entry_ok entries ->
  sd_fsck_parse_mounts (Some (format_table entries)) =
    match list.last (filter is_sd entries) with
    | Some e => (true, info_of e)
    | None => (false, no_mount)
    end.
Proof.
  intros H. unfold sd_fsck_parse_mounts, format_table.
  assert (map (fun e => format_entry e ++ [10]) entries =
          map (fun l => l ++ [10]) (map format_entry entries)) as -> by (by rewrite map_map).
  rewrite split_lines.
  2: { apply Forall_map, list.Forall_forall. intros e _. apply format_no_newline. }
  rewrite fold_left_app. cbn [fold_left]. change (mount_line ?o []) with o.
  enough (forall out, fold_left mount_line (map format_entry entries) out =
    match list.last (filter is_sd entries) with Some e => info_of e | None => out end) as He.
  { rewrite He. by destruct (list.last _). }
  induction H as [|e entries He _ IH]; intros out; [done|]. cbn [map fold_left].
  rewrite mount_line_format, IH, list.filter_cons by done. destruct (decide (is_sd e)); [|done].
  rewrite last_cons. by destruct (list.last _).
Qed.
Definition example_table : list mount_entry :=
  [ {| e_device := bs "rootfs"; e_dir := bs "/"; e_type := bs "squashfs"; e_options := [bs "ro"] |};
    {| e_device := bs "/dev/mmcblk0"; e_dir := bs "/data/mnt/sd_0"; e_type := bs "vfat"; e_options := [bs "rw"] |};
    {| e_device := bs "/dev/mmcblk0p1"; e_dir := bs "/usr/data/mnt/sd_0"; e_type := bs "exfat";
       e_options := [bs "ro"; bs "nosuid"; bs "label=my card"] |} ].
Definition field_ok_b (s : list Z) (size : nat) : bool :=
  negb (bytes_eqb s []) && chars_b s && (length s <? size)%nat.
Definition entry_ok_b (e : mount_entry) : bool :=
  field_ok_b (e_device e) SD_FSCK_DEVICE_BYTES && field_ok_b (e_dir e) SD_FSCK_MOUNT_BYTES &&
  field_ok_b (e_type e) SD_FSCK_FSTYPE_BYTES && field_ok_b (join_options (e_options e)) 512 &&
  forallb (fun t => negb (bytes_eqb t []) && match strchr 44 t with None => true | _ => false end) (e_options e).
Lemma field_ok_b_ok s size : field_ok_b s size = true -> field_ok s size.
Proof.
  unfold field_ok_b, field_ok. rewrite !andb_true_iff, negb_true_iff. intros ((H1 & H2) & H3).
  split; [by intros ->|]. split; [by apply chars_b_true|by apply Nat.ltb_lt].
Qed.
Lemma entry_ok_b_ok e : entry_ok_b e = true -> entry_ok e.
Proof.
  unfold entry_ok_b, entry_ok. rewrite !andb_true_iff. intros ((((H1 & H2) & H3) & H4) & H5).
  split_and!; try by apply field_ok_b_ok. apply List.Forall_forall. intros t Ht.
  rewrite forallb_forall in H5. specialize (H5 t Ht). apply andb_true_iff in H5 as [H5 H6].
  split; [by intros ->|]. apply strchr_None. by destruct (strchr 44 t).
Qed.
Lemma sd_fsck_parse_mounts_last_witness :
  sd_fsck_parse_mounts (Some (format_table example_table)) =
    (true, {| found := true; readonly := true; kind := SD_FS_KIND_EXFAT; device := bs "/dev/mmcblk0p1";
              mount_point := bs "/usr/data/mnt/sd_0"; fstype := bs "exfat" |}).
Proof.
  rewrite sd_fsck_parse_mounts_last; [vm_compute; reflexivity|].
  repeat (constructor; [apply entry_ok_b_ok; vm_compute; reflexivity|]). constructor.
Defined.

(** ** What may be run *)

(** The checker only ever runs on one of the internal card's two nodes, never
    on an unknown file system, as the last argument after fixed flags. *)
Lemma sd_fsck_plan_safe k tool device argv :
  sd_fsck_plan k tool device = Some argv ->
  k <> SD_FS_KIND_UNKNOWN /\
  exists d flags, device = Some d /\ (d = bs "/dev/mmcblk0" \/ d = bs "/dev/mmcblk0p1") /\
    tail argv = flags ++ [d] /\ flags ∈ [[]; [bs "-y"]; [bs "-a"; bs "-w"]].
Proof.
  unfold sd_fsck_plan. destruct tool as [t|]; [|done]. destruct device as [d|]; [|done].
  destruct t as [|c t]; [done|]. cbn [orb]. destruct (sd_fsck_device_allowed (Some d)) eqn:E; [|done].
  assert (d = bs "/dev/mmcblk0" \/ d = bs "/dev/mmcblk0p1") as Hd.
  { unfold sd_fsck_device_allowed, one_of in E. cbn [existsb] in E. rewrite orb_false_r, orb_true_iff in E.
    destruct E as [E|E]; apply bytes_eqb_eq in E; auto. }
  assert (snprintf_s SD_FSCK_DEVICE_BYTES d = d) as -> by (by destruct Hd as [-> | ->]).
  cbn [negb]. destruct k; [done|..]; intros [=<-]; (split; [done|]); exists d;
    [exists [bs "-a"; bs "-w"]|exists [bs "-y"]|exists []]; (split; [done|split; [done|split; [done|]]]).
  - by do 2 right; left.
  - by right; left.
  - by left.
Qed.

(** The exit codes taken as repaired: clean, corrected, reboot asked. *)
Lemma sd_fsck_exit_usable_spec code :
  sd_fsck_exit_usable code = true <-> 0 <= code <= 3.
Proof.
  unfold sd_fsck_exit_usable. rewrite !andb_true_iff, !Z.leb_le, Z.eqb_eq.
  assert (Z.land code (Z.lnot 3) = code - code mod 4) as H.
  { rewrite <- Z.ldiff_land. change 3 with (Z.ones 2). rewrite Z.ldiff_ones_r by lia.
    rewrite Z.shiftr_div_pow2, Z.shiftl_mul_pow2 by lia. change (2 ^ 2) with 4. div_lia. }
  rewrite H. div_lia.
Qed.
