(* ===== verification/ApeDemux.v ===== *)
(** The Monkey's Audio container of src/audio/ape_demux.c: the headers and the
    frame table. [long_bits] is the width of the machine's [long] and [size_t]. *)
From S2P Require Import Prelude Endian AudioHelpers Ogg.
Local Open Scope Z_scope.

(** ** Operations *)
Record ape_frame_t := { pos : Z; size : Z; nblocks : Z; skip : Z }.
Record ape_demux := {
  fileversion : Z; compressiontype : Z; formatflags : Z; blocksperframe : Z; finalframeblocks : Z;
  totalframes : Z; bps : Z; ape_channels : Z; samplerate : Z; total_samples : Z;
  frames : list ape_frame_t }.

(** [OutOfBounds] when the seek table is written past its allocation. *)
Inductive ape_opened := ApeFailed | ApeOpened (d : ape_demux) | ApeOutOfBounds.

Definition set_size (f : ape_frame_t) (s : Z) : ape_frame_t :=
  {| pos := pos f; size := s; nblocks := nblocks f; skip := skip f |}.
(** [frames[i - 1].size = ...]: the size of the last frame so far. *)
Definition set_last_size (l : list ape_frame_t) (s : Z) : list ape_frame_t :=
  alter (fun f => set_size f s) (length l - 1)%nat l.

Definition sizeof_frame : Z := 24.
(** The loop over the seek table, from entry [length done] at [offset]. *)
Fixpoint seek_table (fuel : nat) (file : list Z) (offset total allocated bpf pos0 : Z)
    (done : list ape_frame_t) : option (list ape_frame_t) + unit :=
  match fuel with
  | O => inl None
  | S fuel =>
      if total <=? Z.of_nat (length done) then inl (Some done) else
      match audio_read_u32le (fread file offset 4) with
      | None => inl None
      | Some entry =>
          if allocated <? sizeof_frame * (Z.of_nat (length done) + 1) then inr tt else
          let prev := match list.last done with Some f => pos f | None => 0 end in
          let f := {| pos := entry; size := 0; nblocks := bpf; skip := Z.land (u64 (entry - pos0)) 3 |} in
          seek_table fuel file (offset + 4) total allocated bpf pos0
            (set_last_size done (u64 (entry - prev)) ++ [f])
      end
  end.

(** The last loop: word alignment. *)
Definition align_frame (f : ape_frame_t) : ape_frame_t :=
  let p := if skip f =? 0 then pos f else u64 (pos f - skip f) in
  let s := if skip f =? 0 then size f else u64 (size f + skip f) in
  {| pos := p; size := Z.land (u64 (s + 3)) (18446744073709551615 - 3); nblocks := nblocks f; skip := skip f |}.

Definition finish_last (final_blocks final_size : Z) (l : list ape_frame_t) : list ape_frame_t :=
  alter (fun f => {| pos := pos f; size := u64 final_size; nblocks := final_blocks; skip := skip f |})
    (length l - 1)%nat l.
(** [final_size]: what is left of the file after the last frame's start. *)
Definition final_size_of (file_size last_pos wavtaillength final_blocks : Z) : Z :=
  let final := file_size - last_pos - wavtaillength in
  let final := final - Z.land final 3 in
  if (0 <? file_size) && (0 <? final) then final else final_blocks * 8.

Section Machine.
Context (long_bits : Z) (alloc : Z -> bool).

Definition to_long (z : Z) : Z := (z + 2 ^ (long_bits - 1)) mod 2 ^ long_bits - 2 ^ (long_bits - 1).
Definition to_size_t (z : Z) : Z := z mod 2 ^ long_bits.

Definition ape_demux_open (file : option (list Z)) : ape_opened :=
  match file with
  | None => ApeFailed
  | Some file =>
      if negb (bytes_eqb (fread file 0 4) (bs "MAC ")) then ApeFailed else
      match audio_read_u16le (fread file 4 2) with
      | None => ApeFailed
      | Some version =>
          if (version <? 3980) || (3990 <? version) then ApeFailed else
          let desc := fread file 6 46 in
          if negb (length desc =? 46)%nat then ApeFailed else
          let field n := default 0 (audio_read_u32le (drop n desc)) in
          let descriptorlength := field 2%nat in let headerlength := field 6%nat in
          let seektablelength := field 10%nat in let wavheaderlength := field 14%nat in
          let wavtaillength := field 26%nat in
          let at_header := if 52 <? descriptorlength then 52 + to_long (descriptorlength - 52) else 52 in
          if at_header <? 0 then ApeFailed else
          let hb := fread file at_header 24 in
          if negb (length hb =? 24)%nat then ApeFailed else
          let h16 n := default 0 (audio_read_u16le (drop n hb)) in
          let h32 n := default 0 (audio_read_u32le (drop n hb)) in
          let bpf := h32 4%nat in let final_blocks := h32 8%nat in let total := h32 12%nat in
          let bits := h16 16%nat in let chans := h16 18%nat in
          if (total =? 0) || (chans =? 0) || (2 <? chans) || (negb (bits =? 16) && negb (bits =? 24))
          then ApeFailed else
          let samples := final_blocks + (if 1 <? total then bpf * (total - 1) else 0) in
          let bytes := to_size_t (sizeof_frame * total) in
          if negb (alloc bytes) then ApeFailed else
          if bytes <? sizeof_frame then ApeOutOfBounds else
          let firstframe := to_long (descriptorlength + headerlength + seektablelength + wavheaderlength) in
          let first := {| pos := u64 firstframe; size := 0; nblocks := bpf; skip := 0 |} in
          if negb (length (fread file (at_header + 24) 4) =? 4)%nat then ApeFailed else
          match seek_table (length file / 4 + 2) file (at_header + 28) total bytes bpf (pos first) [first] with
          | inr _ => ApeOutOfBounds
          | inl None => ApeFailed
          | inl (Some l) =>
              let extra := seektablelength / 4 - total in
              if (0 <? extra) && (at_header + 28 + 4 * (total - 1) + to_long (extra * 4) <? 0)
              then ApeFailed else
              let last_pos := match list.last l with Some f => pos f | None => 0 end in
              let final := final_size_of (Z.of_nat (length file)) last_pos wavtaillength final_blocks in
              ApeOpened
                {| fileversion := version; compressiontype := h16 0%nat; formatflags := h16 2%nat;
                   blocksperframe := bpf; finalframeblocks := final_blocks; totalframes := total;
                   bps := bits; ape_channels := chans; samplerate := h32 20%nat;
                   total_samples := samples;
                   frames := map align_frame (finish_last final_blocks final l) |}
          end
      end
  end.
End Machine.

Definition ape_demux_read_frame (long_bits : Z) (file : list Z) (d : ape_demux) (frame_index buf_size : Z)
    : option (list Z) :=
  if totalframes d <=? frame_index then None else
  f ← frames d !! Z.to_nat frame_index;
  if buf_size <? size f then None else
  if to_long long_bits (pos f) <? 0 then None else
  let data := fread file (to_long long_bits (pos f)) (Z.to_nat (to_size_t long_bits (size f))) in
  if Z.of_nat (length data) =? to_size_t long_bits (size f) then Some data else None.
Definition ape_demux_get_frame_skip (d : ape_demux) (frame_index : Z) : Z :=
  if totalframes d <=? frame_index then 0 else
  match frames d !! Z.to_nat frame_index with Some f => skip f | None => 0 end.

(** ** The frame table *)
Lemma lookup_set_last l s i :
  set_last_size l s !! i = if decide (S i = length l) then (fun f => set_size f s) <$> l !! i else l !! i.
Proof.
  unfold set_last_size. destruct (decide (S i = length l)) as [E|E].
  - replace (length l - 1)%nat with i by lia. apply list_lookup_alter_eq.
  - destruct (decide (i = length l - 1)%nat) as [->|].
    + destruct l; [done|]. cbn [length] in E. lia.
    + by rewrite list_lookup_alter_ne by congruence.
Qed.
Lemma length_set_last l s : length (set_last_size l s) = length l.
Proof. apply length_alter. Qed.
Lemma map_set_last {B} (h : ape_frame_t -> B) l s :
  (forall f, h (set_size f s) = h f) -> map h (set_last_size l s) = map h l.
Proof.
  intros Hh. apply list_eq. intros i. rewrite !list_lookup_fmap, lookup_set_last.
  destruct (decide _); [|done]. destruct (l !! i) as [f|]; [|done]. cbn. by rewrite Hh.
Qed.

Lemma audio_read_u32le_range b v : Forall is_byte b -> audio_read_u32le b = Some v -> in_u32 v.
Proof.
  destruct b as [|b0 [|b1 [|b2 [|b3 rest]]]]; [done..|].
  rewrite !Forall_cons_iff. intros (H0 & H1 & H2 & H3 & _) H.
  change (library_read_u32le (b0 :: b1 :: b2 :: b3 :: rest) = Some v) in H.
  rewrite library_read_u32le_value in H by done. injection H as <-.
  unfold in_u32, is_byte in *. lia.
Qed.
Lemma fread_bytes file offset n : Forall is_byte file -> Forall is_byte (fread file offset n).
Proof. intros H. by apply Forall_take, Forall_drop. Qed.

Section Table.
Context (bpf pos0 : Z).

(** What is fixed of a frame once its entry is read. *)
Definition entry_ok (f : ape_frame_t) : Prop :=
  nblocks f = bpf /\ skip f = Z.land (u64 (pos f - pos0)) 3 /\ 0 <= pos f < 2 ^ 64.
Definition sizes_ok (l : list ape_frame_t) : Prop :=
  forall i f g, l !! i = Some f -> l !! S i = Some g -> size f = u64 (pos g - pos f).
Record table_ok (l : list ape_frame_t) : Prop := {
  table_first : pos <$> l !! 0%nat = Some pos0;
  table_entries : Forall entry_ok l;
  table_sizes : sizes_ok l }.

Lemma table_ok_first : 0 <= pos0 < 2 ^ 64 ->
  table_ok [{| pos := pos0; size := 0; nblocks := bpf; skip := 0 |}].
Proof.
  intros H. split; [done| |].
  - constructor; [|done]. split; [done|]. cbn [skip pos]. by rewrite Z.sub_diag.
  - intros i f g _ Hg. by destruct i.
Qed.

Lemma table_ok_snoc l entry :
  in_u32 entry -> table_ok l ->
  table_ok (set_last_size l (u64 (entry - match list.last l with Some f => pos f | None => 0 end)) ++
            [{| pos := entry; size := 0; nblocks := bpf; skip := Z.land (u64 (entry - pos0)) 3 |}]).
Proof.
  intros He [H0 Hl Hs]. unfold in_u32 in He.
  assert (0 < length l)%nat as Hlen by (destruct l; [done|cbn; lia]). split.
  - rewrite lookup_app_l by (rewrite length_set_last; lia). rewrite <- H0, lookup_set_last.
    destruct (decide _); [|done]. by destruct (l !! 0%nat).
  - apply list.Forall_app. split.
    + apply Forall_lookup. intros i f. rewrite lookup_set_last. rewrite Forall_lookup in Hl.
      destruct (decide _); [|apply Hl]. destruct (l !! i) as [f'|] eqn:E; [|done].
      intros [= <-]. apply (Hl i f' E).
    + constructor; [|done]. split; [done|]. cbn [pos skip]. split; [done|lia].
  - intros i f g. destruct (decide (S i = length l)) as [E|E].
    + rewrite lookup_app_l by (rewrite length_set_last; lia).
      rewrite lookup_app_r, length_set_last by (rewrite length_set_last; lia).
      rewrite lookup_set_last, decide_True by done. rewrite E, Nat.sub_diag.
      rewrite list.last_lookup, <- E. cbn [pred]. destruct (l !! i) as [f'|]; [|done].
      intros [= <-] [= <-]. done.
    + destruct (decide (S i < length l)%nat) as [Hi|Hi].
      * rewrite !lookup_app_l by (rewrite length_set_last; lia).
        rewrite !lookup_set_last, (decide_False (P := S i = _)) by done.
        intros Hf. destruct (decide _); [|by apply Hs].
        destruct (l !! S i) as [g'|] eqn:Eg; [|done]. intros [= <-]. apply (Hs i f g' Hf Eg).
      * intros _ Hg. apply lookup_lt_Some in Hg. rewrite length_app, length_set_last in Hg. cbn in Hg. lia.
Qed.

Lemma seek_table_ok fuel file offset total allocated l l' :
  Forall is_byte file -> table_ok l -> Z.of_nat (length l) <= total ->
  seek_table fuel file offset total allocated bpf pos0 l = inl (Some l') ->
  table_ok l' /\ Z.of_nat (length l') = total.
Proof.
  intros Hb. revert offset l. induction fuel as [|fuel IH]; intros offset l Hl Hn; cbn [seek_table]; [done|].
  destruct (Z.leb_spec total (Z.of_nat (length l))).
  { intros [= <-]. split; [done|lia]. }
  destruct (audio_read_u32le _) as [entry|] eqn:Er; [|done].
  destruct (allocated <? _); [done|]. apply IH.
  - apply table_ok_snoc; [eapply audio_read_u32le_range, Er; by apply fread_bytes|done].
  - rewrite length_app, length_set_last. cbn. lia.
Qed.
Lemma seek_table_in_bounds fuel file offset total allocated l :
  sizeof_frame * total <= allocated ->
  seek_table fuel file offset total allocated bpf pos0 l <> inr tt.
Proof.
  intros Ha. revert offset l. induction fuel as [|fuel IH]; intros offset l; cbn [seek_table]; [done|].
  destruct (Z.leb_spec total (Z.of_nat (length l))); [done|].
  destruct (audio_read_u32le _) as [entry|]; [|done].
  destruct (Z.ltb_spec allocated (sizeof_frame * (Z.of_nat (length l) + 1))) as [Hlt|_]; [|apply IH].
  unfold sizeof_frame in *. lia.
Qed.
End Table.

(** What an opened file's table comes from. *)
Lemma ape_open_table long_bits alloc file d :
  0 < long_bits -> Forall is_byte file ->
  ape_demux_open long_bits alloc (Some file) = ApeOpened d ->
  exists l final pos0, table_ok (blocksperframe d) pos0 l /\ 0 < totalframes d /\
    Z.of_nat (length l) = totalframes d /\
    frames d = map align_frame (finish_last (finalframeblocks d) final l) /\
    total_samples d = finalframeblocks d + (if 1 <? totalframes d then blocksperframe d * (totalframes d - 1) else 0).
Proof.
  intros Hw Hb. unfold ape_demux_open. cbv zeta.
  destruct (negb _); [done|]. destruct (audio_read_u16le _) as [version|]; [|done].
  destruct (_ || _); [done|]. destruct (negb _); [done|].
  destruct (_ <? 0); [done|]. destruct (negb _); [done|].
  set (total := default 0 (audio_read_u32le (drop 12 _))).
  destruct (Z.eqb_spec total 0) as [|Ht]; [done|]. destruct (_ || _ || _); [done|].
  destruct (negb (alloc _)); [done|]. destruct (_ <? sizeof_frame); [done|].
  destruct (negb _); [done|].
  assert (in_u32 total) as Htr.
  { unfold total. destruct (audio_read_u32le _) as [v|] eqn:E; [|done].
    eapply audio_read_u32le_range, E. by apply Forall_drop, fread_bytes. }
  unfold in_u32 in Htr. set (pos0 := u64 _).
  destruct (seek_table _ _ _ _ _ _ _ _) as [[l|]|] eqn:El; [|done..].
  destruct (_ && _); [done|]. intros [= <-].
  cbn [blocksperframe totalframes finalframeblocks total_samples frames pos] in *.
  eapply seek_table_ok in El as [Hl Hn]; [|done| |cbn [length]; lia].
  - do 3 eexists. split; [exact Hl|]. split_and!; [lia|done|reflexivity|done].
  - apply table_ok_first. unfold pos0, u64. apply Z.mod_pos_bound. lia.
Qed.

(** ** Proofs about the opened table *)
Lemma align_size f : size (align_frame f) mod 4 = 0.
Proof.
  unfold align_frame. cbn [size]. set (s := u64 _).
  assert (0 <= s < 2 ^ 64) by (apply Z.mod_pos_bound; lia).
  apply Z.bits_inj_iff'. intros n Hn. rewrite Z.bits_0. change 4 with (2 ^ 2).
  destruct (Z.le_gt_cases 2 n); [by rewrite Z.mod_pow2_bits_high by lia|].
  rewrite Z.mod_pow2_bits_low, Z.land_spec by lia.
  assert (n = 0 \/ n = 1) as [-> | ->] by lia; by rewrite andb_false_r.
Qed.
(** Rounding up to a multiple of four. *)
Lemma round_up_ge s : 0 <= s < 2 ^ 64 - 3 -> s <= Z.land (u64 (s + 3)) (18446744073709551615 - 3).
Proof.
  intros H. unfold u64. rewrite Z.mod_small by lia.
  assert (Z.land (s + 3) (18446744073709551615 - 3) = s + 3 - (s + 3) mod 4) as ->.
  { change (18446744073709551615 - 3) with (Z.ldiff (Z.ones 64) (Z.ones 2)).
    change 4 with (2 ^ 2). rewrite <- Z.land_ones by lia.
    rewrite (Z.sub_nocarry_ldiff (s + 3)).
    - apply Z.bits_inj_iff'. intros n Hn. rewrite !Z.land_spec, !Z.ldiff_spec, Z.land_spec.
      destruct (Z.testbit (s + 3) n) eqn:E; [|done]. cbn [andb].
      assert (n < 64) as Hn64.
      { destruct (Z.lt_ge_cases n 64); [done|]. exfalso.
        assert (Z.testbit (s + 3) n = false); [|congruence].
        apply Z.bits_above_log2; [lia|]. apply Z.lt_le_trans with 64; [|done].
        apply Z.log2_lt_pow2; lia. }
      by rewrite Z.ones_spec_low by lia.
    - apply Z.bits_inj_iff'. intros n Hn. rewrite Z.ldiff_spec, Z.land_spec, Z.bits_0.
      by destruct (Z.testbit (s + 3) n), (Z.testbit (Z.ones 2) n). }
  pose proof (Z.mod_pos_bound (s + 3) 4). lia.
Qed.

Lemma skip_mod bpf pos0 f : entry_ok bpf pos0 f -> skip f = (pos f - pos0) mod 4.
Proof.
  intros (_ & -> & _). change 3 with (Z.ones 2). rewrite Z.land_ones by lia. unfold u64.
  change 18446744073709551616 with (2 ^ 2 * 2 ^ 62). rewrite Z.rem_mul_r by done.
  by rewrite Z.add_mod, (Z.mul_comm (2 ^ 2)), Z.mod_mul, Z.add_0_r, !Z.mod_mod by done.
Qed.
Lemma align_pos bpf pos0 f : entry_ok bpf pos0 f -> pos (align_frame f) mod 4 = pos0 mod 4.
Proof.
  intros H. pose proof (skip_mod _ _ _ H) as Hs. unfold align_frame. cbn [pos].
  destruct (Z.eqb_spec (skip f) 0) as [E|E].
  - rewrite E in Hs. div_lia.
  - unfold u64. change 18446744073709551616 with (4 * 4611686018427387904).
    rewrite Z.rem_mul_r, Z.add_mod, (Z.mul_comm 4), Z.mod_mul, Z.add_0_r, !Z.mod_mod by done.
    div_lia.
Qed.
(** An aligned frame still reaches the entry that follows it. *)
Lemma align_reaches bpf pos0 f p :
  entry_ok bpf pos0 f -> size f = u64 (p - pos f) -> pos f <= p < 2 ^ 64 - 8 ->
  skip f <= pos f -> p <= pos (align_frame f) + size (align_frame f).
Proof.
  intros Hf Hs Hp Hk. pose proof (skip_mod _ _ _ Hf) as Hm. destruct Hf as (_ & _ & Hr).
  assert (0 <= skip f < 4) by (rewrite Hm; apply Z.mod_pos_bound; lia).
  assert (size f = p - pos f) as Hz by (rewrite Hs; unfold u64; rewrite Z.mod_small; lia).
  unfold align_frame. cbn [pos size]. destruct (Z.eqb_spec (skip f) 0) as [E|E].
  - pose proof (round_up_ge (size f)). lia.
  - assert (u64 (size f + skip f) = size f + skip f) as -> by (unfold u64; rewrite Z.mod_small; lia).
    assert (u64 (pos f - skip f) = pos f - skip f) as -> by (unfold u64; rewrite Z.mod_small; lia).
    pose proof (round_up_ge (size f + skip f)). lia.
Qed.

Lemma lookup_finish_last blocks final l i :
  finish_last blocks final l !! i =
  if decide (S i = length l)
  then (fun f => {| pos := pos f; size := u64 final; nblocks := blocks; skip := skip f |}) <$> l !! i
  else l !! i.
Proof.
  unfold finish_last. destruct (decide (S i = length l)) as [E|E].
  - replace (length l - 1)%nat with i by lia. apply list_lookup_alter_eq.
  - destruct (decide (i = length l - 1)%nat) as [->|].
    + destruct l; [done|]. cbn [length] in E. lia.
    + by rewrite list_lookup_alter_ne by congruence.
Qed.
Lemma length_finish_last blocks final l : length (finish_last blocks final l) = length l.
Proof. apply length_alter. Qed.
(** The frame at an index of the opened table, from the one read. *)
Lemma finished_frame bpf pos0 l blocks final i f :
  table_ok bpf pos0 l -> map align_frame (finish_last blocks final l) !! i = Some f ->
  exists e, l !! i = Some e /\ entry_ok bpf pos0 e /\ skip f = skip e /\
    pos f = pos (align_frame e) /\ (S i <> length l -> size f = size (align_frame e)) /\
    nblocks f = (if decide (S i = length l) then blocks else bpf).
Proof.
  intros Hl. rewrite list_lookup_fmap, lookup_finish_last.
  destruct (l !! i) as [e|] eqn:E; [|by destruct (decide _)].
  pose proof (Forall_lookup_1 _ _ _ _ (table_entries _ _ _ Hl) E) as He.
  destruct (decide _) as [Hd|Hd]; intros [= <-]; exists e; split_and!; try done.
  destruct He as [He _]. exact He.
Qed.
Lemma finished_frames_forall bpf pos0 l blocks final (P : ape_frame_t -> Prop) :
  table_ok bpf pos0 l ->
  (forall e f, entry_ok bpf pos0 e -> skip f = skip e -> pos f = pos (align_frame e) -> size f mod 4 = 0 -> P f) ->
  Forall P (map align_frame (finish_last blocks final l)).
Proof.
  intros Hl HP. apply Forall_lookup. intros i f Hf.
  destruct (finished_frame _ _ _ _ _ _ _ Hl Hf) as (e & _ & He & Hs & Hp & _).
  apply (HP e f He Hs Hp). rewrite list_lookup_fmap in Hf.
  destruct (_ !! i); [|done]. injection Hf as <-. apply align_size.
Qed.

Lemma sum_same (n : nat) b : fold_right Z.add 0 (repeat b n) = Z.of_nat n * b.
Proof. induction n as [|n IH]; [done|]. cbn [repeat fold_right]. rewrite IH. lia. Qed.
Lemma sum_snoc l x : fold_right Z.add 0 (l ++ [x]) = fold_right Z.add 0 l + x.
Proof. induction l as [|y l IH]; cbn [fold_right app]; [lia|]. rewrite IH. lia. Qed.
Lemma finished_blocks bpf pos0 l blocks final :
  table_ok bpf pos0 l ->
  map nblocks (map align_frame (finish_last blocks final l)) = repeat bpf (length l - 1) ++ [blocks].
Proof.
  intros Hl. assert (0 < length l)%nat as Hn.
  { pose proof (table_first _ _ _ Hl). destruct l; [done|cbn; lia]. }
  apply list_eq_same_length with (length l).
  - rewrite length_app, repeat_length. cbn. lia.
  - by rewrite !length_map, length_finish_last.
  - intros i x y Hi Hx Hy. rewrite list_lookup_fmap in Hx.
    destruct (_ !! i) as [f|] eqn:Ef; [|done]. injection Hx as <-.
    destruct (finished_frame _ _ _ _ _ _ _ Hl Ef) as (_ & _ & _ & _ & _ & _ & ->).
    destruct (decide _) as [E|E].
    + rewrite lookup_app_r, repeat_length in Hy by (rewrite repeat_length; lia).
      replace (i - (length l - 1))%nat with 0%nat in Hy by lia. by injection Hy.
    + rewrite lookup_app_l in Hy by (rewrite repeat_length; lia).
      symmetry. apply (repeat_spec (length l - 1) bpf). apply list_elem_of_In. by apply list_elem_of_lookup_2 with i.
Qed.

(** C38. Cn. Opening a Monkey's Audio file yields one frame per entry of its seek
    table: the samples of the frames add up to the total, every frame is a
    whole number of words, all start at the same alignment, and when the
    entries ascend each frame reaches the next one's first sample. *)
Theorem ape_demux_open_frames long_bits alloc file d :
  0 < long_bits -> Forall is_byte file ->
  ape_demux_open long_bits alloc (Some file) = ApeOpened d ->
  Z.of_nat (length (frames d)) = totalframes d /\
  fold_right Z.add 0 (map nblocks (frames d)) = total_samples d /\
  (exists phase, Forall (fun f => size f mod 4 = 0 /\ 0 <= skip f < 4 /\ pos f mod 4 = phase) (frames d)) /\
  (forall i f g, frames d !! i = Some f -> frames d !! S i = Some g ->
     pos f + skip f <= pos g + skip g < 2 ^ 64 - 8 ->
     pos g + skip g <= pos f + size f).
Proof.
  intros Hw Hb Ho. destruct (ape_open_table _ _ _ _ Hw Hb Ho) as (l & final & pos0 & Hl & Ht & Hn & Hf & Hs).
  rewrite Hf. split_and!.
  - by rewrite length_map, length_finish_last.
  - rewrite (finished_blocks _ _ _ _ _ Hl), sum_snoc, sum_same, Hs.
    destruct (Z.ltb_spec 1 (totalframes d)); lia.
  - exists (pos0 mod 4). apply (finished_frames_forall _ _ _ _ _ _ Hl). intros e f He Hk Hp Hz.
    rewrite Hz, Hk, Hp, (align_pos _ _ _ He), (skip_mod _ _ _ He).
    split_and!; [done|apply Z.mod_pos_bound; lia..|done].
  - intros i f g Hi Hj Hle.
    destruct (finished_frame _ _ _ _ _ _ _ Hl Hi) as (e & He & Heo & Hk & Hp & Hz & _).
    destruct (finished_frame _ _ _ _ _ _ _ Hl Hj) as (e' & He' & Heo' & Hk' & Hp' & _).
    rewrite Hz, Hp by (apply lookup_lt_Some in He'; lia).
    assert (raw_pos : forall x, entry_ok (blocksperframe d) pos0 x ->
              pos (align_frame x) + skip x < 2 ^ 64 - 8 -> pos (align_frame x) + skip x = pos x /\ skip x <= pos x).
    { intros x Hx. pose proof (skip_mod _ _ _ Hx) as Hm. destruct Hx as (_ & _ & Hr).
      pose proof (Z.mod_pos_bound (pos x - pos0) 4).
      unfold align_frame. cbn [pos]. destruct (Z.eqb_spec (skip x) 0); [lia|]. unfold u64.
      destruct (Z.le_gt_cases (skip x) (pos x)).
      - rewrite Z.mod_small; lia.
      - rewrite <- (Z.mod_add _ 1), Z.mod_small; lia. }
    rewrite Hp, Hk, Hp', Hk' in Hle. rewrite Hp', Hk'.
    destruct (raw_pos e Heo) as [E1 E2]; [lia|]. destruct (raw_pos e' Heo') as [E3 _]; [lia|].
    rewrite E1, E3 in Hle. rewrite E3.
    apply (align_reaches _ _ _ _ Heo); [|lia|done].
    apply (table_sizes _ _ _ Hl i e e' He He').
Qed.

(** ** The allocation *)
(** With a 64-bit [size_t] the table never outgrows its allocation; with 32 bits
    the product wraps, and a crafted frame count makes it do so. *)
Lemma ape_demux_open_in_bounds alloc file :
  Forall is_byte file -> ape_demux_open 64 alloc (Some file) <> ApeOutOfBounds.
Proof.
  intros Hb. unfold ape_demux_open. cbv zeta.
  destruct (negb _); [done|]. destruct (audio_read_u16le _) as [version|]; [|done].
  destruct (_ || _); [done|]. destruct (negb _); [done|].
  destruct (_ <? 0); [done|]. destruct (negb _); [done|].
  set (total := default 0 (audio_read_u32le (drop 12 _))).
  destruct (Z.eqb_spec total 0) as [|Ht]; [done|]. destruct (_ || _ || _); [done|].
  assert (in_u32 total) as Htr.
  { unfold total. destruct (audio_read_u32le _) as [v|] eqn:E; [|done].
    eapply audio_read_u32le_range, E. by apply Forall_drop, fread_bytes. }
  assert (to_size_t 64 (sizeof_frame * total) = sizeof_frame * total) as ->.
  { apply Z.mod_small. unfold sizeof_frame, in_u32 in *. lia. }
  destruct (negb (alloc _)); [done|]. unfold in_u32 in Htr.
  destruct (Z.ltb_spec (sizeof_frame * total) sizeof_frame) as [H|_]; [unfold sizeof_frame in H; lia|].
  destruct (negb _); [done|].
  destruct (seek_table _ _ _ _ _ _ _ _) as [[l|]|[]] eqn:El; [by destruct (_ && _)|done|].
  exfalso. eapply seek_table_in_bounds, El. lia.
Qed.

Definition crafted_ape (total : Z) (rest : list Z) : list Z :=
  bs "MAC " ++ le16 3990 ++ le16 0 ++ le32 52 ++ le32 24 ++ le32 12 ++ le32 0 ++ le32 40 ++ le32 0 ++ le32 0
  ++ repeat 0 16 ++ le16 2000 ++ le16 0 ++ le32 100 ++ le32 40 ++ le32 total ++ le16 16 ++ le16 2 ++ le32 44100
  ++ rest.
Lemma ape_frames_overflow : ape_demux_open 32 (fun _ => true) (Some (crafted_ape 178956971 [])) = ApeOutOfBounds.
Proof. vm_compute. reflexivity. Qed.

(** ** Reading a frame *)
Lemma ape_demux_read_frame_exact long_bits file d i buf_size data :
  ape_demux_read_frame long_bits file d i buf_size = Some data ->
  exists f, frames d !! Z.to_nat i = Some f /\ i < totalframes d /\ size f <= buf_size /\
    Z.of_nat (length data) = to_size_t long_bits (size f).
Proof.
  unfold ape_demux_read_frame. destruct (Z.leb_spec (totalframes d) i); [done|].
  destruct (frames d !! _) as [f|] eqn:Ef; [|done]. cbn [mbind option_bind].
  destruct (Z.ltb_spec buf_size (size f)); [done|]. destruct (_ <? 0); [done|].
  destruct (Z.eqb_spec (Z.of_nat (length (fread file (to_long long_bits (pos f))
    (Z.to_nat (to_size_t long_bits (size f)))))) (to_size_t long_bits (size f))) as [E|]; [|done].
  intros [= <-]. by exists f.
Qed.

(** ** A file of three frames, the second one off the word boundary *)
Definition example_ape : list Z :=
  crafted_ape 3 (le32 88 ++ le32 102 ++ le32 120 ++ repeat 7 60).
Lemma ape_demux_open_frames_witness : exists d,
  ape_demux_open 32 (fun _ => true) (Some example_ape) = ApeOpened d /\
  map (fun f => (pos f, size f, nblocks f, skip f)) (frames d) =
    [(88, 16, 100, 0); (100, 20, 100, 2); (120, 28, 40, 0)] /\
  fold_right Z.add 0 (map nblocks (frames d)) = total_samples d.
Proof.
  eexists. split; [vm_compute; reflexivity|]. split; [reflexivity|].
  apply (ape_demux_open_frames 32 (fun _ => true) example_ape); [lia| |vm_compute; reflexivity].
  apply bytes_b_true. reflexivity.
Defined.
