(* ===== verification/PathCache.v ===== *)
(** The path lists kept next to the tag cache, src/library/path_cache.c: the
    named lists in memory, the directories they are read from and saved to, and
    every operation. A directory is known by its inode; [disk] maps it to its
    files. The mutex makes each operation one step. *)
From stdpp Require Import gmap sorting.
From S2P Require Import Prelude Endian StableSort PlaylistFiles.
Local Open Scope Z_scope.

(** ** [strcasecmp] and [qsort] *)
Fixpoint strcasecmp (a b : list Z) : Z :=
  match a, b with
  | [], [] => 0
  | [], _ => -1
  | _, [] => 1
  | x :: a, y :: b => if tolower x =? tolower y then strcasecmp a b else tolower x - tolower y
  end.

(** ** Data *)
Definition PATH_CACHE_PLAYLISTS : list Z := bs "playlists.list".
Definition PATH_CACHE_BOOKS : list Z := bs "books.list".
Definition PATH_CACHE_BOOK_FAVORITES : list Z := bs "book_favorites.list".
Definition PATH_CACHE_PATH_MAX : nat := 600.
Definition NAME_MAX : nat := 255.
Definition COMPAS_STORAGE_DIR : list Z := bs ".compas".
Definition LEGACY_STORAGE_DIR : list Z := bs ".open_hiby_player".

Record named_list_t := { name : list Z; paths : list (list Z); loaded : bool }.
Record path_cache := {
  lists : list named_list_t; cache_dirfd : option Z; legacy_cache_dirfd : option Z; disk : gmap Z files }.
Definition path_cache_start (d : gmap Z files) : path_cache :=
  {| lists := [ {| name := PATH_CACHE_PLAYLISTS; paths := []; loaded := false |};
                {| name := PATH_CACHE_BOOKS; paths := []; loaded := false |};
                {| name := PATH_CACHE_BOOK_FAVORITES; paths := []; loaded := false |} ];
     cache_dirfd := None; legacy_cache_dirfd := None; disk := d |}.

(** How the calls of one operation turn out: the directory each opening yields,
    the files that can be opened, read errors, allocations (by number of the
    path added), and the steps of a save. *)
Record cache_env := {
  open_compas : option Z; open_sibling : option Z; open_legacy : option Z;
  open_at : Z -> list Z -> option Z; fstat_ok : bool;
  open_ok : Z -> bool; fdopen_ok : bool; read_error : bool; alloc_path : nat -> bool; alloc_copy : bool;
  tmp_open : bool; tmp_fdopen : bool; write_ok : bool; partial : nat; sync_ok : bool; close_ok : bool;
  rename_ok : bool }.

Definition files_of (d : gmap Z files) (dir : Z) : files := default ∅ (d !! dir).
Definition with_fds (st : path_cache) (cache legacy : option Z) : path_cache :=
  {| lists := lists st; cache_dirfd := cache; legacy_cache_dirfd := legacy; disk := disk st |}.
Definition with_lists (st : path_cache) (l : list named_list_t) : path_cache :=
  {| lists := l; cache_dirfd := cache_dirfd st; legacy_cache_dirfd := legacy_cache_dirfd st; disk := disk st |}.
Definition with_disk (st : path_cache) (d : gmap Z files) : path_cache :=
  {| lists := lists st; cache_dirfd := cache_dirfd st; legacy_cache_dirfd := legacy_cache_dirfd st; disk := d |}.

Definition ensure_cache_dirfd (io : cache_env) (st : path_cache) : bool * path_cache :=
  match cache_dirfd st, legacy_cache_dirfd st with
  | None, None =>
      match open_compas io with
      | Some d => (true, with_fds st (Some d) (open_sibling io))
      | None => match open_legacy io with
                | Some d => (true, with_fds st None (Some d))
                | None => (false, with_fds st None None)
                end
      end
  | _, _ => (true, st)
  end.

(** ** The lists *)
Definition path_list_has (l : list (list Z)) (path : list Z) : bool := existsb (fun p => bytes_eqb p path) l.
(** [ok]: the allocations for the new path succeed. *)
Definition path_list_add (ok : bool) (l : list (list Z)) (path : list Z) : bool * list (list Z) :=
  if path_list_has l path then (true, l) else if ok then (true, l ++ [path]) else (false, l).
Fixpoint path_list_remove (l : list (list Z)) (path : list Z) : list (list Z) :=
  match l with
  | [] => []
  | p :: l => if bytes_eqb p path then l else p :: path_list_remove l path
  end.
Definition list_by_name (st : path_cache) (nm : list Z) : option named_list_t :=
  List.find (fun e => bytes_eqb (name e) nm) (lists st).
(** The assignment through the pointer [list_by_name] returned. *)
Definition put_list (st : path_cache) (e : named_list_t) : path_cache :=
  with_lists st (map (fun e' => if bytes_eqb (name e') (name e) then e else e') (lists st)).

Definition path_valid_for_list (nm path : list Z) : bool :=
  match path with
  | [] => false
  | _ => if bytes_eqb nm PATH_CACHE_PLAYLISTS then library_is_m3u_file path else true
  end.

(** ** Loading *)

(** [fgets]: the bytes stored, the rest, and whether the end was seen. *)
Definition fgets (size : nat) (s : list Z) : list Z * list Z * bool :=
  let n := match strchr 10 s with Some i => S i | None => length s end in
  let n := Nat.min n (size - 1) in
  (take n s, drop n s, match strchr 10 s with Some _ => false | None => (length s <? size - 1)%nat end).
Definition skip_line (s : list Z) : list Z :=
  match strchr 10 s with Some i => drop (S i) s | None => [] end.
Definition ends_with_newline (line : list Z) : bool :=
  match list.last line with Some c => c =? 10 | None => false end.

Fixpoint load_lines (fuel : nat) (alloc : nat -> bool) (nm s : list Z) (i : nat) (acc : list (list Z))
    : option (list (list Z)) :=
  match fuel, s with
  | S fuel, _ :: _ =>
      let '(chunk, rest, eof) := fgets PATH_CACHE_PATH_MAX s in
      let line := cstr chunk in
      if negb (ends_with_newline line) && negb eof then load_lines fuel alloc nm (skip_line rest) (S i) acc else
      let line := library_trim_eol line in
      if negb (path_valid_for_list nm line) then load_lines fuel alloc nm rest (S i) acc else
      let '(ok, acc) := path_list_add (alloc i) acc line in
      if ok then load_lines fuel alloc nm rest (S i) acc else None
  | _, _ => Some acc
  end.

(** The stream of a list's file: its content, or whether it does not exist. *)
Definition open_in (io : cache_env) (st : path_cache) (nm : list Z) (dir : Z) : list Z + bool :=
  match files_of (disk st) dir !! nm with
  | None => inr true
  | Some content => if open_ok io dir then inl content else inr false
  end.
Definition open_list (io : cache_env) (st : path_cache) (nm : list Z) : list Z + bool :=
  match cache_dirfd st, legacy_cache_dirfd st with
  | Some d, None => open_in io st nm d
  | Some d, Some l => match open_in io st nm d with inr true => open_in io st nm l | r => r end
  | None, Some l => open_in io st nm l
  | None, None => inr false
  end.

Definition unloaded (e : named_list_t) : named_list_t := {| name := name e; paths := []; loaded := false |}.
Definition list_load_file (io : cache_env) (st : path_cache) (e : named_list_t) : path_cache * named_list_t :=
  let '(have, st) := ensure_cache_dirfd io st in
  if negb have then (st, unloaded e) else
  match open_list io st (name e) with
  | inr enoent => (st, {| name := name e; paths := []; loaded := enoent |})
  | inl content =>
      if negb (fdopen_ok io) || read_error io then (st, unloaded e) else
      match load_lines (S (length content)) (alloc_path io) (name e) content 0 [] with
      | Some l => (st, {| name := name e; paths := l; loaded := true |})
      | None => (st, unloaded e)
      end
  end.

Definition ensure_loaded (io : cache_env) (st : path_cache) (nm : list Z) : path_cache * option named_list_t :=
  match list_by_name st nm with
  | None => (st, None)
  | Some e =>
      if loaded e then (st, Some e) else
      let '(have, st) := ensure_cache_dirfd io st in
      if negb have then (st, None) else
      let '(st, e) := list_load_file io st e in
      let st := put_list st e in
      (st, if loaded e then Some e else None)
  end.

(** ** Saving *)
Definition tmp_of (nm : list Z) : list Z := 46 :: nm ++ bs ".tmp".
Definition serialize_list (l : list (list Z)) : list Z := concat (map (fun p => p ++ [10]) l).
(** The steps [list_save_file] takes in its directory. *)
Definition save_ops (io : cache_env) (e : named_list_t) : list fs_op :=
  let tmp := tmp_of (name e) in
  if (NAME_MAX <=? length tmp)%nat then [] else
  if negb (tmp_open io) then [] else
  if negb (tmp_fdopen io) then [Create tmp] else
  let out := serialize_list (paths e) in
  if write_ok io && sync_ok io && close_ok io then
    [Create tmp; Append tmp out; if rename_ok io then Rename tmp (name e) else Unlink tmp]
  else [Create tmp; Append tmp (if write_ok io then out else take (partial io) out); Unlink tmp].
Definition list_save_file (io : cache_env) (st : path_cache) (e : named_list_t) : path_cache :=
  let '(have, st) := ensure_cache_dirfd io st in
  if negb have then st else
  match cache_dirfd st with
  | None => st
  | Some d => with_disk st (<[d := run (save_ops io e) (files_of (disk st) d)]> (disk st))
  end.

(** ** Operations *)
Section Operations.
Context (qsort : list (list Z) -> list (list Z)) (io : cache_env).

Definition dup_sorted (l : list (list Z)) (keep : list Z -> bool) : list (list Z) :=
  match List.filter keep l with
  | [] => []
  | kept => if alloc_copy io then qsort kept else []
  end.

Definition path_cache_drop (st : path_cache) : path_cache :=
  {| lists := map unloaded (lists st); cache_dirfd := None; legacy_cache_dirfd := None; disk := disk st |}.

Definition same_directory (a : option Z) (b : Z) : bool :=
  match a with Some a => fstat_ok io && (a =? b) | None => false end.
Definition path_cache_bind_directory_fd (st : path_cache) (dirfd : Z) : bool * path_cache :=
  if dirfd <? 0 then (false, st) else
  let current := match cache_dirfd st with Some d => Some d | None => legacy_cache_dirfd st end in
  let compas := open_at io dirfd COMPAS_STORAGE_DIR in
  let legacy := open_at io dirfd LEGACY_STORAGE_DIR in
  match (match compas with Some d => Some d | None => legacy end) with
  | None => (false, st)
  | Some requested =>
      if existsb loaded (lists st) then (same_directory current requested, st) else
      if match current with Some _ => negb (same_directory current requested) | None => false end
      then (false, st) else
      match compas with
      | Some d => (true, with_fds st (Some d) legacy)
      | None => (true, with_fds st None (Some requested))
      end
  end.

(** The additions of [path_cache_replace]; a failed one is passed over. *)
Fixpoint replace_paths (nm : list Z) (ps : list (list Z)) (i : nat) (acc : list (list Z)) : list (list Z) :=
  match ps with
  | [] => acc
  | p :: ps => replace_paths nm ps (S i)
                 (if path_valid_for_list nm p then snd (path_list_add (alloc_path io i) acc p) else acc)
  end.

(** Change an entry and save it. *)
Definition update_list (st : path_cache) (e : named_list_t) (l : list (list Z)) : path_cache :=
  let e := {| name := name e; paths := l; loaded := loaded e |} in
  list_save_file io (put_list st e) e.

Definition path_cache_replace (st : path_cache) (nm : list Z) (ps : list (list Z)) : path_cache :=
  match ensure_loaded io st nm with
  | (st, Some e) => update_list st e (replace_paths nm ps 0 [])
  | (st, None) => st
  end.
Definition path_cache_insert (st : path_cache) (nm path : list Z) : path_cache :=
  match ensure_loaded io st nm with
  | (st, Some e) => if path_valid_for_list nm path
                    then update_list st e (snd (path_list_add (alloc_path io 0) (paths e) path)) else st
  | (st, None) => st
  end.
Definition path_cache_delete (st : path_cache) (nm path : list Z) : path_cache :=
  match ensure_loaded io st nm with
  | (st, Some e) => update_list st e (path_list_remove (paths e) path)
  | (st, None) => st
  end.
Definition path_cache_load (st : path_cache) (nm : list Z) : path_cache * list (list Z) :=
  match ensure_loaded io st nm with
  | (st, Some e) => (st, dup_sorted (paths e) (fun _ => true))
  | (st, None) => (st, [])
  end.
Definition path_cache_load_matching (st : path_cache) (nm filter_name : list Z)
    : path_cache * list (list Z) :=
  let '(st, entry) := ensure_loaded io st nm in
  let '(st, filter) := ensure_loaded io st filter_name in
  match entry, filter with
  | Some e, Some f => (st, dup_sorted (paths e) (path_list_has (paths f)))
  | _, _ => (st, [])
  end.
Definition path_cache_has (st : path_cache) (nm path : list Z) : path_cache * bool :=
  match ensure_loaded io st nm with
  | (st, Some e) => (st, path_list_has (paths e) path)
  | (st, None) => (st, false)
  end.
End Operations.

(** ** [strcasecmp] orders *)
#[export] Instance strcasecmp_order : CmpOrder strcasecmp.
Proof.
  split.
  - induction a as [|x a IH]; intros [|y b]; cbn [strcasecmp]; [done..|].
    rewrite (Z.eqb_sym (tolower y)). destruct (Z.eqb_spec (tolower x) (tolower y)); [apply IH|lia].
  - induction a as [|x a IH]; intros [|y b] [|z c]; cbn [strcasecmp]; try done.
    destruct (Z.eqb_spec (tolower x) (tolower y)) as [E|E], (Z.eqb_spec (tolower y) (tolower z)) as [E'|E'].
    + rewrite E, E', Z.eqb_refl. apply IH.
    + intros _ H. rewrite E, (proj2 (Z.eqb_neq _ _)); done.
    + intros H _. rewrite <- E', (proj2 (Z.eqb_neq _ _)); done.
    + intros H1 H2. rewrite (proj2 (Z.eqb_neq _ _)) by lia. lia.
Qed.

(** ** Lists of paths *)
Lemma path_list_has_elem l p : path_list_has l p = true <-> p ∈ l.
Proof.
  unfold path_list_has. rewrite existsb_exists. split.
  - intros (q & Hq & E). apply bytes_eqb_eq in E as ->. by apply list_elem_of_In.
  - intros H. exists p. split; [by apply list_elem_of_In|apply bytes_eqb_refl].
Qed.
Lemma path_list_has_not l p : path_list_has l p = false <-> p ∉ l.
Proof. rewrite <- path_list_has_elem. by destruct (path_list_has l p). Qed.

(** What a list may hold: distinct paths, each of which belongs in it. *)
Definition paths_ok (nm : list Z) (l : list (list Z)) : Prop :=
  NoDup l /\ Forall (fun p => path_valid_for_list nm p = true) l.
Lemma paths_ok_nil nm : paths_ok nm [].
Proof. split; [apply NoDup_nil_2|done]. Qed.
Lemma path_list_add_ok nm ok l p :
  path_valid_for_list nm p = true -> paths_ok nm l -> paths_ok nm (snd (path_list_add ok l p)).
Proof.
  intros Hp [Hn Hv]. unfold path_list_add. destruct (path_list_has l p) eqn:E; [done|].
  apply path_list_has_not in E. destruct ok; [|done]. cbn [snd]. split.
  - apply list.NoDup_app. split; [done|]. split; [|apply NoDup_singleton].
    intros x Hx ->%list_elem_of_singleton. done.
  - apply list.Forall_app. by repeat constructor.
Qed.
Lemma path_list_remove_sublist l p : path_list_remove l p `sublist_of` l.
Proof.
  induction l as [|q l IH]; cbn [path_list_remove]; [done|].
  destruct (bytes_eqb q p); [by apply sublist_cons|by apply sublist_skip].
Qed.
Lemma paths_ok_sublist nm l l' : l' `sublist_of` l -> paths_ok nm l -> paths_ok nm l'.
Proof.
  intros Hs [Hn Hv]. split; [by eapply sublist_NoDup|].
  rewrite list.Forall_forall in *. intros x Hx. apply Hv. by eapply elem_of_sublist.
Qed.
Lemma path_list_remove_elem l p q : NoDup l -> q ∈ path_list_remove l p <-> q ∈ l /\ q <> p.
Proof.
  induction l as [|x l IH]; intros Hn; cbn [path_list_remove]; [set_solver|].
  apply list.NoDup_cons in Hn as [Hx Hn]. destruct (bytes_eqb_spec x p) as [->|Hne]; [set_solver|].
  rewrite !elem_of_cons, IH by done. set_solver.
Qed.
Lemma replace_paths_ok io nm ps i acc : paths_ok nm acc -> paths_ok nm (replace_paths io nm ps i acc).
Proof.
  revert i acc. induction ps as [|p ps IH]; intros i acc H; [done|]. cbn [replace_paths]. apply IH.
  destruct (path_valid_for_list nm p) eqn:E; [by apply path_list_add_ok|done].
Qed.
Lemma load_lines_ok fuel alloc nm s i acc l :
  paths_ok nm acc -> load_lines fuel alloc nm s i acc = Some l -> paths_ok nm l.
Proof.
  revert s i acc. induction fuel as [|fuel IH]; intros s i acc H; cbn [load_lines].
  { by intros [= <-]. }
  destruct s as [|c s]; [by intros [= <-]|]. destruct (fgets _ _) as [[chunk rest] eof].
  destruct (_ && _); [by apply IH|].
  destruct (path_valid_for_list nm _) eqn:E; cbn [negb]; [|by apply IH].
  pose proof (path_list_add_ok nm (alloc i) acc _ E H) as H'.
  destruct (path_list_add _ _ _) as [ok acc']. destruct ok; [by apply IH|done].
Qed.

(** ** The invariant of the cache *)
Definition names : list (list Z) := [PATH_CACHE_PLAYLISTS; PATH_CACHE_BOOKS; PATH_CACHE_BOOK_FAVORITES].
Definition entry_ok (e : named_list_t) : Prop :=
  paths_ok (name e) (paths e) /\ (loaded e = false -> paths e = []).
Definition cache_ok (st : path_cache) : Prop := map name (lists st) = names /\ Forall entry_ok (lists st).

Lemma cache_ok_start d : cache_ok (path_cache_start d).
Proof. split; [done|]. repeat (constructor; [split; [apply paths_ok_nil|done]|]). constructor. Qed.
Lemma cache_ok_lists st st' : lists st' = lists st -> cache_ok st -> cache_ok st'.
Proof. unfold cache_ok. by intros ->. Qed.
Lemma ensure_cache_dirfd_lists io st : lists (snd (ensure_cache_dirfd io st)) = lists st.
Proof.
  unfold ensure_cache_dirfd. destruct (cache_dirfd st), (legacy_cache_dirfd st); try done.
  by destruct (open_compas io), (open_legacy io).
Qed.
Lemma list_by_name_spec st nm e :
  list_by_name st nm = Some e -> e ∈ lists st /\ name e = nm.
Proof.
  intros H. apply find_some in H as [H1 H2]. apply bytes_eqb_eq in H2.
  split; [by apply list_elem_of_In|done].
Qed.
Lemma put_list_ok st e : entry_ok e -> cache_ok st -> cache_ok (put_list st e).
Proof.
  intros He [Hn Hl]. split; cbn [put_list with_lists lists].
  - rewrite <- Hn, map_map. apply map_ext. intros e'. by destruct (bytes_eqb_spec (name e') (name e)).
  - apply Forall_map. eapply List.Forall_impl; [|exact Hl]. intros e' He'. by destruct (bytes_eqb _ _).
Qed.
Lemma list_load_file_ok io st e :
  cache_ok st -> name (snd (list_load_file io st e)) = name e /\
  entry_ok (snd (list_load_file io st e)) /\ lists (fst (list_load_file io st e)) = lists st.
Proof.
  intros Hst. unfold list_load_file. pose proof (ensure_cache_dirfd_lists io st) as Hl.
  destruct (ensure_cache_dirfd io st) as [have st1]. cbn [snd] in Hl.
  assert (entry_ok (unloaded e)) as Hu by (split; [apply paths_ok_nil|done]).
  destruct (negb have); [done|]. destruct (open_list io st1 (name e)) as [content|enoent].
  - destruct (_ || _); [done|]. destruct (load_lines _ _ _ _ _ _) as [l|] eqn:E; [|done].
    split_and!; [done| |done]. split; [|done]. by eapply load_lines_ok, E; apply paths_ok_nil.
  - split_and!; [done| |done]. split; [apply paths_ok_nil|done].
Qed.
Lemma ensure_loaded_ok io st nm :
  cache_ok st -> cache_ok (fst (ensure_loaded io st nm)) /\
  forall e, snd (ensure_loaded io st nm) = Some e -> entry_ok e /\ name e = nm /\ loaded e = true.
Proof.
  intros Hst. unfold ensure_loaded. destruct (list_by_name st nm) as [e|] eqn:E; [|done].
  destruct (list_by_name_spec _ _ _ E) as [Hin Hnm].
  pose proof (proj1 (List.Forall_forall _ _) (proj2 Hst) e (proj1 (list_elem_of_In _ _) Hin)) as He.
  destruct (loaded e) eqn:El; [split; [done|by intros _ [= <-]]|].
  pose proof (ensure_cache_dirfd_lists io st) as Hl. destruct (ensure_cache_dirfd io st) as [have st1].
  cbn [snd] in Hl. pose proof (cache_ok_lists _ _ Hl Hst) as H1. destruct (negb have); [done|].
  destruct (list_load_file_ok io st1 e H1) as (Hn & Ho & Hl').
  destruct (list_load_file io st1 e) as [st2 e2]. cbn [fst snd] in *.
  split; [by apply put_list_ok, (cache_ok_lists _ _ Hl')|].
  destruct (loaded e2) eqn:E2; [|done]. intros _ [= <-]. split_and!; congruence || done.
Qed.
Lemma list_save_file_lists io st e : lists (list_save_file io st e) = lists st.
Proof.
  unfold list_save_file. pose proof (ensure_cache_dirfd_lists io st) as Hl.
  destruct (ensure_cache_dirfd io st) as [have st1]. cbn [snd] in Hl.
  destruct (negb have); [done|]. by destruct (cache_dirfd st1).
Qed.
Lemma update_list_ok io st e l :
  cache_ok st -> paths_ok (name e) l -> loaded e = true -> cache_ok (update_list io st e l).
Proof.
  intros Hst Hl He. unfold update_list. eapply cache_ok_lists; [apply list_save_file_lists|].
  apply put_list_ok; [|done]. split; [done|]. cbn [loaded]. congruence.
Qed.

(** ** Reachable states *)
Section Reachable.
Context (qsort : list (list Z) -> list (list Z)).

(** The operations, whatever becomes of the calls they make. *)
Inductive cache_step (st : path_cache) : path_cache -> Prop :=
| Step_replace io nm ps : cache_step st (path_cache_replace io st nm ps)
| Step_insert io nm p : cache_step st (path_cache_insert io st nm p)
| Step_delete io nm p : cache_step st (path_cache_delete io st nm p)
| Step_load io nm : cache_step st (fst (path_cache_load qsort io st nm))
| Step_load_matching io nm nm' : cache_step st (fst (path_cache_load_matching qsort io st nm nm'))
| Step_has io nm p : cache_step st (fst (path_cache_has io st nm p))
| Step_bind io dirfd : cache_step st (snd (path_cache_bind_directory_fd io st dirfd))
| Step_drop : cache_step st (path_cache_drop st).

Lemma path_cache_bind_lists io st dirfd : lists (snd (path_cache_bind_directory_fd io st dirfd)) = lists st.
Proof.
  unfold path_cache_bind_directory_fd. destruct (dirfd <? 0); [done|].
  destruct (match open_at io dirfd COMPAS_STORAGE_DIR with Some d => _ | None => _ end); [|done].
  destruct (existsb loaded (lists st)); [done|].
  destruct (match _ with Some _ => _ | None => false end); [done|].
  by destruct (open_at io dirfd COMPAS_STORAGE_DIR).
Qed.
Lemma cache_step_ok st st' : cache_step st st' -> cache_ok st -> cache_ok st'.
Proof.
  intros Hs Hst.
  destruct Hs as [io nm ps|io nm p|io nm p|io nm|io nm nm'|io nm p|io dirfd|].
  - unfold path_cache_replace. destruct (ensure_loaded_ok io st nm Hst) as [H1 H2].
    destruct (ensure_loaded io st nm) as [st1 [e|]]; [|done]. destruct (H2 e eq_refl) as (_ & Hn & Hl).
    apply update_list_ok; [done| |done]. rewrite Hn. apply replace_paths_ok, paths_ok_nil.
  - unfold path_cache_insert. destruct (ensure_loaded_ok io st nm Hst) as [H1 H2].
    destruct (ensure_loaded io st nm) as [st1 [e|]]; [|done]. destruct (H2 e eq_refl) as ([He _] & Hn & Hl).
    destruct (path_valid_for_list nm p) eqn:E; [|done].
    apply update_list_ok; [done| |done]. rewrite Hn in He |- *. by apply path_list_add_ok.
  - unfold path_cache_delete. destruct (ensure_loaded_ok io st nm Hst) as [H1 H2].
    destruct (ensure_loaded io st nm) as [st1 [e|]]; [|done]. destruct (H2 e eq_refl) as ([He _] & Hn & Hl).
    apply update_list_ok; [done| |done]. eapply paths_ok_sublist, He. apply path_list_remove_sublist.
  - unfold path_cache_load. destruct (ensure_loaded_ok io st nm Hst) as [H1 _].
    by destruct (ensure_loaded io st nm) as [st1 [e|]].
  - unfold path_cache_load_matching. destruct (ensure_loaded_ok io st nm Hst) as [H1 _].
    destruct (ensure_loaded io st nm) as [st1 e]. cbn [fst] in H1.
    destruct (ensure_loaded_ok io st1 nm' H1) as [H2 _].
    destruct (ensure_loaded io st1 nm') as [st2 f]. by destruct e, f.
  - unfold path_cache_has. destruct (ensure_loaded_ok io st nm Hst) as [H1 _].
    by destruct (ensure_loaded io st nm) as [st1 [e|]].
  - eapply cache_ok_lists, Hst. apply path_cache_bind_lists.
  - destruct Hst as [Hn Hl]. split; [by rewrite <- Hn; cbn [path_cache_drop lists]; rewrite map_map|].
    apply Forall_map, List.Forall_forall. intros e _. split; [apply paths_ok_nil|done].
Qed.

Lemma cache_steps_ok st st' : rtc cache_step st st' -> cache_ok st -> cache_ok st'.
Proof. induction 1 as [|x y z Hxy _ IH]; [done|]. intros H. by eapply IH, cache_step_ok. Qed.

Lemma filter_everything {A} (l : list A) : List.filter (fun _ => true) l = l.
Proof. induction l as [|x l IH]; [done|]. cbn [List.filter]. by rewrite IH. Qed.
Lemma dup_sorted_perm `{!QSort strcasecmp qsort} io l keep :
  alloc_copy io = true -> dup_sorted qsort io l keep ≡ₚ List.filter keep l.
Proof.
  intros Ha. unfold dup_sorted. destruct (List.filter keep l) eqn:E; [done|]. rewrite Ha. apply qsort_perm.
Qed.
Lemma dup_sorted_sublist `{!QSort strcasecmp qsort} io l keep :
  StronglySorted (cle strcasecmp) (dup_sorted qsort io l keep) /\
  exists l', l' `sublist_of` l /\ dup_sorted qsort io l keep ≡ₚ l'.
Proof.
  unfold dup_sorted. assert (List.filter keep l `sublist_of` l) as Hs.
  { induction l as [|x l IH]; cbn [List.filter]; [done|].
    destruct (keep x); [by apply sublist_skip|by apply sublist_cons]. }
  destruct (List.filter keep l) as [|x t].
  { split; [constructor|]. exists []. split; [apply sublist_nil_l|done]. }
  destruct (alloc_copy io).
  - split; [apply qsort_sorted|]. eexists. split; [exact Hs|apply qsort_perm].
  - split; [constructor|]. exists []. split; [apply sublist_nil_l|done].
Qed.

Lemma load_listing_ok `{!QSort strcasecmp qsort} io st nm :
  cache_ok st ->
  let l := snd (path_cache_load qsort io st nm) in
  StronglySorted (cle strcasecmp) l /\ NoDup l /\ Forall (fun p => path_valid_for_list nm p = true) l.
Proof.
  intros Hst. cbv zeta. unfold path_cache_load. destruct (ensure_loaded_ok io st nm Hst) as [_ H2].
  destruct (ensure_loaded io st nm) as [st1 [e|]]; cbn [snd].
  - destruct (H2 e eq_refl) as ([He _] & Hn & _). rewrite Hn in He.
    destruct (dup_sorted_sublist io (paths e) (fun _ => true)) as (Hs & l' & Hl' & Hp).
    destruct (paths_ok_sublist _ _ _ Hl' He) as [Hnd Hv]. split; [done|]. by rewrite Hp.
  - split; [constructor|]. split; [apply NoDup_nil_2|done].
Qed.

(** Cn. Whatever sequence of operations led to the cache, and whatever failed on
    the way, a list it hands out is sorted without regard to case, has no path
    twice, and holds only paths that belong in it (for the playlist index, the
    paths of playlist files). *)
Theorem path_cache_listing_ok `{!QSort strcasecmp qsort} d st io nm :
  rtc cache_step (path_cache_start d) st ->
  let l := snd (path_cache_load qsort io st nm) in
  StronglySorted (cle strcasecmp) l /\ NoDup l /\ Forall (fun p => path_valid_for_list nm p = true) l.
Proof. intros Hr. by apply load_listing_ok, (cache_steps_ok _ _ Hr), cache_ok_start. Qed.
End Reachable.

(** ** Saving is atomic *)
Definition spares (nm : list Z) (l : list (list Z)) (fs fs' : files) : Prop :=
  (fs' !! nm = fs !! nm \/ fs' !! nm = Some (serialize_list l)) /\
  forall f, f <> nm -> f <> tmp_of nm -> fs' !! f = fs !! f.
Lemma tmp_of_ne nm : tmp_of nm <> nm.
Proof.
  intros H. apply (f_equal length) in H. unfold tmp_of in H. cbn [length] in H.
  rewrite length_app in H. lia.
Qed.
Lemma save_ops_spares io e fs k : spares (name e) (paths e) fs (run (take k (save_ops io e)) fs).
Proof.
  pose proof (tmp_of_ne (name e)) as Ht.
  assert (forall v, spares (name e) (paths e) fs (<[tmp_of (name e) := v]> fs)) as Hput.
  { intros v. split; [left; by rewrite lookup_insert_ne|]. intros f _ Hf. by rewrite lookup_insert_ne. }
  assert (spares (name e) (paths e) fs fs) as H0 by (split; [by left|done]).
  assert (forall out, spares (name e) (paths e) fs (alter (fun old => old ++ out) (tmp_of (name e))
            (<[tmp_of (name e) := []]> fs))) as Happ.
  { intros out. rewrite alter_insert_eq. apply Hput. }
  assert (forall out, spares (name e) (paths e) fs (delete (tmp_of (name e))
     (alter (fun old => old ++ out) (tmp_of (name e)) (<[tmp_of (name e) := []]> fs)))) as Hdel.
  { intros out. rewrite alter_insert_eq. split; [left; by rewrite lookup_delete_ne, lookup_insert_ne|].
    intros f _ Hf. by rewrite lookup_delete_ne, lookup_insert_ne. }
  unfold save_ops. cbv zeta. destruct (_ <=? _)%nat; [by rewrite take_nil|].
  destruct (negb (tmp_open io)); [by rewrite take_nil|].
  destruct (negb (tmp_fdopen io)); [destruct k as [|k]; [done|]; rewrite take_ge by (cbn [length]; lia); apply Hput|].
  destruct (write_ok io && sync_ok io && close_ok io).
  - destruct (rename_ok io).
    2: { destruct k as [|[|[|k]]]; [done|apply Hput|apply Happ|].
         rewrite take_ge by (cbn [length]; lia). apply Hdel. }
    destruct k as [|[|[|k]]]; [done|apply Hput|apply Happ|].
    rewrite take_ge by (cbn [length]; lia). unfold run. cbn [fold_left apply_op].
    rewrite alter_insert_eq, lookup_insert_eq. cbn [app].
    split; [right; by rewrite lookup_insert_eq|].
    intros f Hf Hf'. by rewrite lookup_insert_ne, lookup_delete_ne, lookup_insert_ne.
  - destruct k as [|[|[|k]]]; [done|apply Hput|apply Happ|].
    rewrite take_ge by (cbn [length]; lia). apply Hdel.
Qed.

(** ** Looking lists up *)
Lemma list_by_name_in st nm : cache_ok st -> nm ∈ names -> exists e, list_by_name st nm = Some e.
Proof.
  intros [Hn _] Hin. destruct (list_by_name st nm) as [e|] eqn:E; [by exists e|]. exfalso.
  rewrite <- Hn in Hin. apply list_elem_of_In, in_map_iff in Hin as (e & He & Hin).
  pose proof (find_none _ _ E e Hin) as H. cbn in H. by rewrite He, bytes_eqb_refl in H.
Qed.
Lemma list_by_name_put st e e0 : list_by_name st (name e) = Some e0 -> list_by_name (put_list st e) (name e) = Some e.
Proof.
  unfold list_by_name, put_list. cbn [with_lists lists]. induction (lists st) as [|e' l IH]; [done|].
  cbn [List.find map]. destruct (bytes_eqb_spec (name e') (name e)) as [E|E]; [by rewrite bytes_eqb_refl|].
  destruct (bytes_eqb_spec (name e') (name e)); [done|]. exact IH.
Qed.
Lemma list_by_name_lists st st' nm : lists st' = lists st -> list_by_name st' nm = list_by_name st nm.
Proof. unfold list_by_name. by intros ->. Qed.

Lemma ensure_cache_dirfd_again io io' st :
  fst (ensure_cache_dirfd io st) = true ->
  ensure_cache_dirfd io' (snd (ensure_cache_dirfd io st)) = (true, snd (ensure_cache_dirfd io st)).
Proof.
  unfold ensure_cache_dirfd. destruct (cache_dirfd st) eqn:E1, (legacy_cache_dirfd st) eqn:E2;
    cbn [fst snd]; rewrite ?E1, ?E2; try done.
  destruct (open_compas io); [done|]. by destruct (open_legacy io).
Qed.
Lemma ensure_cache_dirfd_have io st d :
  cache_dirfd (snd (ensure_cache_dirfd io st)) = Some d -> fst (ensure_cache_dirfd io st) = true.
Proof.
  unfold ensure_cache_dirfd. destruct (cache_dirfd st) eqn:E1, (legacy_cache_dirfd st) eqn:E2; try done.
  destruct (open_compas io); [done|]. by destruct (open_legacy io).
Qed.
Lemma ensure_cache_dirfd_disk io st : disk (snd (ensure_cache_dirfd io st)) = disk st.
Proof.
  unfold ensure_cache_dirfd. destruct (cache_dirfd st), (legacy_cache_dirfd st); try done.
  by destruct (open_compas io), (open_legacy io).
Qed.

(** What loading an entry leaves of the state. *)
Lemma list_load_file_state io st e :
  fst (list_load_file io st e) = snd (ensure_cache_dirfd io st).
Proof.
  unfold list_load_file. destruct (ensure_cache_dirfd io st) as [have st1]. destruct have; [|done]. cbn [negb].
  destruct (open_list io st1 (name e)); [|done]. destruct (_ || _); [done|]. by destruct (load_lines _ _ _ _ _ _).
Qed.
Lemma ensure_loaded_disk io st nm : disk (fst (ensure_loaded io st nm)) = disk st.
Proof.
  unfold ensure_loaded. destruct (list_by_name st nm) as [e|]; [|done]. destruct (loaded e); [done|].
  pose proof (ensure_cache_dirfd_disk io st) as Hd. destruct (ensure_cache_dirfd io st) as [have st1].
  cbn [snd] in Hd. destruct have; [|done]. cbn [negb].
  pose proof (list_load_file_state io st1 e) as Hl. destruct (list_load_file io st1 e) as [st2 e2].
  cbn [fst] in Hl. cbn [fst put_list with_lists disk]. by rewrite Hl, ensure_cache_dirfd_disk.
Qed.
(** An entry that was handed out is the one in the table. *)
Lemma ensure_loaded_entry io st nm e :
  cache_ok st -> snd (ensure_loaded io st nm) = Some e -> list_by_name (fst (ensure_loaded io st nm)) nm = Some e.
Proof.
  intros Hst. unfold ensure_loaded. destruct (list_by_name st nm) as [e0|] eqn:E; [|done].
  destruct (list_by_name_spec _ _ _ E) as [_ Hnm].
  destruct (loaded e0) eqn:El; [by intros [= <-]|].
  pose proof (ensure_cache_dirfd_lists io st) as Hl. destruct (ensure_cache_dirfd io st) as [have st1].
  cbn [snd] in Hl. destruct (negb have); [done|].
  destruct (list_load_file_ok io st1 e0 (cache_ok_lists _ _ Hl Hst)) as (Hn & _ & Hl').
  destruct (list_load_file io st1 e0) as [st2 e2]. cbn [fst snd] in *.
  destruct (loaded e2); [|done]. intros [= <-]. rewrite <- Hnm, <- Hn.
  apply list_by_name_put with e0. rewrite Hn, Hnm.
  rewrite (list_by_name_lists st st2) by congruence. exact E.
Qed.

(** ** Mutations *)
Inductive mutation := Replace (ps : list (list Z)) | Insert (p : list Z) | Delete (p : list Z).
Definition mutate (io : cache_env) (st : path_cache) (nm : list Z) (m : mutation) : path_cache :=
  match m with
  | Replace ps => path_cache_replace io st nm ps
  | Insert p => path_cache_insert io st nm p
  | Delete p => path_cache_delete io st nm p
  end.
(** The list a mutation means to leave. *)
Definition mutated (io : cache_env) (nm : list Z) (m : mutation) (l : list (list Z)) : list (list Z) :=
  match m with
  | Replace ps => replace_paths io nm ps 0 []
  | Insert p => snd (path_list_add (alloc_path io 0) l p)
  | Delete p => path_list_remove l p
  end.
(** [path_cache_insert] ignores a path that does not belong in the list. *)
Definition saves (nm : list Z) (m : mutation) : bool :=
  match m with Insert p => path_valid_for_list nm p | _ => true end.
Lemma mutate_spec io st nm m :
  mutate io st nm m =
    match ensure_loaded io st nm with
    | (st, Some e) => if saves nm m then update_list io st e (mutated io nm m (paths e)) else st
    | (st, None) => st
    end.
Proof.
  destruct m; cbn [mutate saves mutated];
    [unfold path_cache_replace|unfold path_cache_insert|unfold path_cache_delete];
    by destruct (ensure_loaded io st nm) as [st1 [e|]].
Qed.
Lemma list_save_file_disk io st e :
  disk (list_save_file io st e) = disk st \/
  exists dir, disk (list_save_file io st e) =
    <[dir := run (save_ops io e) (files_of (disk st) dir)]> (disk st).
Proof.
  unfold list_save_file. pose proof (ensure_cache_dirfd_disk io st) as Hd.
  destruct (ensure_cache_dirfd io st) as [have st1]. cbn [snd] in Hd. destruct have; [|by left]. cbn [negb].
  destruct (cache_dirfd st1) as [d|]; [|by left]. right. exists d. cbn [with_disk disk]. by rewrite Hd.
Qed.

(** Cn. However the calls of a mutation turn out and wherever its steps are cut,
    only the list's own file in the cache directory and its temporary are
    touched, and the list's file is the old one or the complete text of the new
    list. *)
Theorem path_cache_save_atomic io st nm m :
  cache_ok st ->
  let st' := mutate io st nm m in
  disk st' = disk st \/
  exists dir e, list_by_name st' nm = Some e /\ name e = nm /\
    disk st' = <[dir := run (save_ops io e) (files_of (disk st) dir)]> (disk st) /\
    forall k, spares nm (paths e) (files_of (disk st) dir) (run (take k (save_ops io e)) (files_of (disk st) dir)).
Proof.
  intros Hst. cbv zeta. rewrite mutate_spec. pose proof (ensure_loaded_disk io st nm) as Hd.
  destruct (ensure_loaded_ok io st nm Hst) as [H1 H2]. pose proof (ensure_loaded_entry io st nm) as He.
  destruct (ensure_loaded io st nm) as [st1 [e|]]; [|by left]. cbn [fst snd] in *.
  destruct (saves nm m); [|by left]. destruct (H2 e eq_refl) as (_ & Hn & Hl).
  specialize (He e Hst eq_refl). unfold update_list.
  set (e' := {| name := name e; paths := _; loaded := loaded e |}).
  destruct (list_save_file_disk io (put_list st1 e') e') as [E|[dir E]].
  { left. rewrite E. cbn [put_list with_lists disk]. done. }
  right. exists dir, e'. cbn [put_list with_lists disk] in E. rewrite Hd in E. split_and!; [|done|done|].
  - rewrite <- Hn in He |- *. rewrite (list_by_name_lists _ _ _ (list_save_file_lists _ _ _)).
    by apply (list_by_name_put st1 e' e).
  - intros k. rewrite <- Hn. apply (save_ops_spares io e').
Qed.

(** ** Reading a saved list back *)
(** A path the line reader gives back: no byte that ends a line or a string, and
    short enough for its buffer. *)
Definition storable (p : list Z) : Prop :=
  Forall is_char p /\ (10 ∉ p) /\ list.last p <> Some 13 /\ (length p + 1 < PATH_CACHE_PATH_MAX)%nat.

Lemma fgets_line size p rest :
  (10 ∉ p) -> (length p + 1 < size)%nat -> fgets size (p ++ 10 :: rest) = (p ++ [10], rest, false).
Proof.
  intros Hp Hl. unfold fgets.
  rewrite strchr_here by done.
  rewrite Nat.min_l by lia. change (10 :: rest) with ([10] ++ rest). rewrite app_assoc.
  assert (S (length p) = length (p ++ [10])) as -> by (rewrite length_app; cbn; lia).
  by rewrite take_app_length, drop_app_length.
Qed.
Lemma load_serialize fuel alloc nm l i acc :
  (forall i, alloc i = true) -> Forall storable l -> paths_ok nm (acc ++ l) ->
  (length (serialize_list l) < fuel)%nat -> load_lines fuel alloc nm (serialize_list l) i acc = Some (acc ++ l).
Proof.
  intros Ha. revert i acc l. induction fuel as [|fuel IH]; intros i acc l Hs Hok Hf; [lia|].
  destruct l as [|p l]; [by rewrite app_nil_r|].
  apply Forall_cons_iff in Hs as [(Hc & H10 & H13 & Hlen) Hs].
  assert (path_valid_for_list nm p = true) as Hv.
  { destruct Hok as [_ Hv]. apply list.Forall_app in Hv as [_ Hv]. by apply Forall_cons_iff in Hv as [Hv _]. }
  assert (p ∉ acc) as Hnin.
  { destruct Hok as [Hn _]. apply list.NoDup_app in Hn as (_ & Hn & _). intros Hin. apply (Hn p Hin). set_solver. }
  change (serialize_list (p :: l)) with ((p ++ [10]) ++ serialize_list l) in *. rewrite <- app_assoc in *.
  cbn [load_lines app] in *.
  destruct (p ++ 10 :: serialize_list l) as [|c t] eqn:E; [by destruct p|]. rewrite <- E.
  rewrite fgets_line by done.
  rewrite cstr_chars by (apply list.Forall_app; split; [done|]; constructor; [unfold is_char; lia|done]).
  assert (ends_with_newline (p ++ [10]) = true) as -> by (unfold ends_with_newline; by rewrite list.last_snoc).
  cbn [negb andb]. rewrite trim_path_line, Hv by done. cbn [negb]. unfold path_list_add.
  rewrite (proj2 (path_list_has_not acc p) Hnin), Ha. rewrite IH; [by rewrite <- app_assoc|done|by rewrite <- app_assoc|].
  apply (f_equal length) in E. rewrite length_app in E. cbn [length] in *. lia.
Qed.
Lemma load_lines_total fuel alloc nm s i acc :
  (forall i, alloc i = true) -> exists l, load_lines fuel alloc nm s i acc = Some l.
Proof.
  intros Ha. revert s i acc. induction fuel as [|fuel IH]; intros s i acc; cbn [load_lines]; [by eexists|].
  destruct s as [|c s]; [by eexists|]. destruct (fgets _ _) as [[chunk rest] eof].
  destruct (_ && _); [apply IH|]. destruct (negb _); [apply IH|].
  unfold path_list_add. rewrite Ha. destruct (path_list_has _ _); apply IH.
Qed.

(** ** The cache against its specification *)
Definition all_ok (io : cache_env) : Prop :=
  (forall d, open_ok io d = true) /\ fdopen_ok io = true /\ read_error io = false /\
  (forall i, alloc_path io i = true) /\ alloc_copy io = true /\ tmp_open io = true /\ tmp_fdopen io = true /\
  write_ok io = true /\ sync_ok io = true /\ close_ok io = true /\ rename_ok io = true.
Definition binds (io : cache_env) (st : path_cache) (dir : Z) : Prop :=
  cache_dirfd (snd (ensure_cache_dirfd io st)) = Some dir.

Lemma open_list_ok io st nm dir :
  (forall d, open_ok io d = true) -> cache_dirfd st = Some dir -> open_list io st nm <> inr false.
Proof.
  intros Ho Hd. assert (forall d, open_in io st nm d <> inr false) as H.
  { intros d. unfold open_in. destruct (files_of (disk st) d !! nm); [by rewrite Ho|done]. }
  unfold open_list. rewrite Hd. destruct (legacy_cache_dirfd st) as [l|]; [|apply H].
  pose proof (H dir). destruct (open_in io st nm dir) as [|[]]; done || apply H.
Qed.
Lemma ensure_loaded_total io st nm dir :
  all_ok io -> cache_ok st -> nm ∈ names -> binds io st dir ->
  exists e, snd (ensure_loaded io st nm) = Some e /\ binds io (fst (ensure_loaded io st nm)) dir.
Proof.
  intros (Ho & Hf & Hr & Ha & _) Hst Hnm Hd. unfold ensure_loaded.
  destruct (list_by_name_in st nm Hst Hnm) as [e E]. rewrite E.
  destruct (loaded e) eqn:El; [by exists e|].
  pose proof (ensure_cache_dirfd_have _ _ _ Hd) as Hh.
  pose proof (ensure_cache_dirfd_again io io st Hh) as Hag. unfold binds in Hd.
  destruct (ensure_cache_dirfd io st) as [have st1]. cbn [fst snd] in *. subst have. cbn [negb].
  unfold list_load_file. rewrite Hag. cbn [negb].
  assert (forall st2, cache_dirfd st2 = Some dir -> binds io st2 dir) as Hb.
  { intros st2 H2. unfold binds, ensure_cache_dirfd. rewrite H2. by destruct (legacy_cache_dirfd st2). }
  destruct (open_list io st1 (name e)) as [content|[]] eqn:Eo.
  - rewrite Hf, Hr. cbn [negb orb].
    destruct (load_lines_total (S (length content)) (alloc_path io) (name e) content 0 [] Ha) as [l ->].
    cbn [loaded fst snd]. eexists. split; [done|by apply Hb].
  - cbn [loaded fst snd]. eexists. split; [done|by apply Hb].
  - by destruct (open_list_ok io st1 (name e) dir Ho Hd).
Qed.
Lemma ensure_loaded_idle io st nm e :
  list_by_name st nm = Some e -> loaded e = true -> ensure_loaded io st nm = (st, Some e).
Proof. intros E El. unfold ensure_loaded. by rewrite E, El. Qed.

Lemma mutated_ok io nm m l : saves nm m = true -> paths_ok nm l -> paths_ok nm (mutated io nm m l).
Proof.
  intros Hs Hl. destruct m as [ps|p|p]; cbn [mutated].
  - apply replace_paths_ok, paths_ok_nil.
  - by apply path_list_add_ok.
  - eapply paths_ok_sublist, Hl. apply path_list_remove_sublist.
Qed.
(** The set a mutation means to leave. *)
Definition mutation_spec (nm : list Z) (m : mutation) (before : list (list Z)) (p : list Z) : Prop :=
  match m with
  | Replace ps => p ∈ ps /\ path_valid_for_list nm p = true
  | Insert q => p ∈ before \/ (p = q /\ path_valid_for_list nm q = true)
  | Delete q => p ∈ before /\ p <> q
  end.
Lemma add_elem l q p : p ∈ snd (path_list_add true l q) <-> p ∈ l \/ p = q.
Proof.
  unfold path_list_add. destruct (path_list_has l q) eqn:E; cbn [snd].
  - apply path_list_has_elem in E. split; [by left|]. by intros [ | ->].
  - rewrite elem_of_app, list_elem_of_singleton. done.
Qed.
Lemma replace_elem io nm ps i acc p :
  (forall i, alloc_path io i = true) ->
  p ∈ replace_paths io nm ps i acc <-> p ∈ acc \/ (p ∈ ps /\ path_valid_for_list nm p = true).
Proof.
  intros Ha. revert i acc. induction ps as [|q ps IH]; intros i acc; cbn [replace_paths]; [set_solver|].
  rewrite IH, Ha, list.elem_of_cons.
  destruct (path_valid_for_list nm q) eqn:E; [rewrite add_elem|]; intuition congruence.
Qed.
Lemma mutated_elem io nm m l p :
  (forall i, alloc_path io i = true) -> NoDup l -> saves nm m = true ->
  p ∈ mutated io nm m l <-> mutation_spec nm m l p.
Proof.
  intros Ha Hn Hs. destruct m as [ps|q|q]; cbn [mutated mutation_spec].
  - rewrite replace_elem by done. set_solver.
  - rewrite Ha, add_elem. cbn [saves] in Hs. rewrite Hs. tauto.
  - by apply path_list_remove_elem.
Qed.

Lemma put_binds io st e dir : binds io st dir -> binds io (put_list st e) dir.
Proof.
  unfold binds, ensure_cache_dirfd. cbn [put_list with_lists cache_dirfd legacy_cache_dirfd].
  destruct (cache_dirfd st), (legacy_cache_dirfd st); try done.
  by destruct (open_compas io), (open_legacy io).
Qed.
(** A save that goes well leaves the serialization in the list's file. *)
Lemma save_ops_good io e fs :
  all_ok io -> name e ∈ names -> run (save_ops io e) fs !! name e = Some (serialize_list (paths e)).
Proof.
  intros (_ & _ & _ & _ & _ & H1 & H2 & H3 & H4 & H5 & H6) Hn. unfold save_ops. cbv zeta.
  assert ((NAME_MAX <=? length (tmp_of (name e)))%nat = false) as ->.
  { unfold names in Hn. rewrite !list.elem_of_cons in Hn.
    destruct Hn as [E | [E | [E | Hn]]]; [rewrite E; reflexivity..|by apply elem_of_nil in Hn]. }
  rewrite H1, H2, H3, H4, H5, H6. cbn [negb andb]. unfold run. cbn [fold_left apply_op].
  by rewrite alter_insert_eq, lookup_insert_eq, lookup_insert_eq.
Qed.
Lemma update_list_good io st e l dir :
  all_ok io -> name e ∈ names -> list_by_name st (name e) = Some e -> binds io st dir ->
  list_by_name (update_list io st e l) (name e) = Some {| name := name e; paths := l; loaded := loaded e |} /\
  files_of (disk (update_list io st e l)) dir !! name e = Some (serialize_list l).
Proof.
  intros Hio Hn He Hb. unfold update_list. set (e' := {| name := name e; paths := l; loaded := loaded e |}).
  rewrite (list_by_name_lists _ _ _ (list_save_file_lists _ _ _)).
  split; [by apply (list_by_name_put st e' e)|].
  apply (put_binds io st e' dir) in Hb. unfold list_save_file.
  pose proof (ensure_cache_dirfd_have _ _ _ Hb) as Hh. unfold binds in Hb.
  destruct (ensure_cache_dirfd io (put_list st e')) as [have st1]. cbn [fst snd] in *. subst have. cbn [negb].
  rewrite Hb. cbn [with_disk disk]. unfold files_of at 1. rewrite lookup_insert_eq. cbn [default from_option].
  apply (save_ops_good io e'); done.
Qed.

(** After a restart on the same card the saved list is read back. *)
Lemma restart_loads qsort `{!QSort strcasecmp qsort} io st nm dir l :
  all_ok io -> cache_ok st -> nm ∈ names -> open_compas io = Some dir ->
  files_of (disk st) dir !! nm = Some (serialize_list l) -> Forall storable l -> paths_ok nm l ->
  snd (path_cache_load qsort io (path_cache_drop st) nm) ≡ₚ l.
Proof.
  intros (Ho & Hf & Hr & Ha & Hc & _) Hst Hnm Hd Hl Hs Hok.
  assert (cache_ok (path_cache_drop st)) as Hst'.
  { apply (cache_step_ok qsort st); [constructor|done]. }
  assert (exists e, list_by_name (path_cache_drop st) nm = Some e /\ name e = nm /\ loaded e = false) as (e & E & Hn & El).
  { destruct (list_by_name_in _ nm Hst' Hnm) as [e E]. exists e. split; [done|].
    destruct (list_by_name_spec _ _ _ E) as [Hin Hn]. split; [done|].
    cbn [path_cache_drop lists] in Hin. apply list_elem_of_In, in_map_iff in Hin as (? & <- & _). done. }
  unfold path_cache_load, ensure_loaded. rewrite E, El.
  assert (ensure_cache_dirfd io (path_cache_drop st) =
    (true, with_fds (path_cache_drop st) (Some dir) (open_sibling io))) as Hen.
  { unfold ensure_cache_dirfd. cbn [path_cache_drop cache_dirfd legacy_cache_dirfd]. by rewrite Hd. }
  rewrite Hen. cbn [negb]. unfold list_load_file.
  assert (ensure_cache_dirfd io (with_fds (path_cache_drop st) (Some dir) (open_sibling io)) =
    (true, with_fds (path_cache_drop st) (Some dir) (open_sibling io))) as -> by done.
  cbn [negb]. assert (open_list io (with_fds (path_cache_drop st) (Some dir) (open_sibling io)) (name e) =
    inl (serialize_list l)) as ->.
  { unfold open_list, open_in. cbn [with_fds cache_dirfd legacy_cache_dirfd disk path_cache_drop].
    rewrite Hn, Hl, Ho. by destruct (open_sibling io). }
  rewrite Hf, Hr. cbn [negb orb]. rewrite Hn.
  rewrite (load_serialize _ _ nm l 0 []) by (done || lia). cbn [loaded snd app].
  rewrite dup_sorted_perm by done. cbn [paths]. by rewrite filter_everything.
Qed.

(** A loaded list is listed as it is. *)
Lemma load_listing qsort `{!QSort strcasecmp qsort} io st nm e :
  alloc_copy io = true -> snd (ensure_loaded io st nm) = Some e ->
  snd (path_cache_load qsort io st nm) ≡ₚ paths e.
Proof.
  intros Ha He. unfold path_cache_load. destruct (ensure_loaded io st nm) as [st1 e1]. cbn [snd] in *. subst e1.
  by rewrite (dup_sorted_perm qsort), filter_everything.
Qed.

Section Mutate.
Context (qsort : list (list Z) -> list (list Z)) `{!QSort strcasecmp qsort}.
Context (io : cache_env) (st : path_cache) (nm : list Z) (dir : Z).
Hypotheses (Hio : all_ok io) (Hst : cache_ok st) (Hnm : nm ∈ names) (Hb : binds io st dir).

(** The list before and after a mutation, in memory and on the card. *)
Lemma mutate_saved m : saves nm m = true -> exists l,
  snd (path_cache_load qsort io st nm) ≡ₚ l /\ paths_ok nm l /\
  cache_ok (mutate io st nm m) /\
  list_by_name (mutate io st nm m) nm = Some {| name := nm; paths := mutated io nm m l; loaded := true |} /\
  files_of (disk (mutate io st nm m)) dir !! nm = Some (serialize_list (mutated io nm m l)).
Proof using Hio Hst Hnm Hb QSort0.
  intros Hs. rewrite mutate_spec, Hs.
  destruct (ensure_loaded_total io st nm dir Hio Hst Hnm Hb) as (e & He & Hb').
  destruct (ensure_loaded_ok io st nm Hst) as [H1 H2]. pose proof (ensure_loaded_entry io st nm e Hst He) as Hin.
  pose proof (load_listing qsort io st nm e ltac:(apply Hio) He) as Hbefore.
  destruct (ensure_loaded io st nm) as [st1 e1]. cbn [fst snd] in *. subst e1.
  destruct (H2 e eq_refl) as ([Hok _] & Hn & Hl). rewrite Hn in Hok.
  rewrite <- Hn in Hin, Hnm |- *.
  destruct (update_list_good io st1 e (mutated io (name e) m (paths e)) dir Hio Hnm Hin Hb') as [Hg1 Hg2].
  rewrite Hn in *. exists (paths e). split_and!; [done|done| |by rewrite Hg1, Hl|done].
  apply update_list_ok; [done| |done]. rewrite Hn. by apply mutated_ok.
Qed.
Lemma mutate_listing m p : saves nm m = true ->
  p ∈ snd (path_cache_load qsort io (mutate io st nm m) nm) <->
  mutation_spec nm m (snd (path_cache_load qsort io st nm)) p.
Proof using Hio Hst Hnm Hb QSort0.
  intros Hs. destruct (mutate_saved m Hs) as (l & Hl & Hok & _ & Hg & _).
  assert (forall i, alloc_path io i = true) as Ha by apply Hio.
  assert (alloc_copy io = true) as Hc by apply Hio.
  rewrite (load_listing qsort io (mutate io st nm m) nm _ Hc (f_equal snd (ensure_loaded_idle io _ _ _ Hg eq_refl))).
  cbn [paths]. rewrite (mutated_elem _ _ _ _ _ Ha (proj1 Hok) Hs).
  destruct m; cbn [mutation_spec]; by rewrite ?Hl.
Qed.
Lemma mutate_restart m io' : saves nm m = true -> all_ok io' -> open_compas io' = Some dir ->
  Forall storable (snd (path_cache_load qsort io (mutate io st nm m) nm)) ->
  snd (path_cache_load qsort io' (path_cache_drop (mutate io st nm m)) nm) ≡ₚ
  snd (path_cache_load qsort io (mutate io st nm m) nm).
Proof using Hio Hst Hnm Hb QSort0.
  intros Hs Hio' Hd. destruct (mutate_saved m Hs) as (l & Hl & Hok & Hm & Hg & Hf).
  assert (alloc_copy io = true) as Hc by apply Hio.
  rewrite (load_listing qsort io (mutate io st nm m) nm _ Hc (f_equal snd (ensure_loaded_idle io _ _ _ Hg eq_refl))).
  cbn [paths]. intros Hsto. apply (restart_loads qsort io' _ nm dir); try done. by apply mutated_ok.
Qed.
End Mutate.


(** ** A card with a playlist index *)
Definition good_io : cache_env :=
  {| open_compas := Some 7; open_sibling := Some 8; open_legacy := None; open_at := fun _ _ => None;
     fstat_ok := true; open_ok := fun _ => true; fdopen_ok := true; read_error := false;
     alloc_path := fun _ => true; alloc_copy := true; tmp_open := true; tmp_fdopen := true;
     write_ok := true; partial := 0; sync_ok := true; close_ok := true; rename_ok := true |}.
Definition full_io : cache_env :=
  {| open_compas := Some 7; open_sibling := Some 8; open_legacy := None; open_at := fun _ _ => None;
     fstat_ok := true; open_ok := fun _ => true; fdopen_ok := true; read_error := false;
     alloc_path := fun _ => true; alloc_copy := true; tmp_open := true; tmp_fdopen := true;
     write_ok := false; partial := 3; sync_ok := true; close_ok := true; rename_ok := true |}.
Lemma good_io_ok : all_ok good_io.
Proof. by split_and!. Qed.
(** The index has a song in it and a line the reader skips. *)
Definition example_index : list Z := bs "/m/b.m3u" ++ [10] ++ bs "/m/song.mp3" ++ [10; 10] ++ bs "/m/A.M3U8" ++ [13; 10].
Definition example_disk : gmap Z files := {[ 8 := {[ PATH_CACHE_PLAYLISTS := example_index ]} ]}.
Definition added : list Z := bs "/m/c.m3u".

Lemma path_cache_listing_ok_witness :
  let st := path_cache_insert full_io (path_cache_start example_disk) PATH_CACHE_PLAYLISTS added in
  let l := snd (path_cache_load (isort strcasecmp) good_io st PATH_CACHE_PLAYLISTS) in
  l = [bs "/m/A.M3U8"; bs "/m/b.m3u"; added] /\ NoDup l.
Proof.
  cbv zeta. split; [vm_compute; reflexivity|].
  apply (path_cache_listing_ok (isort strcasecmp) example_disk _ good_io PATH_CACHE_PLAYLISTS).
  apply rtc_once. constructor.
Defined.
Lemma path_cache_save_atomic_witness :
  let st := path_cache_start example_disk in
  let st' := mutate full_io st PATH_CACHE_PLAYLISTS (Insert added) in
  exists dir e, list_by_name st' PATH_CACHE_PLAYLISTS = Some e /\
    disk st' = <[dir := run (save_ops full_io e) (files_of (disk st) dir)]> (disk st) /\
    spares PATH_CACHE_PLAYLISTS (paths e) (files_of (disk st) dir)
      (run (take 2 (save_ops full_io e)) (files_of (disk st) dir)).
Proof.
  cbv zeta.
  destruct (path_cache_save_atomic full_io (path_cache_start example_disk) PATH_CACHE_PLAYLISTS (Insert added))
    as [H|(dir & e & H1 & _ & H2 & H3)].
  - apply cache_ok_start.
  - apply (f_equal (fun d => d !! 7)) in H. vm_compute in H. discriminate.
  - exists dir, e. split; [exact H1|]. split; [exact H2|exact (H3 2%nat)].
Defined.

(** An allocation that fails during a replacement shortens the list, and the
    short list is saved over the complete one. *)
Definition oom_io : cache_env :=
  {| open_compas := Some 7; open_sibling := None; open_legacy := None; open_at := fun _ _ => None;
     fstat_ok := true; open_ok := fun _ => true; fdopen_ok := true; read_error := false;
     alloc_path := fun i => (i =? 0)%nat; alloc_copy := true; tmp_open := true; tmp_fdopen := true;
     write_ok := true; partial := 0; sync_ok := true; close_ok := true; rename_ok := true |}.
Lemma replace_drops_paths :
  let disk0 := {[ 7 := {[ PATH_CACHE_BOOKS := serialize_list [bs "a"; bs "b"] ]} ]} in
  let st := path_cache_replace oom_io (fst (path_cache_load (isort strcasecmp) good_io (path_cache_start disk0) PATH_CACHE_BOOKS))
              PATH_CACHE_BOOKS [bs "a"; bs "b"] in
  files_of (disk st) 7 !! PATH_CACHE_BOOKS = Some (serialize_list [bs "a"]).
Proof. vm_compute. reflexivity. Qed.
