(* ===== verification/PlaylistScan.v ===== *)
(** Finding the playlists on the card, src/library/playlist_files.c: the walk
    over the directories, the reconciliation of the cached index with what it
    finds, and the refresh that runs it in the background. *)
From stdpp Require Import gmap sorting.
From S2P Require Import Prelude Endian StableSort PlaylistFiles PathCache.
Local Open Scope Z_scope.

(** ** Data *)

(** The directories as [opendir], [readdir] and [lstat] show them. *)
Inductive file_kind := S_IFREG | S_IFDIR | S_IFOTHER.
Record card := {
  opendir : list Z -> option (list (list Z)); readdir_error : list Z -> bool;
  lstat : list Z -> option file_kind; copy_ok : nat -> bool }.

(** ** Scanning *)
Definition hidden (name : list Z) : bool := match name with 46 :: _ => true | _ => false end.
Definition join (dir name : list Z) : list Z := dir ++ 47 :: name.

Section Scan.
Context (c : card).

(** The entries of one directory; [scan] is the walk into a subdirectory. *)
Fixpoint scan_entries (scan : list Z -> list (list Z) -> bool * list (list Z)) (dir_path : list Z)
    (entries found : list (list Z)) : bool * list (list Z) :=
  match entries with
  | [] => (negb (readdir_error c dir_path), found)
  | name :: entries =>
      if hidden name then scan_entries scan dir_path entries found else
      let full_path := join dir_path name in
      if (PATH_MAX <=? length full_path)%nat then (false, found) else
      match lstat c full_path with
      | None => (false, found)
      | Some S_IFDIR =>
          let '(ok, found) := scan full_path found in
          if ok then scan_entries scan dir_path entries found else (false, found)
      | Some S_IFREG =>
          if library_is_m3u_file name then
            if copy_ok c (length found) then scan_entries scan dir_path entries (found ++ [full_path])
            else (false, found)
          else scan_entries scan dir_path entries found
      | Some S_IFOTHER => scan_entries scan dir_path entries found
      end
  end.
(** [levels] is how many more levels are read: 33 minus the [depth]. *)
Fixpoint scan_dir (levels : nat) (dir_path : list Z) (found : list (list Z)) : bool * list (list Z) :=
  match levels with
  | O => (false, found)
  | S levels =>
      match opendir c dir_path with
      | None => (false, found)
      | Some entries => scan_entries (scan_dir levels) dir_path entries found
      end
  end.
End Scan.

Section Operations.
Context (qsort : list (list Z) -> list (list Z)).

Definition compare_paths (a b : list Z) : Z := strcasecmp a b.
Definition playlist_files_scan_complete (c : card) (root : list Z) : bool * list (list Z) :=
  let '(ok, found) := scan_dir c 33 root [] in
  if ok then (true, if (1 <? length found)%nat then qsort found else found) else (false, []).
Definition playlist_files_scan (c : card) (root : list Z) : bool * list (list Z) :=
  let '(ok, found) := playlist_files_scan_complete c root in (ok && (0 <? length found)%nat, found).

(** ** Reconciling the index *)
Definition same_paths (a b : list (list Z)) : bool := bool_decide (a = b).

(** [gone path]: [stat] fails with [ENOENT]. *)
Definition prune_missing_playlists (io : cache_env) (gone : list Z -> bool) (st : path_cache) : path_cache :=
  let '(st, old) := path_cache_load qsort io st PATH_CACHE_PLAYLISTS in
  let kept := List.filter (fun p => negb (gone p)) old in
  if (length kept =? length old)%nat then st else path_cache_replace io st PATH_CACHE_PLAYLISTS kept.
Definition playlist_files_reconcile (io : cache_env) (c : card) (gone : list Z -> bool) (st : path_cache)
    (root : list Z) (prune_missing : bool) : bool * path_cache :=
  let '(ok, paths) := playlist_files_scan_complete c root in
  if ok then
    let '(st, old) := path_cache_load qsort io st PATH_CACHE_PLAYLISTS in
    (true, if same_paths old paths then st else path_cache_replace io st PATH_CACHE_PLAYLISTS paths)
  else (false, if prune_missing then prune_missing_playlists io gone st else st).

(** ** The refresh in the background *)
Record refresh := { refresh_running : bool; refresh_done : bool; refresh_ok : bool; refresh_root : list Z }.
(** [create]: the thread could be started. *)
Definition playlist_files_refresh_async (create : bool) (r : refresh) (root : option (list Z)) : refresh :=
  match root with
  | Some root =>
      if refresh_running r || (PATH_MAX <=? length root)%nat then r else
      {| refresh_running := create; refresh_done := false; refresh_ok := refresh_ok r; refresh_root := root |}
  | None => r
  end.
Definition refresh_worker (io : cache_env) (c : card) (gone : list Z -> bool) (r : refresh) (st : path_cache)
    : refresh * path_cache :=
  let '(ok, st) := playlist_files_reconcile io c gone st (refresh_root r) true in
  ({| refresh_running := refresh_running r; refresh_done := true; refresh_ok := ok; refresh_root := refresh_root r |}, st).
(** The result, when there is one to collect. *)
Definition playlist_files_refresh_poll (r : refresh) : option bool * refresh :=
  if negb (refresh_running r) || negb (refresh_done r) then (None, r) else
  (Some (refresh_ok r),
   {| refresh_running := false; refresh_done := refresh_done r; refresh_ok := refresh_ok r; refresh_root := refresh_root r |}).

(** ** Migrating the playlists to relative paths *)
Definition PLAYLIST_MIGRATION_MARKER_NAME : list Z := bs ".relative_paths_migrated".
Fixpoint migrate_all (io : nat -> io_env) (i : nat) (fs : files) (paths : list (list Z)) (all_ok : bool) : bool * files :=
  match paths with
  | [] => (all_ok, fs)
  | p :: paths =>
      let '(ok, ops) := migrate_one_file (io i) fs p in
      migrate_all io (S i) (run ops fs) paths (all_ok && ok)
  end.
Definition playlist_files_migrate_to_relative (io : nat -> io_env) (c : card) (marker_opens : bool)
    (fs : files) (dir : list Z) : files :=
  let marker := snprintf_s PATH_MAX (join dir PLAYLIST_MIGRATION_MARKER_NAME) in
  if negb (absent fs marker) then fs else
  let '(some, paths) := playlist_files_scan c dir in
  let '(ok, fs) := if some then migrate_all io 0 fs paths true else (true, fs) in
  if ok && marker_opens then <[marker := []]> fs else fs.
End Operations.

(** ** What there is to find *)
(** [p] is a playlist somewhere below [dir], not behind a hidden name. *)
Inductive playlist_in (c : card) (dir : list Z) : list Z -> Prop :=
| playlist_here entries name :
    opendir c dir = Some entries -> name ∈ entries -> hidden name = false ->
    lstat c (join dir name) = Some S_IFREG -> library_is_m3u_file name = true ->
    playlist_in c dir (join dir name)
| playlist_below entries name p :
    opendir c dir = Some entries -> name ∈ entries -> hidden name = false ->
    lstat c (join dir name) = Some S_IFDIR -> playlist_in c (join dir name) p ->
    playlist_in c dir p.

Section Found.
Context (c : card).

(** What one entry of a directory contributes. *)
Definition found_at (dir name p : list Z) : Prop :=
  hidden name = false /\
  ((lstat c (join dir name) = Some S_IFREG /\ library_is_m3u_file name = true /\ p = join dir name) \/
   (lstat c (join dir name) = Some S_IFDIR /\ playlist_in c (join dir name) p)).
Lemma playlist_in_entries dir entries p :
  opendir c dir = Some entries -> playlist_in c dir p <-> exists name, name ∈ entries /\ found_at dir name p.
Proof.
  intros Ho. split.
  - destruct 1 as [es name He Hn Hh Hk Hm|es name p He Hn Hh Hk Hp]; exists name; rewrite Ho in He;
      injection He as <-; (split; [done|split; [done|]]); [by left|by right].
  - intros (name & Hn & Hh & [(Hk & Hm & ->)|(Hk & Hp)]);
      [by apply playlist_here with entries|by apply playlist_below with entries name].
Qed.

Definition scan_sound (scan : list Z -> list (list Z) -> bool * list (list Z)) : Prop :=
  forall dir found found', scan dir found = (true, found') ->
  forall p, p ∈ found' <-> p ∈ found \/ playlist_in c dir p.

Lemma scan_entries_sound scan dir entries found found' p :
  scan_sound scan -> scan_entries c scan dir entries found = (true, found') ->
  p ∈ found' <-> p ∈ found \/ exists name, name ∈ entries /\ found_at dir name p.
Proof.
  intros Hscan. revert found. induction entries as [|name entries IH]; intros found; cbn [scan_entries].
  { intros [= _ <-]. set_solver. }
  assert (forall found1, scan_entries c scan dir entries found1 = (true, found') ->
    (p ∈ found1 <-> p ∈ found \/ found_at dir name p) ->
    p ∈ found' <-> p ∈ found \/ exists name', name' ∈ name :: entries /\ found_at dir name' p) as Hstep.
  { intros found1 H1 H2. rewrite (IH _ H1), H2. setoid_rewrite list.elem_of_cons. naive_solver. }
  destruct (hidden name) eqn:Hh.
  { intros H. apply (Hstep _ H). unfold found_at. rewrite Hh. naive_solver. }
  destruct (PATH_MAX <=? _)%nat; [done|].
  destruct (lstat c (join dir name)) as [[]|] eqn:Hk; [| | |done].
  - destruct (library_is_m3u_file name) eqn:Hm.
    + destruct (copy_ok c _); [|done]. intros H. apply (Hstep _ H).
      rewrite list.elem_of_app, list_elem_of_singleton. unfold found_at. rewrite Hk, Hm. naive_solver.
    + intros H. apply (Hstep _ H). unfold found_at. rewrite Hk, Hm. naive_solver.
  - destruct (scan (join dir name) found) as [[] found1] eqn:Es; [|done].
    intros H. apply (Hstep _ H). rewrite (Hscan _ _ _ Es). unfold found_at. rewrite Hh, Hk. naive_solver.
  - intros H. apply (Hstep _ H). unfold found_at. rewrite Hk. naive_solver.
Qed.
Lemma scan_dir_sound levels : scan_sound (scan_dir c levels).
Proof.
  induction levels as [|levels IH]; intros dir found found'; cbn [scan_dir]; [done|].
  destruct (opendir c dir) as [entries|] eqn:Ho; [|done]. intros H p.
  rewrite (scan_entries_sound _ _ _ _ _ _ IH H). by rewrite (playlist_in_entries _ _ _ Ho).
Qed.
End Found.

Lemma strrchr_app c a b i : strrchr c b = Some i -> strrchr c (a ++ b) = Some (length a + i)%nat.
Proof.
  intros H. induction a as [|x a IH]; [done|]. cbn [app strrchr length]. by rewrite IH.
Qed.
Lemma join_is_m3u dir name : library_is_m3u_file name = true -> library_is_m3u_file (join dir name) = true.
Proof.
  unfold library_is_m3u_file, join. destruct (strrchr 46 name) as [i|] eqn:E; [|done].
  change (dir ++ 47 :: name) with (dir ++ [47] ++ name). rewrite app_assoc.
  rewrite (strrchr_app _ (dir ++ [47]) _ _ E).
  by rewrite drop_app_add'.
Qed.
Lemma playlist_in_valid c dir p : playlist_in c dir p -> path_valid_for_list PATH_CACHE_PLAYLISTS p = true.
Proof.
  induction 1 as [dir entries name _ _ _ _ Hm|]; [|done].
  unfold path_valid_for_list. rewrite bytes_eqb_refl, join_is_m3u by done. unfold join. by destruct dir.
Qed.

Section Reconcile.
Context (qsort : list (list Z) -> list (list Z)) `{!QSort strcasecmp qsort}.

Lemma scan_complete_spec c root l :
  playlist_files_scan_complete qsort c root = (true, l) ->
  StronglySorted (cle strcasecmp) l /\ forall p, p ∈ l <-> playlist_in c root p.
Proof using QSort0.
  unfold playlist_files_scan_complete. destruct (scan_dir c 33 root []) as [[] found] eqn:E; [|done].
  intros [= <-]. pose proof (scan_dir_sound c 33 root [] found E) as H.
  destruct (Nat.ltb_spec 1 (length found)) as [Hl|Hl].
  - split; [apply qsort_sorted|]. intros p. rewrite qsort_perm, H. set_solver.
  - split; [|intros p; rewrite H; set_solver].
    destruct found as [|a [|b t]]; [constructor|by repeat constructor|cbn [length] in Hl; lia].
Qed.

Lemma path_cache_load_state io st nm : fst (path_cache_load qsort io st nm) = fst (ensure_loaded io st nm).
Proof using. unfold path_cache_load. by destruct (ensure_loaded io st nm) as [st1 [e|]]. Qed.
Lemma filter_length_same {A} (f : A -> bool) l :
  length (List.filter f l) = length l -> forall x, In x l -> f x = true.
Proof using.
  induction l as [|y l IH]; intros Hl x; cbn [List.filter length] in *; [done|].
  pose proof (filter_length_le f l). destruct (f y) eqn:E; cbn [length] in Hl; [|lia].
  intros [-> |Hx]; [done|]. apply IH; [lia|done].
Qed.
Lemma load_valid io st nm :
  cache_ok st -> Forall (fun p => path_valid_for_list nm p = true) (snd (path_cache_load qsort io st nm)).
Proof using QSort0. intros Hst. apply (load_listing_ok qsort io st nm Hst). Qed.

(** Loading a list leaves the cache ready to give it again. *)
Lemma load_again io st nm dir :
  all_ok io -> cache_ok st -> nm ∈ names -> binds io st dir ->
  let st1 := fst (path_cache_load qsort io st nm) in
  cache_ok st1 /\ binds io st1 dir /\ snd (path_cache_load qsort io st1 nm) = snd (path_cache_load qsort io st nm).
Proof using.
  intros Hio Hst Hnm Hb. cbv zeta. split; [apply (cache_step_ok qsort st); [constructor|done]|].
  destruct (ensure_loaded_total io st nm dir Hio Hst Hnm Hb) as (e & He & Hb').
  pose proof (ensure_loaded_entry io st nm e Hst He) as Hin.
  pose proof (proj2 (ensure_loaded_ok io st nm Hst) e He) as (_ & _ & Hl).
  rewrite path_cache_load_state. split; [done|]. unfold path_cache_load.
  destruct (ensure_loaded io st nm) as [st1 e1]. cbn [fst snd] in *. subst e1.
  by rewrite (ensure_loaded_idle io st1 nm e Hin Hl).
Qed.

(** C28. Cn. When no call on the cache fails, reconciling leaves the playlist index
    listing exactly the playlists below the root after a complete scan; after a
    scan that failed anywhere the index keeps what it had, less the files known
    to be gone when pruning is asked for. *)
Theorem playlist_files_reconcile_spec io c gone st root prune dir p :
  all_ok io -> cache_ok st -> binds io st dir ->
  let before := snd (path_cache_load qsort io st PATH_CACHE_PLAYLISTS) in
  let '(ok, st') := playlist_files_reconcile qsort io c gone st root prune in
  p ∈ snd (path_cache_load qsort io st' PATH_CACHE_PLAYLISTS) <->
  (if ok then playlist_in c root p else p ∈ before /\ (prune = true -> gone p = false)).
Proof using QSort0.
  intros Hio Hst Hb. cbv zeta. assert (PATH_CACHE_PLAYLISTS ∈ names) as Hnm by by left.
  destruct (load_again io st _ dir Hio Hst Hnm Hb) as (Hst1 & Hb1 & Hag).
  unfold playlist_files_reconcile. destruct (playlist_files_scan_complete qsort c root) as [ok found] eqn:Es.
  unfold prune_missing_playlists.
  destruct (path_cache_load qsort io st PATH_CACHE_PLAYLISTS) as [st1 old] eqn:Eo. cbn [fst snd] in *.
  destruct ok.
  - destruct (scan_complete_spec _ _ _ Es) as [_ Hf]. unfold same_paths. case_bool_decide as Hs.
    + rewrite Hag, Hs. apply Hf.
    + rewrite (mutate_listing qsort io st1 _ dir Hio Hst1 Hnm Hb1 (Replace found)) by done.
      cbn [mutation_spec]. rewrite Hf. split; [by intros []|]. intros Hp. split; [done|by eapply playlist_in_valid].
  - destruct prune; [|rewrite Eo; cbn [snd]; naive_solver].
    set (kept := List.filter (fun q => negb (gone q)) old).
    assert (forall q, q ∈ kept <-> q ∈ old /\ gone q = false) as Hk.
    { intros q. unfold kept. rewrite !list_elem_of_In, filter_In, negb_true_iff. done. }
    destruct (Nat.eqb_spec (length kept) (length old)) as [El|El].
    + rewrite Hag. pose proof (filter_length_same (fun q => negb (gone q)) old El) as H.
      split; [|by intros []]. intros Hp. split; [done|]. intros _. apply negb_true_iff.
      by apply H, list_elem_of_In.
    + rewrite (mutate_listing qsort io st1 _ dir Hio Hst1 Hnm Hb1 (Replace kept)) by done.
      cbn [mutation_spec]. rewrite Hk. split; [naive_solver|]. intros [Hp Hg]. split; [by split; [|apply Hg]|].
      pose proof (load_valid io st PATH_CACHE_PLAYLISTS Hst) as Hv. rewrite Eo in Hv.
      rewrite list.Forall_forall in Hv. by apply Hv.
Qed.
End Reconcile.

(** ** A card with two playlists, one in a folder *)
Definition example_card : card :=
  {| opendir := fun p => if bytes_eqb p (bs "/m") then Some [bs "."; bs "x.m3u"; bs "sub"; bs "song.mp3"]
                         else if bytes_eqb p (bs "/m/sub") then Some [bs "B.M3U8"] else None;
     readdir_error := fun _ => false;
     lstat := fun p => if bytes_eqb p (bs "/m/sub") then Some S_IFDIR else Some S_IFREG;
     copy_ok := fun _ => true |}.
Lemma playlist_files_reconcile_spec_witness :
  let '(ok, st') := playlist_files_reconcile (isort strcasecmp) good_io example_card (fun _ => false)
                      (path_cache_start example_disk) (bs "/m") true in
  ok = true /\
  snd (path_cache_load (isort strcasecmp) good_io st' PATH_CACHE_PLAYLISTS) = [bs "/m/sub/B.M3U8"; bs "/m/x.m3u"] /\
  playlist_in example_card (bs "/m") (bs "/m/x.m3u").
Proof.
  pose proof (playlist_files_reconcile_spec (isort strcasecmp) good_io example_card (fun _ => false)
    (path_cache_start example_disk) (bs "/m") true 7 (bs "/m/x.m3u") good_io_ok (cache_ok_start _) eq_refl) as H.
  cbv zeta in H.
  assert (fst (playlist_files_reconcile (isort strcasecmp) good_io example_card (fun _ => false)
                 (path_cache_start example_disk) (bs "/m") true) = true) as Hok by (vm_compute; reflexivity).
  assert (snd (path_cache_load (isort strcasecmp) good_io (snd (playlist_files_reconcile (isort strcasecmp) good_io
            example_card (fun _ => false) (path_cache_start example_disk) (bs "/m") true)) PATH_CACHE_PLAYLISTS) =
          [bs "/m/sub/B.M3U8"; bs "/m/x.m3u"]) as Hl by (vm_compute; reflexivity).
  destruct (playlist_files_reconcile _ _ _ _ _ _ _) as [ok st']. cbn [fst snd] in Hok, Hl. subst ok.
  split; [done|]. split; [exact Hl|]. apply H. rewrite Hl. by right; left.
Defined.

(** ** The refresh and the migration *)

(** A finished refresh is collected once. *)
Lemma refresh_poll_once r ok r' :
  playlist_files_refresh_poll r = (Some ok, r') ->
  refresh_running r = true /\ refresh_done r = true /\ playlist_files_refresh_poll r' = (None, r').
Proof.
  unfold playlist_files_refresh_poll.
  destruct (refresh_running r) eqn:E1, (refresh_done r) eqn:E2; cbn [negb orb]; try done.
  intros [= _ <-]. done.
Qed.
(** A running refresh keeps its root: a second start is refused. *)
Lemma refresh_async_running create r root :
  refresh_running r = true -> playlist_files_refresh_async create r root = r.
Proof. intros E. unfold playlist_files_refresh_async. destruct root; [|done]. by rewrite E. Qed.

(** The marker is written only after every playlist was migrated, and a marked
    folder is left alone. *)
Lemma migrate_marked qsort io c m fs dir :
  absent fs (snprintf_s PATH_MAX (join dir PLAYLIST_MIGRATION_MARKER_NAME)) = false ->
  playlist_files_migrate_to_relative qsort io c m fs dir = fs.
Proof. intros E. unfold playlist_files_migrate_to_relative. by rewrite E. Qed.
Lemma migrate_all_false io i fs ps : fst (migrate_all io i fs ps false) = false.
Proof.
  revert i fs. induction ps as [|p ps IH]; intros i fs; cbn [migrate_all]; [done|].
  destruct (migrate_one_file _ _ _) as [ok ops]. apply IH.
Qed.
