(* ===== verification/PluginJson.v ===== *)
(** JSON for plugins, src/plugins/plugin_json.c: the limits, the conversions
    between Lua values and cJSON trees, and the two functions plugins call. The
    parser and printer of cJSON and the length operator of Lua are parameters.
    A Lua table is the list of its pairs in the order [lua_next] visits them. *)
From S2P Require Import Prelude Doubles Utf8.
Local Open Scope Z_scope.

(** ** Data *)
Inductive lua :=
| LNil | LBool (b : bool) | LInt (z : Z) | LFloat (f : spec_float) | LString (s : list Z)
| LTable (pairs : list (lua * lua)) | LOther.
(** A node of cJSON; the name of an object's member may be missing. *)
Inductive cJSON :=
| CNull | CBool (b : bool) | CNumber (f : spec_float) | CString (s : list Z)
| CArray (children : list cJSON) | CObject (children : list (option (list Z) * cJSON)) | COther.

(** The messages. *)
Inductive json_error :=
| Too_deep | Invalid_utf8 | Too_many | Encode_failed | Keys_not_strings | Cannot_encode
| Invalid_json | Input_too_large | Output_too_large.

(** ** Limits *)
Definition JSON_MAX_INPUT_BYTES : Z := 512 * 1024.
Definition JSON_MAX_OUTPUT_BYTES : Z := 512 * 1024.
Definition JSON_NESTING_DEFAULT : Z := 32.
Definition JSON_NESTING_CEILING : Z := 64.
Definition JSON_ENTRIES_MAX : Z := 10000.
Record json_limits_t := { max_input_bytes : Z; max_output_bytes : Z; max_nesting : Z; max_entries : Z }.

Definition clamp_size (v ceiling : Z) : Z := if v <=? 0 then ceiling else if ceiling <? v then ceiling else v.
Definition clamp_int (v fallback ceiling : Z) : Z :=
  if v <=? 0 then fallback else if ceiling <? v then ceiling else v.
(** The optional table: a field's integer, when the field is a number. *)
Definition parse_limits (limits : option (list Z -> option Z)) : json_limits_t :=
  match limits with
  | None => {| max_input_bytes := JSON_MAX_INPUT_BYTES; max_output_bytes := JSON_MAX_OUTPUT_BYTES;
               max_nesting := JSON_NESTING_DEFAULT; max_entries := JSON_ENTRIES_MAX |}
  | Some field =>
      let limit name default clamp := match field (bs name) with Some v => clamp v | None => default end in
      {| max_input_bytes := limit "max_input_bytes"%string JSON_MAX_INPUT_BYTES
                              (fun v => clamp_size v JSON_MAX_INPUT_BYTES);
         max_output_bytes := limit "max_output_bytes"%string JSON_MAX_OUTPUT_BYTES
                              (fun v => clamp_size v JSON_MAX_OUTPUT_BYTES);
         max_nesting := limit "max_nesting"%string JSON_NESTING_DEFAULT
                              (fun v => clamp_int v JSON_NESTING_DEFAULT JSON_NESTING_CEILING);
         max_entries := limit "max_entries"%string JSON_ENTRIES_MAX
                              (fun v => clamp_int v JSON_ENTRIES_MAX JSON_ENTRIES_MAX) |}
  end.

(** [json_nesting_ok] from a state of its loop. *)
Fixpoint nesting_loop (s : list Z) (max_nest depth : Z) (in_string escape : bool) : bool :=
  match s with
  | [] => true
  | c :: s =>
      if in_string then
        if escape then nesting_loop s max_nest depth true false
        else if c =? 92 then nesting_loop s max_nest depth true true
        else nesting_loop s max_nest depth (negb (c =? 34)) false
      else if c =? 34 then nesting_loop s max_nest depth true escape
      else if (c =? 123) || (c =? 91) then
        if max_nest <? depth + 1 then false else nesting_loop s max_nest (depth + 1) false escape
      else if (c =? 125) || (c =? 93) then
        nesting_loop s max_nest (if 0 <? depth then depth - 1 else depth) false escape
      else nesting_loop s max_nest depth false escape
  end.
Definition json_nesting_ok (s : list Z) (max_nest : Z) : bool := nesting_loop s max_nest 0 false false.

(** ** Lua tables *)
Definition is_number (v : lua) : bool := match v with LInt _ | LFloat _ => true | _ => false end.
(** [lua_rawgeti]. *)
Definition rawgeti (pairs : list (lua * lua)) (i : Z) : lua :=
  match List.find (fun kv => match fst kv with LInt j => j =? i | _ => false end) pairs with
  | Some (_, v) => v
  | None => LNil
  end.
Definition is_key (key : list Z) (kv : lua * lua) : bool :=
  match fst kv with LString k => bytes_eqb k key | _ => false end.
(** [lua_setfield] on a table under construction: assigning nil removes. *)
Definition setfield (pairs : list (lua * lua)) (key : list Z) (v : lua) : list (lua * lua) :=
  let others := List.filter (fun kv => negb (is_key key kv)) pairs in
  match v with LNil => others | _ => others ++ [(LString key, v)] end.
(** [lua_rawseti] of a new index. *)
Definition rawseti (pairs : list (lua * lua)) (i : Z) (v : lua) : list (lua * lua) :=
  match v with LNil => pairs | _ => pairs ++ [(LInt i, v)] end.

(** ** Decoding *)
Section Convert.
Context (max_entries : Z).

(** The loop over the children, [push] one level down. *)
Fixpoint push_elements (push : cJSON -> Z -> lua * Z + json_error) (children : list cJSON) (i entries : Z)
    (table : list (lua * lua)) : list (lua * lua) * Z + json_error :=
  match children with
  | [] => inl (table, entries)
  | child :: children =>
      if max_entries <=? entries then inr Too_many else
      match push child (entries + 1) with
      | inr err => inr err
      | inl (v, entries) => push_elements push children (i + 1) entries (rawseti table i v)
      end
  end.
Fixpoint push_members (push : cJSON -> Z -> lua * Z + json_error) (children : list (option (list Z) * cJSON))
    (entries : Z) (table : list (lua * lua)) : list (lua * lua) * Z + json_error :=
  match children with
  | [] => inl (table, entries)
  | (name, child) :: children =>
      if max_entries <=? entries then inr Too_many else
      match name with
      | None => inr Invalid_utf8
      | Some name =>
          if negb (utf8_ok name) then inr Invalid_utf8 else
          match push child (entries + 1) with
          | inr err => inr err
          | inl (v, entries) => push_members push children entries (setfield table name v)
          end
      end
  end.
Definition as_table (r : list (lua * lua) * Z + json_error) : lua * Z + json_error :=
  match r with inl (t, entries) => inl (LTable t, entries) | inr err => inr err end.

(** [levels] is how many levels may still be entered: [max_nesting - depth + 1]. *)
Fixpoint push_cjson (levels : nat) (node : cJSON) (entries : Z) : lua * Z + json_error :=
  match levels with
  | O => inr Too_deep
  | S levels =>
      match node with
      | CNull | COther => inl (LNil, entries)
      | CBool b => inl (LBool b, entries)
      | CNumber f => inl (LFloat f, entries)
      | CString s => if utf8_ok s then inl (LString s, entries) else inr Invalid_utf8
      | CArray children => as_table (push_elements (push_cjson levels) children 1 entries [])
      | CObject children => as_table (push_members (push_cjson levels) children entries [])
      end
  end.

(** ** Encoding *)

(** [rawlen]: [lua_rawlen]. [create n] is the success of creating node [n], the
    root being 0, and [add n] that of adding it to its object, whose result is
    not looked at. *)
Context (rawlen : list (lua * lua) -> Z) (create add : Z -> bool).

Fixpoint encode_elements (encode : lua -> Z -> cJSON * Z + json_error) (pairs : list (lua * lua)) (todo : nat)
    (i entries : Z) (arr : list cJSON) : list cJSON * Z + json_error :=
  match todo with
  | O => inl (arr, entries)
  | S todo =>
      if max_entries <=? entries then inr Too_many else
      match encode (rawgeti pairs i) (entries + 1) with
      | inr err => inr err
      | inl (child, entries) => encode_elements encode pairs todo (i + 1) entries (arr ++ [child])
      end
  end.
Fixpoint encode_members (encode : lua -> Z -> cJSON * Z + json_error) (pairs : list (lua * lua)) (entries : Z)
    (obj : list (option (list Z) * cJSON)) : list (option (list Z) * cJSON) * Z + json_error :=
  match pairs with
  | [] => inl (obj, entries)
  | (key, v) :: pairs =>
      match key with
      | LString key =>
          if negb (utf8_ok key) then inr Invalid_utf8 else
          if max_entries <=? entries then inr Too_many else
          match encode v (entries + 1) with
          | inr err => inr err
          | inl (child, entries') =>
              encode_members encode pairs entries'
                (if add (entries + 1) then obj ++ [(Some (cstr key), child)] else obj)
          end
      | _ => inr Keys_not_strings
      end
  end.

Fixpoint lua_to_cjson (levels : nat) (v : lua) (entries : Z) : cJSON * Z + json_error :=
  match levels with
  | O => inr Too_deep
  | S levels =>
      let leaf node := if create entries then inl (node, entries) else inr Cannot_encode in
      match v with
      | LNil => leaf CNull
      | LBool b => leaf (CBool b)
      | LInt z => leaf (CNumber (dbl z))
      | LFloat f => leaf (CNumber f)
      | LString s => if utf8_ok s then leaf (CString (cstr s)) else inr Invalid_utf8
      | LTable pairs =>
          if (0 <? rawlen pairs) && forallb (fun kv => is_number (fst kv)) pairs then
            if negb (create entries) then inr Encode_failed else
            match encode_elements (lua_to_cjson levels) pairs (Z.to_nat (rawlen pairs)) 1 entries [] with
            | inl (l, entries) => inl (CArray l, entries)
            | inr err => inr err
            end
          else
            if negb (create entries) then inr Encode_failed else
            match encode_members (lua_to_cjson levels) pairs entries [] with
            | inl (l, entries) => inl (CObject l, entries)
            | inr err => inr err
            end
      | LOther => inr Cannot_encode
      end
  end.
End Convert.

(** ** What plugins call *)
Section Calls.
Context (parse : list Z -> option cJSON) (print : cJSON -> option (list Z)).

(** The levels from depth 0. *)
Definition levels_of (lim : json_limits_t) : nat := Z.to_nat (max_nesting lim + 1).
Definition l_plugin_json_decode (limits : option (list Z -> option Z)) (s : list Z) : lua + json_error :=
  let lim := parse_limits limits in
  let len := Z.of_nat (length s) in
  if max_input_bytes lim <? len then inr Input_too_large else
  if negb (utf8_ok s) then inr Invalid_utf8 else
  if negb (json_nesting_ok s (max_nesting lim)) then inr Too_deep else
  match parse s with
  | None => inr Invalid_json
  | Some json =>
      match push_cjson (max_entries lim) (levels_of lim) json 0 with
      | inl (v, _) => inl v
      | inr err => inr err
      end
  end.
Definition l_plugin_json_encode (rawlen : list (lua * lua) -> Z) (create add : Z -> bool)
    (limits : option (list Z -> option Z)) (v : lua) : list Z + json_error :=
  let lim := parse_limits limits in
  match lua_to_cjson (max_entries lim) rawlen create add (levels_of lim) v 0 with
  | inr err => inr err
  | inl (json, _) =>
      match print json with
      | None => inr Encode_failed
      | Some printed =>
          if max_output_bytes lim <? Z.of_nat (length printed) then inr Output_too_large else
          if negb (utf8_ok printed) then inr Invalid_utf8 else inl printed
      end
  end.
End Calls.

(** ** Values that survive *)

(** What [#] promises in Lua: a border of the table. *)
Class LuaLength (rawlen : list (lua * lua) -> Z) : Prop :=
  rawlen_border pairs : 0 <= rawlen pairs /\
    (rawlen pairs = 0 \/ rawgeti pairs (rawlen pairs) <> LNil) /\ rawgeti pairs (rawlen pairs + 1) = LNil.

Fixpoint seq_pairs (i : Z) (vs : list lua) : list (lua * lua) :=
  match vs with [] => [] | v :: vs => (LInt i, v) :: seq_pairs (i + 1) vs end.
Definition record_pairs (kvs : list (list Z * lua)) : list (lua * lua) :=
  map (fun kv => (LString (fst kv), snd kv)) kvs.

(** [survives v w]: [v] can be written as JSON, and [w] is what reading it back
    gives. Integers come back as doubles; a sequence comes back in order. *)
Inductive survives : lua -> lua -> Prop :=
| survives_bool b : survives (LBool b) (LBool b)
| survives_int z : survives (LInt z) (LFloat (dbl z))
| survives_float f : survives (LFloat f) (LFloat f)
| survives_string s : Forall is_char s -> survives (LString s) (LString s)
| survives_sequence pairs vs ws :
    vs <> [] -> pairs ≡ₚ seq_pairs 1 vs -> Forall2 survives vs ws ->
    survives (LTable pairs) (LTable (seq_pairs 1 ws))
| survives_record kvs kws :
    NoDup (map fst kvs) -> Forall (fun kv => Forall is_char (fst kv)) kvs ->
    Forall2 (fun kv kw => fst kv = fst kw /\ survives (snd kv) (snd kw)) kvs kws ->
    survives (LTable (record_pairs kvs)) (LTable (record_pairs kws)).

Lemma survives_not_nil v w : survives v w -> v <> LNil /\ w <> LNil.
Proof. by destruct 1. Qed.

(** ** Tables *)
Lemma seq_pairs_elem i vs k v : (LInt k, v) ∈ seq_pairs i vs <-> i <= k /\ vs !! Z.to_nat (k - i) = Some v.
Proof.
  revert i. induction vs as [|x vs IH]; intros i; cbn [seq_pairs].
  { rewrite lookup_nil. split; [by intros ?%elem_of_nil|by intros []]. }
  rewrite list.elem_of_cons, IH. destruct (Z.eq_dec k i) as [->|Hne].
  - rewrite Z.sub_diag. cbn [Z.to_nat lookup list_lookup]. split.
    + intros [E|[]]; [|lia]. injection E as ->. split; [lia|done].
    + intros [_ E]. injection E as ->. by left.
  - assert (i + 1 <= k -> Z.to_nat (k - i) = S (Z.to_nat (k - (i + 1)))) as Hk by lia.
    split.
    + intros [E|[H1 H2]]; [congruence|]. rewrite Hk by done. split; [lia|done].
    + intros [H1 H2]. rewrite Hk in H2 by lia. right. split; [lia|done].
Qed.
Lemma seq_pairs_keys i vs kv : kv ∈ seq_pairs i vs -> exists k, fst kv = LInt k.
Proof.
  revert i. induction vs as [|x vs IH]; intros i; cbn [seq_pairs]; [by intros ?%elem_of_nil|].
  rewrite list.elem_of_cons. intros [->|H]; [by exists i|by eapply IH].
Qed.
Lemma rawgeti_elem pairs i v :
  (forall v', (LInt i, v') ∈ pairs -> v' = v) -> (LInt i, v) ∈ pairs -> rawgeti pairs i = v.
Proof.
  intros Hu Hin. unfold rawgeti. destruct (List.find _ pairs) as [[k v']|] eqn:E.
  - apply find_some in E as [E1 E2]. cbn in E2. destruct k; try done. apply Z.eqb_eq in E2 as ->.
    apply Hu. by apply list_elem_of_In.
  - exfalso. apply list_elem_of_In in Hin. pose proof (find_none _ _ E _ Hin) as H. cbn in H.
    by rewrite Z.eqb_refl in H.
Qed.
Lemma rawgeti_none pairs i : (forall v, (LInt i, v) ∉ pairs) -> rawgeti pairs i = LNil.
Proof.
  intros H. unfold rawgeti. destruct (List.find _ pairs) as [[k v]|] eqn:E; [|done].
  apply find_some in E as [E1 E2]. cbn in E2. destruct k; try done. apply Z.eqb_eq in E2 as ->.
  exfalso. eapply H. by apply list_elem_of_In.
Qed.
Lemma rawgeti_seq pairs vs i : pairs ≡ₚ seq_pairs 1 vs -> rawgeti pairs i =
  if decide (1 <= i) then default LNil (vs !! Z.to_nat (i - 1)) else LNil.
Proof.
  intros Hp. case_decide as Hi.
  - destruct (vs !! Z.to_nat (i - 1)) as [v|] eqn:E; cbn [default from_option].
    + apply rawgeti_elem; [|rewrite Hp; apply seq_pairs_elem; done].
      intros v'. rewrite Hp, seq_pairs_elem, E. intros [_ E']. by injection E'.
    + apply rawgeti_none. intros v. rewrite Hp, seq_pairs_elem, E. by intros [].
  - apply rawgeti_none. intros v. rewrite Hp, seq_pairs_elem. by intros [].
Qed.
Lemma rawgeti_record kvs i : rawgeti (record_pairs kvs) i = LNil.
Proof.
  apply rawgeti_none. intros v H. apply list_elem_of_In, in_map_iff in H as (kv & [=] & _).
Qed.

Lemma setfield_new t key v :
  v <> LNil -> Forall (fun kv => is_key key kv = false) t -> setfield t key v = t ++ [(LString key, v)].
Proof.
  intros Hv Ht. unfold setfield. assert (List.filter (fun kv => negb (is_key key kv)) t = t) as ->.
  { induction Ht as [|kv t Hk _ IH]; [done|]. cbn [List.filter]. by rewrite Hk, IH. }
  by destruct v.
Qed.

(** ** Converting there and back *)
Section Roundtrip.
Context (max : Z) (rawlen : list (lua * lua) -> Z) `{!LuaLength rawlen} (create : Z -> bool).

Lemma rawlen_seq pairs vs :
  vs <> [] -> Forall (fun v => v <> LNil) vs -> pairs ≡ₚ seq_pairs 1 vs -> rawlen pairs = Z.of_nat (length vs).
Proof using LuaLength0.
  intros Hne Hv Hp. destruct (rawlen_border pairs) as (H0 & H1 & H2). revert H1 H2.
  set (n := rawlen pairs) in *. rewrite !(rawgeti_seq _ _ _ Hp). intros H1 H2.
  rewrite decide_True in H2 by lia.
  assert (length vs <= Z.to_nat n)%nat as Hge.
  { destruct (vs !! Z.to_nat (n + 1 - 1)) as [v|] eqn:E.
    - cbn in H2. rewrite Forall_lookup in Hv. by destruct (Hv _ _ E).
    - apply lookup_ge_None in E. lia. }
  assert (0 < length vs)%nat by (destruct vs; [done|cbn; lia]).
  destruct H1 as [H1|H1]; [lia|]. rewrite decide_True in H1 by lia.
  destruct (vs !! Z.to_nat (n - 1)) as [v|] eqn:E; [|done]. apply lookup_lt_Some in E. lia.
Qed.
Lemma rawlen_record kvs : rawlen (record_pairs kvs) = 0.
Proof using LuaLength0.
  destruct (rawlen_border (record_pairs kvs)) as (_ & H & _). rewrite rawgeti_record in H. by destruct H.
Qed.

(** What one level promises to the next. *)
Definition inverts (encode : lua -> Z -> cJSON * Z + json_error) (push : cJSON -> Z -> lua * Z + json_error) : Prop :=
  forall v w e j e', survives v w -> encode v e = inl (j, e') -> push j e = inl (w, e').

Lemma elements_invert encode push pairs vs ws i e arr l e' :
  inverts encode push -> Forall2 survives vs ws ->
  (forall k v, vs !! k = Some v -> rawgeti pairs (i + Z.of_nat k) = v) ->
  encode_elements max encode pairs (length vs) i e arr = inl (l, e') ->
  exists l', l = arr ++ l' /\ forall i' t, push_elements max push l' i' e t = inl (t ++ seq_pairs i' ws, e').
Proof using.
  intros Hinv Hs. revert i e arr. induction Hs as [|v w vs ws Hv _ IH]; intros i e arr Hg.
  - intros [= <- <-]. exists []. split; [by rewrite app_nil_r|]. intros i' t. cbn. by rewrite app_nil_r.
  - cbn [length encode_elements]. destruct (Z.leb_spec max e) as [|He]; [done|].
    assert (rawgeti pairs i = v) as ->.
    { rewrite <- (Z.add_0_r i). change 0 with (Z.of_nat 0). by apply Hg. }
    destruct (encode v (e + 1)) as [[j e1]|] eqn:Ej; [|done]. intros H.
    apply IH in H as (l' & -> & Hl).
    2: { intros k u Hk. replace (i + 1 + Z.of_nat k) with (i + Z.of_nat (S k)) by lia. by apply Hg. }
    exists (j :: l'). split; [by rewrite <- app_assoc|]. intros i' t. cbn [push_elements].
    destruct (Z.leb_spec max e); [lia|]. rewrite (Hinv _ _ _ _ _ Hv Ej), Hl. cbn [seq_pairs].
    unfold rawseti. destruct (survives_not_nil _ _ Hv) as [_ Hw]. by destruct w; rewrite <- ?app_assoc.
Qed.

Lemma is_key_fresh key kws t :
  (key ∉ map fst kws) -> Forall (fun kv => is_key key kv = false) t ->
  Forall (fun kv => is_key key kv = false) (t ++ record_pairs kws).
Proof using.
  intros Hk Ht. apply list.Forall_app. split; [done|]. apply Forall_map, list.Forall_forall.
  intros kv Hin. unfold is_key. cbn [fst]. destruct (bytes_eqb_spec (fst kv) key) as [<-|]; [|done].
  exfalso. apply Hk, list_elem_of_In, in_map. by apply list_elem_of_In.
Qed.
Lemma members_invert encode push kvs kws e obj l e' :
  inverts encode push ->
  NoDup (map fst kvs) -> Forall (fun kv => Forall is_char (fst kv)) kvs ->
  Forall2 (fun kv kw => fst kv = fst kw /\ survives (snd kv) (snd kw)) kvs kws ->
  encode_members max (fun _ => true) encode (record_pairs kvs) e obj = inl (l, e') ->
  exists l', l = obj ++ l' /\
    forall t, Forall (fun kv => Forall (fun kw => is_key (fst kv) kw = false) t) kvs ->
      push_members max push l' e t = inl (t ++ record_pairs kws, e').
Proof using.
  intros Hinv Hn Hc Hs. revert e obj. induction Hs as [|[key v] [key' w] kvs kws [Hk Hv] _ IH]; intros e obj.
  - intros [= <- <-]. exists []. split; [by rewrite app_nil_r|]. intros t _. cbn. by rewrite app_nil_r.
  - cbn [fst snd] in Hk, Hv. subst key'. cbn [map fst] in Hn. apply list.NoDup_cons in Hn as [Hfresh Hn].
    apply Forall_cons_iff in Hc as [Hkey Hc]. cbn [fst] in Hkey.
    cbn [record_pairs map encode_members fst snd]. destruct (utf8_ok key) eqn:Hu; [|done]. cbn [negb].
    destruct (Z.leb_spec max e); [done|]. destruct (encode v (e + 1)) as [[j e1]|] eqn:Ej; [|done].
    rewrite (cstr_chars key) by done. intros H1. apply (IH Hn Hc) in H1 as (l' & -> & Hl).
    exists ((Some key, j) :: l'). split; [by rewrite <- app_assoc|]. intros t Ht.
    apply Forall_cons_iff in Ht as [Hkt Ht]. cbn [fst] in Hkt. cbn [push_members].
    destruct (Z.leb_spec max e); [lia|]. rewrite Hu. cbn [negb].
    rewrite (Hinv _ _ _ _ _ Hv Ej), setfield_new by (done || apply (survives_not_nil _ _ Hv)).
    rewrite Hl; [by rewrite <- app_assoc|].
    rewrite list.Forall_forall in Ht |- *. intros kv Hin. apply list.Forall_app. split; [by apply Ht|].
    constructor; [|done]. unfold is_key. cbn [fst]. destruct (bytes_eqb_spec key (fst kv)) as [->|]; [|done].
    exfalso. apply Hfresh, list_elem_of_In, in_map. by apply list_elem_of_In.
Qed.

Lemma convert_inverts levels :
  inverts (lua_to_cjson max rawlen create (fun _ => true) levels) (push_cjson max levels).
Proof using LuaLength0.
  induction levels as [|levels IH]; intros v w e j e' Hs; cbn [lua_to_cjson push_cjson]; [done|].
  destruct Hs as [b|z|f|s Hc|pairs vs ws Hne Hp Hvs|kvs kws Hn Hc Hkvs].
  - by destruct (create e); [intros [= <- <-]|].
  - by destruct (create e); [intros [= <- <-]|].
  - by destruct (create e); [intros [= <- <-]|].
  - destruct (utf8_ok s) eqn:Hu; [|done]. destruct (create e); [|done]. intros [= <- <-].
    by rewrite cstr_chars, Hu.
  - assert (Forall (fun v => v <> LNil) vs) as Hnil.
    { clear -Hvs. induction Hvs as [|v w vs ws Hv _ IH']; [constructor|]. constructor; [apply (survives_not_nil _ _ Hv)|done]. }
    rewrite (rawlen_seq pairs vs Hne Hnil Hp).
    assert (0 <? Z.of_nat (length vs) = true) as -> by (destruct vs; [done|apply Z.ltb_lt; cbn; lia]).
    assert (forallb (fun kv => is_number (fst kv)) pairs = true) as ->.
    { apply forallb_forall. intros kv Hin. apply list_elem_of_In in Hin. rewrite Hp in Hin.
      apply seq_pairs_keys in Hin as [k ->]. done. }
    destruct (create e); [|done]. cbn [andb negb]. rewrite Nat2Z.id.
    destruct (encode_elements _ _ _ _ _ _ _) as [[l e1]|] eqn:El; [|done]. intros [= <- <-].
    apply (elements_invert _ _ _ _ _ _ _ _ _ _ IH Hvs) in El as (l' & -> & Hl); [by rewrite Hl|].
    intros k v Hk. rewrite (rawgeti_seq _ _ _ Hp), decide_True by lia.
    replace (Z.to_nat (1 + Z.of_nat k - 1)) with k by lia. by rewrite Hk.
  - rewrite rawlen_record. cbn [Z.ltb Z.compare andb]. destruct (create e); [|done]. cbn [negb].
    destruct (encode_members _ _ _ _ _ _) as [[l e1]|] eqn:El; [|done]. intros [= <- <-].
    apply (members_invert _ _ _ _ _ _ _ _ IH Hn Hc Hkvs) in El as (l' & -> & Hl). cbn [app].
    rewrite Hl; [done|]. apply list.Forall_forall. intros kv _. constructor.
Qed.
End Roundtrip.


(** ** What a decoded value can hold *)
Fixpoint lua_depth (v : lua) : nat :=
  match v with
  | LTable pairs => fold_right (fun kv n => match kv with (_, v) => Nat.max (S (lua_depth v)) n end) 0%nat pairs
  | _ => 0%nat
  end.
Fixpoint lua_entries (v : lua) : Z :=
  match v with
  | LTable pairs => fold_right (fun kv n => match kv with (_, v) => 1 + lua_entries v + n end) 0 pairs
  | _ => 0
  end.
Definition key_utf8 (k : lua) : bool := match k with LString s => utf8_ok s | LInt _ => true | _ => false end.
Fixpoint lua_utf8 (v : lua) : bool :=
  match v with
  | LString s => utf8_ok s
  | LTable pairs => forallb (fun kv => match kv with (k, v) => key_utf8 k && lua_utf8 v end) pairs
  | _ => true
  end.

Definition bounded (levels : nat) (v : lua) (n : Z) : Prop :=
  (lua_depth v < levels)%nat /\ lua_entries v <= n /\ lua_utf8 v = true.
Definition table_bounded (levels : nat) (t : list (lua * lua)) (n : Z) : Prop :=
  (lua_depth (LTable t) <= levels)%nat /\ lua_entries (LTable t) <= n /\ lua_utf8 (LTable t) = true.

Lemma lua_depth_app t t' : lua_depth (LTable (t ++ t')) = Nat.max (lua_depth (LTable t)) (lua_depth (LTable t')).
Proof.
  induction t as [|[k v] t IH]; [done|]. cbn [app lua_depth fold_right] in *. rewrite IH. lia.
Qed.
Lemma lua_entries_app t t' : lua_entries (LTable (t ++ t')) = lua_entries (LTable t) + lua_entries (LTable t').
Proof.
  induction t as [|[k v] t IH]; [done|]. cbn [app lua_entries fold_right] in *. rewrite IH. lia.
Qed.
Lemma lua_utf8_app t t' : lua_utf8 (LTable (t ++ t')) = lua_utf8 (LTable t) && lua_utf8 (LTable t').
Proof. cbn [lua_utf8]. apply forallb_app. Qed.
Lemma lua_entries_nonneg v : 0 <= lua_entries v.
Proof.
  revert v. fix IH 1. intros [| | | | |pairs|]; cbn [lua_entries]; try lia.
  induction pairs as [|[k v] pairs IHp]; cbn [fold_right]; [lia|]. pose proof (IH v). lia.
Qed.

Lemma lua_table_one k v :
  lua_depth (LTable [(k, v)]) = S (lua_depth v) /\ lua_entries (LTable [(k, v)]) = 1 + lua_entries v /\
  lua_utf8 (LTable [(k, v)]) = key_utf8 k && lua_utf8 v.
Proof. split; [reflexivity|]. split; [cbn [lua_entries fold_right]; lia|]. cbn [lua_utf8 forallb]. apply andb_true_r. Qed.
Lemma table_bounded_snoc levels t n k v m :
  table_bounded levels t n -> bounded levels v m -> key_utf8 k = true -> table_bounded levels (t ++ [(k, v)]) (n + 1 + m).
Proof.
  intros (H1 & H2 & H3) (V1 & V2 & V3) Hk. unfold table_bounded.
  destruct (lua_table_one k v) as (O1 & O2 & O3).
  rewrite lua_depth_app, lua_entries_app, lua_utf8_app, O1, O2, O3, H3, Hk, V3. split; [lia|]. split; [lia|done].
Qed.
Lemma table_bounded_filter levels t n f :
  table_bounded levels t n -> table_bounded levels (List.filter f t) n.
Proof.
  revert n. induction t as [|[k v] t IH]; intros n (H1 & H2 & H3); [by split_and!|].
  destruct (lua_table_one k v) as (O1 & O2 & O3). change ((k, v) :: t) with ([(k, v)] ++ t) in *.
  rewrite lua_depth_app, O1 in H1. rewrite lua_entries_app, O2 in H2.
  rewrite lua_utf8_app, O3 in H3. apply andb_true_iff in H3 as [H3 H4].
  pose proof (lua_entries_nonneg v).
  destruct (IH (n - 1 - lua_entries v)) as (I1 & I2 & I3); [split; [lia|]; split; [lia|done]|].
  cbn [app List.filter]. destruct (f (k, v)); [|split; [lia|]; split; [lia|done]].
  change ((k, v) :: List.filter f t) with ([(k, v)] ++ List.filter f t). unfold table_bounded.
  rewrite lua_depth_app, lua_entries_app, lua_utf8_app, O1, O2, O3, H3, I3. split; [lia|]. split; [lia|done].
Qed.
Lemma table_bounded_weaken levels t n n' : n <= n' -> table_bounded levels t n -> table_bounded levels t n'.
Proof. unfold table_bounded. intuition lia. Qed.

Section Bounded.
Context (max : Z).

(** One level: from [e] entries to [e'], none beyond the limit. *)
Definition push_ok (levels : nat) (push : cJSON -> Z -> lua * Z + json_error) : Prop :=
  forall j e v e', e <= max -> push j e = inl (v, e') -> e <= e' <= max /\ bounded levels v (e' - e).

Lemma push_elements_bounded levels push children i e t t' e' e0 :
  push_ok levels push -> e0 <= e <= max -> table_bounded levels t (e - e0) ->
  push_elements max push children i e t = inl (t', e') -> e <= e' <= max /\ table_bounded levels t' (e' - e0).
Proof using.
  intros Hp. revert i e t. induction children as [|child children IH]; intros i e t He Ht; cbn [push_elements].
  { intros [= <- <-]. split; [lia|done]. }
  destruct (Z.leb_spec max e); [done|]. destruct (push child (e + 1)) as [[v e1]|] eqn:E; [|done]. intros H1.
  assert (e + 1 <= max) as Hle by lia. destruct (Hp _ _ _ _ Hle E) as [He1 Hv].
  apply IH in H1 as [H1 H2]; [split; [lia|done]|lia|].
  unfold rawseti. destruct v; try (replace (e1 - e0) with (e - e0 + 1 + (e1 - (e + 1))) by lia; by apply table_bounded_snoc).
  eapply table_bounded_weaken, Ht. lia.
Qed.
Lemma push_members_bounded levels push children e t t' e' e0 :
  push_ok levels push -> e0 <= e <= max -> table_bounded levels t (e - e0) ->
  push_members max push children e t = inl (t', e') -> e <= e' <= max /\ table_bounded levels t' (e' - e0).
Proof using.
  intros Hp. revert e t. induction children as [|[[name|] child] children IH]; intros e t He Ht; cbn [push_members].
  { intros [= <- <-]. split; [lia|done]. }
  2: by destruct (max <=? e).
  destruct (Z.leb_spec max e); [done|]. destruct (utf8_ok name) eqn:Hu; [|done]. cbn [negb].
  destruct (push child (e + 1)) as [[v e1]|] eqn:E; [|done]. intros H1.
  assert (e + 1 <= max) as Hle by lia. destruct (Hp _ _ _ _ Hle E) as [He1 Hv].
  apply IH in H1 as [H1 H2]; [split; [lia|done]|lia|].
  apply (table_bounded_filter _ _ _ (fun kv => negb (is_key name kv))) in Ht. unfold setfield.
  destruct v; try (replace (e1 - e0) with (e - e0 + 1 + (e1 - (e + 1))) by lia; by apply table_bounded_snoc).
  eapply table_bounded_weaken, Ht. lia.
Qed.
Lemma push_cjson_bounded levels : push_ok levels (push_cjson max levels).
Proof using.
  induction levels as [|levels IH]; intros j e v e' He; cbn [push_cjson]; [done|].
  assert (forall t, table_bounded levels t (e' - e) -> bounded (S levels) (LTable t) (e' - e)) as Hb.
  { intros t (H1 & H2 & H3). split; [lia|done]. }
  assert (table_bounded levels [] (e - e)) as H0 by (split; [cbn; lia|split; [cbn; lia|done]]).
  destruct j as [|b|f|s|children|children|]; try (intros [= <- <-]; split; [lia|]; split; [cbn; lia|split; [cbn; lia|done]]).
  - destruct (utf8_ok s) eqn:Hu; [|done]. intros [= <- <-]. split; [lia|]. split; [cbn; lia|split; [cbn; lia|done]].
  - destruct (push_elements _ _ _ _ _ _) as [[t e1]|] eqn:E; [|done]. intros [= <- <-].
    apply (push_elements_bounded levels _ _ _ _ _ _ _ e IH) in E as [E1 E2]; [split; [lia|by apply Hb]|lia|done].
  - destruct (push_members _ _ _ _ _) as [[t e1]|] eqn:E; [|done]. intros [= <- <-].
    apply (push_members_bounded levels _ _ _ _ _ _ e IH) in E as [E1 E2]; [split; [lia|by apply Hb]|lia|done].
Qed.
End Bounded.

Lemma parse_limits_bounds limits :
  0 < max_nesting (parse_limits limits) <= JSON_NESTING_CEILING /\
  0 < max_entries (parse_limits limits) <= JSON_ENTRIES_MAX /\
  0 < max_input_bytes (parse_limits limits) <= JSON_MAX_INPUT_BYTES /\
  0 < max_output_bytes (parse_limits limits) <= JSON_MAX_OUTPUT_BYTES.
Proof.
  unfold parse_limits, JSON_NESTING_DEFAULT, JSON_NESTING_CEILING, JSON_ENTRIES_MAX, JSON_MAX_INPUT_BYTES,
    JSON_MAX_OUTPUT_BYTES. destruct limits as [field|]; [|cbn; lia]. cbv zeta.
  cbn [max_nesting max_entries max_input_bytes max_output_bytes].
  assert (Hs : forall o, 0 < (match o with Some v => clamp_size v (512 * 1024) | None => 512 * 1024 end) <= 512 * 1024).
  { intros [v|]; [|lia]. unfold clamp_size. destruct (Z.leb_spec v 0), (Z.ltb_spec (512 * 1024) v); lia. }
  assert (Hi : forall o a b, 0 < a <= b -> 0 < (match o with Some v => clamp_int v a b | None => a end) <= b).
  { intros [v|] a b H; [|lia]. unfold clamp_int. destruct (Z.leb_spec v 0), (Z.ltb_spec b v); lia. }
  split_and!; apply Hs || (apply Hi; lia).
Qed.

(** C34. Cn. Whatever the text, the limits asked for and the tree the parser makes of
    it, a decoded value is nested at most [max_nesting] deep (never more than
    64), holds at most [max_entries] entries (never more than 10000), and all
    its strings and keys are UTF-8; so is an encoded text, of at most 512 KiB. *)
Theorem plugin_json_bounded parse print rawlen create add limits s v :
  let lim := parse_limits limits in
  (forall w, l_plugin_json_decode parse limits s = inl w ->
     Z.of_nat (lua_depth w) <= max_nesting lim <= 64 /\ lua_entries w <= max_entries lim <= 10000 /\ lua_utf8 w = true) /\
  (forall t, l_plugin_json_encode print rawlen create add limits v = inl t ->
     Z.of_nat (length t) <= max_output_bytes lim <= 524288 /\ utf8_ok t = true).
Proof.
  cbv zeta. destruct (parse_limits_bounds limits) as (Hn & He & _ & Ho).
  unfold JSON_NESTING_CEILING, JSON_ENTRIES_MAX, JSON_MAX_OUTPUT_BYTES in *. split.
  - intros w. unfold l_plugin_json_decode. cbv zeta. destruct (_ <? _); [done|].
    destruct (negb (utf8_ok s)); [done|]. destruct (negb _); [done|]. destruct (parse s) as [j|]; [|done].
    destruct (push_cjson _ _ j 0) as [[w' e]|] eqn:E; [|done]. intros [= <-].
    apply push_cjson_bounded in E as [H1 (H2 & H3 & H4)]; [|lia]. unfold levels_of in H2.
    split; [lia|]. split; [lia|done].
  - intros t. unfold l_plugin_json_encode. cbv zeta.
    destruct (lua_to_cjson _ _ _ _ _ v 0) as [[j e]|]; [|done]. destruct (print j) as [p|]; [|done].
    destruct (Z.ltb_spec (max_output_bytes (parse_limits limits)) (Z.of_nat (length p))); [done|].
    destruct (utf8_ok p) eqn:Hu; [|done]. intros [= <-]. split; [lia|done].
Qed.

(** ** Examples *)

(** The first border: what [#] gives for a table without holes. *)
Fixpoint first_border (todo : nat) (pairs : list (lua * lua)) (i : Z) : Z :=
  match todo with
  | O => i
  | S todo => match rawgeti pairs (i + 1) with LNil => i | _ => first_border todo pairs (i + 1) end
  end.
Definition border (pairs : list (lua * lua)) : Z := first_border (length pairs) pairs 0.

(** The indices a table can hold values at are few. *)
Definition int_keys (pairs : list (lua * lua)) : list Z := omap (fun kv => match fst kv with LInt i => Some i | _ => None end) pairs.
Lemma rawgeti_key pairs i : rawgeti pairs i <> LNil -> i ∈ int_keys pairs.
Proof.
  unfold rawgeti. destruct (List.find _ pairs) as [[k v]|] eqn:E; [|done]. intros _.
  apply find_some in E as [E1 E2]. cbn in E2. destruct k as [| |j| | | |]; try done. apply Z.eqb_eq in E2 as ->.
  apply list_elem_of_omap. exists (LInt i, v). split; [by apply list_elem_of_In|done].
Qed.
Lemma first_border_spec todo pairs i :
  0 <= i -> (i = 0 \/ rawgeti pairs i <> LNil) ->
  (forall l, NoDup l -> (forall j, j ∈ l -> i < j /\ rawgeti pairs j <> LNil) -> (length l <= todo)%nat) ->
  let n := first_border todo pairs i in
  0 <= n /\ (n = 0 \/ rawgeti pairs n <> LNil) /\ rawgeti pairs (n + 1) = LNil.
Proof.
  assert (forall v : lua, v = LNil \/ v <> LNil) as Hd by (intros []; (by left) || (by right)).
  revert i. induction todo as [|todo IH]; intros i Hi Hg Hl; cbv zeta; cbn [first_border];
    destruct (Hd (rawgeti pairs (i + 1))) as [E|E].
  - done.
  - exfalso. assert (length [(i + 1)%Z] <= 0)%nat as H; [|cbn in H; lia].
    apply Hl; [apply NoDup_singleton|]. intros j ->%list_elem_of_singleton. split; [lia|done].
  - by rewrite E.
  - assert ((match rawgeti pairs (i + 1) with LNil => i | _ => first_border todo pairs (i + 1) end) =
            first_border todo pairs (i + 1)) as -> by (by destruct (rawgeti pairs (i + 1))).
    apply IH; [lia|by right|]. intros l Hn Hj. apply le_S_n. apply (Hl ((i + 1)%Z :: l)).
    + apply list.NoDup_cons. split; [|done]. intros H. apply Hj in H. lia.
    + intros j [->|H]%list.elem_of_cons; [split; [lia|done]|]. apply Hj in H as [H1 H2]. split; [lia|done].
Qed.
#[export] Instance border_length : LuaLength border.
Proof.
  intros pairs. apply first_border_spec; [done|by left|]. intros l Hn Hj.
  transitivity (length (int_keys pairs)).
  - apply submseteq_length, NoDup_submseteq; [done|]. intros j H. apply rawgeti_key. by apply Hj.
  - unfold int_keys. clear. induction pairs as [|[k v] pairs IH]; [done|].
    cbn [omap list_omap fst]. destruct k; cbn [length]; lia.
Qed.

Definition example_value : lua :=
  LTable [(LString (bs "tags"), LTable [(LInt 2, LString (bs "x")); (LInt 1, LBool true)]); (LString (bs "n"), LInt 3)].
Definition example_back : lua :=
  LTable [(LString (bs "tags"), LTable [(LInt 1, LBool true); (LInt 2, LString (bs "x"))]); (LString (bs "n"), LFloat (dbl 3))].
Definition example_tree : cJSON :=
  CObject [(Some (bs "tags"), CArray [CBool true; CString (bs "x")]); (Some (bs "n"), CNumber (dbl 3))].
Definition quote : list Z := [34].
Definition example_text : list Z :=
  bs "{" ++ quote ++ bs "tags" ++ quote ++ bs ":[true," ++ quote ++ bs "x" ++ quote ++ bs "]," ++
  quote ++ bs "n" ++ quote ++ bs ":3}".
Lemma plugin_json_bounded_witness :
  l_plugin_json_decode (fun _ => Some example_tree) (Some (fun _ => Some 2)) [] = inr Too_deep \/
  (lua_entries example_back <= 10000 /\ lua_utf8 example_back = true).
Proof.
  right. destruct (plugin_json_bounded (fun _ => Some example_tree) (fun _ => None) border (fun _ => true) (fun _ => true)
    None example_text LNil) as [H _].
  destruct (H example_back) as (_ & H1 & H2); [vm_compute; reflexivity|]. split; [lia|exact H2].
Defined.

(** A string with a NUL is cut there without an error. *)
Lemma encode_cuts_at_nul :
  lua_to_cjson 10000 border (fun _ => true) (fun _ => true) 33 (LString [97; 0; 98]) 0 = inl (CString [97], 0).
Proof. vm_compute. reflexivity. Qed.
(** Encoding allows one level more than decoding: an empty table inside a table
    is at depth 1, but the text of the two nests twice. *)
Lemma encode_nests_deeper :
  lua_to_cjson 10000 border (fun _ => true) (fun _ => true) 2 (LTable [(LInt 1, LTable [])]) 0 =
    inl (CArray [CObject []], 1) /\
  json_nesting_ok (bs "[{}]") 1 = false.
Proof. vm_compute. done. Qed.
(** A table with elements and a string key is refused, not encoded as an array. *)
Lemma encode_mixed_table :
  lua_to_cjson 10000 border (fun _ => true) (fun _ => true) 33
    (LTable [(LInt 1, LBool true); (LString (bs "n"), LBool true)]) 0 = inr Keys_not_strings.
Proof. vm_compute. reflexivity. Qed.
