(* ===== verification/Mp4.v ===== *)
(** The MP4 container of src/audio/mp4_demux.c: definitions. The boxes, the
    sample description, and the sample tables in their two forms, expanded in
    memory or resolved on demand. Every function seeks before it reads, so the
    position of the stream is an argument. *)
From S2P Require Import Prelude AudioHelpers Ogg.
Local Open Scope Z_scope.

(** ** Data *)
Record box_header_t := { box_type : list Z; size : Z; header_size : Z; data_start : Z }.
Record stsc_entry_t := { first_chunk : Z; samples_per_chunk : Z }.

Definition MP4_EXPAND_MAX_SAMPLES : Z := 65536.
Definition MP4_MAX_STSC_ENTRIES : Z := 4096.
Definition MP4_MAX_STSD_ENTRY_BYTES : Z := 1048576.

Record mp4_demux := {
  file_size : Z; codec_fourcc : list Z; codec_config : list Z;
  sample_count : Z; uniform_size : Z; stsz_table_offset : Z; sample_sizes : option (list Z);
  chunk_count : Z; stco_is64 : bool; stco_table_offset : Z; stsc : list stsc_entry_t;
  sample_offsets : option (list Z);
  cursor_index : Z; cursor_offset : Z;
  frames_per_sample : Z; total_pcm_frames : Z }.

Section Demux.
(** The largest [long], the success of an allocation by its size, the file. *)
Context (LONG_MAX : Z) (alloc : Z -> bool) (file : list Z).

(** ** Boxes *)
Definition at_least {A} (n : nat) (l : list A) : option (list A) := if (length l =? n)%nat then Some l else None.
(** [fread] of exactly [n] bytes. *)
Definition fread_all (offset : Z) (n : nat) : option (list Z) := at_least n (fread file offset n).

Definition read_box_header (start : Z) : option box_header_t :=
  hdr ← fread_all start 8;
  size32 ← audio_read_u32be hdr;
  '(sz, hs) ← (if size32 =? 1 then
                 ext ← fread_all (start + 8) 8; n ← audio_read_u64be ext; Some (n, 16)
               else if size32 =? 0 then Some (u64 (Z.of_nat (length file) - start), 8)
               else Some (size32, 8));
  if (sz <? hs) || (LONG_MAX - start <? sz) then None else
  Some {| box_type := cstr (drop 4 hdr); size := sz; header_size := hs; data_start := start + hs |}.

Definition payload (b : box_header_t) : Z := size b - header_size b.
Definition box_payload_has (b : box_header_t) (offset bytes : Z) : bool :=
  (offset <=? payload b) && (bytes <=? payload b - offset).

(** A box is at least 8 bytes long: the length of the file bounds the loops. *)
Definition fuel_of_file : nat := S (length file).

Fixpoint child_loop (fuel : nat) (pos end_ : Z) (type : list Z) : option box_header_t :=
  match fuel with
  | O => None
  | S fuel =>
      if end_ <=? pos then None else
      b ← read_box_header pos;
      if end_ - pos <? size b then None else
      if bytes_eqb (box_type b) type then Some b else child_loop fuel (pos + size b) end_ type
  end.
Definition find_child_box (container_start container_size : Z) (type : list Z) : option box_header_t :=
  if (container_start <? 0) || (LONG_MAX - container_start <? container_size) then None else
  child_loop fuel_of_file container_start (container_start + container_size) type.
(** The call with a parent box. *)
Definition child_of (b : box_header_t) (type : list Z) : option box_header_t :=
  find_child_box (data_start b) (payload b) type.

Definition is_audio_trak (trak : box_header_t) : bool :=
  match (mdia ← child_of trak (bs "mdia"); child_of mdia (bs "hdlr")) with
  | Some hdlr =>
      match fread_all (data_start hdlr + 4) 8 with
      | Some buf => bytes_eqb (drop 4 buf) (bs "soun")
      | None => false
      end
  | None => false
  end.
Fixpoint trak_loop (fuel : nat) (pos end_ : Z) : option box_header_t :=
  match fuel with
  | O => None
  | S fuel =>
      if end_ <=? pos then None else
      trak ← read_box_header pos;
      if bytes_eqb (box_type trak) (bs "trak") && is_audio_trak trak then Some trak
      else trak_loop fuel (pos + size trak) end_
  end.
Definition find_audio_trak (moov : box_header_t) : option box_header_t :=
  trak_loop fuel_of_file (data_start moov) (data_start moov + size moov - header_size moov).

(** ** The sample description *)

(** The length of a descriptor: at most four bytes before [limit]. *)
Fixpoint desc_length (todo : nat) (region : list Z) (limit p len : Z) : Z * Z :=
  match todo with
  | O => (p, len)
  | S todo =>
      if p <? limit then
        let b := default 0 (region !! Z.to_nat p) in
        let len := u32 (Z.lor (Z.shiftl len 7) (Z.land b 127)) in
        if Z.land b 128 =? 0 then (p + 1, len) else desc_length todo region limit (p + 1) len
      else (p, len)
  end.
(** The walk over the descriptors: where the DecoderSpecificInfo is. *)
Fixpoint esds_loop (fuel : nat) (region : list Z) (limit p : Z) : option (Z * Z) :=
  match fuel with
  | O => None
  | S fuel =>
      if limit <? p + 2 then None else
      let tag := default 0 (region !! Z.to_nat p) in
      let '(p, desc_len) := desc_length 4 region limit (p + 1) 0 in
      if tag =? 5 then if Z.of_nat (length region) <? p + desc_len then None else Some (p, desc_len)
      else if tag =? 3 then esds_loop fuel region limit (p + 3)
      else if tag =? 4 then esds_loop fuel region limit (p + 13)
      else esds_loop fuel region limit (p + desc_len)
  end.

(** The loop over the boxes of an "mp4a" entry, in [uint32_t] arithmetic. [None]
    when it takes more than [fuel] rounds, which it can for any [fuel]. *)
Fixpoint config_loop (fuel : nat) (region : list Z) (pos : Z) : option (option (list Z)) :=
  match fuel with
  | O => None
  | S fuel =>
      let region_size := Z.of_nat (length region) in
      if region_size <? u32 (pos + 8) then Some None else
      let box := default 0 (audio_read_u32be (drop (Z.to_nat pos) region)) in
      let limit := u32 (pos + box) in
      if (box <? 8) || (region_size <? limit) then Some None else
      match (if bytes_eqb (take 4 (drop (Z.to_nat pos + 4) region)) (bs "esds")
             then esds_loop (S (length region)) region limit (pos + 12) else None) with
      | Some (p, desc_len) =>
          Some (if alloc desc_len then Some (take (Z.to_nat desc_len) (drop (Z.to_nat p) region)) else None)
      | None => config_loop fuel region limit
      end
  end.

Definition parse_stsd (fuel : nat) (stsd : box_header_t) : option (option (list Z * list Z)) :=
  if negb (box_payload_has stsd 0 44) then Some None else
  match fread_all (data_start stsd + 8) 36 with
  | None => Some None
  | Some entry_header =>
      let entry_size := default 0 (audio_read_u32be entry_header) in
      let fourcc := cstr (take 4 (drop 4 entry_header)) in
      if (entry_size <=? 36) || (MP4_MAX_STSD_ENTRY_BYTES <? entry_size) || negb (box_payload_has stsd 8 entry_size)
      then Some None else
      if negb (alloc (entry_size - 36)) then Some None else
      match fread_all (data_start stsd + 44) (Z.to_nat (entry_size - 36)) with
      | None => Some None
      | Some region =>
          if bytes_eqb fourcc (bs "alac") then Some (Some (fourcc, region))
          else if bytes_eqb fourcc (bs "mp4a") then
            config ← config_loop fuel region 0; Some (c ← config; Some (fourcc, c))
          else Some None
      end
  end.

(** ** Sizes and offsets of samples *)
Definition read_u32be_file (offset : Z) : option Z := b ← fread_all offset 4; audio_read_u32be b.

Definition sample_size_at (d : mp4_demux) (i : Z) : option Z :=
  if sample_count d <=? i then None else
  match sample_sizes d with
  | Some l => l !! Z.to_nat i
  | None => if negb (uniform_size d =? 0) then Some (uniform_size d)
            else read_u32be_file (stsz_table_offset d + i * 4)
  end.

(** An entry of the chunk table. *)
Definition chunk_entry (is64 : bool) (offset : Z) : option Z :=
  if is64 then b ← fread_all offset 8; audio_read_u64be b else read_u32be_file offset.
Definition stride (is64 : bool) : Z := if is64 then 8 else 4.
Definition chunk_offset_at (d : mp4_demux) (chunk_index0 : Z) : option Z :=
  if chunk_count d <=? chunk_index0 then None else
  chunk_entry (stco_is64 d) (stco_table_offset d + chunk_index0 * stride (stco_is64 d)).

Definition with_cursor (d : mp4_demux) (index offset : Z) : mp4_demux :=
  {| file_size := file_size d; codec_fourcc := codec_fourcc d; codec_config := codec_config d;
     sample_count := sample_count d; uniform_size := uniform_size d; stsz_table_offset := stsz_table_offset d;
     sample_sizes := sample_sizes d; chunk_count := chunk_count d; stco_is64 := stco_is64 d;
     stco_table_offset := stco_table_offset d; stsc := stsc d; sample_offsets := sample_offsets d;
     cursor_index := index; cursor_offset := offset;
     frames_per_sample := frames_per_sample d; total_pcm_frames := total_pcm_frames d |}.

(** The walk over the chunk runs: the 1-based chunk of a sample and its index there. *)
Fixpoint stsc_walk (runs : list stsc_entry_t) (chunks remaining : Z) : option (Z * Z) :=
  match runs with
  | [] => None
  | e :: rest =>
      let first := first_chunk e in let spc := samples_per_chunk e in
      if spc =? 0 then None else
      let next_first := match rest with e' :: _ => first_chunk e' | [] => u32 (chunks + 1) end in
      if next_first <=? first then None else
      let nsamples := (next_first - first) * spc in
      if remaining <? nsamples then Some (first + remaining / spc, remaining mod spc)
      else stsc_walk rest chunks (u32 (remaining - nsamples))
  end.
(** [off += sz] over the samples of the chunk before the wanted one. *)
Fixpoint add_sizes (d : mp4_demux) (todo : nat) (sample off : Z) : option Z :=
  match todo with
  | O => Some off
  | S todo => sz ← sample_size_at d sample; add_sizes d todo (sample + 1) (u64 (off + sz))
  end.

Definition sample_offset_at (d : mp4_demux) (i : Z) : option (Z * mp4_demux) :=
  if sample_count d <=? i then None else
  match sample_offsets d with
  | Some l => off ← l !! Z.to_nat i; Some (off, d)
  | None =>
      if i =? cursor_index d then Some (cursor_offset d, d)
      else if i =? u32 (cursor_index d + 1) then
        sz ← sample_size_at d (cursor_index d);
        let off := u64 (cursor_offset d + sz) in Some (off, with_cursor d i off)
      else
        '(chunk, index) ← stsc_walk (stsc d) (chunk_count d) i;
        if chunk =? 0 then None else
        base ← chunk_offset_at d (chunk - 1);
        off ← add_sizes d (Z.to_nat index) (i - index) base;
        Some (off, with_cursor d i off)
  end.

(** ** The tables *)

(** [n] entries of four bytes. *)
Fixpoint read_sizes (n : nat) (offset : Z) : option (list Z) :=
  match n with
  | O => Some []
  | S n => v ← read_u32be_file offset; l ← read_sizes n (offset + 4); Some (v :: l)
  end.
(** [sample_count], [uniform_size], [stsz_table_offset], [sample_sizes]. *)
Definition parse_stsz (stsz : box_header_t) : option (Z * Z * Z * option (list Z)) :=
  if negb (box_payload_has stsz 0 12) then None else
  hdr ← fread_all (data_start stsz) 12;
  uniform ← audio_read_u32be (drop 4 hdr);
  count ← audio_read_u32be (drop 8 hdr);
  if count =? 0 then None else
  let table := data_start stsz + 12 in
  if (uniform =? 0) && negb (box_payload_has stsz 12 (count * 4)) then None else
  if MP4_EXPAND_MAX_SAMPLES <? count then Some (count, uniform, table, None) else
  if negb (alloc (4 * count)) then None else
  if negb (uniform =? 0) then Some (count, uniform, table, Some (repeat uniform (Z.to_nat count))) else
  sizes ← read_sizes (Z.to_nat count) table;
  Some (count, uniform, table, Some sizes).

Fixpoint read_stsc (n : nat) (offset : Z) (prev : Z) : option (list stsc_entry_t) :=
  match n with
  | O => Some []
  | S n =>
      buf ← fread_all offset 12;
      first ← audio_read_u32be buf; spc ← audio_read_u32be (drop 4 buf);
      if (first =? 0) || (spc =? 0) || (first <=? prev) then None else
      rest ← read_stsc n (offset + 12) first;
      Some ({| first_chunk := first; samples_per_chunk := spc |} :: rest)
  end.
Fixpoint read_chunks (n : nat) (is64 : bool) (offset size : Z) : option (list Z) :=
  match n with
  | O => Some []
  | S n =>
      v ← chunk_entry is64 offset;
      if size <=? v then None else
      l ← read_chunks n is64 (offset + stride is64) size; Some (v :: l)
  end.

(** The samples per chunk of one chunk: the loop over the runs. *)
Fixpoint spc_of (runs : list stsc_entry_t) (chunk default_spc : Z) : Z :=
  match runs with
  | [] => default_spc
  | e :: rest =>
      let range_end := match rest with e' :: _ => first_chunk e' | [] => 4294967295 end in
      if (first_chunk e <=? chunk) && (chunk <? range_end) then samples_per_chunk e
      else spc_of rest chunk default_spc
  end.
Definition last_spc (runs : list stsc_entry_t) : Z :=
  match list.last runs with Some e => samples_per_chunk e | None => 0 end.
(** The samples of one chunk, from sample [index]. *)
Fixpoint expand_chunk (d : mp4_demux) (todo : nat) (index offset : Z) : option (list Z) :=
  match todo with
  | O => Some []
  | S todo =>
      sz ← sample_size_at d index;
      if (file_size d <? offset) || (file_size d - offset <? sz) then None else
      l ← expand_chunk d todo (index + 1) (u64 (offset + sz)); Some (offset :: l)
  end.
Fixpoint expand_chunks (d : mp4_demux) (chunk_offsets : list Z) (chunk index : Z) : option (list Z) :=
  match chunk_offsets with
  | [] => Some []
  | offset :: chunk_offsets =>
      if sample_count d <=? index then Some [] else
      let spc := Z.min (spc_of (stsc d) chunk (last_spc (stsc d))) (sample_count d - index) in
      l ← expand_chunk d (Z.to_nat spc) index offset;
      rest ← expand_chunks d chunk_offsets (chunk + 1) (index + spc); Some (l ++ rest)
  end.

Definition with_tables (d : mp4_demux) (chunks : Z) (is64 : bool) (table : Z) (runs : list stsc_entry_t)
    (offsets : option (list Z)) (cursor : Z) : mp4_demux :=
  {| file_size := file_size d; codec_fourcc := codec_fourcc d; codec_config := codec_config d;
     sample_count := sample_count d; uniform_size := uniform_size d; stsz_table_offset := stsz_table_offset d;
     sample_sizes := sample_sizes d; chunk_count := chunks; stco_is64 := is64; stco_table_offset := table;
     stsc := runs; sample_offsets := offsets; cursor_index := 0; cursor_offset := cursor;
     frames_per_sample := frames_per_sample d; total_pcm_frames := total_pcm_frames d |}.

(** The [entry_count] of a full box. *)
Definition count_at (b : box_header_t) : option Z := hdr ← fread_all (data_start b) 8; audio_read_u32be (drop 4 hdr).

Definition parse_sample_offsets (d : mp4_demux) (stbl : box_header_t) : option mp4_demux :=
  '(is64, stco_box) ← (match child_of stbl (bs "stco") with
                       | Some b => Some (false, b)
                       | None => b ← child_of stbl (bs "co64"); Some (true, b)
                       end);
  stsc_box ← child_of stbl (bs "stsc");
  if negb (box_payload_has stco_box 0 8) || negb (box_payload_has stsc_box 0 8) then None else
  chunks ← count_at stco_box;
  if (chunks =? 0) || (sample_count d <? chunks) then None else
  if negb (box_payload_has stco_box 8 (chunks * stride is64)) then None else
  let table := data_start stco_box + 8 in
  runs_count ← count_at stsc_box;
  if (runs_count =? 0) || (MP4_MAX_STSC_ENTRIES <? runs_count) then None else
  if negb (box_payload_has stsc_box 8 (runs_count * 12)) then None else
  if negb (alloc (8 * runs_count)) then None else
  runs ← read_stsc (Z.to_nat runs_count) (data_start stsc_box + 8) 0;
  let d := with_tables d chunks is64 table runs None 0 in
  if MP4_EXPAND_MAX_SAMPLES <? sample_count d then
    cursor ← chunk_offset_at d 0; Some (with_tables d chunks is64 table runs None cursor)
  else
    if negb (alloc (8 * chunks)) then None else
    chunk_offsets ← read_chunks (Z.to_nat chunks) is64 table (file_size d);
    if negb (alloc (8 * sample_count d)) then None else
    offsets ← expand_chunks d chunk_offsets 1 0;
    if Z.of_nat (length offsets) =? sample_count d
    then Some (with_tables d chunks is64 table runs (Some offsets) 0) else None.

Fixpoint stts_loop (n : nat) (offset total timed fps : Z) (first : bool) : option (Z * Z * Z) :=
  match n with
  | O => Some (total, timed, fps)
  | S n =>
      entry ← fread_all offset 8;
      count ← audio_read_u32be entry; delta ← audio_read_u32be (drop 4 entry);
      if (count =? 0) || (delta =? 0) || (u64 (timed + count) <? timed) then None else
      stts_loop n (offset + 8) (u64 (total + u64 (count * delta))) (u64 (timed + count)) (if first then delta else fps) false
  end.
Definition parse_stts (d : mp4_demux) (stbl : box_header_t) : option mp4_demux :=
  stts_box ← child_of stbl (bs "stts");
  if negb (box_payload_has stts_box 0 8) then None else
  entries ← count_at stts_box;
  if entries =? 0 then None else
  if negb (box_payload_has stts_box 8 (entries * 8)) then None else
  '(total, timed, fps) ← stts_loop (Z.to_nat entries) (data_start stts_box + 8) 0 0 0 true;
  if (0 <? fps) && (0 <? total) && (timed =? sample_count d) then
    Some {| file_size := file_size d; codec_fourcc := codec_fourcc d; codec_config := codec_config d;
            sample_count := sample_count d; uniform_size := uniform_size d; stsz_table_offset := stsz_table_offset d;
            sample_sizes := sample_sizes d; chunk_count := chunk_count d; stco_is64 := stco_is64 d;
            stco_table_offset := stco_table_offset d; stsc := stsc d; sample_offsets := sample_offsets d;
            cursor_index := cursor_index d; cursor_offset := cursor_offset d;
            frames_per_sample := fps; total_pcm_frames := total |}
  else None.

(** ** Opening and reading *)
Fixpoint moov_loop (fuel : nat) (pos : Z) : option box_header_t :=
  match fuel with
  | O => None
  | S fuel =>
      if Z.of_nat (length file) <=? pos then None else
      b ← read_box_header pos;
      if bytes_eqb (box_type b) (bs "moov") then Some b else moov_loop fuel (pos + size b)
  end.
Definition find_stbl : option box_header_t :=
  moov ← moov_loop fuel_of_file 0;
  trak ← find_audio_trak moov;
  mdia ← child_of trak (bs "mdia"); minf ← child_of mdia (bs "minf"); child_of minf (bs "stbl").

(** [fuel] bounds [config_loop]; [None] when it is not enough. *)
Definition mp4_demux_open (fuel : nat) : option (option mp4_demux) :=
  match (stbl ← find_stbl; stsd ← child_of stbl (bs "stsd"); stsz ← child_of stbl (bs "stsz"); Some (stbl, stsd, stsz)) with
  | None => Some None
  | Some (stbl, stsd, stsz) =>
      if negb (alloc 160) then Some None else
      description ← parse_stsd fuel stsd;
      Some ('(fourcc, config) ← description;
            '(count, uniform, table, sizes) ← parse_stsz stsz;
            d ← parse_sample_offsets
                  {| file_size := Z.of_nat (length file); codec_fourcc := fourcc; codec_config := config;
                     sample_count := count; uniform_size := uniform; stsz_table_offset := table;
                     sample_sizes := sizes; chunk_count := 0; stco_is64 := false; stco_table_offset := 0;
                     stsc := []; sample_offsets := None; cursor_index := 0; cursor_offset := 0;
                     frames_per_sample := 0; total_pcm_frames := 0 |} stbl;
            parse_stts d stbl)
  end.

Fixpoint peek_loop (fuel : nat) (pos : Z) : option box_header_t :=
  match fuel with
  | O => None
  | S fuel =>
      if Z.of_nat (length file) <=? pos then None else
      b ← read_box_header pos;
      if Z.of_nat (length file) - pos <? size b then None else
      if bytes_eqb (box_type b) (bs "moov") then Some b else peek_loop fuel (pos + size b)
  end.
Definition mp4_demux_peek_codec : option (list Z) :=
  if (length file =? 0)%nat then None else
  moov ← peek_loop fuel_of_file 0;
  trak ← find_audio_trak moov;
  mdia ← child_of trak (bs "mdia"); minf ← child_of mdia (bs "minf"); stbl ← child_of minf (bs "stbl"); stsd ← child_of stbl (bs "stsd");
  if negb (box_payload_has stsd 0 20) then None else
  entry ← fread_all (data_start stsd + 8) 12;
  n ← audio_read_u32be entry;
  if n <? 36 then None else Some (cstr (take 4 (drop 4 entry))).

(** The bytes of a sample, if it could be read, and the demuxer after. *)
Definition mp4_demux_read_sample (d : mp4_demux) (sample_index buf_size : Z) : option (list Z) * mp4_demux :=
  match sample_size_at d sample_index, sample_offset_at d sample_index with
  | Some sz, Some (offset, d) =>
      if (buf_size <? sz) || (file_size d <? offset) || (file_size d - offset <? sz) || (LONG_MAX <? offset)
      then (None, d) else
      match fread_all offset (Z.to_nat sz) with
      | Some data => (Some data, with_cursor d (u32 (sample_index + 1)) (u64 (offset + sz)))
      | None => (None, d)
      end
  | _, _ => (None, d)
  end.
End Demux.
