(* ===== verification/Mp4Proofs.v ===== *)
(** The sample tables of the MP4 demuxer: every sample of an opened file is
    inside it, and resolving an offset on demand agrees with the expanded table. *)
From S2P Require Import Prelude Endian AudioHelpers Ogg Mp4.
Local Open Scope Z_scope.

(** ** Chunks and samples *)
Section Runs.
Context (runs : list stsc_entry_t) (dflt : Z) (Hdflt : 0 <= dflt).

(** The samples in the first [n] chunks. *)
Fixpoint before (n : nat) : Z :=
  match n with O => 0 | S n => before n + spc_of runs (Z.of_nat n + 1) dflt end.
Lemma before_const n m s :
  (forall j, (n <= j < n + m)%nat -> spc_of runs (Z.of_nat j + 1) dflt = s) ->
  before (n + m) = before n + Z.of_nat m * s.
Proof.
  induction m as [|m IH]; intros H; [rewrite Nat.add_0_r; lia|].
  rewrite Nat.add_succ_r. cbn [before]. rewrite IH, H by (lia || (intros; apply H; lia)). lia.
Qed.

(** Runs in ascending order from chunk [lo], all of them of 32-bit numbers. *)
Fixpoint runs_from (lo : Z) (l : list stsc_entry_t) : Prop :=
  match l with
  | [] => True
  | e :: rest => lo < first_chunk e < 4294967296 /\ 0 < samples_per_chunk e < 4294967296 /\ runs_from (first_chunk e) rest
  end.

(** Sample [i] is sample [k] of the 1-based chunk [c]. *)
Definition located (i c k : Z) : Prop :=
  0 <= k < spc_of runs c dflt /\ i = before (Z.to_nat (c - 1)) + k.

Lemma spc_of_run e rest c :
  first_chunk e <= c < 4294967295 -> runs_from (first_chunk e) rest ->
  match rest with e' :: _ => c < first_chunk e' | [] => True end ->
  spc_of (e :: rest) c dflt = samples_per_chunk e.
Proof.
  intros Hc Hr Hn. cbn [spc_of]. rewrite (proj2 (Z.leb_le _ _)) by lia. cbn [andb].
  destruct rest as [|e' rest]; (rewrite (proj2 (Z.ltb_lt _ _)); [done|lia]).
Qed.
Lemma spc_of_skip e e' rest c :
  first_chunk e' <= c -> spc_of (e :: e' :: rest) c dflt = spc_of (e' :: rest) c dflt.
Proof. intros Hc. cbn [spc_of]. by rewrite (proj2 (Z.ltb_ge c (first_chunk e'))), andb_false_r by lia. Qed.

Lemma spc_of_nonneg lo l c : runs_from lo l -> 0 <= spc_of l c dflt.
Proof.
  revert lo. induction l as [|e l IH]; intros lo; [done|]. intros (_ & H & Hr). cbn [spc_of].
  destruct (_ && _); [lia|by eapply IH].
Qed.

(** The walk finds the chunk of a sample, from any run at or before it. *)
Lemma stsc_walk_located suffix chunks rem i c k :
  match suffix with
  | [] => False
  | e :: rest =>
      runs_from (first_chunk e) rest /\ 0 < samples_per_chunk e < 4294967296 /\ 0 < first_chunk e /\
      (forall j, first_chunk e <= j -> spc_of runs j dflt = spc_of suffix j dflt) /\
      first_chunk e <= c /\ i = before (Z.to_nat (first_chunk e - 1)) + rem
  end ->
  0 <= rem < 4294967296 -> c <= chunks < 4294967295 -> located i c k ->
  stsc_walk suffix chunks rem = Some (c, k).
Proof.
  revert rem. induction suffix as [|e rest IH]; intros rem; [done|].
  intros (Hr & Hspc & Hf & Hspc_of & Hc & Hi) Hrem Hch [Hk Hik]. cbn [stsc_walk].
  set (spc := samples_per_chunk e) in *. set (first := first_chunk e) in *.
  rewrite (proj2 (Z.eqb_neq spc 0)) by lia.
  set (next := match rest with e' :: _ => first_chunk e' | [] => u32 (chunks + 1) end).
  assert (first < next < 4294967296) as Hnext.
  { unfold next. destruct rest as [|e' rest]; [|destruct Hr as [? _]; lia].
    unfold u32. rewrite Z.mod_small by lia. lia. }
  rewrite (proj2 (Z.leb_gt next first)) by lia.
  assert (forall j, first <= j < Z.min next 4294967295 -> spc_of runs j dflt = spc) as Hrun.
  { intros j Hj. rewrite Hspc_of by lia. apply spc_of_run; [lia|done|]. unfold next in Hj. by destruct rest; [|lia]. }
  assert (forall m, first <= m <= Z.min next 4294967295 ->
            before (Z.to_nat (m - 1)) = before (Z.to_nat (first - 1)) + (m - first) * spc) as Hbefore.
  { intros m Hm. replace (Z.to_nat (m - 1)) with (Z.to_nat (first - 1) + Z.to_nat (m - first))%nat by lia.
    rewrite (before_const _ _ spc); [by rewrite Z2Nat.id by lia|]. intros j Hj. apply Hrun. lia. }
  destruct (Z.lt_ge_cases c next) as [Hcn|Hcn].
  - rewrite Hrun in Hk by lia. rewrite Hbefore in Hik by lia.
    assert (rem = (c - first) * spc + k) as -> by lia.
    rewrite (proj2 (Z.ltb_lt _ _)) by nia.
    rewrite Z.div_add_l, Z.div_small, (Z.add_comm _ k), Z.mod_add, Z.mod_small by lia.
    do 2 f_equal. lia.
  - destruct rest as [|e' rest].
    { unfold next, u32 in Hcn. rewrite Z.mod_small in Hcn by lia. lia. }
    cbn in next. subst next. set (next := first_chunk e') in *.
    destruct Hr as (Hr1 & Hr2 & Hr3). fold next in Hr1, Hr3.
    assert (before (Z.to_nat (next - 1)) = before (Z.to_nat (first - 1)) + (next - first) * spc) as Hb by (apply Hbefore; lia).
    assert (forall a b, (a <= b)%nat -> (forall j, (a <= j < b)%nat -> 0 <= spc_of runs (Z.of_nat j + 1) dflt) -> before a <= before b) as Hmono.
    { intros a b Hab Hp. induction Hab as [|b Hab IHm]; [lia|]. cbn [before].
      pose proof (Hp b ltac:(lia)). assert (before a <= before b); [|lia]. apply IHm. intros j Hj. apply Hp. lia. }
    assert (before (Z.to_nat (next - 1)) <= before (Z.to_nat (c - 1))) as Hle.
    { apply Hmono; [lia|]. intros j Hj. rewrite Hspc_of, spc_of_skip by lia.
      apply (spc_of_nonneg 0). split; [lia|done]. }
    rewrite (proj2 (Z.ltb_ge _ _)) by lia.
    unfold u32. rewrite Z.mod_small by nia.
    apply IH; [|nia|lia|by split].
    split; [done|]. split; [done|]. split; [lia|]. split; [|split; [done|lia]].
    intros j Hj. rewrite Hspc_of by lia. by apply spc_of_skip.
Qed.
End Runs.

(** ** The expanded table *)
Section Expand.
Context (LONG_MAX : Z) (alloc : Z -> bool) (file : list Z).
Abbreviation size_at := (sample_size_at file).

(** Entry [k] of an expanded chunk is what adding up the sizes gives, and its
    sample lies in the file. *)
Lemma expand_chunk_spec d todo index offset l :
  expand_chunk file d todo index offset = Some l ->
  length l = todo /\
  forall k, (k < todo)%nat -> exists off sz, l !! k = Some off /\
    add_sizes file d k index offset = Some off /\ size_at d (index + Z.of_nat k) = Some sz /\
    off <= file_size d /\ sz <= file_size d - off.
Proof.
  revert index offset l. induction todo as [|todo IH]; intros index offset l; cbn [expand_chunk].
  { intros [= <-]. split; [done|]. intros k Hk. lia. }
  destruct (size_at d index) as [sz|] eqn:Es; [|done]. cbn [mbind option_bind].
  destruct (Z.ltb_spec (file_size d) offset); [done|].
  destruct (Z.ltb_spec (file_size d - offset) sz); [done|]. cbn [orb].
  destruct (expand_chunk file d todo (index + 1) _) as [l'|] eqn:El; [|done]. intros [= <-].
  destruct (IH _ _ _ El) as [Hl Hk]. split; [cbn; lia|]. intros [|k] Hlt.
  - exists offset, sz. cbn [add_sizes lookup list_lookup]. rewrite Z.add_0_r. split_and!; done || lia.
  - destruct (Hk k ltac:(lia)) as (off & sz' & H1 & H2 & H3 & H4 & H5). exists off, sz'.
    cbn [add_sizes lookup list_lookup]. rewrite Es. cbn [mbind option_bind].
    replace (index + Z.of_nat (S k)) with (index + 1 + Z.of_nat k) by lia. split_and!; done.
Qed.

(** Where the sample of entry [i] is. *)
Definition entry_located (d : mp4_demux) (offs : list Z) (i off : Z) : Prop :=
  exists c k base sz, located (stsc d) (last_spc (stsc d)) i c k /\ 1 <= c <= Z.of_nat (length offs) /\
    offs !! Z.to_nat (c - 1) = Some base /\ add_sizes file d (Z.to_nat k) (i - k) base = Some off /\
    size_at d i = Some sz /\ off <= file_size d /\ sz <= file_size d - off.

Lemma expand_chunks_spec d all offs chunk index l :
  0 <= last_spc (stsc d) -> runs_from 0 (stsc d) ->
  1 <= chunk -> drop (Z.to_nat (chunk - 1)) all = offs -> 0 <= index ->
  (index < sample_count d -> index = before (stsc d) (last_spc (stsc d)) (Z.to_nat (chunk - 1))) ->
  expand_chunks file d offs chunk index = Some l ->
  forall i, (i < length l)%nat -> exists off, l !! i = Some off /\ entry_located d all (index + Z.of_nat i) off.
Proof.
  intros Hd Hr. revert chunk index l. induction offs as [|base offs IH]; intros chunk index l Hc Hall Hi0 Hi; cbn [expand_chunks].
  { intros [= <-] i Hlt. cbn in Hlt. lia. }
  destruct (Z.leb_spec (sample_count d) index); [intros [= <-] i Hlt; cbn in Hlt; lia|].
  specialize (Hi ltac:(lia)). set (spc := spc_of _ _ _). assert (0 <= spc) as Hspc by (by eapply spc_of_nonneg).
  destruct (expand_chunk _ _ _ _ _) as [l1|] eqn:E1; [|done]. cbn [mbind option_bind].
  destruct (expand_chunks _ _ _ _ _) as [l2|] eqn:E2; [|done]. intros [= <-] i Hlt.
  destruct (expand_chunk_spec _ _ _ _ _ E1) as [Hl1 Hk].
  assert (all !! Z.to_nat (chunk - 1) = Some base) as Hbase.
  { rewrite <- (Nat.add_0_r (Z.to_nat (chunk - 1))), <- lookup_drop, Hall. done. }
  destruct (Nat.lt_ge_cases i (length l1)) as [Hil|Hil].
  - destruct (Hk i ltac:(lia)) as (off & sz & H1 & H2 & H3 & H4 & H5).
    exists off. split; [by rewrite lookup_app_l|]. exists chunk, (Z.of_nat i), base, sz.
    split; [split; [fold spc; lia|by rewrite <- Hi]|].
    split; [apply lookup_lt_Some in Hbase; lia|]. split; [done|].
    rewrite Nat2Z.id, Z.add_simpl_r. done.
  - rewrite length_app in Hlt.
    assert (drop (Z.to_nat (chunk + 1 - 1)) all = offs) as Hall'.
    { replace (Z.to_nat (chunk + 1 - 1)) with (Z.to_nat (chunk - 1) + 1)%nat by lia.
      by rewrite <- drop_drop, Hall. }
    assert (index + Z.min spc (sample_count d - index) < sample_count d ->
      index + Z.min spc (sample_count d - index) =
        before (stsc d) (last_spc (stsc d)) (Z.to_nat (chunk + 1 - 1))) as Hi'.
    { intros Hlt'. replace (Z.to_nat (chunk + 1 - 1)) with (S (Z.to_nat (chunk - 1))) by lia. cbn [before].
      replace (Z.of_nat (Z.to_nat (chunk - 1)) + 1) with chunk by lia. rewrite <- Hi. fold spc. lia. }
    destruct (IH (chunk + 1) (index + Z.min spc (sample_count d - index)) l2 ltac:(lia) Hall' ltac:(lia) Hi' E2 (i - length l1)%nat ltac:(lia))
      as (off & H1 & H2).
    exists off. split; [by rewrite lookup_app_r|].
    replace (index + Z.of_nat i) with (index + Z.min spc (sample_count d - index) + Z.of_nat (i - length l1)) by lia.
    exact H2.
Qed.

(** ** What the parsers read *)
Lemma read_sizes_spec n offset l :
  read_sizes file n offset = Some l ->
  length l = n /\ forall i, (i < n)%nat -> l !! i = read_u32be_file file (offset + Z.of_nat i * 4).
Proof.
  revert offset l. induction n as [|n IH]; intros offset l; cbn [read_sizes].
  { intros [= <-]. split; [done|]. lia. }
  destruct (read_u32be_file file offset) as [v|] eqn:Ev; [|done]. cbn [mbind option_bind].
  destruct (read_sizes file n _) as [l'|] eqn:El; [|done]. intros [= <-].
  destruct (IH _ _ El) as [Hl Hi]. split; [cbn; lia|]. intros [|i] Hlt.
  - rewrite Z.add_0_r. cbn. done.
  - cbn [lookup list_lookup]. rewrite Hi by lia. f_equal. lia.
Qed.
Lemma read_chunks_spec n is64 offset size l :
  read_chunks file n is64 offset size = Some l ->
  length l = n /\ forall i, (i < n)%nat -> l !! i = chunk_entry file is64 (offset + Z.of_nat i * stride is64).
Proof.
  revert offset l. induction n as [|n IH]; intros offset l; cbn [read_chunks].
  { intros [= <-]. split; [done|]. lia. }
  destruct (chunk_entry file is64 offset) as [v|] eqn:Ev; [|done]. cbn [mbind option_bind].
  destruct (size <=? v); [done|].
  destruct (read_chunks file n _ _ _) as [l'|] eqn:El; [|done]. intros [= <-].
  destruct (IH _ _ El) as [Hl Hi]. split; [cbn; lia|]. intros [|i] Hlt.
  - cbn [lookup list_lookup]. replace (offset + Z.of_nat 0 * stride is64) with offset by lia. done.
  - cbn [lookup list_lookup]. rewrite Hi by lia. f_equal. lia.
Qed.
(** ** Numbers read from bytes *)
Lemma fread_all_bytes offset n b : Forall is_byte file -> fread_all file offset n = Some b -> Forall is_byte b.
Proof.
  intros Hf. unfold fread_all, at_least. destruct (_ =? _)%nat; [|done]. intros [= <-].
  by apply Forall_take, Forall_drop.
Qed.
Lemma fread_all_value offset n : 
  0 <= offset -> offset + Z.of_nat n <= Z.of_nat (length file) ->
  fread_all file offset n = Some (take n (drop (Z.to_nat offset) file)).
Proof.
  intros Ho Hl. unfold fread_all, at_least, fread. rewrite length_take, length_drop.
  by rewrite (proj2 (Nat.eqb_eq _ _)) by lia.
Qed.
Lemma read_u32be_file_range offset v : Forall is_byte file -> read_u32be_file file offset = Some v -> in_u32 v.
Proof.
  intros Hf. unfold read_u32be_file. destruct (fread_all file offset 4) as [b|] eqn:E; [|done].
  apply audio_read_u32be_range. by eapply fread_all_bytes.
Qed.
Lemma fold_bytes_from_nonneg l v :
  Forall is_byte l -> 0 <= v -> 0 <= fold_left (fun v b => Z.lor (u64 (Z.shiftl v 8)) b) l v.
Proof.
  intros Hl. revert v. induction Hl as [|b l Hb _ IH]; intros v Hv; cbn [fold_left]; [done|]. apply IH.
  apply Z.lor_nonneg. split; [apply Z.mod_pos_bound; lia|unfold is_byte in Hb; lia].
Qed.
Lemma chunk_entry_nonneg is64 offset v : Forall is_byte file -> chunk_entry file is64 offset = Some v -> 0 <= v.
Proof.
  intros Hf. unfold chunk_entry. destruct is64.
  - destruct (fread_all file offset 8) as [b|] eqn:E; [|done]. cbn [mbind option_bind]. unfold audio_read_u64be.
    destruct (8 <=? length b)%nat; [|done]. intros [= <-].
    apply fold_bytes_from_nonneg; [|lia]. apply Forall_take. by eapply fread_all_bytes.
  - intros H. apply read_u32be_file_range in H; [|done]. unfold in_u32 in H. lia.
Qed.
Lemma read_stsc_runs n offset prev l :
  Forall is_byte file -> read_stsc file n offset prev = Some l -> runs_from prev l /\ length l = n.
Proof.
  intros Hf. revert offset prev l. induction n as [|n IH]; intros offset prev l; cbn [read_stsc]; [intros [= <-]; by split|].
  destruct (fread_all file offset 12) as [buf|] eqn:Eb; [|done]. cbn [mbind option_bind].
  pose proof (fread_all_bytes _ _ _ Hf Eb) as Hb.
  destruct (audio_read_u32be buf) as [first|] eqn:E1; [|done]. cbn [mbind option_bind].
  destruct (audio_read_u32be (drop 4 buf)) as [spc|] eqn:E2; [|done]. cbn [mbind option_bind].
  apply audio_read_u32be_range in E1; [|done]. apply audio_read_u32be_range in E2; [|by apply Forall_drop].
  unfold in_u32 in *.
  destruct (Z.eqb_spec first 0); [done|]. destruct (Z.eqb_spec spc 0); [done|].
  destruct (Z.leb_spec first prev); [done|]. cbn [orb].
  destruct (read_stsc file n _ first) as [rest|] eqn:Er; [|done]. intros [= <-].
  destruct (IH _ _ _ Er) as [H1 H2]. cbn. split; [split; [lia|split; [lia|done]]|lia].
Qed.
Lemma runs_last_nonneg lo l : runs_from lo l -> 0 <= last_spc l.
Proof.
  unfold last_spc. revert lo. induction l as [|e l IH]; intros lo; [done|]. intros (_ & H & Hr).
  destruct l as [|e' l]; [cbn; lia|]. rewrite list.last_cons_cons. by eapply IH.
Qed.

(** ** What opening establishes *)

(** The sizes in memory are those of the file. *)
Definition sizes_ok (d : mp4_demux) : Prop :=
  exists l, sample_sizes d = Some l /\ length l = Z.to_nat (sample_count d) /\
    forall i, (i < Z.to_nat (sample_count d))%nat ->
      l !! i = if negb (uniform_size d =? 0) then Some (uniform_size d)
               else read_u32be_file file (stsz_table_offset d + Z.of_nat i * 4).

(** The expanded tables of a demuxer, for a file of at most 65536 samples. *)
Record tables_ok (d : mp4_demux) : Prop := {
  tables_file : file_size d = Z.of_nat (length file);
  tables_count : 0 < sample_count d <= MP4_EXPAND_MAX_SAMPLES;
  tables_chunks : 0 < chunk_count d <= sample_count d;
  tables_runs : runs_from 0 (stsc d);
  tables_sizes : sizes_ok d;
  tables_uniform : in_u32 (uniform_size d);
  tables_offsets : exists offs l,
    read_chunks file (Z.to_nat (chunk_count d)) (stco_is64 d) (stco_table_offset d) (file_size d) = Some offs /\
    sample_offsets d = Some l /\ expand_chunks file d offs 1 0 = Some l /\
    Z.of_nat (length l) = sample_count d }.

Lemma expand_chunk_ext d d' todo index offset :
  (forall i, size_at d i = size_at d' i) -> file_size d = file_size d' ->
  expand_chunk file d todo index offset = expand_chunk file d' todo index offset.
Proof.
  intros Hs Hf. revert index offset. induction todo as [|todo IH]; intros index offset; [done|].
  cbn [expand_chunk]. rewrite Hs, Hf. destruct (size_at d' index); [|done]. cbn [mbind option_bind]. by rewrite IH.
Qed.
Lemma expand_chunks_ext d d' offs chunk index :
  (forall i, size_at d i = size_at d' i) -> file_size d = file_size d' -> sample_count d = sample_count d' ->
  stsc d = stsc d' -> expand_chunks file d offs chunk index = expand_chunks file d' offs chunk index.
Proof.
  intros Hs Hf Hc Hr. revert chunk index. induction offs as [|o offs IH]; intros chunk index; [done|].
  cbn [expand_chunks]. rewrite Hc, Hr, (expand_chunk_ext d d' _ _ _ Hs Hf). destruct (_ <=? _); [done|].
  destruct (expand_chunk _ _ _ _ _); [|done]. cbn [mbind option_bind]. by rewrite IH.
Qed.

Lemma parse_stts_count d stbl d' : parse_stts LONG_MAX file d stbl = Some d' -> sample_count d' = sample_count d.
Proof.
  unfold parse_stts. destruct (child_of _ _ stbl _) as [b|]; [|done]. cbn [mbind option_bind].
  destruct (negb _); [done|]. destruct (count_at file b) as [n|]; [|done]. cbn [mbind option_bind].
  destruct (n =? 0); [done|]. destruct (negb _); [done|].
  destruct (stts_loop file _ _ _ _ _ _) as [[[total timed] fps]|]; [|done]. cbn [mbind option_bind].
  destruct (_ && _ && _); [|done]. by intros [= <-].
Qed.
Lemma parse_sample_offsets_count d stbl d' :
  parse_sample_offsets LONG_MAX alloc file d stbl = Some d' -> sample_count d' = sample_count d.
Proof.
  unfold parse_sample_offsets. destruct (match child_of _ _ stbl (bs "stco") with Some _ => _ | None => _ end) as [[is64 b]|]; [|done].
  cbn [mbind option_bind]. destruct (child_of _ _ stbl (bs "stsc")) as [b'|]; [|done]. cbn [mbind option_bind].
  destruct (_ || _); [done|]. destruct (count_at file b) as [chunks|]; [|done]. cbn [mbind option_bind].
  destruct (_ || _); [done|]. destruct (negb _); [done|]. destruct (count_at file b') as [n|]; [|done]. cbn [mbind option_bind].
  destruct (_ || _); [done|]. destruct (negb _); [done|]. destruct (negb _); [done|].
  destruct (read_stsc file _ _ 0) as [runs|]; [|done]. cbn [mbind option_bind]. destruct (_ <? _).
  - destruct (chunk_offset_at file _ 0) as [c|]; [|done]. by intros [= <-].
  - destruct (negb _); [done|]. destruct (read_chunks file _ _ _ _) as [offs|]; [|done]. cbn [mbind option_bind].
    destruct (negb _); [done|]. destruct (expand_chunks file _ offs 1 0) as [l|]; [|done]. cbn [mbind option_bind].
    destruct (_ =? _); [|done]. by intros [= <-].
Qed.

(** The fields that opening fills in last do not matter to the tables. *)
Lemma parse_stts_tables d stbl d' :
  parse_stts LONG_MAX file d stbl = Some d' -> tables_ok d -> tables_ok d'.
Proof.
  unfold parse_stts. destruct (child_of _ _ stbl _) as [b|]; [|done]. cbn [mbind option_bind].
  destruct (negb _); [done|]. destruct (count_at file b) as [n|]; [|done]. cbn [mbind option_bind].
  destruct (n =? 0); [done|]. destruct (negb _); [done|].
  destruct (stts_loop file _ _ _ _ _ _) as [[[total timed] fps]|]; [|done]. cbn [mbind option_bind].
  destruct (_ && _ && _); [|done]. intros [= <-] [H1 H2 H3 H4 H5 H6 H7].
  split; cbn [file_size sample_count chunk_count stsc sample_sizes uniform_size stsz_table_offset sample_offsets
              stco_is64 stco_table_offset]; try done.
  destruct H7 as (offs & l & Ho & Hl & He & Hn). exists offs, l. split_and!; try done.
  rewrite <- He. apply expand_chunks_ext; done.
Qed.
Lemma parse_stsz_sizes stsz count uniform table sizes :
  Forall is_byte file -> parse_stsz alloc file stsz = Some (count, uniform, table, sizes) ->
  count <= MP4_EXPAND_MAX_SAMPLES ->
  0 < count /\ in_u32 uniform /\ exists l, sizes = Some l /\ length l = Z.to_nat count /\
    forall i, (i < Z.to_nat count)%nat ->
      l !! i = if negb (uniform =? 0) then Some uniform else read_u32be_file file (table + Z.of_nat i * 4).
Proof.
  intros Hf. unfold parse_stsz. destruct (negb _); [done|].
  destruct (fread_all file _ 12) as [hdr|] eqn:Eh; [|done]. cbn [mbind option_bind].
  pose proof (fread_all_bytes _ _ _ Hf Eh) as Hb.
  destruct (audio_read_u32be (drop 4 hdr)) as [u|] eqn:Eu; [|done]. cbn [mbind option_bind].
  destruct (audio_read_u32be (drop 8 hdr)) as [c|] eqn:Ec; [|done]. cbn [mbind option_bind].
  apply audio_read_u32be_range in Eu; [|by apply Forall_drop]. apply audio_read_u32be_range in Ec; [|by apply Forall_drop].
  unfold in_u32 in Ec. destruct (Z.eqb_spec c 0); [done|]. destruct (_ && _); [done|].
  destruct (Z.ltb_spec MP4_EXPAND_MAX_SAMPLES c). { intros [= -> _ _ _] Hle. lia. }
  destruct (negb (alloc _)); [done|]. destruct (Z.eqb_spec u 0) as [->|Hu]; cbn [negb].
  - destruct (read_sizes file _ _) as [l|] eqn:El; [|done]. intros [= -> <- <- <-] _.
    destruct (read_sizes_spec _ _ _ El) as [Hl Hi]. split; [lia|]. split; [done|]. exists l. by split_and!.
  - intros [= -> -> <- <-] _. split; [lia|]. split; [done|]. eexists. split; [done|].
    split; [by rewrite repeat_length|]. intros i Hi. rewrite (proj2 (Z.eqb_neq _ _) Hu). cbn [negb].
    destruct (repeat uniform (Z.to_nat count) !! i) as [v|] eqn:E.
    + f_equal. eapply repeat_spec. apply list_elem_of_In. by eapply list_elem_of_lookup_2.
    + apply lookup_ge_None in E. rewrite repeat_length in E. lia.
Qed.
Lemma parse_sample_offsets_tables d stbl d' :
  Forall is_byte file -> parse_sample_offsets LONG_MAX alloc file d stbl = Some d' ->
  file_size d = Z.of_nat (length file) -> 0 < sample_count d <= MP4_EXPAND_MAX_SAMPLES -> in_u32 (uniform_size d) -> sizes_ok d ->
  tables_ok d'.
Proof.
  intros Hf H Hfs Hc Hu Hs. revert H. unfold parse_sample_offsets.
  destruct (match child_of _ _ stbl (bs "stco") with Some _ => _ | None => _ end) as [[is64 stco_box]|]; [|done].
  cbn [mbind option_bind]. destruct (child_of _ _ stbl (bs "stsc")) as [stsc_box|]; [|done]. cbn [mbind option_bind].
  destruct (_ || _); [done|]. destruct (count_at file stco_box) as [chunks|] eqn:Ech; [|done]. cbn [mbind option_bind].
  assert (in_u32 chunks) as Hchunks.
  { revert Ech. unfold count_at. destruct (fread_all file _ 8) as [b|] eqn:Eb; [|done]. cbn [mbind option_bind].
    apply audio_read_u32be_range, Forall_drop. by eapply fread_all_bytes. }
  unfold in_u32 in Hchunks.
  destruct (Z.eqb_spec chunks 0); [done|]. destruct (Z.ltb_spec (sample_count d) chunks); [done|]. cbn [orb].
  destruct (negb _); [done|]. destruct (count_at file stsc_box) as [entries|]; [|done]. cbn [mbind option_bind].
  destruct (_ || _); [done|]. destruct (negb _); [done|]. destruct (negb _); [done|].
  destruct (read_stsc file _ _ 0) as [runs|] eqn:Er; [|done]. cbn [mbind option_bind sample_count with_tables].
  apply read_stsc_runs in Er as [Hr _]; [|done].
  rewrite (proj2 (Z.ltb_ge MP4_EXPAND_MAX_SAMPLES _)) by lia. destruct (negb _); [done|]. cbn [file_size].
  destruct (read_chunks file _ _ _ _) as [offs|] eqn:Eo; [|done]. cbn [mbind option_bind]. destruct (negb _); [done|].
  destruct (expand_chunks file _ offs 1 0) as [l|] eqn:El; [|done]. cbn [mbind option_bind].
  destruct (Z.eqb_spec (Z.of_nat (length l)) (sample_count d)); [|done]. intros [= <-].
  split; cbn [file_size sample_count chunk_count stsc sample_sizes uniform_size stsz_table_offset sample_offsets
              stco_is64 stco_table_offset with_tables]; try done; [lia|].
  exists offs, l. split; [done|]. split; [done|]. split; [|done]. rewrite <- El. by apply expand_chunks_ext.
Qed.

Lemma mp4_demux_open_tables fuel d :
  Forall is_byte file -> mp4_demux_open LONG_MAX alloc file fuel = Some (Some d) ->
  sample_count d <= MP4_EXPAND_MAX_SAMPLES -> tables_ok d.
Proof.
  intros Hf. unfold mp4_demux_open.
  destruct (find_stbl LONG_MAX file) as [stbl|]; [|done]. cbn [mbind option_bind].
  destruct (child_of _ _ stbl (bs "stsd")) as [stsd|]; [|done]. cbn [mbind option_bind].
  destruct (child_of _ _ stbl (bs "stsz")) as [stsz|]; [|done]. cbn [mbind option_bind].
  destruct (negb _); [done|]. destruct (parse_stsd alloc file fuel stsd) as [description|]; [|done]. cbn [mbind option_bind].
  intros [= H]. revert H. destruct description as [[fourcc config]|]; [|done]. cbn [mbind option_bind].
  destruct (parse_stsz alloc file stsz) as [[[[count uniform] table] sizes]|] eqn:Ez; [|done]. cbn [mbind option_bind].
  destruct (parse_sample_offsets _ _ _ _ _) as [d1|] eqn:Eo; [|done]. cbn [mbind option_bind]. intros Ht Hc.
  assert (sample_count d1 = count /\ sample_count d = sample_count d1) as [Hc1 Hc2].
  { split; [by eapply parse_sample_offsets_count in Eo|by eapply parse_stts_count]. }
  destruct (parse_stsz_sizes _ _ _ _ _ Hf Ez) as (H1 & H2 & H3); [lia|].
  eapply parse_stts_tables; [done|]. eapply parse_sample_offsets_tables; [done|done|done| |done|done].
  cbn [sample_count]. lia.
Qed.
End Expand.
