(* ===== verification/Mp4Samples.v ===== *)
(** The samples of an opened MP4 file: where they are, in both forms of the
    tables, what reading them gives, and two flaws on crafted files. *)
From S2P Require Import Prelude Endian AudioHelpers Ogg Mp4 Mp4Proofs.
Local Open Scope Z_scope.

(** The same demuxer without the tables in memory, as for a longer file. *)
Definition compact (d : mp4_demux) (index offset : Z) : mp4_demux :=
  {| file_size := file_size d; codec_fourcc := codec_fourcc d; codec_config := codec_config d;
     sample_count := sample_count d; uniform_size := uniform_size d; stsz_table_offset := stsz_table_offset d;
     sample_sizes := None; chunk_count := chunk_count d; stco_is64 := stco_is64 d;
     stco_table_offset := stco_table_offset d; stsc := stsc d; sample_offsets := None;
     cursor_index := index; cursor_offset := offset;
     frames_per_sample := frames_per_sample d; total_pcm_frames := total_pcm_frames d |}.

Section Samples.
Context (LONG_MAX : Z) (alloc : Z -> bool) (file : list Z).

Lemma compact_size d index offset i :
  tables_ok file d -> 0 <= i -> sample_size_at file (compact d index offset) i = sample_size_at file d i.
Proof.
  intros H Hi. unfold sample_size_at, compact. cbn [sample_count sample_sizes uniform_size stsz_table_offset].
  destruct (Z.leb_spec (sample_count d) i); [done|].
  destruct (tables_sizes _ _ H) as (l & -> & _ & Hl). rewrite Hl, Z2Nat.id by lia. done.
Qed.
Lemma add_sizes_ext d d' todo sample off :
  (forall i, 0 <= i -> sample_size_at file d i = sample_size_at file d' i) -> 0 <= sample ->
  add_sizes file d todo sample off = add_sizes file d' todo sample off.
Proof.
  intros Hs. revert sample off. induction todo as [|todo IH]; intros sample off Hi; [done|]. cbn [add_sizes].
  rewrite Hs by done. destruct (sample_size_at file d' sample); [|done]. cbn [mbind option_bind]. apply IH. lia.
Qed.

(** Every sample has an entry, and where it is. *)
Lemma tables_located d i :
  tables_ok file d -> 0 <= i < sample_count d ->
  exists l offs off, sample_offsets d = Some l /\ l !! Z.to_nat i = Some off /\
    length offs = Z.to_nat (chunk_count d) /\
    (forall j, (j < length offs)%nat -> offs !! j = chunk_entry file (stco_is64 d) (stco_table_offset d + Z.of_nat j * stride (stco_is64 d))) /\
    entry_located file d offs i off.
Proof.
  intros H Hi. destruct (tables_offsets _ _ H) as (offs & l & Ho & Hl & He & Hn).
  destruct (read_chunks_spec _ _ _ _ _ _ Ho) as [Hlen Hoffs].
  edestruct (expand_chunks_spec file d offs offs 1 0 l) with (i := Z.to_nat i) as (off & H1 & H2); try done.
  - eapply runs_last_nonneg, tables_runs, H.
  - apply (tables_runs _ _ H).
  - lia.
  - exists l, offs, off. rewrite Z.add_0_l, Z2Nat.id in H2 by lia. rewrite Hlen. by split_and!.
Qed.

Lemma add_sizes_nonneg d todo sample off off' :
  0 <= off -> add_sizes file d todo sample off = Some off' -> 0 <= off'.
Proof.
  revert sample off. induction todo as [|todo IH]; intros sample off H; cbn [add_sizes]; [by intros [= <-]|].
  destruct (sample_size_at file d sample) as [sz|]; [|done]. cbn [mbind option_bind]. apply IH.
  apply Z.mod_pos_bound. lia.
Qed.
Lemma tables_size_nonneg d i sz :
  Forall is_byte file -> tables_ok file d -> 0 <= i -> sample_size_at file d i = Some sz -> 0 <= sz.
Proof.
  intros Hf H Hi. rewrite <- (compact_size _ 0 0) by done. unfold sample_size_at, compact.
  cbn [sample_count sample_sizes uniform_size stsz_table_offset].
  destruct (sample_count d <=? i); [done|]. destruct (uniform_size d =? 0); cbn [negb].
  - intros Hr. apply read_u32be_file_range in Hr; [|done]. unfold in_u32 in Hr. lia.
  - intros [= <-]. pose proof (tables_uniform _ _ H) as Hu. unfold in_u32 in Hu. lia.
Qed.

(** C37. For a file with few enough samples for both forms, whose first run starts
    at chunk 1: looking up a sample away from the cursor through the chunk
    tables gives the offset the expanded table has. *)
Theorem mp4_compact_agrees fuel d e rest i index offset :
  Forall is_byte file -> mp4_demux_open LONG_MAX alloc file fuel = Some (Some d) ->
  sample_count d <= MP4_EXPAND_MAX_SAMPLES -> stsc d = e :: rest -> first_chunk e = 1 ->
  0 <= i < sample_count d -> i <> index -> i <> u32 (index + 1) ->
  exists off, sample_offset_at file d i = Some (off, d) /\
    sample_offset_at file (compact d index offset) i = Some (off, with_cursor (compact d index offset) i off).
Proof.
  intros Hf Ho Hc Hr He Hi Hn Hn1. apply mp4_demux_open_tables in Ho; [|done..].
  destruct (tables_located d i Ho Hi) as (l & offs & off & Hl & Hoff & Hlen & Hoffs & Hloc).
  exists off. destruct Hloc as (c & k & base & sz & Hck & Hc1 & Hbase & Hadd & _).
  pose proof (tables_chunks _ _ Ho) as Hch. unfold MP4_EXPAND_MAX_SAMPLES in Hc. split.
  { unfold sample_offset_at. rewrite (proj2 (Z.leb_gt _ _)), Hl by lia. by rewrite Hoff. }
  unfold sample_offset_at. cbn [sample_count sample_offsets compact cursor_index cursor_offset stsc chunk_count].
  rewrite (proj2 (Z.leb_gt _ _)) by lia. rewrite (proj2 (Z.eqb_neq _ _) Hn), (proj2 (Z.eqb_neq _ _) Hn1).
  pose proof (tables_runs _ _ Ho) as Hruns.
  rewrite (stsc_walk_located (stsc d) (last_spc (stsc d)) (runs_last_nonneg _ _ Hruns) (stsc d) (chunk_count d) i i c k); [|..|done]; [|..|lia|lia].
  2: { rewrite Hr in Hruns |- *. destruct Hruns as (_ & H2 & H3). rewrite He in *. split_and!; try done; lia. }
  cbn [mbind option_bind]. rewrite (proj2 (Z.eqb_neq c 0)) by lia. unfold chunk_offset_at.
  cbn [compact chunk_count stco_is64 stco_table_offset]. rewrite (proj2 (Z.leb_gt (chunk_count d) (c - 1))) by lia.
  replace (c - 1) with (Z.of_nat (Z.to_nat (c - 1))) by lia. rewrite <- Hoffs by lia.
  rewrite Hbase. cbn [mbind option_bind]. destruct Hck as [Hk Hik].
  rewrite (add_sizes_ext _ d), Hadd; [done|by intros; apply compact_size|].
  assert (0 <= before (stsc d) (last_spc (stsc d)) (Z.to_nat (c - 1))); [|lia].
  generalize (Z.to_nat (c - 1)). intros n. induction n as [|n IH]; cbn [before]; [lia|].
  pose proof (spc_of_nonneg (last_spc (stsc d)) (runs_last_nonneg _ _ Hruns) _ _ (Z.of_nat n + 1) Hruns). lia.
Qed.

(** C8. For an opened file with few enough samples to be expanded: every sample lies
    in the file and, wherever the cursor is, reading it gives exactly its bytes
    when the buffer can hold them, and nothing when it cannot. *)
Theorem mp4_samples_inside fuel d index offset i buf_size :
  Forall is_byte file -> Z.of_nat (length file) <= LONG_MAX ->
  mp4_demux_open LONG_MAX alloc file fuel = Some (Some d) -> sample_count d <= MP4_EXPAND_MAX_SAMPLES ->
  0 <= i < sample_count d ->
  exists off sz, sample_size_at file d i = Some sz /\ sample_offset_at file d i = Some (off, d) /\
    0 <= off /\ 0 <= sz /\ off + sz <= Z.of_nat (length file) /\
    mp4_demux_read_sample LONG_MAX file (with_cursor d index offset) i buf_size =
      if buf_size <? sz then (None, with_cursor d index offset)
      else (Some (take (Z.to_nat sz) (drop (Z.to_nat off) file)),
            with_cursor (with_cursor d index offset) (u32 (i + 1)) (u64 (off + sz))).
Proof.
  intros Hf HL Ho Hc Hi. apply mp4_demux_open_tables in Ho; [|done..].
  destruct (tables_located d i Ho Hi) as (l & offs & off & Hl & Hoff & Hlen & Hoffs & Hloc).
  destruct Hloc as (c & k & base & sz & Hck & Hc1 & Hbase & Hadd & Hsz & Hoff1 & Hoff2).
  pose proof (tables_size_nonneg _ _ _ Hf Ho (proj1 Hi) Hsz) as Hsz0.
  rewrite (tables_file _ _ Ho) in Hoff1, Hoff2.
  assert (0 <= base) as Hbase0.
  { rewrite Hoffs in Hbase by lia. by eapply chunk_entry_nonneg. }
  pose proof (add_sizes_nonneg _ _ _ _ _ Hbase0 Hadd) as Hoff0.
  exists off, sz. split; [done|]. split.
  { unfold sample_offset_at. rewrite (proj2 (Z.leb_gt _ _)), Hl by lia. by rewrite Hoff. }
  split; [done|]. split; [done|]. split; [lia|]. unfold mp4_demux_read_sample.
  change (sample_size_at file (with_cursor d index offset) i) with (sample_size_at file d i). rewrite Hsz.
  unfold sample_offset_at. change (sample_count (with_cursor d index offset)) with (sample_count d).
  change (sample_offsets (with_cursor d index offset)) with (sample_offsets d).
  rewrite (proj2 (Z.leb_gt (sample_count d) i)), Hl by lia. rewrite Hoff. cbn [mbind option_bind].
  change (file_size (with_cursor d index offset)) with (file_size d).
  rewrite (tables_file _ _ Ho). destruct (Z.ltb_spec buf_size sz); cbn [orb]; [done|].
  rewrite (proj2 (Z.ltb_ge (Z.of_nat (length file)) off)), (proj2 (Z.ltb_ge _ sz)), (proj2 (Z.ltb_ge LONG_MAX off)) by lia.
  cbn [orb]. by rewrite fread_all_value by lia.
Qed.
End Samples.

(** ** Concrete files *)
Definition be32 (v : Z) : list Z := map (fun s => Z.land (Z.shiftr v s) 255) [24; 16; 8; 0].
Definition box (type : String.string) (payload : list Z) : list Z := be32 (8 + Z.of_nat (length payload)) ++ bs type ++ payload.
(** A full box with a table: version and flags, the entry count, the entries. *)
Definition table (type : String.string) (entries : list (list Z)) : list Z :=
  box type (be32 0 ++ be32 (Z.of_nat (length entries)) ++ concat entries).
(** A file with one "alac" track, its sizes, chunk offsets, chunk runs and times. *)
Definition mini (mdat : list Z) (stsz : list Z) (stco : list Z) (runs times : list (Z * Z)) : list Z :=
  box "mdat" mdat ++
  box "moov" (box "trak" (box "mdia" (
    box "hdlr" (be32 0 ++ be32 0 ++ bs "soun") ++
    box "minf" (box "stbl" (
      box "stsd" (be32 0 ++ be32 1 ++ be32 40 ++ bs "alac" ++ repeat 0 28 ++ bs "conf") ++
      box "stsz" stsz ++ table "stco" (map be32 stco) ++
      table "stsc" (map (fun '(f, n) => be32 f ++ be32 n ++ be32 1) runs) ++
      table "stts" (map (fun '(n, t) => be32 n ++ be32 t) times)))))).
Definition some_sizes (sizes : list Z) : list Z := be32 0 ++ be32 0 ++ be32 (Z.of_nat (length sizes)) ++ flat_map be32 sizes.

(** Three samples in two chunks, which are not next to each other. *)
Definition short_file : list Z := mini (bs "aaabb--cccc") (some_sizes [3; 2; 4]) [8; 15] [(1, 2); (2, 1)] [(3, 1024)].
Definition LONG32 : Z := 2147483647.
Definition open_of (file : list Z) : mp4_demux :=
  match mp4_demux_open LONG32 (fun _ => true) file 10 with
  | Some (Some d) => d
  | _ => {| file_size := 0; codec_fourcc := []; codec_config := []; sample_count := 0; uniform_size := 0;
            stsz_table_offset := 0; sample_sizes := None; chunk_count := 0; stco_is64 := false;
            stco_table_offset := 0; stsc := []; sample_offsets := None; cursor_index := 0; cursor_offset := 0;
            frames_per_sample := 0; total_pcm_frames := 0 |}
  end.
Example short_file_opens :
  (sample_count (open_of short_file), sample_offsets (open_of short_file), total_pcm_frames (open_of short_file)) =
  (3, Some [8; 11; 15], 3072).
Proof. vm_compute. reflexivity. Qed.

Lemma mp4_samples_inside_witness :
  exists off sz, off + sz <= Z.of_nat (length short_file) /\
    mp4_demux_read_sample LONG32 short_file (with_cursor (open_of short_file) 7 0) 1 100 =
      if 100 <? sz then (None, with_cursor (open_of short_file) 7 0)
      else (Some (take (Z.to_nat sz) (drop (Z.to_nat off) short_file)),
            with_cursor (with_cursor (open_of short_file) 7 0) (u32 (1 + 1)) (u64 (off + sz))).
Proof.
  destruct (mp4_samples_inside LONG32 (fun _ => true) short_file 10 (open_of short_file) 7 0 1 100)
    as (off & sz & _ & _ & _ & _ & H1 & H2); [..|exists off, sz; exact (conj H1 H2)].
  - apply (bool_decide_unpack _). vm_compute. exact I.
  - vm_compute. discriminate.
  - vm_compute. reflexivity.
  - vm_compute. discriminate.
  - vm_compute. split; [discriminate|reflexivity].
Defined.
Lemma mp4_compact_agrees_witness :
  exists off, sample_offset_at short_file (open_of short_file) 2 = Some (off, open_of short_file) /\
    sample_offset_at short_file (compact (open_of short_file) 0 8) 2 =
      Some (off, with_cursor (compact (open_of short_file) 0 8) 2 off).
Proof.
  apply (mp4_compact_agrees LONG32 (fun _ => true) short_file 10 (open_of short_file)
           {| first_chunk := 1; samples_per_chunk := 2 |} [{| first_chunk := 2; samples_per_chunk := 1 |}] 2 0 8).
  - apply (bool_decide_unpack _). vm_compute. exact I.
  - vm_compute. reflexivity.
  - vm_compute. discriminate.
  - vm_compute. reflexivity.
  - reflexivity.
  - vm_compute. split; [discriminate|reflexivity].
  - discriminate.
  - vm_compute. discriminate.
Defined.

(** ** Flaws on crafted files *)

(** A file of 65537 one-byte samples: sample 0 in the first chunk, at offset 8,
    the others in the second, at offset 11. *)
Definition long_file : list Z :=
  mini (bs "a--bcd") (be32 0 ++ be32 1 ++ be32 65537) [8; 11] [(1, 1); (2, 65536)] [(65537, 1024)].

(** What reading samples one after another gives. *)
Fixpoint read_all (file : list Z) (d : mp4_demux) (samples : list Z) : list (option (list Z)) :=
  match samples with
  | [] => []
  | i :: samples => let '(r, d) := mp4_demux_read_sample LONG32 file d i 100 in r :: read_all file d samples
  end.
(** Read in order, sample 1 comes from the bytes after sample 0; read after a
    seek, it comes from the second chunk. *)
Lemma mp4_sequential_crosses_chunks :
  read_all long_file (open_of long_file) [0; 1] = [Some (bs "a"); Some (bs "-")] /\
  read_all long_file (open_of long_file) [0; 3; 1] = [Some (bs "a"); Some (bs "d"); Some (bs "b")].
Proof. vm_compute. by split. Qed.

(** Boxes at 0 and 16 of an "mp4a" entry, and one at 32 whose size sends the
    position back to 16. *)
Definition looping_region : list Z :=
  be32 16 ++ bs "free" ++ repeat 0 8 ++ be32 16 ++ bs "free" ++ repeat 0 8 ++ be32 4294967280 ++ bs "free".
Lemma mp4_config_loops alloc fuel : config_loop alloc fuel looping_region 0 = None.
Proof.
  assert (forall n, config_loop alloc n looping_region 16 = None /\ config_loop alloc n looping_region 32 = None) as H.
  { intros n. induction n as [|n [IH1 IH2]]; [done|]. split; cbn [config_loop].
    - change (config_loop alloc n looping_region (u32 (16 + 16)) = None). exact IH2.
    - change (config_loop alloc n looping_region (u32 (32 + 4294967280)) = None). exact IH1. }
  destruct fuel as [|fuel]; [done|]. cbn [config_loop].
  change (config_loop alloc fuel looping_region (u32 (0 + 16)) = None). apply H.
Qed.
