(* ===== verification/Memory.v ===== *)
(** The memory of the player is little-endian: how the integers and structs the
    library writes to its files with one [write] lie in them. *)
From S2P Require Import Prelude.
Local Open Scope Z_scope.

(** [n] bytes of [v], and the value of bytes. *)
Fixpoint le_bytes (n : nat) (v : Z) : list Z :=
  match n with O => [] | S n => v mod 256 :: le_bytes n (v / 256) end.
Fixpoint le_value (l : list Z) : Z :=
  match l with [] => 0 | b :: l => b + 256 * le_value l end.

Lemma length_le_bytes n v : length (le_bytes n v) = n.
Proof. revert v. induction n as [|n IH]; intros v; cbn; [done|by rewrite IH]. Qed.
Lemma le_bytes_bytes n v : Forall is_byte (le_bytes n v).
Proof.
  revert v. induction n as [|n IH]; intros v; cbn [le_bytes]; constructor; [|done].
  unfold is_byte. apply Z.mod_pos_bound. lia.
Qed.
#[export] Hint Resolve le_bytes_bytes : core.

Lemma le_value_bytes n v : 0 <= v < 256 ^ Z.of_nat n -> le_value (le_bytes n v) = v.
Proof.
  revert v. induction n as [|n IH]; intros v Hv; cbn [le_bytes le_value]; [cbn in Hv; lia|].
  rewrite Nat2Z.inj_succ, Z.pow_succ_r in Hv by lia. rewrite IH by div_lia. div_lia.
Qed.
Lemma le_value_range l : Forall is_byte l -> 0 <= le_value l < 256 ^ Z.of_nat (length l).
Proof.
  induction 1 as [|b l Hb _ IH]; cbn [le_value length]; [lia|].
  rewrite Nat2Z.inj_succ, Z.pow_succ_r by lia. unfold is_byte in Hb. lia.
Qed.

(** The unsigned field of [n] bytes at [off] of a struct. *)
Definition field (n off : nat) (b : list Z) : Z := le_value (take n (drop off b)).

Lemma field_app_skip n k x l : k = length x -> field n k (x ++ l) = field n 0 l.
Proof. intros ->. unfold field. by rewrite drop_app_length. Qed.
Lemma field_skip n k off x l : length x = k -> field n (k + off) (x ++ l) = field n off l.
Proof. intros <-. unfold field. by rewrite <- drop_drop, drop_app_length. Qed.
Lemma field_here n v l : 0 <= v < 256 ^ Z.of_nat n -> field n 0 (le_bytes n v ++ l) = v.
Proof.
  intros Hv. unfold field. rewrite drop_0. rewrite <- (length_le_bytes n v) at 1.
  by rewrite take_app_length, le_value_bytes.
Qed.

(** ** Records in a file *)

(** A read of [n] bytes at [off], all or nothing. *)
Definition read_at (file : list Z) (n : nat) (off : Z) : option (list Z) :=
  let data := take n (drop (Z.to_nat off) file) in
  if (length data =? n)%nat then Some data else None.

Lemma read_at_app pre data post off :
  off = Z.of_nat (length pre) -> read_at (pre ++ data ++ post) (length data) off = Some data.
Proof.
  intros ->. unfold read_at. rewrite Nat2Z.id, drop_app_length, take_app_length. by rewrite Nat.eqb_refl.
Qed.
Lemma read_at_length file n off data : read_at file n off = Some data -> length data = n.
Proof. unfold read_at. destruct (Nat.eqb_spec (length (take n (drop (Z.to_nat off) file))) n); [|done]. by intros [= <-]. Qed.
Lemma read_at_bytes file n off data : Forall is_byte file -> read_at file n off = Some data -> Forall is_byte data.
Proof.
  intros Hf. unfold read_at. destruct (_ =? _)%nat; [|done]. intros [= <-]. by apply Forall_take, Forall_drop.
Qed.
Lemma read_at_inside file n off :
  0 <= off -> off + Z.of_nat n <= Z.of_nat (length file) ->
  read_at file n off = Some (take n (drop (Z.to_nat off) file)).
Proof.
  intros H0 H1. unfold read_at. rewrite length_take, length_drop. by rewrite (proj2 (Nat.eqb_eq _ _)) by lia.
Qed.

(** Records of [k] bytes, one after the other. *)
Fixpoint records (k count : nat) (b : list Z) : list (list Z) :=
  match count with O => [] | S count => take k b :: records k count (drop k b) end.
Lemma records_map {A} (f : A -> list Z) k (l : list A) b :
  (forall x, length (f x) = k) -> records k (length l) (concat (map f l) ++ b) = map f l.
Proof.
  intros Hf. induction l as [|x l IH]; cbn [concat map length records]; [done|].
  rewrite <- app_assoc, <- (Hf x), take_app_length, drop_app_length, (Hf x). by rewrite IH.
Qed.
Lemma records_seq k count b : map (fun i => take k (drop (i * k) b)) (seq 0 count) = records k count b.
Proof.
  revert b. induction count as [|count IH]; intros b; cbn [seq map records]; [done|]. rewrite Nat.mul_0_l, drop_0. f_equal.
  rewrite <- seq_shift, map_map, <- IH. apply map_ext. intros i. by rewrite Nat.mul_succ_l, Nat.add_comm, drop_drop.
Qed.
Lemma length_concat_records {A} (f : A -> list Z) k (l : list A) :
  (forall x, length (f x) = k) -> length (concat (map f l)) = (k * length l)%nat.
Proof. intros Hf. induction l as [|x l IH]; cbn; [lia|]. rewrite length_app, Hf, IH. lia. Qed.

(** Record [i] of a file of records. *)
Lemma read_at_record {A} (f : A -> list Z) k pre (l : list A) post (i : nat) x off :
  (forall x, length (f x) = k) -> l !! i = Some x -> off = Z.of_nat (length pre + k * i) ->
  read_at (pre ++ concat (map f l) ++ post) k off = Some (f x).
Proof.
  intros Hf Hi ->. rewrite <- (take_drop_middle l i x Hi), map_app, concat_app. cbn [map concat].
  rewrite <- !app_assoc, app_assoc. rewrite <- (Hf x). apply read_at_app.
  rewrite length_app, (length_concat_records f k), length_take by done.
  apply lookup_lt_Some in Hi. rewrite Hf, Nat.min_l by lia. lia.
Qed.
Lemma take_add_app {A} (x r : list A) k m : length x = k -> take (k + m) (x ++ r) = x ++ take m r.
Proof. intros <-. apply take_app_add. Qed.
Lemma drop_add_app {A} (x r : list A) k m : length x = k -> drop (k + m) (x ++ r) = drop m r.
Proof. intros <-. by rewrite <- drop_drop, drop_app_length. Qed.
Lemma take_concat_records {A} (f : A -> list Z) k (l : list A) i n :
  (forall x, length (f x) = k) ->
  take (k * n) (drop (k * i) (concat (map f l))) = concat (map f (take n (drop i l))).
Proof.
  intros Hf. revert i. induction l as [|x l IH]; intros i.
  { cbn [map concat]. by rewrite !drop_nil, !take_nil. }
  destruct i as [|i].
  - rewrite Nat.mul_0_r, !drop_0. clear IH. revert n. induction (x :: l) as [|y m IH]; intros [|n]; cbn [map concat take].
    + by rewrite take_nil.
    + by rewrite take_nil.
    + by rewrite Nat.mul_0_r.
    + rewrite Nat.mul_succ_r, Nat.add_comm, take_add_app by done. by rewrite IH.
  - cbn [map concat drop]. rewrite Nat.mul_succ_r, Nat.add_comm, drop_add_app by done. apply IH.
Qed.
