(* ===== verification/Stream.v ===== *)
(** A file open for reading: [fread] and [fseek] on a [FILE] whose contents do
    not change, with a [long] of some width. *)
From S2P Require Import Prelude Memory.
Local Open Scope Z_scope.

(** Where a [FILE] stands: its position and its end-of-file flag. *)
Record stream := { s_pos : Z; s_eof : bool }.

Section Stream.
(** The contents of the file, and the largest [long]. *)
Context (file : list Z) (LONG_MAX : Z).

(** The conversion of a [uint32_t] or [uint64_t] to [long]. *)
Definition to_long (z : Z) : Z := (z + LONG_MAX + 1) mod (2 * (LONG_MAX + 1)) - (LONG_MAX + 1).

(** What is left of the file, at most [n] bytes of it; the flag where it is less. *)
Definition fread (n : Z) (s : stream) : list Z * stream :=
  let got := take (Z.to_nat (Z.min n (Z.of_nat (length file)))) (drop (Z.to_nat (s_pos s)) file) in
  (got, {| s_pos := s_pos s + Z.of_nat (length got); s_eof := s_eof s || (Z.of_nat (length got) <? n) |}).
(** A seek to where a [long] does not reach fails and changes nothing. *)
Definition fseek_set (off : Z) (s : stream) : stream :=
  if (off <? 0) || (LONG_MAX <? off) then s else {| s_pos := off; s_eof := false |}.
Definition fseek_cur (off : Z) (s : stream) : stream := fseek_set (s_pos s + off) s.
End Stream.

(** ** Anywhere in a file *)
Section Positions.
Context {file : list Z} {LONG_MAX : Z} (Hfile : Forall is_byte file).
Abbreviation len := (Z.of_nat (length file)).
Lemma to_long_id z : 0 <= z <= LONG_MAX -> to_long LONG_MAX z = z.
Proof. intros Hz. unfold to_long. rewrite Z.mod_small by lia. lia. Qed.

Lemma fread_pos n s : s_pos s <= s_pos (snd (fread file n s)).
Proof. unfold fread. cbn. lia. Qed.
Lemma fread_length n s : 0 <= n -> Z.of_nat (length (fst (fread file n s))) <= n.
Proof. intros Hn. unfold fread. cbn. rewrite length_take. lia. Qed.
Lemma fread_is_bytes n s : Forall is_byte (fst (fread file n s)).
Proof. unfold fread. cbn. by apply Forall_take, Forall_drop. Qed.
(** A read past the end gets nothing and sets the flag. *)
Lemma fread_past n s : 0 < n -> len <= s_pos s -> fread file n s = ([], {| s_pos := s_pos s; s_eof := true |}).
Proof.
  intros Hn Hp. unfold fread. rewrite drop_ge, take_nil by lia. rewrite (proj2 (Z.ltb_lt (Z.of_nat (length (@nil Z))) n)), orb_true_r by (cbn; lia).
  by rewrite Z.add_0_r.
Qed.
Lemma fseek_set_nonneg off s : 0 <= s_pos s -> 0 <= s_pos (fseek_set LONG_MAX off s).
Proof. unfold fseek_set. destruct (Z.ltb_spec off 0), (Z.ltb_spec LONG_MAX off); cbn; lia. Qed.
Lemma fseek_cur_nonneg off s : 0 <= s_pos s -> 0 <= s_pos (fseek_cur LONG_MAX off s).
Proof. apply fseek_set_nonneg. Qed.
Lemma fread_nonneg n s : 0 <= s_pos s -> 0 <= s_pos (snd (fread file n s)).
Proof. pose proof (fread_pos n s). lia. Qed.

(** ** Bytes of the file *)
Definition holds (p : Z) (b : list Z) : Prop := 0 <= p /\ exists rest, drop (Z.to_nat p) file = b ++ rest.
Definition at_ (p : Z) : stream := {| s_pos := p; s_eof := false |}.

Lemma holds_app p a b : holds p (a ++ b) <-> holds p a /\ holds (p + Z.of_nat (length a)) b.
Proof.
  unfold holds. split.
  - intros [Hp [rest E]]. rewrite <- app_assoc in E. split; [split; [done|by eexists]|]. split; [lia|]. exists rest.
    rewrite Z2Nat.inj_add, Nat2Z.id, <- drop_drop, E, drop_app_length by lia. done.
  - intros [[Hp [rest E]] [_ [rest' E']]]. split; [done|]. exists rest'.
    rewrite Z2Nat.inj_add, Nat2Z.id, <- drop_drop, E, drop_app_length in E' by lia. by rewrite E, E', app_assoc.
Qed.
Lemma holds_end p b : holds p b -> b <> [] -> p + Z.of_nat (length b) <= Z.of_nat (length file).
Proof.
  intros [Hp [rest E]] Hb. apply (f_equal length) in E. rewrite length_app, length_drop in E. destruct b; [done|]. cbn [length] in *. lia.
Qed.
Lemma fread_here p n b : holds p b -> Z.of_nat (length b) = n -> fread file n (at_ p) = (b, at_ (p + n)).
Proof.
  intros [Hp [rest E]] <-. unfold fread, at_. cbn [s_pos s_eof].
  assert (length b <= length file)%nat by (apply (f_equal length) in E; rewrite length_app, length_drop in E; lia).
  rewrite Z.min_l, Nat2Z.id, E by lia. by rewrite take_app_length, Z.ltb_irrefl.
Qed.
Lemma fseek_set_at p s : 0 <= p <= LONG_MAX -> fseek_set LONG_MAX p s = at_ p.
Proof. intros Hp. unfold fseek_set. by rewrite (proj2 (Z.ltb_ge p 0)), (proj2 (Z.ltb_ge LONG_MAX p)) by lia. Qed.
Lemma fseek_cur_inside p n : 0 <= n -> 0 <= p -> p + n <= LONG_MAX -> fseek_cur LONG_MAX n (at_ p) = at_ (p + n).
Proof. intros Hn Hp H. unfold fseek_cur. apply fseek_set_at. cbn. lia. Qed.
End Positions.
Arguments holds : clear implicits.
