(* ===== verification/TagText.v ===== *)
(** Text of the tag cache: folding, comparing and searching names without regard
    to ASCII case, the prefixes its sorts compare first, its hash of paths, and
    splitting the artists of a tag; src/library/tagcache.c and
    src/library/tagcache_reader_index.h. *)
From S2P Require Import Prelude ScanIntern StableSort.
Local Open Scope Z_scope.

Definition TAGCACHE_TAG_MAX : Z := 128.
Definition TAGCACHE_ARTIST_SPLIT_MAX : nat := 8.

(** ** Operations *)
Definition fnv1a (s : list Z) : Z := fold_left (fun h c => u32 (Z.lxor h c * 16777619)) s 2166136261.

Definition ascii_fold (c : Z) : Z := if (65 <=? c) && (c <=? 90) then c + 32 else c.
(** Both strings end in a NUL, which differs from every character. *)
Fixpoint ascii_casecmp (a b : list Z) : Z :=
  match a, b with
  | [], [] => 0
  | [], y :: _ => 0 - ascii_fold y
  | x :: _, [] => ascii_fold x - 0
  | x :: a, y :: b => if ascii_fold x =? ascii_fold y then ascii_casecmp a b else ascii_fold x - ascii_fold y
  end.

Definition tagcache_sort_prefix (value : list Z) (width : nat) : option (list Z) :=
  if (width =? 0)%nat || (TAGCACHE_PATH_MAX <=? Z.of_nat (length value)) then None
  else Some (resize width 0 (map ascii_fold value)).
(** [memcmp] on equal lengths: the sign of the first difference. *)
Fixpoint memcmp (a b : list Z) : Z :=
  match a, b with
  | x :: a, y :: b => if x =? y then memcmp a b else Z.sgn (x - y)
  | _, _ => 0
  end.
Definition tagcache_sort_prefix_compare (a b : list Z) : Z * bool :=
  let c := memcmp a b in (c, (c =? 0) && forallb (fun x => negb (x =? 0)) a).

(** How far [p] and [n] agree: what is left of both. *)
Fixpoint match_prefix (p n : list Z) : list Z * list Z :=
  match p, n with
  | x :: p', y :: n' => if ascii_fold x =? ascii_fold y then match_prefix p' n' else (p, n)
  | _, _ => (p, n)
  end.
Fixpoint casestr_loop (h n : list Z) (i : nat) : option nat :=
  match h with
  | [] => None
  | _ :: t =>
      match match_prefix h n with
      | (_, []) => Some i
      | ([], _) => None
      | _ => casestr_loop t n (S i)
      end
  end.
(** The index of the first occurrence. *)
Definition ascii_casestr (hay needle : list Z) : option nat :=
  match needle with [] => Some 0%nat | _ => casestr_loop hay needle 0 end.

Definition is_delim (c : Z) : bool := (c =? 59) || (c =? 47).
Definition is_blank (c : Z) : bool := c <=? 32.
Definition trim_name (s : list Z) : list Z := drop_while is_blank (rev (drop_while is_blank (rev s))).
Fixpoint split_loop (fuel : nat) (p : list Z) (names : list (list Z)) : list (list Z) :=
  match fuel, p with
  | S fuel, _ :: _ =>
      if (TAGCACHE_ARTIST_SPLIT_MAX <=? length names)%nat then names else
      let p := drop_while is_delim p in
      let segment := take_while (fun c => negb (is_delim c)) p in
      let p := drop_while (fun c => negb (is_delim c)) p in
      let name := take (Z.to_nat (TAGCACHE_TAG_MAX - 1)) (trim_name segment) in
      match name with
      | [] => split_loop fuel p names
      | _ => if existsb (fun n => ascii_casecmp n name =? 0) names then split_loop fuel p names
             else split_loop fuel p (names ++ [name])
      end
  | _, _ => names
  end.
(** Every round takes at least a byte: the length bounds the rounds. *)
Definition split_artist (raw : list Z) : list (list Z) :=
  match split_loop (length raw) raw [] with
  | [] => [take (Z.to_nat (TAGCACHE_PATH_MAX - 1)) raw]
  | names => names
  end.
Definition tagcache_artist_matches (raw name : list Z) : bool :=
  existsb (fun n => ascii_casecmp n name =? 0) (split_artist raw).
Definition tagcache_artist_names (raw : list Z) (max_names : Z) : list (list Z) :=
  if (max_names <=? 0) then [] else
  match raw with
  | [] => []
  | _ => map (take (Z.to_nat (TAGCACHE_TAG_MAX - 1))) (take (Z.to_nat max_names) (split_artist raw))
  end.
(** [None] when there is no room for anything. *)
Definition tagcache_artist_primary (raw : list Z) (size : nat) : option (list Z) :=
  if (size =? 0)%nat then None else Some (snprintf_s size (default [] (head (split_artist raw)))).

(** ** Comparing *)
Definition fold_str (s : list Z) : list Z := map ascii_fold s.

Lemma ascii_fold_char c : is_char c -> is_char (ascii_fold c).
Proof. unfold ascii_fold, is_char. destruct (_ && _) eqn:E; bool_prop; lia. Qed.
Lemma ascii_fold_idem c : ascii_fold (ascii_fold c) = ascii_fold c.
Proof. unfold ascii_fold. split_ifs; try done; bool_prop; lia. Qed.
Lemma fold_str_chars s : Forall is_char s -> Forall is_char (fold_str s).
Proof. induction 1; constructor; auto using ascii_fold_char. Qed.
#[export] Hint Resolve fold_str_chars : core.

Lemma ascii_casecmp_eq a b : Forall is_char a -> Forall is_char b -> ascii_casecmp a b = 0 <-> fold_str a = fold_str b.
Proof.
  intros Ha. revert b. induction Ha as [|x a Hx _ IH]; intros b Hb; destruct Hb as [|y b Hy Hb]; cbn [ascii_casecmp fold_str map].
  - done.
  - apply ascii_fold_char in Hy. unfold is_char in Hy. split; [lia|done].
  - apply ascii_fold_char in Hx. unfold is_char in Hx. split; [lia|done].
  - destruct (Z.eqb_spec (ascii_fold x) (ascii_fold y)) as [E|E].
    + rewrite IH by done. unfold fold_str. rewrite E. split; [by intros ->|by intros [= ->]].
    + split; [lia|by intros [= ?]].
Qed.
Lemma ascii_casecmp_sym a b : ascii_casecmp a b = - ascii_casecmp b a.
Proof.
  revert b. induction a as [|x a IH]; intros [|y b]; cbn [ascii_casecmp]; try lia.
  destruct (Z.eqb_spec (ascii_fold x) (ascii_fold y)) as [->|E].
  - by rewrite Z.eqb_refl, IH.
  - rewrite (proj2 (Z.eqb_neq _ _)) by congruence. lia.
Qed.
Lemma ascii_casecmp_trans a b c :
  Forall is_char a -> Forall is_char b -> Forall is_char c ->
  ascii_casecmp a b <= 0 -> ascii_casecmp b c <= 0 -> ascii_casecmp a c <= 0.
Proof.
  intros Ha. revert b c. induction Ha as [|x a Hx _ IH]; intros b c Hb Hc;
    destruct Hb as [|y b Hy Hb], Hc as [|z c Hz Hc]; cbn [ascii_casecmp]; try lia;
    repeat match goal with H : is_char _ |- _ => apply ascii_fold_char in H; unfold is_char in H end; try lia.
  intros H1 H2. destruct (Z.eqb_spec (ascii_fold x) (ascii_fold y)), (Z.eqb_spec (ascii_fold y) (ascii_fold z)),
    (Z.eqb_spec (ascii_fold x) (ascii_fold z)); try lia. by apply (IH b c).
Qed.
Lemma ascii_casecmp_fold a b : ascii_casecmp (fold_str a) (fold_str b) = ascii_casecmp a b.
Proof.
  revert b. induction a as [|x a IH]; intros [|y b]; cbn [ascii_casecmp fold_str map]; rewrite ?ascii_fold_idem; try done.
  fold (fold_str a) (fold_str b). by rewrite IH.
Qed.

(** ** The prefixes of the sorts *)
Lemma memcmp_prefix w a b :
  Forall is_char a -> Forall is_char b ->
  (memcmp (resize w 0 (fold_str a)) (resize w 0 (fold_str b)) <> 0 ->
   Z.sgn (memcmp (resize w 0 (fold_str a)) (resize w 0 (fold_str b))) = Z.sgn (ascii_casecmp a b)) /\
  (memcmp (resize w 0 (fold_str a)) (resize w 0 (fold_str b)) = 0 ->
   0 ∈ resize w 0 (fold_str a) -> ascii_casecmp a b = 0).
Proof.
  intros Ha. revert b w. induction Ha as [|x a Hx _ IH]; intros b [|w] Hb; rewrite ?resize_0;
    try (split; [done|intros _ H; by apply not_elem_of_nil in H]).
  - destruct Hb as [|y b Hy Hb]; cbn [fold_str map].
    + rewrite !resize_nil. assert (memcmp (replicate (S w) 0) (replicate (S w) 0) = 0) as ->; [|done].
      induction (S w) as [|n IHn]; [done|]. cbn [replicate memcmp]. by rewrite Z.eqb_refl.
    + rewrite resize_nil. cbn [resize replicate memcmp ascii_casecmp]. apply ascii_fold_char in Hy. unfold is_char in Hy.
      rewrite (proj2 (Z.eqb_neq _ _)) by lia. split; [|lia]. intros _. by rewrite Z.sgn_sgn.
  - destruct Hb as [|y b Hy Hb]; cbn [fold_str map].
    + cbn [resize replicate memcmp ascii_casecmp]. apply ascii_fold_char in Hx. unfold is_char in Hx.
      rewrite (proj2 (Z.eqb_neq _ _)) by lia. split; [|lia]. intros _. by rewrite Z.sgn_sgn.
    + cbn [resize memcmp ascii_casecmp]. destruct (Z.eqb_spec (ascii_fold x) (ascii_fold y)) as [E|E].
      * destruct (IH b w Hb) as [H1 H2]. split; [done|]. intros H0. rewrite list.elem_of_cons. intros [E0|Hin]; [|by apply H2].
        apply ascii_fold_char in Hx. unfold is_char in Hx. lia.
      * split; [|lia]. intros _. by rewrite Z.sgn_sgn.
Qed.

(** C35. Sorting by the fixed-width prefixes first, and by the whole names only
    when the prefixes tie without ending, orders names as comparing them whole
    does. *)
Theorem tagcache_sort_prefix_sound w a b pa pb :
  Forall is_char a -> Forall is_char b ->
  tagcache_sort_prefix a w = Some pa -> tagcache_sort_prefix b w = Some pb ->
  let '(c, full_compare) := tagcache_sort_prefix_compare pa pb in
  Z.sgn (if (c =? 0) && full_compare then ascii_casecmp a b else c) = Z.sgn (ascii_casecmp a b).
Proof.
  intros Ha Hb. unfold tagcache_sort_prefix. destruct (_ || _); [done|]. intros [= <-].
  destruct (_ || _); [done|]. intros [= <-]. destruct (memcmp_prefix w a b Ha Hb) as [H1 H2]. fold (fold_str a) (fold_str b).
  unfold tagcache_sort_prefix_compare. destruct (Z.eqb_spec (memcmp (resize w 0 (fold_str a)) (resize w 0 (fold_str b))) 0) as [E|E];
    cbn [andb]; [|by apply H1].
  destruct (forallb _ _) eqn:Ef; [done|]. rewrite E, H2; [done|done|].
  apply not_true_iff_false in Ef. rewrite forallb_forall in Ef.
  destruct (decide (0 ∈ resize w 0 (fold_str a))) as [|Hn]; [done|]. destruct Ef. intros x Hx.
  apply negb_true_iff, Z.eqb_neq. intros ->. apply Hn. by apply list_elem_of_In.
Qed.

(** "Ab" and "aBc" with prefixes of two bytes: they tie, and the names decide. *)
Lemma tagcache_sort_prefix_sound_witness :
  tagcache_sort_prefix_compare [97; 98] [97; 98] = (0, true) /\
  Z.sgn (ascii_casecmp [65; 98] [97; 66; 99]) = -1 /\
  (let '(c, full_compare) := tagcache_sort_prefix_compare [97; 98] [97; 98] in
   Z.sgn (if (c =? 0) && full_compare then ascii_casecmp [65; 98] [97; 66; 99] else c) = Z.sgn (ascii_casecmp [65; 98] [97; 66; 99])).
Proof.
  split; [reflexivity|]. split; [reflexivity|].
  apply (tagcache_sort_prefix_sound 2 [65; 98] [97; 66; 99] [97; 98] [97; 98]); [repeat constructor; unfold is_char; lia|repeat constructor; unfold is_char; lia|reflexivity|reflexivity].
Defined.

(** ** Searching *)

(** [needle] is in [hay] at [i], up to case. *)
Definition occurs_at (i : nat) (hay needle : list Z) : Prop :=
  exists t, drop i (fold_str hay) = fold_str needle ++ t.
Definition occurs (hay needle : list Z) : Prop := exists i, occurs_at i hay needle.

Lemma match_prefix_spec p n :
  match match_prefix p n with
  | (_, []) => exists t, fold_str p = fold_str n ++ t
  | ([], _) => (length p < length n)%nat
  | _ => forall t, fold_str p <> fold_str n ++ t
  end.
Proof.
  revert n. induction p as [|x p IH]; intros [|y n]; cbn [match_prefix length fold_str map]; [by exists []|lia|by eexists|].
  destruct (Z.eqb_spec (ascii_fold x) (ascii_fold y)) as [E|E].
  - specialize (IH n). destruct (match_prefix p n) as [[|p1 p'] [|n1 n']]; cbn [app].
    + destruct IH as [t Ht]. exists t. unfold fold_str in Ht. by rewrite E, Ht.
    + lia.
    + destruct IH as [t Ht]. exists t. unfold fold_str in Ht. by rewrite E, Ht.
    + intros t [= _ Ht]. by apply (IH t).
  - by intros t [= ?].
Qed.
Lemma fold_prefix_length p n t : fold_str p = fold_str n ++ t -> (length n <= length p)%nat.
Proof. intros H. apply (f_equal length) in H. rewrite length_app in H. unfold fold_str in H. rewrite !length_map in H. lia. Qed.

Lemma casestr_loop_spec h n i :
  n <> [] ->
  match casestr_loop h n i with
  | Some k => exists j, k = (i + j)%nat /\ occurs_at j h n /\ forall j', (j' < j)%nat -> ~ occurs_at j' h n
  | None => ~ occurs h n
  end.
Proof.
  intros Hn. revert i. induction h as [|x h IH]; intros i; cbn [casestr_loop].
  { intros [j [t Ht]]. cbn [fold_str map] in Ht. rewrite drop_nil in Ht. by destruct n. }
  pose proof (match_prefix_spec (x :: h) n) as Hm. destruct (match_prefix (x :: h) n) as [[|p1 p] [|n1 n']] eqn:Em.
  - exists 0%nat. split; [lia|]. split; [done|lia].
  - intros [j [t Ht]]. unfold fold_str in Ht. rewrite skipn_map in Ht. apply fold_prefix_length in Ht.
    rewrite length_drop in Ht. lia.
  - exists 0%nat. split; [lia|]. split; [done|lia].
  - specialize (IH (S i)). destruct (casestr_loop h n (S i)) as [k|].
    + destruct IH as (j & -> & Hj & Hl). exists (S j). split; [lia|]. split; [done|].
      intros [|j'] Hj'; [intros [t Ht]; by apply (Hm t)|]. apply (Hl j'). lia.
    + intros [[|j] [t Ht]]; [by apply (Hm t)|]. apply IH. by exists j, t.
Qed.

(** The search finds the first place where the needle occurs up to case, and
    nothing exactly when it occurs nowhere. *)
Lemma ascii_casestr_correct hay needle :
  match ascii_casestr hay needle with
  | Some i => occurs_at i hay needle /\ forall j, (j < i)%nat -> ~ occurs_at j hay needle
  | None => ~ occurs hay needle
  end.
Proof.
  destruct needle as [|y needle]; cbn [ascii_casestr]; [split; [by exists (fold_str hay)|lia]|].
  pose proof (casestr_loop_spec hay (y :: needle) 0 ltac:(done)) as H.
  destruct (casestr_loop hay (y :: needle) 0) as [k|]; [|done]. by destruct H as (j & -> & H).
Qed.
Lemma ascii_casestr_occurs hay needle : is_Some (ascii_casestr hay needle) <-> occurs hay needle.
Proof.
  pose proof (ascii_casestr_correct hay needle) as H. destruct (ascii_casestr hay needle) as [i|].
  - split; [intros _; exists i; apply H|eauto].
  - split; [by intros []|done].
Qed.

(** ** Splitting artists *)

(** Names apart from each other up to case. *)
Definition distinct_names (l : list (list Z)) : Prop := NoDup (map fold_str l).

Lemma Forall_drop_while (P : Z -> Prop) p l : Forall P l -> Forall P (drop_while p l).
Proof. induction 1 as [|x l Hx Hl IH]; cbn; [constructor|]. destruct (p x); [done|by constructor]. Qed.
Lemma Forall_take_while (P : Z -> Prop) p l : Forall P l -> Forall P (take_while p l).
Proof. induction 1 as [|x l Hx Hl IH]; cbn; [constructor|]. destruct (p x); [by constructor|constructor]. Qed.

(** A name as it is filed: not empty, and of at most 127 characters. *)
Definition filed_name (n : list Z) : Prop := n <> [] /\ Forall is_char n /\ Z.of_nat (length n) < TAGCACHE_TAG_MAX.

Lemma trim_name_chars s : Forall is_char s -> Forall is_char (trim_name s).
Proof. intros H. unfold trim_name. by apply Forall_drop_while, Forall_rev, Forall_drop_while, Forall_rev. Qed.

Lemma existsb_casecmp names name :
  Forall filed_name names -> Forall is_char name ->
  existsb (fun n => ascii_casecmp n name =? 0) names = true <-> fold_str name ∈ map fold_str names.
Proof.
  intros Hn Hc. rewrite existsb_exists. split.
  - intros (n & Hin & E). bool_prop. rewrite List.Forall_forall in Hn. destruct (Hn _ Hin) as (_ & Hnc & _).
    apply (proj1 (ascii_casecmp_eq _ _ Hnc Hc)) in E. rewrite <- E. by apply list_elem_of_In, in_map.
  - rewrite list_elem_of_In, in_map_iff. intros (n & E & Hin). exists n. split; [done|]. apply Z.eqb_eq.
    rewrite List.Forall_forall in Hn. destruct (Hn _ Hin) as (_ & Hnc & _). by apply ascii_casecmp_eq.
Qed.

Lemma split_loop_ok fuel p names :
  Forall is_char p -> Forall filed_name names -> distinct_names names -> (length names <= TAGCACHE_ARTIST_SPLIT_MAX)%nat ->
  Forall filed_name (split_loop fuel p names) /\ distinct_names (split_loop fuel p names) /\
  (length (split_loop fuel p names) <= TAGCACHE_ARTIST_SPLIT_MAX)%nat.
Proof.
  revert p names. induction fuel as [|fuel IH]; intros p names Hp Hn Hd Hl; cbn [split_loop]; [done|].
  destruct p as [|x p]; [done|]. revert Hp. generalize (x :: p). clear x p. intros p Hp.
  destruct (Nat.leb_spec TAGCACHE_ARTIST_SPLIT_MAX (length names)); [done|].
  set (p1 := drop_while is_delim p). assert (Forall is_char p1) as Hp1 by by apply Forall_drop_while.
  set (name := take _ (trim_name _)).
  assert (Forall is_char name) as Hname by (apply Forall_take, trim_name_chars, Forall_take_while; done).
  assert (Z.of_nat (length name) < TAGCACHE_TAG_MAX) as Hlen.
  { subst name. rewrite length_take. unfold TAGCACHE_TAG_MAX. lia. }
  set (rest := drop_while _ p1). assert (Forall is_char rest) as Hrest by by apply Forall_drop_while.
  assert (name <> [] -> filed_name name) as Hfiled by done. clearbody name.
  destruct name as [|y name']; [by apply IH|]. specialize (Hfiled ltac:(done)). revert Hfiled Hname Hlen.
  generalize (y :: name'). clear y name'. intros name Hfiled Hname Hlen.
  destruct (existsb _ names) eqn:Ex; [by apply IH|].
  apply IH; [done| | |].
  - apply Forall_app_2; [done|]. by constructor.
  - unfold distinct_names. rewrite map_app. apply list.NoDup_app. split; [done|]. split.
    + intros n Hin E. apply list_elem_of_singleton in E. subst n.
      apply not_true_iff_false in Ex. apply Ex. by apply existsb_casecmp.
    + apply NoDup_singleton.
  - rewrite length_app. cbn. lia.
Qed.

(** A tag is filed under at least one and at most eight names, no two of them
    the same up to case. *)
Lemma split_artist_ok raw :
  Forall is_char raw ->
  (1 <= length (split_artist raw) <= TAGCACHE_ARTIST_SPLIT_MAX)%nat /\
  distinct_names (split_artist raw) /\ Forall (Forall is_char) (split_artist raw).
Proof.
  intros Hr. unfold split_artist.
  destruct (split_loop_ok (length raw) raw [] Hr) as (Hn & Hd & Hl); [constructor|constructor|cbn; lia|].
  destruct (split_loop (length raw) raw []) as [|n names].
  - split; [cbn; unfold TAGCACHE_ARTIST_SPLIT_MAX; lia|]. split; [apply NoDup_singleton|].
    constructor; [by apply Forall_take|done].
  - split; [cbn in *; lia|]. split; [done|]. eapply List.Forall_impl; [|done]. by intros m (_ & H & _).
Qed.
Lemma tagcache_artist_matches_in raw name :
  Forall is_char raw -> Forall is_char name ->
  tagcache_artist_matches raw name = true <-> fold_str name ∈ map fold_str (split_artist raw).
Proof.
  intros Hr Hn. destruct (split_artist_ok raw Hr) as (_ & _ & Hc). unfold tagcache_artist_matches. rewrite existsb_exists.
  rewrite List.Forall_forall in Hc. split.
  - intros (n & Hin & E). bool_prop. apply ascii_casecmp_eq in E; [|by apply Hc|done]. rewrite <- E.
    by apply list_elem_of_In, in_map.
  - rewrite list_elem_of_In, in_map_iff. intros (n & E & Hin). exists n. split; [done|]. apply Z.eqb_eq.
    apply ascii_casecmp_eq; [by apply Hc|done|done].
Qed.
