(* ===== verification/RowFile.v ===== *)
(** Small tables that are kept in a text file of one row per line: how such a
    file is rewritten through a temporary one, read back line by line, and the
    numbers in its rows. *)
From stdpp Require Import gmap.
From S2P Require Import Prelude QueueResume PlaylistFiles PlaylistAtomic.
Local Open Scope Z_scope.

(** ** Rewriting *)

(** How the calls of one rewrite turn out; [se_left] reaches the temporary file
    when the writing fails. *)
Record save_env := { se_open : bool; se_write : bool; se_left : list Z; se_sync : bool; se_close : bool; se_rename : bool; se_unlink : bool }.

(** Create [tmp], write [text], and rename it to [path]; [tidy]: a temporary file
    that could not be renamed is removed. *)
Definition rewrite_ops (io : save_env) (tidy : bool) (tmp path text : list Z) : bool * list fs_op :=
  let unlink := if se_unlink io then [Unlink tmp] else [] in
  if negb (se_open io) then (false, []) else
  if se_write io && se_sync io && se_close io then
    if se_rename io then (true, [Create tmp; Append tmp text; Rename tmp path])
    else (false, [Create tmp; Append tmp text] ++ if tidy then unlink else [])
  else (false, [Create tmp; Append tmp (if se_write io then text else se_left io)] ++ unlink).

Definition all_saved (io : save_env) : bool := se_open io && se_write io && se_sync io && se_close io && se_rename io.
Lemma rewrite_ops_ok io tidy tmp path text : fst (rewrite_ops io tidy tmp path text) = all_saved io.
Proof. unfold rewrite_ops, all_saved. by destruct (se_open io), (se_write io), (se_sync io), (se_close io), (se_rename io). Qed.

(** Every state on the way has the old or the new file, and no other is touched. *)
Lemma rewrite_atomic io tidy tmp path text fs :
  let '(ok, ops) := rewrite_ops io tidy tmp path text in
  atomic ok fs ops tmp path text /\ (ok = true -> run ops fs = <[path := text]> (delete tmp fs)).
Proof.
  unfold rewrite_ops. destruct (se_open io); cbn [negb]; [|split; [apply atomic_nil|done]].
  destruct (_ && _ && _); [destruct (se_rename io)|]; (split; [|try done]); [apply atomic_publish| |apply atomic_temp..].
  - intros _. apply run_publish.
  - destruct tidy, (se_unlink io); repeat constructor.
  - destruct (se_unlink io); repeat constructor.
Qed.
Lemma rewrite_keeps io tidy tmp path text fs :
  all_saved io = false -> forall p, p <> tmp -> run (snd (rewrite_ops io tidy tmp path text)) fs !! p = fs !! p.
Proof.
  intros Hno p Hp. pose proof (rewrite_ops_ok io tidy tmp path text) as Hok. pose proof (rewrite_atomic io tidy tmp path text fs) as H.
  destruct (rewrite_ops _ _ _ _ _) as [ok ops]. cbn [fst snd] in *. destruct H as [H _]. destruct (H (length ops) p Hp) as [Hsame|[Hyes _]]; [|congruence].
  by rewrite take_ge in Hsame by lia.
Qed.
Lemma rewrite_published io tidy tmp path text fs :
  all_saved io = true -> run (snd (rewrite_ops io tidy tmp path text)) fs = <[path := text]> (delete tmp fs).
Proof.
  intros Hyes. pose proof (rewrite_ops_ok io tidy tmp path text) as Hok. pose proof (rewrite_atomic io tidy tmp path text fs) as H.
  destruct (rewrite_ops _ _ _ _ _) as [ok ops]. cbn [fst snd] in *. apply H. congruence.
Qed.

(** ** Reading lines *)
Definition rows_text (rows : list (list Z)) : list Z := concat (map (fun r => r ++ [10]) rows).
(** A row that is a line of its own in a buffer of [size]. *)
Definition row_ok (size : nat) (r : list Z) : Prop := Forall is_char r /\ 10 ∉ r /\ (S (length r) < size)%nat.

Lemma fgets_lines_rows size rows fuel :
  Forall (row_ok size) rows -> (length rows <= fuel)%nat -> fgets_lines size fuel (rows_text rows) = map (fun r => r ++ [10]) rows.
Proof.
  intros H. revert fuel. induction H as [|r rows (Hc & Hn & Hsize) _ IH]; intros fuel Hfuel; [by destruct fuel|].
  destruct fuel as [|fuel]; [cbn in Hfuel; lia|]. unfold rows_text. cbn [map concat]. fold (rows_text rows).
  rewrite <- app_assoc. cbn [app]. cbn [fgets_lines]. rewrite strchr_here by done.
  rewrite Nat.min_l by lia. replace (length r + 1)%nat with (length (r ++ [10])) by (rewrite length_app; done).
  replace (r ++ 10 :: rows_text rows) with ((r ++ [10]) ++ rows_text rows) by (by rewrite <- app_assoc).
  rewrite take_app_length, drop_app_length, cstr_chars by (apply list.Forall_app; split; [done|by repeat constructor]).
  rewrite IH by (cbn in Hfuel; lia). by destruct r.
Qed.

Lemma rows_text_length rows : (length rows <= length (rows_text rows))%nat.
Proof. unfold rows_text. induction rows as [|r rows IH]; [done|]. cbn [map concat length]. rewrite !length_app. cbn [length]. lia. Qed.

(** ** Numbers *)

(** [%d]. *)
Definition dec (v : Z) : list Z := (if v <? 0 then [45] else []) ++ digits 20 (Z.abs v) [].
(** [strtol] in base 10, [None] when there is no number: its value, which is the
    nearest [long], and what comes after it. *)
Definition strtol (LONG_MAX : Z) (s : list Z) : option (Z * list Z) :=
  let t := drop_while isspace s in
  let '(negative, t) := match t with c :: t' => if c =? 45 then (true, t') else if c =? 43 then (false, t') else (false, t) | [] => (false, []) end in
  match take_while isdigit t with
  | [] => None
  | ds =>
      let v := fold_left (fun v c => v * 10 + (c - 48)) ds 0 in
      Some (if negative then Z.max (- v) (- LONG_MAX - 1) else Z.min v LONG_MAX, drop_while isdigit t)
  end.

Definition value_of (ds : list Z) : Z := fold_left (fun v c => v * 10 + (c - 48)) ds 0.
Lemma value_of_app ds c : value_of (ds ++ [c]) = value_of ds * 10 + (c - 48).
Proof. unfold value_of. by rewrite fold_left_app. Qed.
(** The digits printed are digits, at least one, and their value is the number. *)
Lemma digits_spec fuel n acc :
  (0 < fuel)%nat -> 0 <= n < 10 ^ Z.of_nat fuel ->
  exists ds, digits fuel n acc = ds ++ acc /\ ds <> [] /\ Forall (fun c => isdigit c = true) ds /\ value_of ds = n.
Proof.
  revert n acc. induction fuel as [|fuel IH]; intros n acc Hf Hn; [lia|]. cbn [digits].
  assert (isdigit (48 + n mod 10) = true) as Hd by (unfold isdigit; rewrite andb_true_iff, !Z.leb_le; div_lia).
  destruct (Z.ltb_spec n 10).
  - exists [48 + n mod 10]. split; [done|]. split; [done|]. split; [by repeat constructor|]. unfold value_of. cbn [fold_left]. div_lia.
  - destruct fuel as [|fuel]; [change (10 ^ Z.of_nat 1) with 10 in Hn; lia|].
    rewrite Nat2Z.inj_succ, Z.pow_succ_r in Hn by lia.
    destruct (IH (n / 10) (48 + n mod 10 :: acc)) as (ds & E & Hne & Hds & Hv); [lia|div_lia|].
    exists (ds ++ [48 + n mod 10]). rewrite E, <- app_assoc. split; [done|]. split; [by destruct ds|].
    split; [apply list.Forall_app; by repeat constructor|]. rewrite value_of_app, Hv. div_lia.
Qed.
Lemma take_while_all p l rest : Forall (fun c => p c = true) l -> (forall c t, rest = c :: t -> p c = false) -> take_while p (l ++ rest) = l /\ drop_while p (l ++ rest) = rest.
Proof.
  intros Hl Hrest. induction Hl as [|c l Hc _ [IH1 IH2]].
  - destruct rest as [|c t]; [done|]. cbn. by rewrite (Hrest c t).
  - cbn. by rewrite Hc, IH1, IH2.
Qed.
Lemma isdigit_range c : isdigit c = true -> 48 <= c <= 57.
Proof. unfold isdigit. rewrite andb_true_iff, !Z.leb_le. lia. Qed.
(** A sign and digits read back, whatever comes after them, inside the bounds of [long]. *)
Lemma strtol_digits LONG_MAX (negative : bool) ds rest :
  ds <> [] -> Forall (fun c => isdigit c = true) ds -> (forall c t, rest = c :: t -> isdigit c = false) ->
  strtol LONG_MAX ((if negative then [45] else []) ++ ds ++ rest) =
    Some (if negative then Z.max (- value_of ds) (- LONG_MAX - 1) else Z.min (value_of ds) LONG_MAX, rest).
Proof.
  intros Hne Hds Hrest. destruct (take_while_all isdigit ds rest Hds Hrest) as [Htake Hdrop].
  destruct ds as [|d ds]; [done|]. pose proof (Forall_cons_1 _ _ _ Hds) as [Hd _]. apply isdigit_range in Hd.
  assert (forall t, drop_while isspace (d :: t) = d :: t) as Hspace
    by (intros t; cbn; unfold isspace; destruct (Z.eqb_spec d 32), (Z.leb_spec 9 d), (Z.leb_spec d 13); cbn; done || lia).
  unfold strtol, value_of. destruct negative; cbn [app].
  - cbn [drop_while]. change (isspace 45) with false. cbv iota. change (45 =? 45) with true. cbv iota.
    cbn [app] in Htake, Hdrop. by rewrite Htake, Hdrop.
  - cbn [app] in Htake, Hdrop. rewrite Hspace. rewrite (proj2 (Z.eqb_neq d 45)), (proj2 (Z.eqb_neq d 43)) by lia.
    by rewrite Htake, Hdrop.
Qed.
(** A printed number reads back, whatever comes after it. *)
Lemma strtol_dec LONG_MAX v rest :
  in_i32 v -> 2147483647 <= LONG_MAX -> (forall c t, rest = c :: t -> isdigit c = false) -> strtol LONG_MAX (dec v ++ rest) = Some (v, rest).
Proof.
  intros Hv Hmax Hrest. unfold in_i32, INT_MAX in Hv. unfold dec.
  destruct (digits_spec 20 (Z.abs v) []) as (ds & -> & Hne & Hds & Hval); [lia|change (10 ^ Z.of_nat 20) with 100000000000000000000; lia|].
  rewrite app_nil_r, <- app_assoc. rewrite strtol_digits, Hval by done. f_equal. f_equal. destruct (Z.ltb_spec v 0); lia.
Qed.
(** The bytes of a printed number: digits and a sign, at most eleven. *)
Lemma digits_length fuel k n acc : (1 <= k)%nat -> 0 <= n < 10 ^ Z.of_nat k -> (length (digits fuel n acc) <= k + length acc)%nat.
Proof.
  revert k n acc. induction fuel as [|fuel IH]; intros k n acc Hk Hn; cbn [digits]; [lia|].
  destruct (Z.ltb_spec n 10); [cbn [length]; lia|]. destruct k as [|[|k]]; [lia|change (10 ^ Z.of_nat 1) with 10 in Hn; lia|].
  rewrite Nat2Z.inj_succ, Z.pow_succ_r in Hn by lia. etransitivity; [apply (IH (S k)); [lia|div_lia]|cbn [length]; lia].
Qed.
Definition number_byte (c : Z) : bool := isdigit c || (c =? 45).
Lemma dec_bytes v : in_i32 v -> Forall (fun c => number_byte c = true) (dec v) /\ (1 <= length (dec v) <= 11)%nat.
Proof.
  intros Hv. unfold in_i32, INT_MAX in Hv. unfold dec.
  destruct (digits_spec 20 (Z.abs v) []) as (ds & E & Hne & Hds & Hval); [lia|change (10 ^ Z.of_nat 20) with 100000000000000000000; lia|].
  pose proof (digits_length 20 10 (Z.abs v) []) as Hlen. rewrite E, app_nil_r in *. change (10 ^ Z.of_nat 10) with 10000000000 in Hlen.
  cbn [length] in Hlen. split.
  - apply list.Forall_app. split; [by destruct (v <? 0); repeat constructor|]. eapply List.Forall_impl; [|exact Hds]. unfold number_byte. by intros c ->.
  - rewrite length_app. specialize (Hlen ltac:(lia) ltac:(lia)). destruct ds; [done|]. cbn [length] in *. destruct (v <? 0); cbn [length]; lia.
Qed.
Lemma number_byte_char c : number_byte c = true -> is_char c /\ c <> 10 /\ isspace c = false.
Proof.
  unfold number_byte. rewrite orb_true_iff, Z.eqb_eq. intros [H%isdigit_range| ->]; unfold is_char; [|repeat split; lia].
  split; [lia|]. split; [lia|]. unfold isspace. rewrite orb_false_iff, andb_false_iff, Z.eqb_neq, !Z.leb_gt. lia.
Qed.

(** The bytes of a line, as a printed number is. *)
Definition line_byte (c : Z) : Prop := is_char c /\ c <> 10.
Lemma line_bytes l : Forall line_byte l <-> Forall is_char l /\ 10 ∉ l.
Proof.
  induction l as [|c l IH]; [split; [split; [done|apply not_elem_of_nil]|done]|].
  rewrite !Forall_cons_iff, IH, not_elem_of_cons. unfold line_byte. intuition congruence.
Qed.
Lemma dec_line v : in_i32 v -> Forall line_byte (dec v).
Proof. intros Hv. eapply List.Forall_impl; [|apply (dec_bytes v Hv)]. cbv beta. intros c (H1 & H2 & _)%number_byte_char. by split. Qed.

(** ** Rows with keys *)
Section Keyed.
Context {A V : Type} (key : A -> list Z) (val : A -> V).

(** The first row with a key. *)
Fixpoint find_key (es : list A) (k : list Z) : option nat :=
  match es with
  | [] => None
  | e :: es => if bytes_eqb (key e) k then Some 0%nat else S <$> find_key es k
  end.
(** The rows as a map, in which the first row with a key counts. *)
Definition contents (es : list A) : gmap (list Z) V := list_to_map (map (fun e => (key e, val e)) es).

Lemma contents_cons e es : contents (e :: es) = <[key e := val e]> (contents es).
Proof. done. Qed.
Lemma find_key_bound es k i : find_key es k = Some i -> exists e, es !! i = Some e /\ key e = k.
Proof.
  revert i. induction es as [|e es IH]; intros i; cbn [find_key]; [done|]. destruct (bytes_eqb_spec (key e) k) as [<-|_].
  - intros [= <-]. by exists e.
  - destruct (find_key es k) as [j|] eqn:E; [|done]. intros [= <-]. cbn. by apply IH.
Qed.
Lemma find_contents es k : (i ← find_key es k; e ← es !! i; Some (val e)) = contents es !! k.
Proof.
  induction es as [|e es IH]; [done|]. rewrite contents_cons. cbn [find_key]. destruct (bytes_eqb_spec (key e) k) as [<-|Hne].
  - by rewrite lookup_insert_eq.
  - rewrite lookup_insert_ne, <- IH by done. by destruct (find_key es k).
Qed.
Lemma find_key_None es k : find_key es k = None <-> k ∉ map key es.
Proof.
  induction es as [|e es IH]; cbn [find_key map]; [split; [intros _; apply not_elem_of_nil|done]|].
  rewrite not_elem_of_cons, <- IH. destruct (bytes_eqb_spec (key e) k) as [->|Hne]; [split; [done|by intros []]|].
  destruct (find_key es k); cbn; split; [done|by intros []| |done]. intros _. split; [congruence|done].
Qed.
(** A change of one row that keeps its key. *)
Lemma contents_alter (g : A -> A) es k i e :
  (forall e, key (g e) = key e) -> find_key es k = Some i -> es !! i = Some e -> contents (alter g i es) = <[k := val (g e)]> (contents es).
Proof.
  intros Hg. revert i. induction es as [|x es IH]; intros i; cbn [find_key]; [done|]. destruct (bytes_eqb_spec (key x) k) as [<-|Hne].
  - intros [= <-] [= <-]. change (contents (g x :: es) = <[key x := val (g x)]> (contents (x :: es))).
    rewrite !contents_cons, Hg. by rewrite insert_insert_eq.
  - destruct (find_key es k) as [j|] eqn:E; [|done]. intros [= <-] Hj. cbn in Hj.
    change (contents (x :: alter g j es) = <[k := val (g e)]> (contents (x :: es))).
    rewrite !contents_cons, (IH j) by done. by rewrite insert_insert_ne.
Qed.
Lemma contents_snoc es e : key e ∉ map key es -> contents (es ++ [e]) = <[key e := val e]> (contents es).
Proof.
  intros Hk. unfold contents. rewrite map_app. apply list_to_map_snoc. intros H. apply Hk.
  rewrite <- list_fmap_compose in H. exact H.
Qed.
Lemma contents_delete es k i :
  NoDup (map key es) -> find_key es k = Some i -> contents (delete i es) = delete k (contents es).
Proof.
  revert i. induction es as [|x es IH]; intros i Hn; cbn [find_key]; [done|]. cbn [map] in Hn. apply list.NoDup_cons in Hn as [Hx Hn].
  destruct (bytes_eqb_spec (key x) k) as [<-|Hne].
  - intros [= <-]. cbn. fold (contents es). rewrite delete_insert_id; [done|]. unfold contents. apply not_elem_of_list_to_map_1.
    intros H. apply Hx. rewrite <- list_fmap_compose in H. exact H.
  - destruct (find_key es k) as [j|] eqn:E; [|done]. intros [= <-].
    change (contents (x :: delete j es) = delete k (contents (x :: es))).
    rewrite !contents_cons, (IH j) by done. by rewrite delete_insert_ne.
Qed.
Lemma keys_alter (g : A -> A) i es : (forall e, key (g e) = key e) -> map key (alter g i es) = map key es.
Proof. intros Hg. revert i. induction es as [|e es IH]; intros [|i]; [done| done| |]; cbn; [by rewrite Hg|]. f_equal. apply IH. Qed.
Lemma keys_snoc es e : NoDup (map key es) -> key e ∉ map key es -> NoDup (map key (es ++ [e])).
Proof.
  intros Hn He. rewrite map_app. apply list.NoDup_app. split; [done|]. split; [|apply NoDup_singleton]. cbn [map]. intros x Hx ->%list_elem_of_singleton. done.
Qed.
Lemma keys_delete es i : NoDup (map key es) -> NoDup (map key (delete i es)).
Proof. intros Hn. rewrite list_fmap_delete. eapply sublist_NoDup; [exact Hn|apply sublist_delete]. Qed.
End Keyed.
Lemma alter_snoc {A} (f : A -> A) l x : alter f (length l) (l ++ [x]) = l ++ [f x].
Proof. induction l as [|y l IH]; [done|]. exact (f_equal (cons y) IH). Qed.
Lemma Forall_alter_all {A} (P : A -> Prop) (g : A -> A) l i : Forall P l -> (forall x, P x -> P (g x)) -> Forall P (alter g i l).
Proof. intros Hl Hg. revert i. induction Hl as [|x l Hx Hl IH]; intros i; [done|]. destruct i as [|i]; constructor; [by apply Hg|done|done|by apply IH]. Qed.

(** ** Tables in files *)
Section File.
(** A table, its text, the files it is read from, its own and older ones, and
    which tables are written. *)
Context {Table : Type} (text : Table -> list Z) (empty : Table) (path tmp : list Z) (older : list (list Z)) (written : Table -> Prop).

(** The file holds the table, or it is empty and there is no file. *)
Definition file_is (fs : files) (t : Table) : Prop :=
  written t /\ fs !! path = Some (text t) \/ t = empty /\ Forall (fun q => fs !! q = None) (path :: older).
Lemma rewrite_cut io tidy fs t t' n :
  tmp ∉ path :: older -> written t' -> file_is fs t ->
  let ops := snd (rewrite_ops io tidy tmp path (text t')) in
  file_is (run (take n ops) fs) t \/ file_is (run (take n ops) fs) t'.
Proof.
  intros Htmp Ht' Hfile. pose proof (rewrite_atomic io tidy tmp path (text t') fs) as H. destruct (rewrite_ops _ _ _ _ _) as [ok ops]. cbn [snd].
  destruct H as [H _]. assert (forall q, q ∈ path :: older -> q <> tmp) as Hne by (intros q Hq ->; done).
  destruct (H n path (Hne _ (list_elem_of_here _ _))) as [E|(_ & _ & E)]; [left|right; by left].
  unfold file_is. rewrite E. destruct Hfile as [?|[-> Hnone]]; [by left|]. right. split; [done|]. rewrite list.Forall_forall in *. intros q Hq.
  destruct (H n q (Hne _ Hq)) as [->|(_ & -> & E')]; [by apply Hnone|]. rewrite (Hnone path (list_elem_of_here _ _)) in E. congruence.
Qed.
Lemma rewrite_failed io tidy fs t t' n :
  tmp ∉ path :: older -> all_saved io = false -> file_is fs t -> file_is (run (take n (snd (rewrite_ops io tidy tmp path (text t')))) fs) t.
Proof.
  intros Htmp Hno Hfile. pose proof (rewrite_atomic io tidy tmp path (text t') fs) as H. pose proof (rewrite_ops_ok io tidy tmp path (text t')) as Hok.
  destruct (rewrite_ops _ _ _ _ _) as [ok ops]. cbn [fst snd] in *. subst ok. rewrite Hno in H. destruct H as [H _].
  assert (forall q, q ∈ path :: older -> run (take n ops) fs !! q = fs !! q) as Hsame by (intros q Hq; destruct (H n q) as [?|[? _]]; [by intros ->|done|done]).
  unfold file_is. rewrite (Hsame path (list_elem_of_here _ _)). destruct Hfile as [?|[-> Hnone]]; [by left|]. right. split; [done|].
  rewrite list.Forall_forall in *. intros q Hq. rewrite Hsame by done. by apply Hnone.
Qed.
Lemma rewrite_saved io tidy fs t : written t -> all_saved io = true -> file_is (run (snd (rewrite_ops io tidy tmp path (text t))) fs) t.
Proof. intros Ht Hsave. left. split; [done|]. rewrite rewrite_published by done. apply lookup_insert_eq. Qed.
End File.

(** ** Stores

    A state with a table in a file, and requests each of which takes some steps in
    the files: what such a store promises of one request, and what follows for
    many of them and for a power failure in the middle of one. *)
Class Store {St Req Table : Type} (disk : St -> files) (table : St -> Table) (step : St -> Req -> St) (ops : St -> Req -> list fs_op)
    (holds_table : files -> Table -> Prop) (inv : St -> Prop) (req_ok : Req -> Prop) (saved : Req -> bool) : Prop := {
  store_inv s r : inv s -> req_ok r -> inv (step s r);
  store_disk s r : inv s -> disk (step s r) = run (ops s r) (disk s);
  store_cut s r t n : inv s -> holds_table (disk s) t ->
    holds_table (run (take n (ops s r)) (disk s)) t \/ holds_table (run (take n (ops s r)) (disk s)) (table (step s r));
  store_saved s r : inv s -> saved r = true -> holds_table (disk s) (table s) -> holds_table (disk (step s r)) (table (step s r)) }.

Section Stores.
Context {St Req Table : Type} {disk : St -> files} {table : St -> Table} {step : St -> Req -> St} {ops : St -> Req -> list fs_op}
  {holds_table : files -> Table -> Prop} {inv : St -> Prop} {req_ok : Req -> Prop} {saved : Req -> bool}.
Context `{!Store disk table step ops holds_table inv req_ok saved}.
Abbreviation steps := (fold_left step).

Lemma steps_snoc st reqs r : steps (reqs ++ [r]) st = step (steps reqs st) r.
Proof. by rewrite fold_left_app. Qed.
Lemma steps_inv st reqs : inv st -> Forall req_ok reqs -> inv (steps reqs st).
Proof.
  intros Hst. induction reqs as [|r reqs IH] using rev_ind; [done|]. intros [Hreqs [Hr _]%Forall_cons_1]%list.Forall_app.
  rewrite steps_snoc. apply store_inv; [by apply IH|done].
Qed.
(** The file holds the table after some of the requests, and still when the power
    fails in the middle of another. *)
Lemma steps_file st reqs :
  inv st -> Forall req_ok reqs -> holds_table (disk st) (table st) ->
  exists k, (k <= length reqs)%nat /\ holds_table (disk (steps reqs st)) (table (steps (take k reqs) st)).
Proof.
  intros Hst Hreqs Hfile. induction reqs as [|r reqs IH] using rev_ind; [by exists 0%nat|].
  apply list.Forall_app in Hreqs as [Hreqs _]. destruct (IH Hreqs) as (k & Hk & Hcur). pose proof (steps_inv st reqs Hst Hreqs) as Hinv.
  rewrite length_app. cbn [length]. pose proof (store_cut (steps reqs st) r _ (length (ops (steps reqs st) r)) Hinv Hcur) as H.
  rewrite take_ge, <- store_disk in H by done || lia. destruct H as [H|H].
  - exists k. split; [lia|]. by rewrite take_app_le, steps_snoc by lia.
  - exists (length reqs + 1)%nat. split; [lia|]. rewrite take_ge by (rewrite length_app; cbn [length]; lia). by rewrite steps_snoc.
Qed.
Lemma steps_cut st reqs r n :
  inv st -> Forall req_ok reqs -> holds_table (disk st) (table st) ->
  exists k, (k <= S (length reqs))%nat /\
    holds_table (run (take n (ops (steps reqs st) r)) (disk (steps reqs st))) (table (steps (take k (reqs ++ [r])) st)).
Proof.
  intros Hst Hreqs Hfile. destruct (steps_file st reqs Hst Hreqs Hfile) as (k & Hk & Hcur). pose proof (steps_inv st reqs Hst Hreqs) as Hinv.
  destruct (store_cut (steps reqs st) r _ n Hinv Hcur) as [H|H].
  - exists k. split; [lia|]. by rewrite take_app_le by lia.
  - exists (S (length reqs)). split; [lia|]. rewrite (take_ge (reqs ++ [r])) by (rewrite length_app; cbn [length]; lia). by rewrite steps_snoc.
Qed.
Lemma steps_saved st reqs :
  inv st -> Forall req_ok reqs -> Forall (fun r => saved r = true) reqs -> holds_table (disk st) (table st) ->
  holds_table (disk (steps reqs st)) (table (steps reqs st)).
Proof.
  intros Hst Hreqs Hsaved Hfile. induction reqs as [|r reqs IH] using rev_ind; [done|].
  apply list.Forall_app in Hreqs as [Hreqs _]. apply list.Forall_app in Hsaved as [Hsaved [Hr _]%Forall_cons_1].
  rewrite steps_snoc. apply store_saved; [by apply steps_inv|done|by apply IH].
Qed.
End Stores.
