(* ===== verification/CText.v ===== *)
(** Numbers as text, as the C library reads and prints them: [strtoul], [atoi],
    [strtod] and [%.3f]. *)
From S2P Require Import Prelude QueueResume PlaylistFiles RowFile Doubles.
Local Open Scope Z_scope.

(** ** Reading *)

(** The sign in front of a number, after white space. *)
Definition skip_sign (s : list Z) : bool * list Z :=
  match s with c :: t => if c =? 45 then (true, t) else if c =? 43 then (false, t) else (false, s) | [] => (false, []) end.
Definition read_sign (s : list Z) : bool * list Z := skip_sign (drop_while isspace s).
(** The value of a character as a digit, 36 for the others. *)
Definition digit_value (c : Z) : Z :=
  if isdigit c then c - 48 else if isalpha c then tolower c - 87 else 36.
Definition is_digit_in (base c : Z) : bool := digit_value c <? base.
Definition value_in (base : Z) (ds : list Z) : Z := fold_left (fun v c => v * base + digit_value c) ds 0.
(** [0x] in front of a digit of base 16. *)
Definition hex_prefix (t : list Z) : option (list Z) :=
  match t with c0 :: c1 :: t' => if (c0 =? 48) && (tolower c1 =? 120) then Some t' else None | _ => None end.
Definition skip_0x (t : list Z) : list Z :=
  match hex_prefix t with Some ((c :: _) as t') => if is_digit_in 16 c then t' else t | _ => t end.

(** [strtoul] in base 10 or 16, [None] when there is no number (it returns 0
    then): its value, and what comes after it. *)
Definition strtoul (ULONG_MAX base : Z) (s : list Z) : option (Z * list Z) :=
  let '(negative, t) := read_sign s in
  let t := if base =? 16 then skip_0x t else t in
  match take_while (is_digit_in base) t with
  | [] => None
  | ds =>
      let v := value_in base ds in
      Some (if ULONG_MAX <? v then ULONG_MAX else if negative then (- v) mod (ULONG_MAX + 1) else v, drop_while (is_digit_in base) t)
  end.
(** The value of a call whose end is not looked at. *)
Definition only_value {A} (r : option (Z * A)) : Z := match r with Some (v, _) => v | None => 0 end.
(** [(int) strtol(s, NULL, 10)]. *)
Definition atoi (LONG_MAX : Z) (s : list Z) : Z := i32 (only_value (strtol LONG_MAX s)).

(** [neg] [m] times [base ^ e], rounded to a double. *)
Definition scaled (neg : bool) (m base e : Z) : spec_float :=
  match m with
  | Zpos p =>
      if 0 <=? e then binary_normalize 53 1024 (cond_Zopp neg (m * base ^ e)) 0 neg
      else match base ^ (- e) with
           | Zpos q => ddiv (S754_finite neg p 0) (S754_finite false q 0)
           | _ => S754_nan
           end
  | _ => S754_zero neg
  end.
(** Digits with a point in them: their value without it, how many are behind it,
    and what comes after. *)
Definition read_mantissa (base : Z) (t : list Z) : option (Z * Z * list Z) :=
  let whole := take_while (is_digit_in base) t in
  let t := drop_while (is_digit_in base) t in
  let '(part, t) :=
    match t with
    | c :: t' => if c =? 46 then (take_while (is_digit_in base) t', drop_while (is_digit_in base) t') else ([], t)
    | [] => ([], [])
    end in
  match whole ++ part with
  | [] => None
  | ds => Some (value_in base ds, Z.of_nat (length part), t)
  end.
(** An exponent after [letter], 0 without one. *)
Definition read_exponent (letter : Z) (t : list Z) : Z :=
  match t with
  | c :: t =>
      if tolower c =? letter then
        let '(negative, t) := skip_sign t in
        let v := value_in 10 (take_while isdigit t) in if negative then - v else v
      else 0
  | [] => 0
  end.
(** [atof]: [strtod] whose end is not looked at. *)
Definition atof (s : list Z) : spec_float :=
  let '(negative, t) := read_sign s in
  if starts_with_ci (bs "inf") t then S754_infinity negative
  else if starts_with_ci (bs "nan") t then S754_nan
  else
    match (t' ← hex_prefix t; read_mantissa 16 t') with
    | Some (m, behind, t) => scaled negative m 2 (read_exponent 112 t - 4 * behind)
    | None =>
        match read_mantissa 10 t with
        | Some (m, behind, t) => scaled negative m 10 (read_exponent 101 t - behind)
        | None => S754_zero false
        end
    end.
(** A double as a [float], and back without a change. *)
Definition to_float (x : spec_float) : spec_float :=
  match x with
  | S754_finite s m e => binary_normalize 24 128 (cond_Zopp s (Zpos m)) e s
  | _ => x
  end.

(** ** Printing *)

(** [m] times [2 ^ e] in thousandths, to the nearest, to the even of two. *)
Definition thousandths (m : positive) (e : Z) : Z :=
  if 0 <=? e then Zpos m * 2 ^ e * 1000 else
  let d := 2 ^ (- e) in
  let q := Zpos m * 1000 / d in
  let r := Zpos m * 1000 mod d in
  if 2 * r <? d then q else if d <? 2 * r then q + 1 else q + q mod 2.
Definition udec (n : Z) : list Z := digits (Z.to_nat (Z.log2 n + 2)) n [].
Definition print_milli (n : Z) : list Z := udec (n / 1000) ++ [46; 48 + n / 100 mod 10; 48 + n / 10 mod 10; 48 + n mod 10].
(** [%.3f]. *)
Definition print3 (x : spec_float) : list Z :=
  let minus (s : bool) := if s then [45] else [] in
  match x with
  | S754_zero s => minus s ++ print_milli 0
  | S754_finite s m e => minus s ++ print_milli (thousandths m e)
  | S754_infinity s => minus s ++ bs "inf"
  | S754_nan => bs "nan"
  end.
(** [%u] and [%lld]. *)
Definition sdec (n : Z) : list Z := (if n <? 0 then [45] else []) ++ udec (Z.abs n).
(** [%06X] of a number of 24 bits. *)
Definition hex_digit (d : Z) : Z := if d <? 10 then 48 + d else 55 + d.
Definition hex6 (n : Z) : list Z :=
  map (fun k => hex_digit (n / 16 ^ k mod 16)) [5; 4; 3; 2; 1; 0].

Example print3_ex : map print3 [dbl 12; ddiv (dbl (-1)) (dbl 3); ddiv (dbl 5) (dbl 10000); ddiv (dbl 25) (dbl 10000); S754_zero true]
  = map bs ["12.000"; "-0.333"; "0.001"; "0.003"; "-0.000"]%string.
Proof. by vm_compute. Qed.
Example atof_ex : map atof (map bs [" 12"; "-1.5e1x"; "0x1.8p3"; ".5"; "e"; "nan"; "-Infinity"; "1e400"]%string)
  = [dbl 12; dbl (-15); dbl 12; ddiv (dbl 1) (dbl 2); S754_zero false; S754_nan; S754_infinity true; S754_infinity false].
Proof. by vm_compute. Qed.

(** ** What is printed reads back *)
Lemma udec_spec n :
  0 <= n -> udec n <> [] /\ Forall (fun c => isdigit c = true) (udec n) /\ value_of (udec n) = n.
Proof.
  intros Hn. destruct (digits_spec (Z.to_nat (Z.log2 n + 2)) n []) as (ds & E & H); [pose proof (Z.log2_nonneg n); lia| |].
  - split; [done|]. pose proof (Z.log2_nonneg n). rewrite Z2Nat.id by lia.
    destruct (Z.eq_dec n 0) as [->|]; [by vm_compute|]. destruct (Z.log2_spec n) as [_ Hlog]; [lia|].
    apply (Z.lt_le_trans _ _ _ Hlog). transitivity (10 ^ Z.succ (Z.log2 n)); [apply Z.pow_le_mono_l|apply Z.pow_le_mono_r]; lia.
  - unfold udec. rewrite E, app_nil_r. exact H.
Qed.
Lemma udec_length k n : (1 <= k)%nat -> 0 <= n < 10 ^ Z.of_nat k -> (length (udec n) <= k)%nat.
Proof. intros Hk Hn. pose proof (digits_length (Z.to_nat (Z.log2 n + 2)) k n [] Hk Hn) as H. cbn [length] in H. unfold udec. lia. Qed.
Lemma digit_line ds : Forall (fun c => isdigit c = true) ds -> Forall line_byte ds.
Proof. intros H. eapply List.Forall_impl; [|exact H]. cbv beta. intros c Hc%isdigit_range. unfold line_byte, is_char. lia. Qed.

Lemma is_digit_10 c : is_digit_in 10 c = isdigit c.
Proof.
  unfold is_digit_in, digit_value. destruct (isdigit c) eqn:E; [apply isdigit_range in E; apply Z.ltb_lt; lia|].
  unfold isalpha, tolower. bool_prop. split_ifs; bool_prop; lia.
Qed.
Lemma take_while_ext p q l : (forall c, p c = q c) -> take_while p l = take_while q l /\ drop_while p l = drop_while q l.
Proof. intros H. induction l as [|c l [IH1 IH2]]; [done|]. cbn. by rewrite H, IH1, IH2. Qed.
Lemma value_in_10 ds : Forall (fun c => isdigit c = true) ds -> value_in 10 ds = value_of ds.
Proof.
  intros H. unfold value_in, value_of.
  cut (forall v, fold_left (fun v c => v * 10 + digit_value c) ds v = fold_left (fun v c => v * 10 + (c - 48)) ds v); [done|].
  induction H as [|c ds Hc _ IH]; intros v; [done|]. cbn [fold_left]. unfold digit_value at 2. rewrite Hc. apply IH.
Qed.
Lemma read_sign_spec (negative : bool) d t :
  isdigit d = true -> read_sign ((if negative then [45] else []) ++ d :: t) = (negative, d :: t).
Proof.
  intros Hd%isdigit_range. unfold read_sign, skip_sign. destruct negative; [done|]. cbn [app drop_while]. unfold isspace.
  rewrite (proj2 (Z.eqb_neq d 32)), (proj2 (Z.leb_gt d 13)), andb_false_r by lia. cbn [orb].
  by rewrite (proj2 (Z.eqb_neq d 45)), (proj2 (Z.eqb_neq d 43)) by lia.
Qed.

Lemma atoi_dec LONG_MAX v : 2147483647 <= LONG_MAX -> in_i32 v -> atoi LONG_MAX (dec v) = v.
Proof. intros Hmax Hv. unfold atoi. rewrite <- (app_nil_r (dec v)), strtol_dec by done. by apply i32_id. Qed.
Lemma strtoul_udec ULONG_MAX v rest :
  0 <= v <= ULONG_MAX -> (forall c t, rest = c :: t -> isdigit c = false) -> strtoul ULONG_MAX 10 (udec v ++ rest) = Some (v, rest).
Proof.
  intros Hv Hrest. destruct (udec_spec v) as (Hne & Hds & Hval); [lia|].
  destruct (take_while_all isdigit (udec v) rest Hds Hrest) as [Htake Hdrop].
  destruct (take_while_ext (is_digit_in 10) isdigit (udec v ++ rest) is_digit_10) as [E1 E2]. rewrite Htake in E1. rewrite Hdrop in E2.
  pose proof (value_in_10 _ Hds) as Hin. unfold strtoul. destruct (udec v) as [|d ds]; [done|]. apply Forall_cons_1 in Hds as [Hd _].
  cbn [app] in *. rewrite (read_sign_spec false d (ds ++ rest) Hd : read_sign (d :: ds ++ rest) = _). change (10 =? 16) with false. cbv iota.
  rewrite E1, E2, Hin, Hval. by rewrite (proj2 (Z.ltb_ge ULONG_MAX v)) by lia.
Qed.
Lemma strtoll_sdec v : - 9223372036854775808 <= v <= 9223372036854775807 -> strtol 9223372036854775807 (sdec v) = Some (v, []).
Proof.
  intros Hv. destruct (udec_spec (Z.abs v)) as (Hne & Hds & Hval); [lia|]. unfold sdec. rewrite <- (app_nil_r (udec _)).
  rewrite strtol_digits, Hval by done. f_equal. f_equal. destruct (Z.ltb_spec v 0); lia.
Qed.

(** ** Doubles *)
Lemma print_milli_spec n :
  0 <= n ->
  exists ws ps, print_milli n = ws ++ 46 :: ps /\ ws = udec (n / 1000) /\ length ps = 3%nat /\
    Forall (fun c => isdigit c = true) (ws ++ ps) /\ value_of (ws ++ ps) = n.
Proof.
  intros Hn. destruct (udec_spec (n / 1000)) as (_ & Hds & Hval); [div_lia|].
  exists (udec (n / 1000)), [48 + n / 100 mod 10; 48 + n / 10 mod 10; 48 + n mod 10].
  split; [done|]. split; [done|]. split; [done|]. assert (forall k, isdigit (48 + k mod 10) = true) as Hdigit.
  { intros k. unfold isdigit. rewrite andb_true_iff, !Z.leb_le. div_lia. }
  split; [apply list.Forall_app; split; [done|by repeat constructor]|].
  unfold value_of in *. rewrite fold_left_app, Hval. cbn [fold_left]. div_lia.
Qed.
Lemma thousandths_nonneg m e : 0 <= thousandths m e.
Proof.
  unfold thousandths. destruct (Z.leb_spec 0 e); [apply Z.mul_nonneg_nonneg; [apply Z.mul_nonneg_nonneg; [lia|by apply Z.pow_nonneg]|lia]|].
  assert (0 < 2 ^ (- e)) as Hd by (apply Z.pow_pos_nonneg; lia).
  pose proof (Z.div_pos (Z.pos m * 1000) (2 ^ (- e)) ltac:(lia) Hd). cbv zeta. split_ifs; bool_prop; pose proof (Z.mod_pos_bound (Z.pos m * 1000 / 2 ^ (- e)) 2); lia.
Qed.

(** Reading digits, a point and digits to the end. *)
Lemma read_mantissa_digits ws ps :
  ws <> [] -> Forall (fun c => isdigit c = true) (ws ++ ps) ->
  read_mantissa 10 (ws ++ 46 :: ps) = Some (value_of (ws ++ ps), Z.of_nat (length ps), []).
Proof.
  intros Hne Hall. pose proof Hall as [Hw Hp]%list.Forall_app. unfold read_mantissa.
  destruct (take_while_all isdigit ws (46 :: ps) Hw) as [T1 D1]; [by intros c t [= <- <-]|].
  destruct (take_while_all isdigit ps [] Hp) as [T2 D2]; [done|]. rewrite app_nil_r in *.
  destruct (take_while_ext _ _ (ws ++ 46 :: ps) is_digit_10) as [-> ->], (take_while_ext _ _ ps is_digit_10) as [E1 E2].
  rewrite T1, D1. change (46 =? 46) with true. cbv iota. rewrite E1, E2, T2, D2.
  pose proof (value_in_10 _ Hall) as <-. destruct ws as [|w ws]; [done|]. done.
Qed.
(** A number with a point is not one of the other forms. *)
Lemma atof_digits (negative : bool) ws ps :
  ws <> [] -> Forall (fun c => isdigit c = true) (ws ++ ps) ->
  atof ((if negative then [45] else []) ++ ws ++ 46 :: ps) = scaled negative (value_of (ws ++ ps)) 10 (- Z.of_nat (length ps)).
Proof.
  intros Hne Hall. pose proof (read_mantissa_digits ws ps Hne Hall) as Hread.
  destruct ws as [|w ws]; [done|]. pose proof (Forall_cons_1 _ _ _ Hall) as [Hw Hrest].
  unfold atof. rewrite (read_sign_spec negative w (ws ++ 46 :: ps) Hw : read_sign (_ ++ (w :: ws) ++ 46 :: ps) = _).
  apply isdigit_range in Hw. assert (tolower w = w) as Elow by (unfold tolower; by rewrite (proj2 (Z.leb_gt 65 w)) by lia).
  unfold starts_with_ci. cbn [map starts_with]. rewrite Elow.
  change (map tolower (bs "inf")) with [105; 110; 102]. change (map tolower (bs "nan")) with [110; 97; 110]. cbn [starts_with].
  rewrite (proj2 (Z.eqb_neq 105 w)), (proj2 (Z.eqb_neq 110 w)) by lia. cbn [andb].
  assert (hex_prefix (w :: ws ++ 46 :: ps) = None) as ->.
  { assert (forall c t, isdigit c = true \/ c = 46 -> hex_prefix (w :: c :: t) = None) as Hx.
    { intros c t Hc. cbn. assert (tolower c =? 120 = false) as ->; [|by rewrite andb_false_r].
      apply Z.eqb_neq. unfold tolower. destruct Hc as [Hc%isdigit_range| ->]; split_ifs; bool_prop; lia. }
    destruct ws as [|c ws]; [by apply Hx; right|]. apply Hx. left. by apply Forall_cons_1 in Hrest as [? _]. }
  cbn [mbind option_bind]. cbn [app] in Hread. rewrite Hread. cbn [read_exponent]. f_equal.
Qed.
(** What a double is in a text file: itself to the nearest thousandth. *)
Definition milli (x : spec_float) : spec_float :=
  match x with S754_finite s m e => scaled s (thousandths m e) 10 (-3) | _ => x end.
Lemma atof_print3 x : atof (print3 x) = milli x.
Proof.
  assert (forall (s : bool) n, 0 <= n -> atof ((if s then [45] else []) ++ print_milli n) = scaled s n 10 (-3)) as H.
  { intros s n Hn. destruct (print_milli_spec n Hn) as (ws & ps & -> & Hws & Hlen & Hall & Hval).
    rewrite atof_digits; [by rewrite Hlen, Hval| |done]. rewrite Hws. apply udec_spec. div_lia. }
  destruct x as [s|s| |s m e]; cbn [print3 milli]; [by rewrite H|by destruct s|done|apply H, thousandths_nonneg].
Qed.
(** The doubles of C, as far as their size goes. *)
Definition double_ok (x : spec_float) : Prop := match x with S754_finite _ m e => Z.pos m < 2 ^ 53 /\ e <= 971 | _ => True end.
Lemma print_milli_line n : 0 <= n -> Forall line_byte (print_milli n).
Proof.
  intros Hn. destruct (print_milli_spec n Hn) as (ws & ps & -> & _ & _ & [Hw Hp]%list.Forall_app & _).
  apply list.Forall_app. split; [by apply digit_line|]. constructor; [unfold line_byte, is_char; lia|by apply digit_line].
Qed.
Lemma minus_line (s : bool) l : Forall line_byte l -> Forall line_byte ((if s then [45] else []) ++ l).
Proof. intros Hl. destruct s; [|done]. constructor; [unfold line_byte, is_char; lia|done]. Qed.
Lemma print3_line x : Forall line_byte (print3 x).
Proof.
  assert (forall s, forallb (fun c => (0 <? c) && (c <? 256) && negb (c =? 10)) s = true -> Forall line_byte s) as Htext.
  { intros s. rewrite forallb_forall. intros H. apply list.Forall_forall. intros c Hc%list_elem_of_In%H. unfold line_byte, is_char. bool_prop. lia. }
  destruct x as [s|s| |s m e]; cbn [print3]; [|by apply Htext; destruct s|by apply Htext|];
    apply minus_line, print_milli_line; [lia|apply thousandths_nonneg].
Qed.
Lemma thousandths_bound m e : Z.pos m < 2 ^ 53 -> e <= 971 -> thousandths m e / 1000 < 10 ^ 309.
Proof.
  intros Hm He. unfold thousandths. destruct (Z.leb_spec 0 e).
  - rewrite Z.div_mul by lia. assert (2 ^ e <= 2 ^ 971) as Hp by (apply Z.pow_le_mono_r; lia).
    assert (0 <= 2 ^ e) by (by apply Z.pow_nonneg). apply (Z.le_lt_trans _ (2 ^ 53 * 2 ^ 971)); [nia|done].
  - assert (0 < 2 ^ (- e)) as Hd by (apply Z.pow_pos_nonneg; lia).
    assert (Z.pos m * 1000 / 2 ^ (- e) <= Z.pos m * 1000) as Hq by (apply Z.div_le_upper_bound; nia).
    assert (2 ^ 53 < 10 ^ 20) as H20 by done. assert (10 ^ 20 < 10 ^ 309) as H309 by done. revert Hm H20 H309. generalize (2 ^ 53) (10 ^ 20) (10 ^ 309). intros a b c ???. cbv zeta.
    pose proof (Z.mod_pos_bound (Z.pos m * 1000 / 2 ^ (- e)) 2 ltac:(lia)).
    match goal with |- ?t / 1000 < _ => assert (t <= Z.pos m * 1000 + 1) by (split_ifs; lia); assert (t / 1000 < Z.pos m + 1) by (apply Z.div_lt_upper_bound; lia) end. lia.
Qed.
Lemma print3_length x : double_ok x -> (length (print3 x) <= 320)%nat.
Proof.
  assert (forall (s : bool) n, 0 <= n -> n / 1000 < 10 ^ 309 -> (length ((if s then [45%Z] else []) ++ print_milli n) <= 320)%nat) as Hlen.
  { intros s n Hn Hn'. unfold print_milli. rewrite !length_app. cbn [length].
    pose proof (udec_length 309 (n / 1000) ltac:(lia)) as H. destruct s; cbn [length]; specialize (H ltac:(split; [div_lia|done])); lia. }
  destruct x as [s|s| |s m e]; cbn [print3 double_ok]; [intros _; by apply Hlen|intros _; destruct s; vm_compute; lia|intros _; vm_compute; lia|].
  intros [Hm He]. apply Hlen; [apply thousandths_nonneg|by apply thousandths_bound].
Qed.

(** ** Colours *)
Lemma hex_digit_spec d : 0 <= d < 16 -> digit_value (hex_digit d) = d /\ line_byte (hex_digit d) /\ isspace (hex_digit d) = false /\ (tolower (hex_digit d) =? 120) = false /\ hex_digit d <> 45 /\ hex_digit d <> 43.
Proof.
  intros Hd. unfold hex_digit, digit_value, isdigit, isalpha, isspace, tolower, line_byte, is_char. rewrite Z.eqb_neq.
  destruct (Z.ltb_spec d 10); repeat split; try split_ifs; bool_prop; lia.
Qed.
Lemma hex6_line n : Forall line_byte (hex6 n) /\ length (hex6 n) = 6%nat.
Proof. split; [|done]. unfold hex6. apply Forall_map. repeat constructor; apply hex_digit_spec; div_lia. Qed.
Lemma strtoul_hex6 ULONG_MAX n : 16777215 <= ULONG_MAX -> 0 <= n < 16777216 -> strtoul ULONG_MAX 16 (hex6 n) = Some (n, []).
Proof.
  intros Hmax Hn. assert (forall k, 0 <= n / 16 ^ k mod 16 < 16) as Hr by (intros k; div_lia).
  assert (exists a b c d e f, hex6 n = map hex_digit [a; b; c; d; e; f] /\ Forall (fun d => 0 <= d < 16) [a; b; c; d; e; f] /\
    n = ((((a * 16 + b) * 16 + c) * 16 + d) * 16 + e) * 16 + f) as (a & b & c & d & e & f & -> & Hall & ->).
  { do 6 eexists. split; [done|]. split; [repeat constructor; apply Hr|].
    change (16 ^ 0) with 1. change (16 ^ 1) with 16. change (16 ^ 2) with 256. change (16 ^ 3) with 4096. change (16 ^ 4) with 65536. change (16 ^ 5) with 1048576. clear Hr. div_lia. }
  clear Hr. set (l := [a; b; c; d; e; f]) in *. assert (forall d, In d l -> digit_value (hex_digit d) = d) as Hval.
  { intros x Hx. rewrite List.Forall_forall in Hall. by apply hex_digit_spec, Hall. }
  assert (read_sign (map hex_digit l) = (false, map hex_digit l)) as Hsign.
  { unfold read_sign, skip_sign. cbn [map l drop_while]. apply Forall_cons_1 in Hall as [Ha _]. apply hex_digit_spec in Ha as (_ & _ & -> & _ & Hm & Hp).
    by rewrite (proj2 (Z.eqb_neq _ 45)), (proj2 (Z.eqb_neq _ 43)) by done. }
  assert (skip_0x (map hex_digit l) = map hex_digit l) as Hskip.
  { unfold skip_0x, hex_prefix. cbn [map l]. apply Forall_cons_1 in Hall as [_ [Hb _]%Forall_cons_1]. apply hex_digit_spec in Hb as (_ & _ & _ & -> & _). by rewrite andb_false_r. }
  assert (take_while (is_digit_in 16) (map hex_digit l) = map hex_digit l /\ drop_while (is_digit_in 16) (map hex_digit l) = []) as [Htake Hdrop].
  { pose proof (take_while_all (is_digit_in 16) (map hex_digit l) []) as H. rewrite app_nil_r in H. apply H; [|done]. apply Forall_map.
    eapply List.Forall_impl; [|exact Hall]. cbv beta. intros x Hx. unfold is_digit_in. apply Z.ltb_lt. destruct (hex_digit_spec x Hx) as [-> _]. lia. }
  unfold strtoul. rewrite Hsign. change (16 =? 16) with true. cbv iota. rewrite Hskip, Htake, Hdrop. cbn [map l].
  change (hex_digit a :: _) with (map hex_digit l) at 1. unfold value_in. cbn [fold_left map l].
  rewrite !Hval by (unfold l; cbn; tauto). rewrite (proj2 (Z.ltb_ge _ _)) by lia. done.
Qed.
(** A volume in thousandths comes back as it is. *)
Lemma volumes_kept : forallb (fun k => SFeqb (to_float (milli (to_float (ddiv (dbl k) (dbl 1000))))) (to_float (ddiv (dbl k) (dbl 1000)))) (seqZ 0 1001) = true.
Proof. by vm_compute. Qed.
