(* ===== verification/RemoteState.v ===== *)
(** Ratings and play counts of tracks outside the library,
    src/library/remote_state.c: the table, its file on the card, and the
    operations, of which the mutex makes each one step. *)
From stdpp Require Import gmap.
From S2P Require Import Prelude Endian QueueResume PlaylistFiles PlaylistAtomic RowFile.
Local Open Scope Z_scope.

(** ** Data *)
Definition SD_COMPAS_ROOT : list Z := bs "/data/mnt/sd_0/.compas".
Definition SD_LEGACY_ROOT : list Z := bs "/data/mnt/sd_0/.open_hiby_player".
Definition REMOTE_STATE_FILE : list Z := bs "remote_state.tsv".
Definition REMOTE_STATE_PATH_MAX : nat := 600.
Definition REMOTE_STATE_MAX : nat := Z.to_nat 4096.

Record rs_stats := { rating : Z; playcount : Z; last_played : Z }.
Record rs_entry_t := { path : list Z; stats : rs_stats }.
(** The table, whether it was loaded, and the files of the card. *)
Record remote_state := { entries : list rs_entry_t; loaded : bool; disk : files }.
Definition with_entries (st : remote_state) (es : list rs_entry_t) : remote_state :=
  {| entries := es; loaded := loaded st; disk := disk st |}.

(** How the calls of one operation turn out: the files that can be opened for
    reading, the allocations for row [i] of the table, and those of a save. *)
Record rs_env := { can_open : list Z -> bool; alloc : nat -> bool; save : save_env; LONG_MAX : Z }.

Abbreviation find_entry := (find_key path).
Definition find_index (st : remote_state) (p : option (list Z)) : option nat := p ← p; find_entry (entries st) p.

(** ** Loading *)
Definition row_blank (c : Z) : bool := (c =? 32) || (c =? 9).
Definition parse_row (io : rs_env) (line : list Z) : option rs_entry_t :=
  let line := library_trim_eol line in
  '(rating, rest) ← strtol (LONG_MAX io) line;
  '(playcount, rest) ← strtol (LONG_MAX io) (drop_while row_blank rest);
  '(last_played, rest) ← strtol (LONG_MAX io) (drop_while row_blank rest);
  let rest := drop_while row_blank rest in
  if (length rest =? 0)%nat || (REMOTE_STATE_PATH_MAX <=? length rest)%nat then None
  else Some {| path := rest; stats := {| rating := i32 rating; playcount := i32 playcount; last_played := i32 last_played |} |}.
(** The loop over the lines, with the rows so far; a row for which there is no
    room ends it. *)
Fixpoint load_rows (io : rs_env) (lines : list (list Z)) (es : list rs_entry_t) : list rs_entry_t :=
  match lines with
  | [] => es
  | line :: lines =>
      match parse_row io line with
      | None => load_rows io lines es
      | Some e => if (REMOTE_STATE_MAX <=? length es)%nat || negb (alloc io (length es)) then es else load_rows io lines (es ++ [e])
      end
  end.
Definition state_path (dir : list Z) : list Z := dir ++ bs "/" ++ REMOTE_STATE_FILE.
Definition open_to_read (io : rs_env) (fs : files) (p : list Z) : option (list Z) := if can_open io p then fs !! p else None.
Definition load_file (io : rs_env) (st : remote_state) : remote_state :=
  let file := match open_to_read io (disk st) (state_path SD_COMPAS_ROOT) with
              | Some content => Some content
              | None => open_to_read io (disk st) (state_path SD_LEGACY_ROOT)
              end in
  {| entries := match file with
                | Some content => load_rows io (fgets_lines (REMOTE_STATE_PATH_MAX + 64) (length content) content) []
                | None => []
                end;
     loaded := true; disk := disk st |}.
Definition ensure_loaded (io : rs_env) (st : remote_state) : remote_state := if loaded st then st else load_file io st.

(** ** Saving *)
Definition print_row (e : rs_entry_t) : list Z :=
  dec (rating (stats e)) ++ bs " " ++ dec (playcount (stats e)) ++ bs " " ++ dec (last_played (stats e)) ++ bs " " ++ path e.
Definition table_text (es : list rs_entry_t) : list Z := rows_text (map print_row es).
Definition tmp_path : list Z := state_path SD_COMPAS_ROOT ++ bs ".tmp".
Definition save_steps (io : rs_env) (es : list rs_entry_t) : list fs_op :=
  snd (rewrite_ops (save io) true tmp_path (state_path SD_COMPAS_ROOT) (table_text es)).
Definition save_file (io : rs_env) (st : remote_state) : remote_state :=
  {| entries := entries st; loaded := loaded st; disk := run (save_steps io (entries st)) (disk st) |}.

(** ** Operations *)
Definition no_stats : rs_stats := {| rating := 0; playcount := 0; last_played := 0 |}.
Definition ensure_entry (io : rs_env) (st : remote_state) (p : option (list Z)) : option nat * remote_state :=
  match find_index st p with
  | Some i => (Some i, st)
  | None =>
      match p with
      | None => (None, st)
      | Some p =>
          if (length p =? 0)%nat || (REMOTE_STATE_PATH_MAX <=? length p)%nat then (None, st)
          else if (REMOTE_STATE_MAX <=? length (entries st))%nat then (None, st)
          else if negb (alloc io (length (entries st))) then (None, st)
          else (Some (length (entries st)), with_entries st (entries st ++ [{| path := p; stats := no_stats |}]))
      end
  end.
(** The assignments through the pointer [ensure_entry] returned. *)
Definition set_stats (f : rs_stats -> rs_stats) (st : remote_state) (i : nat) : remote_state :=
  with_entries st (alter (fun e => {| path := path e; stats := f (stats e) |}) i (entries st)).

Definition remote_state_drop (st : remote_state) : remote_state := {| entries := []; loaded := false; disk := disk st |}.
Definition remote_state_get (io : rs_env) (st : remote_state) (p : option (list Z)) : option rs_stats * remote_state :=
  let st := ensure_loaded io st in
  (i ← find_index st p; e ← entries st !! i; Some (stats e), st).
Definition update (f : rs_stats -> rs_stats) (io : rs_env) (st : remote_state) (p : option (list Z)) : remote_state :=
  let st := ensure_loaded io st in
  match ensure_entry io st p with
  | (Some i, st) => save_file io (set_stats f st i)
  | (None, st) => st
  end.
Definition rate (r : Z) (s : rs_stats) : rs_stats := {| rating := r; playcount := playcount s; last_played := last_played s |}.
Definition play (now : Z) (s : rs_stats) : rs_stats :=
  {| rating := rating s; playcount := if playcount s <? INT_MAX then playcount s + 1 else playcount s; last_played := now |}.
Definition remote_state_set_rating (io : rs_env) (st : remote_state) (p : option (list Z)) (rating : Z) : remote_state := update (rate rating) io st p.
Definition remote_state_add_play (io : rs_env) (st : remote_state) (p : option (list Z)) (now : Z) : remote_state := update (play now) io st p.
Definition remote_state_take (io : rs_env) (st : remote_state) (p : option (list Z)) : option rs_stats * remote_state :=
  let st := ensure_loaded io st in
  match (i ← find_index st p; e ← entries st !! i; Some (i, e)) with
  | None => (None, st)
  | Some (i, e) => (Some (stats e), save_file io (with_entries st (delete i (entries st))))
  end.
