(* ===== verification/RemoteStateProofs.v ===== *)
(** The table of ratings and play counts refines a finite map, survives a
    restart, and its file is never left half written. *)
From stdpp Require Import gmap.
From S2P Require Import Prelude Endian QueueResume PlaylistFiles PlaylistAtomic RowFile RemoteState.
Local Open Scope Z_scope.

Abbreviation contents := (RowFile.contents path stats).

(** ** Rows *)
Definition stats_ok (s : rs_stats) : Prop := in_i32 (rating s) /\ in_i32 (playcount s) /\ in_i32 (last_played s).
(** A path that reads back from its row: one line, and no blank at its start. *)
Definition path_storable (p : list Z) : Prop :=
  Forall is_char p /\ 10 ∉ p /\ list.last p <> Some 13 /\ (0 < length p < REMOTE_STATE_PATH_MAX)%nat /\ forall c t, p = c :: t -> isspace c = false.
Definition row_storable (e : rs_entry_t) : Prop := path_storable (path e) /\ stats_ok (stats e).
Definition good (io : rs_env) : Prop := (forall p, can_open io p = true) /\ (forall i, alloc io i = true) /\ 2147483647 <= LONG_MAX io.


Lemma drop_while_head (p : Z -> bool) l : (forall c t, l = c :: t -> p c = false) -> drop_while p l = l.
Proof. destruct l as [|c l]; [done|]. intros H. cbn. by rewrite (H c l). Qed.
Lemma isspace_blank c : isspace c = false -> row_blank c = false.
Proof. unfold isspace, row_blank. rewrite !orb_false_iff, andb_false_iff, !Z.eqb_neq, !Z.leb_gt. lia. Qed.
Lemma dec_head v rest c t : in_i32 v -> dec v ++ rest = c :: t -> isspace c = false.
Proof.
  intros Hv E. destruct (dec_bytes v Hv) as [Hb Hl]. destruct (dec v) as [|x l]; [cbn in Hl; lia|]. injection E as <- _.
  apply Forall_cons_1 in Hb as [Hb _]. by apply number_byte_char in Hb as (_ & _ & Hb).
Qed.
(** What follows a number in a row. *)
Lemma blank_field LM v rest :
  in_i32 v -> 2147483647 <= LM -> (forall c t, rest = c :: t -> isdigit c = false) ->
  strtol LM (drop_while row_blank (32 :: dec v ++ rest)) = Some (v, rest).
Proof.
  intros Hv Hmax Hrest. cbn [drop_while]. change (row_blank 32) with true. cbv iota.
  rewrite drop_while_head by (intros c t E; by eapply isspace_blank, dec_head). by apply strtol_dec.
Qed.
Lemma print_row_ok e : row_storable e -> row_ok (REMOTE_STATE_PATH_MAX + 64) (print_row e) /\ list.last (print_row e) <> Some 13.
Proof.
  intros [(Hc & H10 & H13 & Hlen & Hhead) (Hr & Hp & Hl)]. unfold row_ok, print_row.
  pose proof (dec_bytes _ Hr) as [_ ?]. pose proof (dec_bytes _ Hp) as [_ ?]. pose proof (dec_bytes _ Hl) as [_ ?].
  match goal with |- (Forall is_char ?l /\ _ /\ ?x) /\ ?y => enough (Forall line_byte l /\ x /\ y) as (Hline%line_bytes & Hx & Hy); [tauto|] end. split; [|split].
  - assert (Forall line_byte (bs " ")) as Hspace by (apply line_bytes; split; [by apply chars_b_true|by apply (bool_decide_eq_true_1 _)]).
    rewrite !list.Forall_app. repeat split; try done; try by apply dec_line. by apply line_bytes.
  - rewrite !length_app. change (length (bs " ")) with 1%nat. change (REMOTE_STATE_PATH_MAX + 64)%nat with 664%nat. unfold REMOTE_STATE_PATH_MAX in Hlen. lia.
  - destruct (path e) as [|c p _] using rev_ind; [cbn in Hlen; lia|]. rewrite !app_assoc, list.last_snoc. by rewrite list.last_snoc in H13.
Qed.
Lemma parse_print_row io e : good io -> row_storable e -> parse_row io (print_row e ++ [10]) = Some e.
Proof.
  intros (_ & _ & Hmax) He. pose proof (print_row_ok e He) as [(_ & Hn & _) Hlast].
  destruct He as [(Hc & H10 & H13 & Hlen & Hhead) (Hr & Hp & Hl)]. unfold parse_row.
  rewrite trim_path_line by done. unfold print_row. change (bs " ") with [32]. cbn [app].
  rewrite strtol_dec by (done || by intros c t [= <- _]). cbn [mbind option_bind].
  rewrite blank_field by (done || by intros c t [= <- _]). cbn [mbind option_bind].
  rewrite blank_field by (done || by intros c t [= <- _]). cbn [mbind option_bind].
  cbn [drop_while]. change (row_blank 32) with true. cbv iota. rewrite drop_while_head by (intros c t E; by eapply isspace_blank, Hhead).
  rewrite (proj2 (Nat.eqb_neq _ 0)), (proj2 (Nat.leb_gt _ _)) by lia. cbn [orb]. rewrite !i32_id by done. by destruct e as [p []].
Qed.
(** The whole table. *)
Lemma load_rows_text io es acc :
  good io -> Forall row_storable es -> (length (acc ++ es) <= REMOTE_STATE_MAX)%nat ->
  load_rows io (map (fun r => r ++ [10]) (map print_row es)) acc = acc ++ es.
Proof.
  intros Hio Hes. revert acc. induction Hes as [|e es He _ IH]; intros acc Hmax; cbn [map load_rows]; [by rewrite app_nil_r|].
  rewrite length_app in Hmax. cbn [length] in Hmax. rewrite parse_print_row by done. pose proof Hio as (_ & -> & _). cbn [negb].
  rewrite (proj2 (Nat.leb_gt _ _)) by lia. cbn [orb]. rewrite IH by (rewrite !length_app; cbn [length]; lia). by rewrite <- app_assoc.
Qed.
Lemma load_table io es :
  good io -> Forall row_storable es -> (length es <= REMOTE_STATE_MAX)%nat ->
  load_rows io (fgets_lines (REMOTE_STATE_PATH_MAX + 64) (length (table_text es)) (table_text es)) [] = es.
Proof.
  intros Hio Hes Hmax. unfold table_text. rewrite fgets_lines_rows.
  - by rewrite load_rows_text.
  - apply list.Forall_fmap. eapply List.Forall_impl; [|exact Hes]. intros e He. by apply print_row_ok.
  - apply rows_text_length.
Qed.

(** ** Requests *)
Inductive request := SetRating (p : list Z) (r : Z) | AddPlay (p : list Z) (now : Z) | Take (p : list Z).
Definition step (io : rs_env) (st : remote_state) (req : request) : remote_state :=
  match req with
  | SetRating p r => remote_state_set_rating io st (Some p) r
  | AddPlay p now => remote_state_add_play io st (Some p) now
  | Take p => snd (remote_state_take io st (Some p))
  end.
(** What each means for the map. *)
Definition request_spec (req : request) (m : gmap (list Z) rs_stats) : gmap (list Z) rs_stats :=
  match req with
  | SetRating p r => <[p := rate r (default no_stats (m !! p))]> m
  | AddPlay p now => <[p := play now (default no_stats (m !! p))]> m
  | Take p => delete p m
  end.
(** Whether the table changes: there is a row, or room for one. *)
Definition room (io : rs_env) (es : list rs_entry_t) (p : list Z) : bool :=
  match find_entry es p with
  | Some _ => true
  | None => negb ((length p =? 0)%nat || (REMOTE_STATE_PATH_MAX <=? length p)%nat) && (length es <? REMOTE_STATE_MAX)%nat && alloc io (length es)
  end.
Definition changes (io : rs_env) (es : list rs_entry_t) (req : request) : bool :=
  match req with
  | SetRating p _ | AddPlay p _ => room io es p
  | Take p => match find_entry es p with Some _ => true | None => false end
  end.

(** No path twice, and no more rows than there may be. *)
Definition table_ok (es : list rs_entry_t) : Prop := NoDup (map path es) /\ (length es <= REMOTE_STATE_MAX)%nat.
Lemma update_spec f io st p :
  loaded st = true -> table_ok (entries st) ->
  if room io (entries st) p
  then exists es, update f io st (Some p) = save_file io (with_entries st es) /\ table_ok es /\
         contents es = <[p := f (default no_stats (contents (entries st) !! p))]> (contents (entries st))
  else update f io st (Some p) = st.
Proof.
  intros Hl [Hn Hmax]. unfold update, ensure_loaded, room. rewrite Hl. unfold ensure_entry, find_index. cbn [mbind option_bind].
  pose proof (find_contents path stats (entries st) p) as Hfind. destruct (find_entry (entries st) p) as [i|] eqn:E.
  - destruct (find_key_bound _ _ _ _ E) as (e & Hi & Hp). cbn [mbind option_bind] in Hfind. rewrite Hi in Hfind. cbn [mbind option_bind] in Hfind.
    eexists. split; [reflexivity|]. rewrite (contents_alter _ _ _ _ p i e) by done. rewrite <- Hfind. split; [|done].
    split; [by rewrite keys_alter|by rewrite length_alter].
  - destruct (_ || _); cbn [negb andb]; [done|].
    destruct (Nat.leb_spec REMOTE_STATE_MAX (length (entries st))); [by rewrite (proj2 (Nat.ltb_ge _ _)) by lia|].
    rewrite (proj2 (Nat.ltb_lt _ _)) by lia. cbn [andb]. destruct (alloc io (length (entries st))); cbn [negb]; [|done].
    cbn [mbind option_bind] in Hfind. rewrite <- Hfind. eexists. split; [reflexivity|]. cbn [entries with_entries].
    rewrite alter_snoc. apply find_key_None in E. split; [|by rewrite contents_snoc]. split; [by apply keys_snoc|].
    rewrite length_app. cbn [length]. lia.
Qed.
Lemma take_spec io st p :
  loaded st = true -> table_ok (entries st) ->
  if find_entry (entries st) p is Some _
  then exists es s, remote_state_take io st (Some p) = (Some s, save_file io (with_entries st es)) /\ table_ok es /\
         contents (entries st) !! p = Some s /\ contents es = delete p (contents (entries st))
  else remote_state_take io st (Some p) = (None, st) /\ contents (entries st) !! p = None.
Proof.
  intros Hl [Hn Hmax]. unfold remote_state_take, ensure_loaded. rewrite Hl. unfold find_index. cbn [mbind option_bind].
  pose proof (find_contents path stats (entries st) p) as Hfind. destruct (find_entry (entries st) p) as [i|] eqn:E; [|by rewrite <- Hfind].
  destruct (find_key_bound _ _ _ _ E) as (e & Hi & Hp). cbn [mbind option_bind] in *. rewrite Hi in *. cbn [mbind option_bind] in *.
  eexists _, _. split; [reflexivity|]. rewrite <- Hfind, (contents_delete _ _ _ p) by done. split; [|done]. split.
  - by apply keys_delete.
  - rewrite length_delete by (by eexists). lia.
Qed.

(** One request, whatever its calls do: a save of a table whose map is what the
    request means, or nothing. *)
Lemma step_spec io st req :
  loaded st = true -> table_ok (entries st) ->
  if changes io (entries st) req
  then exists es, step io st req = save_file io (with_entries st es) /\ table_ok es /\ contents es = request_spec req (contents (entries st))
  else step io st req = st.
Proof.
  intros Hl Hok. destruct req as [p r|p now|p]; cbn [changes step request_spec].
  - exact (update_spec (rate r) io st p Hl Hok).
  - exact (update_spec (play now) io st p Hl Hok).
  - pose proof (take_spec io st p Hl Hok) as H. destruct (find_entry (entries st) p); [|by destruct H as [-> _]].
    destruct H as (es & s & -> & H1 & _ & H2). by exists es.
Qed.

(** ** Restarts *)
Definition restart (io : rs_env) (fs : files) : remote_state := ensure_loaded io {| entries := []; loaded := false; disk := fs |}.
(** The file holds the table, or there is neither. *)
Abbreviation in_file := (file_is table_text [] (state_path SD_COMPAS_ROOT) [state_path SD_LEGACY_ROOT] (fun _ => True)).
Definition rows_ok (es : list rs_entry_t) : Prop := table_ok es /\ Forall row_storable es.
Lemma restart_reads io fs es : good io -> in_file fs es -> rows_ok es -> entries (restart io fs) = es.
Proof.
  intros Hio Hfile [[_ Hmax] Hes]. pose proof Hio as (Hopen & _). unfold restart, ensure_loaded, load_file, open_to_read. cbn [loaded entries disk]. rewrite !Hopen.
  destruct Hfile as [[_ ->]|[-> [-> [-> _]%Forall_cons_1]%Forall_cons_1]]; [|done]. by apply load_table.
Qed.

(** Requests whose rows read back. *)
Definition request_ok (req : request) : Prop :=
  match req with SetRating p n | AddPlay p n => path_storable p /\ in_i32 n | Take p => True end.
Lemma update_storable f io st p :
  loaded st = true -> Forall row_storable (entries st) -> path_storable p -> (forall s, stats_ok s -> stats_ok (f s)) ->
  Forall row_storable (entries (update f io st (Some p))).
Proof.
  intros Hl Hes Hp Hf. unfold update, ensure_loaded. rewrite Hl. unfold ensure_entry, find_index. cbn [mbind option_bind].
  assert (forall e, row_storable e -> row_storable {| path := path e; stats := f (stats e) |}) as Hrow by (intros e [Hpath Hs]; split; [done|by apply Hf]).
  destruct (find_entry (entries st) p); [by apply Forall_alter_all|]. destruct (_ || _); [done|]. destruct (_ <=? _)%nat; [done|]. destruct (negb _); [done|].
  apply Forall_alter_all; [|done]. apply list.Forall_app. split; [done|]. constructor; [|done]. split; [done|]. repeat split; done.
Qed.
Lemma step_storable io st req :
  loaded st = true -> request_ok req -> Forall row_storable (entries st) -> Forall row_storable (entries (step io st req)).
Proof.
  intros Hl Hreq Hes. destruct req as [p r|p now|p]; cbn [step].
  - destruct Hreq as [Hp Hr]. apply update_storable; [done..|]. intros s (_ & H2 & H3). by split; [|split].
  - destruct Hreq as [Hp Hr]. apply update_storable; [done..|]. intros s (H1 & H2 & _). split; [done|]. split; [|done]. cbn.
    unfold in_i32 in *. destruct (Z.ltb_spec (playcount s) INT_MAX); lia.
  - unfold remote_state_take, ensure_loaded. rewrite Hl. destruct (find_index _ _) as [i|]; cbn [mbind option_bind]; [|done].
    destruct (entries st !! i); cbn [mbind option_bind]; [|done]. cbn. by apply Forall_delete.
Qed.

(** ** The store *)
Abbreviation act := (fun st '(io, req) => step io st req).
Definition sound (st : remote_state) : Prop := loaded st = true /\ rows_ok (entries st).
(** The steps a request takes in the files. *)
Definition request_steps (st : remote_state) (x : rs_env * request) : list fs_op :=
  let '(io, req) := x in if changes io (entries st) req then save_steps io (entries (step io st req)) else [].
Lemma step_sound io st req : sound st -> request_ok req -> sound (step io st req).
Proof.
  intros (Hl & Hok & Hes) Hreq. pose proof (step_storable io st req Hl Hreq Hes) as Hs. pose proof (step_spec io st req Hl Hok) as H.
  destruct (changes _ _ _); [|by rewrite H]. destruct H as (es & E & Hok' & _). rewrite E in *. by split.
Qed.
Lemma tmp_apart : tmp_path ∉ [state_path SD_COMPAS_ROOT; state_path SD_LEGACY_ROOT].
Proof. by apply (bool_decide_eq_true_1 _). Qed.
#[export] Instance remote_store :
  Store disk entries act request_steps in_file sound (fun x => request_ok (snd x)) (fun x => all_saved (save (fst x))).
Proof.
  split.
  - intros st [io req] Hst Hreq. by apply step_sound.
  - intros st [io req] (Hl & Hok & _). unfold request_steps. pose proof (step_spec io st req Hl Hok) as H.
    destruct (changes io (entries st) req); [|by rewrite H]. by destruct H as (es & -> & _).
  - intros st [io req] t n _ Hfile. unfold request_steps. destruct (changes _ _ _); [|rewrite take_nil; by left].
    by apply rewrite_cut; [apply tmp_apart|..].
  - intros st [io req] (Hl & Hok & _) Hsaved Hfile. pose proof (step_spec io st req Hl Hok) as H.
    destruct (changes _ _ _); [|by rewrite H]. destruct H as (es & -> & _). by apply rewrite_saved.
Qed.


(** ** Examples *)
Definition good_save : save_env := {| se_open := true; se_write := true; se_left := []; se_sync := true; se_close := true; se_rename := true; se_unlink := true |}.
Definition good_io : rs_env := {| can_open := fun _ => true; alloc := fun _ => true; save := good_save; LONG_MAX := 2147483647 |}.
Definition full_io : rs_env :=
  {| can_open := fun _ => true; alloc := fun _ => true;
     save := {| se_open := true; se_write := false; se_left := bs "5 "; se_sync := true; se_close := true; se_rename := true; se_unlink := true |}; LONG_MAX := 2147483647 |}.
Definition new_card : remote_state := {| entries := []; loaded := true; disk := ∅ |}.
Definition track : list Z := bs "remote://qobuz/12 34".
Definition liked : list (rs_env * request) := [(good_io, SetRating track 5); (good_io, AddPlay track (-7))].
Lemma good_io_good : good good_io.
Proof. by split. Qed.

Lemma track_storable : path_storable track.
Proof.
  split; [by apply chars_b_true|]. split; [by apply (bool_decide_eq_true_1 _)|]. split; [done|]. split; [by split; apply Nat.ltb_lt|].
  intros c t [= <- _]. done.
Qed.


(** What the table loses: its file could not be opened once, and the next rating
    is written over it. *)
Definition no_read_io : rs_env := {| can_open := fun _ => false; alloc := fun _ => true; save := good_save; LONG_MAX := 2147483647 |}.
Definition card_of (st : remote_state) : remote_state := {| entries := []; loaded := false; disk := disk st |}.
Lemma remote_state_forgets :
  contents (entries (restart good_io (disk (fold_left act liked new_card)))) !! track = Some {| rating := 5; playcount := 1; last_played := -7 |} /\
  contents (entries (restart good_io (disk (step no_read_io (card_of (fold_left act liked new_card)) (SetRating (bs "other.mp3") 3))))) !! track = None.
Proof. by vm_compute. Qed.
(** A path with a newline reads back as another one. *)
Lemma remote_state_splits_path :
  map path (entries (restart good_io (disk (step good_io new_card (AddPlay (bs "a" ++ [10] ++ bs "b.mp3") 1))))) = [bs "a"].
Proof. by vm_compute. Qed.
