(* ===== verification/SavedServers.v ===== *)
(** The saved servers, src/library/subsonic_saved_servers.c: profiles by URL, the
    file they are kept in and the older ones they are imported from. The mutex
    makes each operation one step. *)
From stdpp Require Import gmap.
From S2P Require Import Prelude Endian StableSort PlaylistFiles PathCache RowFile.
Local Open Scope Z_scope.

(** ** Data *)
Definition SUBSONIC_SAVED_SERVERS_DIR : list Z := bs "/usr/data/.compas".
Definition SUBSONIC_SAVED_SERVERS_LEGACY_DIR : list Z := bs "/usr/data/.open_hiby_player".
Definition SUBSONIC_SAVED_SERVERS_COMPAS_FALLBACK_DIR : list Z := bs "/data/mnt/sd_0/.compas".
Definition SUBSONIC_SAVED_SERVERS_FALLBACK_DIR : list Z := bs "/data/mnt/sd_0/.open_hiby_player".
Definition SUBSONIC_SAVED_SERVERS_FILE : list Z := bs "subsonic_servers.tsv".
Definition SUBSONIC_SAVED_SERVERS_MAX : nat := 64.
(** The sizes of the arrays of a profile. *)
Definition URL_SIZE : nat := 256.
Definition FIELD_SIZE : nat := 128.

Record profile := { username : list Z; password : list Z; verify_tls : bool }.
Record subsonic_saved_server_t := { url : list Z; login : profile }.
Record saved_servers := { servers : list subsonic_saved_server_t; ss_loaded : bool; ss_disk : files }.
Definition with_servers (st : saved_servers) (es : list subsonic_saved_server_t) : saved_servers :=
  {| servers := es; ss_loaded := ss_loaded st; ss_disk := ss_disk st |}.

(** How the calls of one operation turn out: the files that can be opened for
    reading, the allocations for row [i] and for the copy, the save that ends an
    import, and the save of the operation. *)
Record ss_env := { ss_can_open : list Z -> bool; ss_alloc : nat -> bool; ss_copy : bool; import_save : save_env; ss_save : save_env }.

Definition find_index (es : list subsonic_saved_server_t) (u : list Z) : option nat := find_key url es u.

(** ** Loading *)
Definition fits (u : list Z) (p : profile) : bool :=
  negb (length u =? 0)%nat && (length u <? URL_SIZE)%nat && (length (username p) <? FIELD_SIZE)%nat && (length (password p) <? FIELD_SIZE)%nat.
Definition append_parsed (io : ss_env) (es : list subsonic_saved_server_t) (u : list Z) (p : profile) : bool * list subsonic_saved_server_t :=
  if negb (fits u p) then (false, es)
  else if (SUBSONIC_SAVED_SERVERS_MAX <=? length es)%nat then (false, es)
  else if negb (ss_alloc io (length es)) then (false, es)
  else (true, es ++ [{| url := snprintf_s URL_SIZE u;
                        login := {| username := snprintf_s FIELD_SIZE (username p); password := snprintf_s FIELD_SIZE (password p); verify_tls := verify_tls p |} |}]).
(** The assignments to the fields of row [i]. *)
Definition set_profile (es : list subsonic_saved_server_t) (i : nat) (p : profile) : list subsonic_saved_server_t :=
  alter (fun e => {| url := url e;
                     login := {| username := snprintf_s FIELD_SIZE (username p); password := snprintf_s FIELD_SIZE (password p); verify_tls := verify_tls p |} |}) i es.
Definition split_tab (s : list Z) : option (list Z * list Z) := i ← strchr 9 s; Some (take i s, drop (S i) s).
Definition parse_line (line : list Z) : option (list Z * profile) :=
  let line := library_trim_eol line in
  if (length line =? 0)%nat then None else
  '(u, rest) ← split_tab line; '(user, rest) ← split_tab rest; '(pass, verify_str) ← split_tab rest;
  let p := {| username := user; password := pass; verify_tls := match verify_str with c :: _ => c =? 49 | [] => false end |} in
  if fits u p then Some (u, p) else None.
Fixpoint parse_rows (io : ss_env) (lines : list (list Z)) (es : list subsonic_saved_server_t) : list subsonic_saved_server_t :=
  match lines with
  | [] => es
  | line :: lines =>
      match parse_line line with
      | None => parse_rows io lines es
      | Some (u, p) =>
          match find_index es u with
          | Some i => parse_rows io lines (set_profile es i p)
          | None =>
              if (SUBSONIC_SAVED_SERVERS_MAX <=? length es)%nat then es
              else let '(ok, es) := append_parsed io es u p in if ok then parse_rows io lines es else es
          end
      end
  end.
Definition parse_file (io : ss_env) (content : list Z) (es : list subsonic_saved_server_t) : list subsonic_saved_server_t :=
  parse_rows io (fgets_lines 1024 (length content) content) es.
Definition servers_path (dir : list Z) : list Z := dir ++ bs "/" ++ SUBSONIC_SAVED_SERVERS_FILE.
Definition load_from_dir (io : ss_env) (dir : list Z) (st : saved_servers) : saved_servers :=
  let path := servers_path dir in
  match (if ss_can_open io path then ss_disk st !! path else None) with
  | Some content => with_servers st (parse_file io content (servers st))
  | None => st
  end.

(** ** Saving *)
Definition print_server (e : subsonic_saved_server_t) : list Z :=
  url e ++ [9] ++ username (login e) ++ [9] ++ password (login e) ++ [9] ++ dec (if verify_tls (login e) then 1 else 0).
Definition servers_text (es : list subsonic_saved_server_t) : list Z := rows_text (map print_server es).
Definition servers_tmp : list Z := servers_path SUBSONIC_SAVED_SERVERS_DIR ++ bs ".tmp".
Definition save_steps (io : save_env) (es : list subsonic_saved_server_t) : list fs_op :=
  snd (rewrite_ops io true servers_tmp (servers_path SUBSONIC_SAVED_SERVERS_DIR) (servers_text es)).
Definition save_file (io : save_env) (st : saved_servers) : saved_servers :=
  {| servers := servers st; ss_loaded := ss_loaded st; ss_disk := run (save_steps io (servers st)) (ss_disk st) |}.

(** One of the imports of [load_file]. *)
Definition import_from (io : ss_env) (dir : list Z) (st : saved_servers) : saved_servers :=
  match servers st with
  | [] => let st := load_from_dir io dir st in
          match servers st with [] => st | _ => save_file (import_save io) st end
  | _ => st
  end.
Definition load_file (io : ss_env) (st : saved_servers) : saved_servers :=
  let st := {| servers := []; ss_loaded := true; ss_disk := ss_disk st |} in
  let st := load_from_dir io SUBSONIC_SAVED_SERVERS_DIR st in
  let st := import_from io SUBSONIC_SAVED_SERVERS_LEGACY_DIR st in
  let st := import_from io SUBSONIC_SAVED_SERVERS_COMPAS_FALLBACK_DIR st in
  import_from io SUBSONIC_SAVED_SERVERS_FALLBACK_DIR st.
Definition ensure_loaded (io : ss_env) (st : saved_servers) : saved_servers := if ss_loaded st then st else load_file io st.

(** ** Operations *)
Definition field_ok (s : list Z) : bool := forallb (fun c => negb ((c =? 9) || (c =? 10) || (c =? 13))) s.
Definition subsonic_saved_servers_upsert (io : ss_env) (st : saved_servers) (u user pass : option (list Z)) (verify : bool) : saved_servers :=
  match u with
  | None => st
  | Some u =>
      let p := {| username := default [] user; password := default [] pass; verify_tls := verify |} in
      if negb (fits u p) then st
      else if negb (field_ok u) || negb (field_ok (username p)) || negb (field_ok (password p)) then st
      else
        let st := ensure_loaded io st in
        match find_index (servers st) u with
        | None =>
            let '(ok, es) := append_parsed io (servers st) u p in
            let st := with_servers st es in
            if ok then save_file (ss_save io) st else st
        | Some i =>
            match servers st !! i with
            | None => st
            | Some e =>
                if bytes_eqb (username (login e)) (username p) && bytes_eqb (password (login e)) (password p) && eqb (verify_tls (login e)) verify then st
                else save_file (ss_save io) (with_servers st (set_profile (servers st) i p))
            end
        end
  end.
Section Load.
Context (qsort : list subsonic_saved_server_t -> list subsonic_saved_server_t).
Definition cmp_url (a b : subsonic_saved_server_t) : Z := strcasecmp (url a) (url b).
(** The rows the caller gets, none when there are none or no memory. *)
Definition subsonic_saved_servers_load (io : ss_env) (st : saved_servers) : list subsonic_saved_server_t * saved_servers :=
  let st := ensure_loaded io st in
  (match servers st with [] => [] | es => if ss_copy io then qsort es else [] end, st).
End Load.
