(* ===== verification/SavedServersProofs.v ===== *)
(** The saved servers are a map by URL whatever the files hold; the map survives
    a restart, and its file is never left half written. *)
From stdpp Require Import gmap sorting.
From S2P Require Import Prelude Endian QueueResume StableSort PlaylistFiles PlaylistAtomic PathCache RowFile SavedServers.
Local Open Scope Z_scope.

Abbreviation contents := (RowFile.contents url login).

(** ** The table *)
(** No URL twice, no more rows than there may be, and every field in its array. *)
Definition table_ok (es : list subsonic_saved_server_t) : Prop :=
  NoDup (map url es) /\ (length es <= SUBSONIC_SAVED_SERVERS_MAX)%nat /\ Forall (fun e => fits (url e) (login e) = true) es.
Lemma fits_stored u p : fits u p = true ->
  snprintf_s URL_SIZE u = u /\ {| username := snprintf_s FIELD_SIZE (username p); password := snprintf_s FIELD_SIZE (password p); verify_tls := verify_tls p |} = p.
Proof.
  unfold fits. rewrite !andb_true_iff, !Nat.ltb_lt. intros (((_ & Hu) & Hn) & Hp). unfold snprintf_s.
  rewrite !take_ge by lia. by destruct p.
Qed.
(** What adding and changing a row do. *)
Lemma append_parsed_spec io es u p :
  table_ok es -> find_index es u = None ->
  let '(ok, es') := append_parsed io es u p in
  table_ok es' /\ ok = (fits u p && (length es <? SUBSONIC_SAVED_SERVERS_MAX)%nat && ss_alloc io (length es)) /\
  if ok then es' = es ++ [{| url := u; login := p |}] else es' = es.
Proof.
  intros (Hn & Hmax & Hfits) Hnone. unfold append_parsed. destruct (fits u p) eqn:Ef; cbn [negb andb]; [|done].
  destruct (Nat.leb_spec SUBSONIC_SAVED_SERVERS_MAX (length es)); [by rewrite (proj2 (Nat.ltb_ge _ _)) by lia|].
  rewrite (proj2 (Nat.ltb_lt _ _)) by lia. destruct (ss_alloc io (length es)); cbn [negb andb]; [|done].
  destruct (fits_stored _ _ Ef) as [-> ->]. split; [|done]. apply find_key_None in Hnone.
  split; [by apply keys_snoc|]. split; [rewrite length_app; cbn [length]; lia|]. apply list.Forall_app. by repeat constructor.
Qed.
Lemma set_profile_ok es i p u : fits u p = true -> table_ok es -> table_ok (set_profile es i p).
Proof.
  intros Hp (Hn & Hmax & Hfits). destruct (fits_stored _ _ Hp) as [_ Ep]. unfold set_profile. rewrite Ep.
  split; [by rewrite keys_alter|]. split; [by rewrite length_alter|]. apply Forall_alter_all; [done|].
  intros e. cbn [url login]. unfold fits in *. rewrite !andb_true_iff in *. tauto.
Qed.
Lemma contents_set_profile es u i e p :
  fits u p = true -> find_index es u = Some i -> es !! i = Some e -> contents (set_profile es i p) = <[u := p]> (contents es).
Proof.
  intros Hp Hi He. destruct (fits_stored _ _ Hp) as [_ Ep]. unfold set_profile. rewrite Ep. by rewrite (contents_alter _ _ _ _ u i e).
Qed.

(** ** Any files *)
Lemma parse_line_fits line u p : parse_line line = Some (u, p) -> fits u p = true.
Proof.
  unfold parse_line. destruct (_ =? _)%nat; [done|]. destruct (split_tab _) as [[u' rest]|]; [|done]. cbn [mbind option_bind].
  destruct (split_tab _) as [[user rest']|]; [|done]. cbn [mbind option_bind]. destruct (split_tab _) as [[pass verify]|]; [|done]. cbn [mbind option_bind].
  match goal with |- context [fits ?a ?b] => destruct (fits a b) eqn:E end; [|done]. by intros [= <- <-].
Qed.
Lemma parse_rows_ok io lines es : table_ok es -> table_ok (parse_rows io lines es).
Proof.
  revert es. induction lines as [|line lines IH]; intros es Hes; cbn [parse_rows]; [done|].
  destruct (parse_line line) as [[u p]|] eqn:E; [|by apply IH]. apply parse_line_fits in E.
  destruct (find_index es u) as [i|] eqn:Ei; [by apply IH, (set_profile_ok es i p u)|]. destruct (_ <=? _)%nat; [done|].
  pose proof (append_parsed_spec io es u p Hes Ei) as H. destruct (append_parsed io es u p) as [ok es']. destruct H as (H & _). destruct ok; [by apply IH|done].
Qed.
Lemma load_from_dir_ok io dir st : table_ok (servers st) -> table_ok (servers (load_from_dir io dir st)).
Proof. intros H. unfold load_from_dir. by case_match; [apply parse_rows_ok|]. Qed.
Lemma import_from_ok io dir st : table_ok (servers st) -> table_ok (servers (import_from io dir st)).
Proof.
  intros H. unfold import_from. destruct (servers st) eqn:E; [|by rewrite E]. rewrite <- E in H. pose proof (load_from_dir_ok io dir st H) as H'.
  by destruct (servers (load_from_dir io dir st)) eqn:E'; cbn; rewrite E' in *.
Qed.
Lemma table_ok_nil : table_ok [].
Proof. split; [apply NoDup_nil_2|]. split; [cbn; lia|done]. Qed.
Lemma servers_ensure_loaded_ok io st : table_ok (servers st) -> table_ok (servers (ensure_loaded io st)).
Proof.
  intros H. unfold ensure_loaded. destruct (ss_loaded st); [done|]. unfold load_file.
  do 3 apply import_from_ok. apply load_from_dir_ok. apply table_ok_nil.
Qed.

(** ** Requests *)
Record request := { rq_url : option (list Z); rq_user : option (list Z); rq_pass : option (list Z); rq_verify : bool }.
Definition upsert (io : ss_env) (st : saved_servers) (r : request) : saved_servers :=
  subsonic_saved_servers_upsert io st (rq_url r) (rq_user r) (rq_pass r) (rq_verify r).
Definition rq_profile (r : request) : profile := {| username := default [] (rq_user r); password := default [] (rq_pass r); verify_tls := rq_verify r |}.
Definition clean (u : list Z) (p : profile) : bool := fits u p && field_ok u && field_ok (username p) && field_ok (password p).
(** Whether a request is taken: its fields are clean, and there is a row or room for one. *)
Definition taken_url (io : ss_env) (es : list subsonic_saved_server_t) (r : request) : option (list Z) :=
  u ← rq_url r;
  if clean u (rq_profile r) && match find_index es u with Some _ => true | None => (length es <? SUBSONIC_SAVED_SERVERS_MAX)%nat && ss_alloc io (length es) end
  then Some u else None.
(** The rows a request saves, if it does. *)
Definition same_profile (p q : profile) : bool := bytes_eqb (username p) (username q) && bytes_eqb (password p) (password q) && eqb (verify_tls p) (verify_tls q).
Definition upserted (io : ss_env) (es : list subsonic_saved_server_t) (r : request) : option (list subsonic_saved_server_t) :=
  u ← taken_url io es r;
  match find_index es u with
  | None => Some (es ++ [{| url := u; login := rq_profile r |}])
  | Some i => e ← es !! i; if same_profile (login e) (rq_profile r) then None else Some (set_profile es i (rq_profile r))
  end.
Lemma same_profile_true p q : same_profile p q = true -> p = q.
Proof.
  unfold same_profile. rewrite !andb_true_iff, !bytes_eqb_eq. destruct p, q; cbn. intros ((-> & ->) & H). f_equal. by apply eqb_prop.
Qed.
Lemma with_same st : with_servers st (servers st) = st.
Proof. by destruct st. Qed.
Lemma upsert_saves io st r :
  ss_loaded st = true -> table_ok (servers st) ->
  upsert io st r = match upserted io (servers st) r with Some es => save_file (ss_save io) (with_servers st es) | None => st end.
Proof.
  intros Hl Hok. unfold upsert, subsonic_saved_servers_upsert, upserted, taken_url. destruct (rq_url r) as [u|]; [|done]. cbn [mbind option_bind].
  fold (rq_profile r). unfold clean, ensure_loaded. rewrite Hl. destruct (fits u (rq_profile r)) eqn:Ef; cbn [negb andb]; [|done].
  destruct (field_ok u), (field_ok (username (rq_profile r))), (field_ok (password (rq_profile r))); cbn [negb orb andb]; try done.
  destruct (find_index (servers st) u) as [i|] eqn:Ei; cbn [mbind option_bind].
  - rewrite Ei. destruct (servers st !! i) as [e|]; cbn [mbind option_bind]; [|done]. unfold same_profile. cbn [verify_tls rq_profile]. by destruct (_ && _ && _).
  - pose proof (append_parsed_spec io (servers st) u (rq_profile r) Hok Ei) as H. destruct (append_parsed _ _ _ _) as [ok es']. destruct H as (_ & -> & H).
    rewrite Ef in *. cbn [andb] in *. destruct (_ && _); cbn [mbind option_bind]; [by rewrite Ei, H|by rewrite H, with_same].
Qed.
Lemma upserted_spec io es r :
  table_ok es ->
  match upserted io es r with
  | Some es' => table_ok es' /\ es' <> [] /\ exists u, taken_url io es r = Some u /\ contents es' = <[u := rq_profile r]> (contents es)
  | None => forall u, taken_url io es r = Some u -> contents es = <[u := rq_profile r]> (contents es)
  end.
Proof.
  intros Hok. pose proof Hok as (Hn & Hmax & Hfits). unfold upserted. destruct (taken_url io es r) as [u|] eqn:Ea; cbn [mbind option_bind]; [|done].
  assert (clean u (rq_profile r) = true /\ (find_index es u = None -> (length es <? SUBSONIC_SAVED_SERVERS_MAX)%nat = true)) as [Hclean Hroom].
  { unfold taken_url in Ea. destruct (rq_url r) as [u'|]; [|done]. cbn [mbind option_bind] in Ea. destruct (_ && _) eqn:E; [|done]. injection Ea as ->.
    apply andb_true_iff in E as [H1 H2]. split; [done|]. intros Hnone. rewrite Hnone in H2. by apply andb_true_iff in H2 as [? _]. }
  unfold clean in Hclean. rewrite !andb_true_iff in Hclean. destruct Hclean as (((Hfit & _) & _) & _).
  pose proof (find_contents url login es u) as Hfind. unfold find_index in *. destruct (find_key url es u) as [i|] eqn:Ei.
  - destruct (find_key_bound _ _ _ _ Ei) as (e & He & Eu). cbn [mbind option_bind] in Hfind. rewrite He in *. cbn [mbind option_bind] in *.
    destruct (same_profile (login e) (rq_profile r)) eqn:Es.
    + apply same_profile_true in Es as <-. intros u' Eu'. injection Eu' as <-. symmetry. apply insert_id. exact (eq_sym Hfind).
    + split; [by apply set_profile_ok with u|]. split; [|exists u; split; [done|by apply contents_set_profile with e]].
      intros E%(f_equal length). unfold set_profile in E. rewrite length_alter in E. apply lookup_lt_Some in He. cbn in E. lia.
  - apply find_key_None in Ei. split; [|split; [by destruct es|exists u; split; [done|by rewrite contents_snoc]]].
    specialize (Hroom eq_refl). apply Nat.ltb_lt in Hroom. split; [by apply keys_snoc|]. split; [rewrite length_app; cbn [length]; lia|].
    apply list.Forall_app. by repeat constructor.
Qed.

(** ** Rows *)
Definition row_storable (e : subsonic_saved_server_t) : Prop :=
  clean (url e) (login e) = true /\ Forall is_char (url e) /\ Forall is_char (username (login e)) /\ Forall is_char (password (login e)).
Lemma field_ok_spec s : field_ok s = true <-> 9 ∉ s /\ 10 ∉ s /\ 13 ∉ s.
Proof.
  unfold field_ok. rewrite forallb_forall. setoid_rewrite negb_true_iff. setoid_rewrite orb_false_iff. setoid_rewrite orb_false_iff.
  setoid_rewrite Z.eqb_neq. setoid_rewrite <- list_elem_of_In. split.
  - intros H. repeat split; intros Hin; by apply H in Hin as [[? ?] ?].
  - intros (H1 & H2 & H3) c Hc. repeat split; by intros ->.
Qed.
Lemma split_tab_here a b : 9 ∉ a -> split_tab (a ++ [9] ++ b) = Some (a, b).
Proof.
  intros H. unfold split_tab. cbn [app]. rewrite strchr_here by done. cbn [mbind option_bind].
  rewrite take_app_length. f_equal. f_equal. replace (a ++ 9 :: b) with ((a ++ [9]) ++ b) by (by rewrite <- app_assoc).
  apply drop_app_length'. rewrite length_app. cbn. lia.
Qed.
Lemma print_server_ok e :
  row_storable e -> row_ok 1024 (print_server e) /\ library_trim_eol (print_server e ++ [10]) = print_server e /\ parse_line (print_server e ++ [10]) = Some (url e, login e).
Proof.
  intros (Hclean & Hu & Hn & Hp). unfold clean in Hclean. rewrite !andb_true_iff in Hclean. destruct Hclean as (((Hfit & Fu) & Fn) & Fp).
  apply field_ok_spec in Fu as (Tu & Nu & _), Fn as (Tn & Nn & _), Fp as (Tp & Np & _).
  assert (Forall line_byte (print_server e)) as Hline.
  { assert (Forall line_byte [9]) as Htab by (constructor; [by split; [unfold is_char|]|done]). unfold print_server. rewrite !list.Forall_app.
    repeat split; try done; try (by apply line_bytes). apply dec_line. by destruct (verify_tls (login e)). }
  apply line_bytes in Hline as [Hchars Hnl].
  assert (exists c, In c [48; 49] /\ dec (if verify_tls (login e) then 1 else 0) = [c]) as (c & Hc & Edec) by (destruct (verify_tls (login e)); eexists; split; [|done| |done]; cbn; tauto).
  assert (library_trim_eol (print_server e ++ [10]) = print_server e) as Etrim.
  { apply trim_path_line; [done|]. unfold print_server. rewrite Edec, !app_assoc, list.last_snoc. intros [= ->]. cbn in Hc. lia. }
  pose proof Hfit as Hsizes. unfold fits in Hsizes. rewrite !andb_true_iff, negb_true_iff, !Nat.ltb_lt, Nat.eqb_neq in Hsizes. destruct Hsizes as (((H0 & H1) & H2) & H3).
  split; [|split; [done|]].
  - split; [done|]. split; [done|]. unfold print_server. rewrite Edec, !length_app. cbn [length]. unfold URL_SIZE, FIELD_SIZE in *. lia.
  - unfold parse_line. rewrite Etrim. rewrite (proj2 (Nat.eqb_neq _ 0)) by (unfold print_server; rewrite length_app; lia).
    unfold print_server. rewrite split_tab_here by done. cbn [mbind option_bind]. rewrite split_tab_here by done. cbn [mbind option_bind]. rewrite split_tab_here by done. cbn [mbind option_bind].
    assert ((match dec (if verify_tls (login e) then 1 else 0) with c :: _ => c =? 49 | [] => false end) = verify_tls (login e)) as -> by (by destruct (verify_tls (login e))).
    destruct e as [u [n p v]]. cbn [username password verify_tls login url] in *. by rewrite Hfit.
Qed.

(** ** Restarts *)
Definition good (io : ss_env) : Prop := (forall p, ss_can_open io p = true) /\ (forall i, ss_alloc io i = true).
Definition rows_ok (es : list subsonic_saved_server_t) : Prop := table_ok es /\ Forall row_storable es.
Lemma parse_rows_text io es acc :
  good io -> Forall row_storable es -> table_ok (acc ++ es) -> parse_rows io (map (fun r => r ++ [10]) (map print_server es)) acc = acc ++ es.
Proof.
  intros Hio Hes. revert acc. induction Hes as [|e es He _ IH]; intros acc Hok; cbn [map parse_rows]; [by rewrite app_nil_r|].
  destruct (print_server_ok e He) as (_ & _ & ->). pose proof Hok as (Hn & Hmax & Hfits).
  assert (find_index acc (url e) = None) as Hnone.
  { apply find_key_None. intros Hin. rewrite map_app in Hn. apply list.NoDup_app in Hn as (_ & Hn & _). apply (Hn _ Hin). by left. }
  assert (table_ok acc) as Hacc.
  { rewrite map_app in Hn. apply list.NoDup_app in Hn as (Hn & _). rewrite length_app in Hmax. apply list.Forall_app in Hfits as [Hfits _]. by repeat split; [|lia|]. }
  rewrite Hnone. rewrite length_app in Hmax. cbn [length] in Hmax. rewrite (proj2 (Nat.leb_gt _ _)) by lia.
  pose proof (append_parsed_spec io acc (url e) (login e) Hacc Hnone) as H. destruct (append_parsed _ _ _ _) as [ok es'].
  destruct H as (_ & Eok & H). pose proof Hio as [_ Halloc]. rewrite Halloc, (proj2 (Nat.ltb_lt _ _)) in Eok by lia.
  apply list.Forall_app in Hfits as [_ [Hfit _]%Forall_cons_1]. rewrite Hfit in Eok. cbn [andb] in Eok. rewrite Eok in *. rewrite H.
  replace {| url := url e; login := login e |} with e by (by destruct e). rewrite IH by (by rewrite <- app_assoc). by rewrite <- app_assoc.
Qed.
Definition restart (io : ss_env) (fs : files) : saved_servers := ensure_loaded io {| servers := []; ss_loaded := false; ss_disk := fs |}.
Definition older_paths : list (list Z) :=
  [servers_path SUBSONIC_SAVED_SERVERS_LEGACY_DIR; servers_path SUBSONIC_SAVED_SERVERS_COMPAS_FALLBACK_DIR; servers_path SUBSONIC_SAVED_SERVERS_FALLBACK_DIR].
Abbreviation in_file := (file_is servers_text [] (servers_path SUBSONIC_SAVED_SERVERS_DIR) older_paths (fun es => es <> [])).
Lemma import_nothing io dir st : servers st <> [] \/ ss_disk st !! servers_path dir = None -> import_from io dir st = st.
Proof.
  unfold import_from, load_from_dir. destruct (servers st) as [|e es] eqn:E; [|done]. intros [?|Hnone]; [done|].
  rewrite Hnone. destruct (ss_can_open io _); by rewrite E.
Qed.
Lemma servers_restart_reads io fs es : good io -> in_file fs es -> rows_ok es -> servers (restart io fs) = es.
Proof.
  intros Hio Hfile [Hok Hes]. pose proof Hio as [Hopen _]. unfold restart, ensure_loaded, load_file. cbn [ss_loaded servers ss_disk].
  destruct Hfile as [[Hne Hfile]|[-> Hnone]].
  - assert (load_from_dir io SUBSONIC_SAVED_SERVERS_DIR {| servers := []; ss_loaded := true; ss_disk := fs |} = {| servers := es; ss_loaded := true; ss_disk := fs |}) as ->.
    { unfold load_from_dir. rewrite Hopen. cbn [ss_disk servers]. rewrite Hfile. unfold with_servers, parse_file. cbn [ss_loaded ss_disk]. f_equal.
      unfold servers_text at 2. rewrite fgets_lines_rows.
      - by rewrite parse_rows_text.
      - apply list.Forall_fmap. eapply List.Forall_impl; [|exact Hes]. intros e He. by apply print_server_ok.
      - apply rows_text_length. }
    rewrite (import_nothing io SUBSONIC_SAVED_SERVERS_LEGACY_DIR) by (by left). rewrite (import_nothing io SUBSONIC_SAVED_SERVERS_COMPAS_FALLBACK_DIR) by (by left).
    by rewrite import_nothing by (by left).
  - unfold older_paths in Hnone. rewrite !Forall_cons_iff in Hnone. destruct Hnone as (H1 & H2 & H3 & H4 & _).
    assert (load_from_dir io SUBSONIC_SAVED_SERVERS_DIR {| servers := []; ss_loaded := true; ss_disk := fs |} = {| servers := []; ss_loaded := true; ss_disk := fs |}) as ->
      by (unfold load_from_dir; rewrite Hopen; cbn [ss_disk]; by rewrite H1).
    rewrite (import_nothing io SUBSONIC_SAVED_SERVERS_LEGACY_DIR) by (by right). rewrite (import_nothing io SUBSONIC_SAVED_SERVERS_COMPAS_FALLBACK_DIR) by (by right).
    by rewrite import_nothing by (by right).
Qed.

(** ** The store *)
Abbreviation act := (fun st '(io, r) => upsert io st r).
Definition sound (st : saved_servers) : Prop := ss_loaded st = true /\ rows_ok (servers st).
(** Strings of C. *)
Definition given (r : request) : Prop := Forall is_char (default [] (rq_url r)) /\ Forall is_char (default [] (rq_user r)) /\ Forall is_char (default [] (rq_pass r)).
Definition request_steps (st : saved_servers) (x : ss_env * request) : list fs_op :=
  let '(io, r) := x in match upserted io (servers st) r with Some es => save_steps (ss_save io) es | None => [] end.
Lemma upserted_storable io es r es' : given r -> Forall row_storable es -> upserted io es r = Some es' -> Forall row_storable es'.
Proof.
  intros (Gu & Gn & Gp) Hes. unfold upserted, taken_url. destruct (rq_url r) as [u|]; [|done]. cbn [mbind option_bind default from_option] in *.
  destruct (clean u (rq_profile r)) eqn:Hclean; [|done]. cbn [andb]. destruct (find_index es u) as [i|] eqn:Ei; cbn [mbind option_bind].
  - rewrite Ei. destruct (es !! i); cbn [mbind option_bind]; [|done]. destruct (same_profile _ _); [done|]. intros [= <-].
    unfold set_profile. assert (fits u (rq_profile r) = true) as Hfit by (unfold clean in Hclean; rewrite !andb_true_iff in Hclean; tauto).
    destruct (fits_stored _ _ Hfit) as [_ Ep]. rewrite Ep. apply Forall_alter_all; [done|]. intros e (Hc & Hu & _). split; [|done].
    unfold clean, fits in *. rewrite !andb_true_iff in *. cbn [url login]. tauto.
  - destruct (_ && _); [|done]. cbn [mbind option_bind]. rewrite Ei. intros [= <-]. apply list.Forall_app. split; [done|]. constructor; [|done]. done.
Qed.
Lemma upsert_sound io st r : sound st -> given r -> sound (upsert io st r).
Proof.
  intros (Hl & Hok & Hes) Hr. pose proof (upserted_spec io (servers st) r Hok) as Hspec. rewrite upsert_saves by done.
  destruct (upserted io (servers st) r) as [es|] eqn:E; [|done]. split; [done|]. split; [apply Hspec|]. by apply (upserted_storable io (servers st) r).
Qed.
Lemma servers_tmp_apart : servers_tmp ∉ servers_path SUBSONIC_SAVED_SERVERS_DIR :: older_paths.
Proof. by apply (bool_decide_eq_true_1 _). Qed.
#[export] Instance servers_store :
  Store ss_disk servers act request_steps in_file sound (fun x => given (snd x)) (fun x => all_saved (ss_save (fst x))).
Proof.
  split.
  - intros st [io r] Hst Hr. by apply upsert_sound.
  - intros st [io r] (Hl & Hok & _). unfold request_steps. rewrite upsert_saves by done. by destruct (upserted io (servers st) r).
  - intros st [io r] t n (Hl & Hok & _) Hfile. unfold request_steps. rewrite upsert_saves by done. pose proof (upserted_spec io (servers st) r Hok) as H.
    destruct (upserted io (servers st) r) as [es|]; [|rewrite take_nil; by left]. apply rewrite_cut; [apply servers_tmp_apart|apply H|done].
  - intros st [io r] (Hl & Hok & _) Hsaved Hfile. rewrite upsert_saves by done. pose proof (upserted_spec io (servers st) r Hok) as H.
    destruct (upserted io (servers st) r) as [es|]; [|done]. apply rewrite_saved; [apply H|done].
Qed.

(** C16. The saved servers are a map by URL: after any requests, whatever their
    calls do, an upsert replaces or adds its profile or, when its fields are not
    clean or there is no room, changes nothing; the list the caller gets is the
    whole map in order. When the power fails, at any step of an upsert, a restart
    finds the rows after some of the requests, all of them; when every save
    worked, the rows as they were. *)
Theorem saved_servers_refine_map qsort `{!QSort cmp_url qsort} (st : saved_servers) (reqs : list (ss_env * request)) (io : ss_env) (r : request) :
  sound st -> in_file (ss_disk st) (servers st) -> Forall (fun x => given (snd x)) reqs -> given r ->
  let before := fold_left act reqs st in
  contents (servers (upsert io before r)) =
    (match taken_url io (servers before) r with Some u => <[u := rq_profile r]> (contents (servers before)) | None => contents (servers before) end) /\
  (ss_copy io = true -> let rows := fst (subsonic_saved_servers_load qsort io before) in
    contents rows = contents (servers before) /\ NoDup (map url rows) /\ StronglySorted (cle cmp_url) rows) /\
  (forall io' n, good io' -> exists k, (k <= S (length reqs))%nat /\
    servers (restart io' (run (take n (request_steps before (io, r))) (ss_disk before))) = servers (fold_left act (take k (reqs ++ [(io, r)])) st)) /\
  (forall io', good io' -> Forall (fun x => all_saved (ss_save (fst x)) = true) reqs -> servers (restart io' (ss_disk before)) = servers before).
Proof.
  intros Hst Hfile Hreqs Hr before. pose proof (steps_inv st reqs Hst Hreqs) as (Hl & Hrows). fold before in Hl, Hrows. pose proof (proj1 Hrows) as Hok.
  split; [|split; [|split]].
  - rewrite upsert_saves by done. pose proof (upserted_spec io (servers before) r Hok) as H. destruct (upserted io (servers before) r) as [es|].
    + by destruct H as (_ & _ & u & -> & H).
    + destruct (taken_url io (servers before) r) as [u|]; [by apply H|done].
  - intros Hcopy. unfold subsonic_saved_servers_load, ensure_loaded. rewrite Hl, Hcopy. cbn [fst].
    assert (match servers before with [] => [] | es => qsort es end ≡ₚ servers before /\ StronglySorted (cle cmp_url) (match servers before with [] => [] | es => qsort es end)) as [Hperm Hsort]
      by (destruct (servers before); [by split; [|constructor]|split; [apply qsort_perm|apply qsort_sorted]]).
    pose proof (Permutation_map url Hperm) as Hkeys. pose proof Hok as (Hn & _). rewrite <- Hkeys in Hn. split; [|done].
    unfold RowFile.contents. apply list_to_map_proper; [|by apply Permutation_map]. by rewrite <- list_fmap_compose.
  - intros io' n Hio'. destruct (steps_cut st reqs (io, r) n Hst Hreqs Hfile) as (k & Hk & H). exists k. split; [done|].
    apply servers_restart_reads; [done..|]. apply (steps_inv st (take k (reqs ++ [(io, r)])) Hst). apply Forall_take, list.Forall_app. split; [done|]. by constructor.
  - intros io' Hio' Hsaved. apply servers_restart_reads; [done| |done]. by apply steps_saved.
Qed.

(** ** Examples *)
Definition good_save : save_env := {| se_open := true; se_write := true; se_left := []; se_sync := true; se_close := true; se_rename := true; se_unlink := true |}.
Definition good_io : ss_env := {| ss_can_open := fun _ => true; ss_alloc := fun _ => true; ss_copy := true; import_save := good_save; ss_save := good_save |}.
Definition new_device : saved_servers := {| servers := []; ss_loaded := true; ss_disk := ∅ |}.
Definition home : request := {| rq_url := Some (bs "https://b.example"); rq_user := Some (bs "me"); rq_pass := None; rq_verify := true |}.
Definition work : request := {| rq_url := Some (bs "https://A.example"); rq_user := Some (bs "you"); rq_pass := Some (bs "x y"); rq_verify := false |}.
Definition two : list (ss_env * request) := [(good_io, home); (good_io, work)].
#[export] Instance cmp_url_order : CmpOrder cmp_url.
Proof. split; unfold cmp_url; intros *; [apply (cmp_sym (cmp := strcasecmp))|apply (cmp_le_trans (cmp := strcasecmp))]. Qed.

Lemma given_home : given home.
Proof. split; [by apply chars_b_true|]. by split; apply chars_b_true. Qed.
Lemma given_work : given work.
Proof. split; [by apply chars_b_true|]. by split; apply chars_b_true. Qed.

Lemma saved_servers_refine_map_witness :
  let before := fold_left act two new_device in
  contents (servers (upsert good_io before work)) !! bs "https://A.example" = Some {| username := bs "you"; password := bs "x y"; verify_tls := false |} /\
  NoDup (map url (fst (subsonic_saved_servers_load (isort cmp_url) good_io before))) /\
  servers (restart good_io (ss_disk before)) = servers before.
Proof.
  destruct (saved_servers_refine_map (isort cmp_url) new_device two good_io work) as (Hstep & Hload & _ & Hrestart).
  - split; [done|]. split; [apply table_ok_nil|done].
  - right. split; [done|]. by repeat constructor.
  - constructor; [apply given_home|]. constructor; [apply given_work|done].
  - apply given_work.
  - split; [rewrite Hstep; by vm_compute|]. split; [by apply Hload|]. apply Hrestart; [done|]. by repeat constructor.
Defined.

(** When the file cannot be opened once, an older copy is saved over it. *)
Definition unreadable_io : ss_env :=
  {| ss_can_open := fun p => negb (bytes_eqb p (servers_path SUBSONIC_SAVED_SERVERS_DIR)); ss_alloc := fun _ => true; ss_copy := true; import_save := good_save; ss_save := good_save |}.
Definition with_old_copy : files :=
  <[servers_path SUBSONIC_SAVED_SERVERS_LEGACY_DIR := servers_text [{| url := bs "http://old"; login := rq_profile home |}]]> (ss_disk (fold_left act two new_device)).
Lemma saved_servers_overwritten :
  map url (servers (restart good_io with_old_copy)) = [bs "https://b.example"; bs "https://A.example"] /\
  map url (servers (restart good_io (ss_disk (restart unreadable_io with_old_copy)))) = [bs "http://old"].
Proof. by vm_compute. Qed.
