(* ===== verification/Settings.v ===== *)
(** The settings, src/core/settings.c: the structure, reading the file line by
    line and bringing what it says into range, the text that is written, and the
    small operations on the structure. *)
From Stdlib Require String.
From stdpp Require Import gmap.
From S2P Require Import Prelude Endian QueueResume PlaylistFiles PlaylistAtomic PathCache RowFile Doubles CText AudioHelpers SavedServers.
Local Open Scope Z_scope.

(** ** Data *)
Definition SETTINGS_SUBSONIC_SAVED_MAX : nat := 16.
Definition REMOTE_CONTROL_PIN_MAX_LENGTH : nat := 12.
Definition BT_DEVICE_RATE_MAX : nat := 8.
Definition MAC_SIZE : nat := 18.
Definition SCREEN_TIMEOUT_STEPS : list Z := [15; 30; 60; 120; 300; 600; 1800].
Definition SCREEN_DIM_DELAY_STEPS : list Z := [5; 10; 15; 30; 60; 120; 300].
Definition IDLE_SHUTDOWN_STEPS : list Z := [10; 15; 30; 60; 120].
Definition SLEEP_TIMER_STEPS : list Z := [5; 10; 15; 20; 30; 45; 60; 90; 120; 180].

Record bt_device_rate_t := { mac : list Z; rate : Z }.
(** The arrays have their length; strings are without their terminator. *)
Record player_settings_t := Settings {
  volume : spec_float; last_track : list Z; last_position : spec_float; last_source_kind : Z; last_source_name : list Z; resume_mode : Z;
  play_pause_button_mode : Z; accent_color : Z; crossfade_enabled : bool; gapless_enabled : bool; replaygain_mode : Z;
  car_mode_enabled : bool; inline_remote_enabled : bool; lyrics_enabled : bool; subsonic_url : list Z; subsonic_username : list Z;
  subsonic_password : list Z; subsonic_verify_tls : bool; subsonic_saved : list subsonic_saved_server_t; subsonic_saved_count : Z;
  bt_volume_sync_enabled : bool; bt_dac_mode_enabled : bool; bt_codec : list Z; bt_speexrate_enabled : bool; bt_sample_rate : Z;
  bt_device_rates : list bt_device_rate_t; bt_device_rate_count : Z; bt_last_output_mac : list Z; bt_hide_unnamed_devices : bool;
  wifi_dac_mode_enabled : bool; dlna_renderer_enabled : bool; remote_control_enabled : bool; remote_control_pin : list Z;
  screen_timeout_enabled : bool; screen_timeout_seconds : Z; screen_dimming_enabled : bool; screen_dim_delay_seconds : Z;
  hide_player_topbar : bool; led_indicator_enabled : bool; db_logging_enabled : bool; screenshot_combo_enabled : bool;
  charge_limiter_enabled : bool; safe_charging_enabled : bool; show_battery_percent : bool; idle_shutdown_enabled : bool;
  idle_shutdown_minutes : Z; idle_suspend_enabled : bool; idle_suspend_default_migrated : bool; usb_mode : Z; play_mode : Z;
  swipe_up_home_enabled : bool; startup_volume_fixed_enabled : bool; startup_volume_fixed_percent : Z; sleep_timer_minutes : Z;
  timezone : list Z; hostname : list Z; font_size_tier : Z; lyrics_font_size_tier : Z; brightness_percent : Z; clock_24h : bool;
  clock_automatic : bool; clock_manual_epoch : Z; clock_system_reference : Z; custom_font : list Z }.

(** *** Assignment to a field *)
Class Setter {T} (field : player_settings_t -> T) := setter : T -> player_settings_t -> player_settings_t.
Arguments setter {_} _ {_} _ _.
(** The structure taken apart and put together with another value for the field. *)
Ltac put_field field v s :=
  let whole := fresh "whole" in
  pose (whole := s); destruct s;
  let built := eval cbv delta [whole] in whole in
  let old := eval cbn in (field built) in
  match eval pattern old in built with ?build _ => let new := eval cbv beta in (build v) in exact new end.
Ltac make_setter :=
  match goal with
  | |- @Setter ?T ?field =>
      let put := constr:(fun (v : T) (s : player_settings_t) => ltac:(put_field field v s) : player_settings_t) in
      let put := eval cbv beta zeta in put in exact put
  end.
#[export] Hint Extern 1 (Setter _) => make_setter : typeclass_instances.
Declare Scope settings_scope.
Notation "s <| field := v |>" := (setter field v s) (at level 12, left associativity, field at next level, format "s  <| field  :=  v |>") : settings_scope.
Local Open Scope settings_scope.

Definition no_server : subsonic_saved_server_t := {| url := []; login := {| username := []; password := []; verify_tls := false |} |}.
Definition no_rate : bt_device_rate_t := {| mac := []; rate := 0 |}.
Definition set_defaults : player_settings_t :=
  {| volume := to_float (dbl 1); last_track := []; last_position := S754_zero false; last_source_kind := 0; last_source_name := []; resume_mode := 0;
     play_pause_button_mode := 0; accent_color := 2201331; crossfade_enabled := false; gapless_enabled := true; replaygain_mode := 1;
     car_mode_enabled := false; inline_remote_enabled := true; lyrics_enabled := true; subsonic_url := []; subsonic_username := [];
     subsonic_password := []; subsonic_verify_tls := true; subsonic_saved := repeat no_server SETTINGS_SUBSONIC_SAVED_MAX; subsonic_saved_count := 0;
     bt_volume_sync_enabled := true; bt_dac_mode_enabled := false; bt_codec := bs "auto"; bt_speexrate_enabled := true; bt_sample_rate := 0;
     bt_device_rates := repeat no_rate BT_DEVICE_RATE_MAX; bt_device_rate_count := 0; bt_last_output_mac := []; bt_hide_unnamed_devices := true;
     wifi_dac_mode_enabled := false; dlna_renderer_enabled := false; remote_control_enabled := false; remote_control_pin := [];
     screen_timeout_enabled := true; screen_timeout_seconds := 30; screen_dimming_enabled := true; screen_dim_delay_seconds := 10;
     hide_player_topbar := false; led_indicator_enabled := true; db_logging_enabled := false; screenshot_combo_enabled := false;
     charge_limiter_enabled := false; safe_charging_enabled := false; show_battery_percent := true; idle_shutdown_enabled := true;
     idle_shutdown_minutes := 10; idle_suspend_enabled := true; idle_suspend_default_migrated := false; usb_mode := 0; play_mode := 0;
     swipe_up_home_enabled := true; startup_volume_fixed_enabled := true; startup_volume_fixed_percent := 20; sleep_timer_minutes := 15;
     timezone := []; hostname := []; font_size_tier := 0; lyrics_font_size_tier := 2; brightness_percent := 80; clock_24h := true;
     clock_automatic := true; clock_manual_epoch := 0; clock_system_reference := 0; custom_font := [] |}.

(** ** Checks *)

(** The difference wraps as the machine does it; it overflows for values below
    about -2147481849, which C leaves undefined. *)
Definition distance (value step : Z) : Z := i32 (Z.abs (i32 (value - step))).
Definition nearest_step (value : Z) (steps : list Z) : Z :=
  match steps with
  | [] => 0
  | first :: rest => fst (fold_left (fun '(best, best_diff) step => if distance value step <? best_diff then (step, distance value step) else (best, best_diff)) rest (first, distance value first))
  end.
Definition is_hex (c : Z) : bool := isdigit c || (97 <=? c) && (c <=? 102) || (65 <=? c) && (c <=? 70).
Definition mac_char (i : nat) (c : Z) : bool := if existsb (Nat.eqb i) [2; 5; 8; 11; 14]%nat then c =? 58 else is_hex c.
Definition valid_bt_output_mac (value : list Z) : bool := (length value =? 17)%nat && forallb (fun x => x) (imap mac_char value).
Definition valid_remote_control_pin (value : list Z) : bool :=
  (4 <=? length value)%nat && (length value <=? REMOTE_CONTROL_PIN_MAX_LENGTH)%nat && forallb isdigit value.
Definition safe_font (value : list Z) : bool :=
  match strchr 47 value, strchr 92 value, strstr (bs "..") value with None, None, None => true | _, _, _ => false end.

(** ** Reading *)
Definition equals (a : list Z) (b : String.string) : bool := bytes_eqb a (bs b).
Definition LLONG_MAX : Z := 9223372036854775807.

Section Reading.
Context (LONG_MAX : Z).
Definition ULONG_MAX : Z := 2 * LONG_MAX + 1.

(** [sscanf] of ["subsonic_saved_%d_%31s"], when it reads both. *)
Definition scan_saved_key (key : list Z) : option (Z * list Z) :=
  '(idx, t) ← strtol LONG_MAX (drop 15 key);
  match t with
  | c :: t =>
      if negb (c =? 95) then None else
      match take 31 (take_while (fun c => negb (isspace c)) (drop_while isspace t)) with [] => None | field => Some (i32 idx, field) end
  | [] => None
  end.
Definition set_saved_field (field value : list Z) (e : subsonic_saved_server_t) : subsonic_saved_server_t :=
  let p := login e in
  if equals field "url" then {| url := snprintf_s URL_SIZE value; login := p |}
  else if equals field "username" then {| url := url e; login := {| username := snprintf_s FIELD_SIZE value; password := password p; verify_tls := verify_tls p |} |}
  else if equals field "password" then {| url := url e; login := {| username := username p; password := snprintf_s FIELD_SIZE value; verify_tls := verify_tls p |} |}
  else if equals field "verify_tls" then {| url := url e; login := {| username := username p; password := password p; verify_tls := equals value "1" |} |}
  else e.
Definition load_saved_row (key value : list Z) (s : player_settings_t) : player_settings_t :=
  match scan_saved_key key with
  | None => s
  | Some (idx, field) =>
      if (0 <=? idx) && (idx <? Z.of_nat SETTINGS_SUBSONIC_SAVED_MAX) then
        let s := if subsonic_saved_count s <? idx + 1 then s <| subsonic_saved_count := idx + 1 |> else s in
        s <| subsonic_saved := alter (set_saved_field field value) (Z.to_nat idx) (subsonic_saved s) |>
      else s
  end.
(** The check is of the whole value, which has a comma and a rate behind the
    address: [valid_bt_output_mac] wants 17 characters in all. *)
Definition load_device_rate (value : list Z) (s : player_settings_t) : player_settings_t :=
  match strchr 44 value with
  | None => s
  | Some comma =>
      match strtoul ULONG_MAX 10 (drop (S comma) value) with
      | Some (parsed, []) =>
          if (bt_device_rate_count s <? Z.of_nat BT_DEVICE_RATE_MAX) && (comma =? 17)%nat && valid_bt_output_mac value &&
             ((parsed =? 0) || (8000 <=? parsed) && (parsed <=? 192000)) then
            s <| bt_device_rates := <[Z.to_nat (bt_device_rate_count s) := {| mac := take 17 value; rate := parsed |}]> (bt_device_rates s) |>
              <| bt_device_rate_count := bt_device_rate_count s + 1 |>
          else s
      | _ => s
      end
  end.
(** The chain of comparisons of the key. *)
Definition load_key (key value : list Z) (s : player_settings_t) : player_settings_t :=
  if equals key "volume" then s <| volume := to_float (atof value) |>
  else if equals key "last_track" then s <| last_track := snprintf_s 512 value |>
  else if equals key "last_position" then s <| last_position := atof value |>
  else if equals key "last_source_kind" then s <| last_source_kind := atoi LONG_MAX value |>
  else if equals key "last_source_name" then s <| last_source_name := snprintf_s 128 value |>
  else if equals key "resume_mode" then s <| resume_mode := atoi LONG_MAX value |>
  else if equals key "play_pause_button_mode" then s <| play_pause_button_mode := atoi LONG_MAX value |>
  else if equals key "accent_color" then s <| accent_color := u32 (only_value (strtoul ULONG_MAX 16 value)) |>
  else if equals key "crossfade" then s <| crossfade_enabled := equals value "1" |>
  else if equals key "gapless" then s <| gapless_enabled := equals value "1" |>
  else if equals key "replaygain_enabled" then s <| replaygain_mode := if equals value "1" then 1 else 0 |>
  else if equals key "replaygain_mode" then s <| replaygain_mode := atoi LONG_MAX value |>
  else if equals key "car_mode_enabled" then s <| car_mode_enabled := equals value "1" |>
  else if equals key "inline_remote_enabled" then s <| inline_remote_enabled := equals value "1" |>
  else if equals key "lyrics_enabled" then s <| lyrics_enabled := equals value "1" |>
  else if equals key "subsonic_url" then s <| subsonic_url := snprintf_s 256 value |>
  else if equals key "subsonic_username" then s <| subsonic_username := snprintf_s 128 value |>
  else if equals key "subsonic_password" then s <| subsonic_password := snprintf_s 128 value |>
  else if equals key "subsonic_verify_tls" then s <| subsonic_verify_tls := equals value "1" |>
  else if starts_with (bs "subsonic_saved_") key then load_saved_row key value s
  else if equals key "bt_volume_sync" then s <| bt_volume_sync_enabled := equals value "1" |>
  else if equals key "bt_device_rate" then load_device_rate value s
  else if equals key "bt_sample_rate" then s <| bt_sample_rate := u32 (only_value (strtoul ULONG_MAX 10 value)) |>
  else if equals key "bt_speexrate" then s <| bt_speexrate_enabled := equals value "1" |>
  else if equals key "bt_codec" then s <| bt_codec := snprintf_s 16 value |>
  else if equals key "bt_last_output_mac" then s <| bt_last_output_mac := if valid_bt_output_mac value then snprintf_s MAC_SIZE value else [] |>
  else if equals key "bt_hide_unnamed_devices" then s <| bt_hide_unnamed_devices := equals value "1" |>
  else if equals key "wifi_dac_mode" then s <| wifi_dac_mode_enabled := equals value "1" |>
  else if equals key "dlna_renderer_enabled" then s <| dlna_renderer_enabled := equals value "1" |>
  else if equals key "remote_control_enabled" then s <| remote_control_enabled := equals value "1" |>
  else if equals key "remote_control_pin" then
    if valid_remote_control_pin value then s <| remote_control_pin := snprintf_s (S REMOTE_CONTROL_PIN_MAX_LENGTH) value |> else s
  else if equals key "screen_timeout_enabled" then s <| screen_timeout_enabled := equals value "1" |>
  else if equals key "screen_timeout_seconds" then s <| screen_timeout_seconds := atoi LONG_MAX value |>
  else if equals key "screen_dimming_enabled" then s <| screen_dimming_enabled := equals value "1" |>
  else if equals key "screen_dim_delay_seconds" then s <| screen_dim_delay_seconds := atoi LONG_MAX value |>
  else if equals key "hide_player_topbar" then s <| hide_player_topbar := equals value "1" |>
  else if equals key "led_indicator_enabled" then s <| led_indicator_enabled := equals value "1" |>
  else if equals key "db_logging_enabled" then s <| db_logging_enabled := equals value "1" |>
  else if equals key "screenshot_combo_enabled" then s <| screenshot_combo_enabled := equals value "1" |>
  else if equals key "charge_limiter_enabled" then s <| charge_limiter_enabled := equals value "1" |>
  else if equals key "safe_charging_enabled" then s <| safe_charging_enabled := equals value "1" |>
  else if equals key "show_battery_percent" then s <| show_battery_percent := equals value "1" |>
  else if equals key "idle_shutdown_enabled" then s <| idle_shutdown_enabled := equals value "1" |>
  else if equals key "idle_shutdown_minutes" then s <| idle_shutdown_minutes := atoi LONG_MAX value |>
  else if equals key "idle_suspend_enabled" then s <| idle_suspend_enabled := equals value "1" |>
  else if equals key "idle_suspend_default_migrated" then s <| idle_suspend_default_migrated := equals value "1" |>
  else if equals key "usb_mode" then s <| usb_mode := atoi LONG_MAX value |>
  else if equals key "play_mode" then s <| play_mode := atoi LONG_MAX value |>
  else if equals key "swipe_up_home_enabled" then s <| swipe_up_home_enabled := equals value "1" |>
  else if equals key "startup_volume_fixed_enabled" then s <| startup_volume_fixed_enabled := equals value "1" |>
  else if equals key "startup_volume_fixed_percent" then s <| startup_volume_fixed_percent := atoi LONG_MAX value |>
  else if equals key "sleep_timer_minutes" then s <| sleep_timer_minutes := atoi LONG_MAX value |>
  else if equals key "timezone" then s <| timezone := snprintf_s 64 value |>
  else if equals key "hostname" then s <| hostname := snprintf_s 64 value |>
  else if equals key "font_size_tier" then s <| font_size_tier := atoi LONG_MAX value |>
  else if equals key "lyrics_font_size_tier" then s <| lyrics_font_size_tier := atoi LONG_MAX value |>
  else if equals key "brightness_percent" then s <| brightness_percent := atoi LONG_MAX value |>
  else if equals key "clock_24h" then s <| clock_24h := equals value "1" |>
  else if equals key "clock_automatic" then s <| clock_automatic := equals value "1" |>
  else if equals key "clock_manual_epoch" then s <| clock_manual_epoch := only_value (strtol LLONG_MAX value) |>
  else if equals key "clock_system_reference" then s <| clock_system_reference := only_value (strtol LLONG_MAX value) |>
  else if equals key "custom_font" then s <| custom_font := if safe_font value then snprintf_s 64 value else [] |>
  else s.
Definition load_line (s : player_settings_t) (line : list Z) : player_settings_t :=
  let line := take_while (fun c => negb (c =? 10)) line in
  match strchr 61 line with
  | None => s
  | Some eq => load_key (take eq line) (drop (S eq) line) s
  end.
Definition load_lines (content : list Z) : player_settings_t :=
  fold_left load_line (fgets_lines 600 (length content) content) set_defaults.
End Reading.

(** What comes after the last line: values out of range, the migration of old
    files, and the steps of the screens. *)
Definition in_range (lo hi v other : Z) : Z := if (v <? lo) || (hi <? v) then other else v.
Definition clamp_settings (s : player_settings_t) : player_settings_t :=
  s <| usb_mode := in_range 0 2 (usb_mode s) 0 |> <| play_mode := in_range 0 3 (play_mode s) 0 |> <| font_size_tier := in_range 0 2 (font_size_tier s) 0 |>
    <| lyrics_font_size_tier := in_range 1 2 (lyrics_font_size_tier s) 2 |> <| replaygain_mode := in_range 0 2 (replaygain_mode s) 1 |>
    <| startup_volume_fixed_percent := in_range 0 100 (startup_volume_fixed_percent s) 20 |> <| brightness_percent := in_range 0 100 (brightness_percent s) 80 |>
    <| resume_mode := in_range 0 2 (resume_mode s) 0 |> <| play_pause_button_mode := in_range 0 2 (play_pause_button_mode s) 0 |>.
Definition migrate_settings (s : player_settings_t) : player_settings_t :=
  if idle_suspend_default_migrated s then s
  else s <| idle_shutdown_enabled := true |> <| idle_shutdown_minutes := 10 |> <| idle_suspend_enabled := true |> <| idle_suspend_default_migrated := true |>.
Definition snap_settings (s : player_settings_t) : player_settings_t :=
  s <| screen_timeout_seconds := nearest_step (screen_timeout_seconds s) SCREEN_TIMEOUT_STEPS |>
    <| screen_dim_delay_seconds := nearest_step (screen_dim_delay_seconds s) SCREEN_DIM_DELAY_STEPS |>
    <| idle_shutdown_minutes := nearest_step (idle_shutdown_minutes s) IDLE_SHUTDOWN_STEPS |>
    <| sleep_timer_minutes := nearest_step (sleep_timer_minutes s) SLEEP_TIMER_STEPS |>.
Definition settle_settings (s : player_settings_t) : player_settings_t := snap_settings (migrate_settings (clamp_settings s)).

(** ** Writing *)
Definition kv (key : String.string) (value : list Z) : list Z := bs key ++ [61] ++ value.
Definition flag (b : bool) : list Z := if b then [49] else [48].
Definition player_rows (s : player_settings_t) : list (list Z) :=
   [kv "volume" (print3 (volume s)); kv "last_track" (last_track s); kv "last_position" (print3 (last_position s));
    kv "last_source_kind" (dec (last_source_kind s)); kv "last_source_name" (last_source_name s); kv "resume_mode" (dec (resume_mode s));
    kv "play_pause_button_mode" (dec (play_pause_button_mode s)); kv "accent_color" (hex6 (Z.land (accent_color s) 16777215));
    kv "crossfade" (flag (crossfade_enabled s)); kv "gapless" (flag (gapless_enabled s)); kv "replaygain_mode" (dec (replaygain_mode s));
    kv "car_mode_enabled" (flag (car_mode_enabled s)); kv "inline_remote_enabled" (flag (inline_remote_enabled s));
    kv "lyrics_enabled" (flag (lyrics_enabled s)); kv "subsonic_url" (subsonic_url s); kv "subsonic_username" (subsonic_username s);
    kv "subsonic_password" (subsonic_password s); kv "subsonic_verify_tls" (flag (subsonic_verify_tls s))].
Definition saved_key (i : nat) (field : String.string) : list Z := bs "subsonic_saved_" ++ dec (Z.of_nat i) ++ [95] ++ bs field.
Definition saved_rows (i : nat) (e : subsonic_saved_server_t) : list (list Z) :=
  [saved_key i "url" ++ [61] ++ url e; saved_key i "username" ++ [61] ++ username (login e);
   saved_key i "password" ++ [61] ++ password (login e); saved_key i "verify_tls" ++ [61] ++ flag (verify_tls (login e))].
Definition bluetooth_rows (s : player_settings_t) : list (list Z) :=
   [kv "bt_volume_sync" (flag (bt_volume_sync_enabled s)); kv "bt_speexrate" (flag (bt_speexrate_enabled s));
    kv "bt_sample_rate" (udec (bt_sample_rate s))].
Definition rate_row (d : bt_device_rate_t) : list Z := kv "bt_device_rate" (mac d ++ [44] ++ udec (rate d)).
Definition other_rows (s : player_settings_t) : list (list Z) :=
   [kv "bt_codec" (bt_codec s); kv "bt_last_output_mac" (bt_last_output_mac s); kv "bt_hide_unnamed_devices" (flag (bt_hide_unnamed_devices s));
    kv "wifi_dac_mode" (flag (wifi_dac_mode_enabled s)); kv "dlna_renderer_enabled" (flag (dlna_renderer_enabled s));
    kv "remote_control_enabled" (flag (remote_control_enabled s)); kv "remote_control_pin" (remote_control_pin s);
    kv "screen_timeout_enabled" (flag (screen_timeout_enabled s)); kv "screen_timeout_seconds" (dec (screen_timeout_seconds s));
    kv "screen_dimming_enabled" (flag (screen_dimming_enabled s)); kv "screen_dim_delay_seconds" (dec (screen_dim_delay_seconds s));
    kv "hide_player_topbar" (flag (hide_player_topbar s)); kv "led_indicator_enabled" (flag (led_indicator_enabled s));
    kv "db_logging_enabled" (flag (db_logging_enabled s)); kv "screenshot_combo_enabled" (flag (screenshot_combo_enabled s));
    kv "charge_limiter_enabled" (flag (charge_limiter_enabled s)); kv "safe_charging_enabled" (flag (safe_charging_enabled s));
    kv "show_battery_percent" (flag (show_battery_percent s)); kv "idle_shutdown_enabled" (flag (idle_shutdown_enabled s));
    kv "idle_shutdown_minutes" (dec (idle_shutdown_minutes s)); kv "idle_suspend_enabled" (flag (idle_suspend_enabled s));
    kv "idle_suspend_default_migrated" (flag (idle_suspend_default_migrated s)); kv "usb_mode" (dec (usb_mode s)); kv "play_mode" (dec (play_mode s));
    kv "swipe_up_home_enabled" (flag (swipe_up_home_enabled s)); kv "startup_volume_fixed_enabled" (flag (startup_volume_fixed_enabled s));
    kv "startup_volume_fixed_percent" (dec (startup_volume_fixed_percent s)); kv "sleep_timer_minutes" (dec (sleep_timer_minutes s));
    kv "timezone" (timezone s); kv "hostname" (hostname s); kv "font_size_tier" (dec (font_size_tier s));
    kv "lyrics_font_size_tier" (dec (lyrics_font_size_tier s)); kv "brightness_percent" (dec (brightness_percent s));
    kv "clock_24h" (flag (clock_24h s)); kv "clock_automatic" (flag (clock_automatic s)); kv "clock_manual_epoch" (sdec (clock_manual_epoch s));
    kv "clock_system_reference" (sdec (clock_system_reference s)); kv "custom_font" (custom_font s)].
(** The rows of an array that are in use. *)
Definition in_use {A} (count : Z) (rows : list A) : list A := take (Z.to_nat count) rows.
Definition settings_rows (s : player_settings_t) : list (list Z) :=
  player_rows s ++ concat (imap saved_rows (in_use (subsonic_saved_count s) (subsonic_saved s))) ++
  bluetooth_rows s ++ map rate_row (in_use (bt_device_rate_count s) (bt_device_rates s)) ++ other_rows s.
Definition settings_text (s : player_settings_t) : list Z := rows_text (settings_rows s).

(** ** Operations *)
Definition settings_subsonic_server_upsert (s : player_settings_t) (u : option (list Z)) (user pass : option (list Z)) (verify : bool) : player_settings_t :=
  match u with
  | None | Some [] => s
  | Some u =>
      let put := fun _ : subsonic_saved_server_t =>
        {| url := snprintf_s URL_SIZE u;
           login := {| username := snprintf_s FIELD_SIZE (default [] user); password := snprintf_s FIELD_SIZE (default [] pass); verify_tls := verify |} |} in
      match find_index (in_use (subsonic_saved_count s) (subsonic_saved s)) u with
      | Some i => s <| subsonic_saved := alter put i (subsonic_saved s) |>
      | None =>
          if Z.of_nat SETTINGS_SUBSONIC_SAVED_MAX <=? subsonic_saved_count s then s
          else s <| subsonic_saved := alter put (Z.to_nat (subsonic_saved_count s)) (subsonic_saved s) |>
                 <| subsonic_saved_count := subsonic_saved_count s + 1 |>
      end
  end.
Definition find_rate (s : player_settings_t) (address : list Z) : option nat :=
  fst <$> list_find (fun d => strcaseeq (mac d) address = true) (in_use (bt_device_rate_count s) (bt_device_rates s)).
Definition settings_bt_rate_for (s : option player_settings_t) (address : option (list Z)) : Z :=
  match s with
  | None => 0
  | Some s =>
      match address with
      | Some ((_ :: _) as address) =>
          match (i ← find_rate s address; bt_device_rates s !! i) with Some d => rate d | None => bt_sample_rate s end
      | _ => bt_sample_rate s
      end
  end.
Definition settings_bt_set_rate_for (s : player_settings_t) (address : option (list Z)) (r : Z) : player_settings_t :=
  match address with
  | Some ((_ :: _) as address) =>
      let row := {| mac := snprintf_s MAC_SIZE address; rate := r |} in
      match find_rate s address with
      | Some i => s <| bt_device_rates := alter (fun d => {| mac := mac d; rate := r |}) i (bt_device_rates s) |>
      | None =>
          if bt_device_rate_count s <? Z.of_nat BT_DEVICE_RATE_MAX then
            s <| bt_device_rates := <[Z.to_nat (bt_device_rate_count s) := row]> (bt_device_rates s) |>
              <| bt_device_rate_count := bt_device_rate_count s + 1 |>
          else s <| bt_device_rates := <[(BT_DEVICE_RATE_MAX - 1)%nat := row]> (drop 1 (bt_device_rates s) ++ drop (BT_DEVICE_RATE_MAX - 1) (bt_device_rates s)) |>
      end
  | _ => s
  end.

(** ** Files *)
Definition SETTINGS_FILE_PATH : list Z := bs "/usr/data/.compas/settings.txt".
Definition SETTINGS_LEGACY_FILE_PATH : list Z := bs "/usr/data/open_hiby_player_settings.txt".
Definition SETTINGS_TMP_FILE_PATH : list Z := SETTINGS_FILE_PATH ++ bs ".tmp".
Definition legacy_lists : list (list Z) :=
  [bs "/usr/data/open_hiby_player_subsonic.txt"; bs "/data/mnt/sd_0/.compas/subsonic.list"; bs "/data/mnt/sd_0/.open_hiby_player/subsonic.list"].

(** How the calls of one [settings_load] turn out: the files that can be opened,
    and the calls of the saved servers it makes, in order. *)
Record load_env := { can_open : list Z -> bool; servers_io : nat -> ss_env }.
Definition read_file (io : load_env) (fs : files) (path : list Z) : option (list Z) := if can_open io path then fs !! path else None.
Definition import_line (s : player_settings_t) (line : list Z) : player_settings_t :=
  match ('(u, rest) ← split_tab (library_trim_eol line); '(user, rest) ← split_tab rest; '(pass, tls) ← split_tab rest; Some (u, user, pass, tls)) with
  | Some (u, user, pass, tls) =>
      settings_subsonic_server_upsert s (Some u) (Some user) (Some pass) (match tls with c :: _ => negb (c =? 48) | [] => true end)
  | None => s
  end.
Definition import_legacy_subsonic_list_file (io : load_env) (fs : files) (s : player_settings_t) (path : list Z) : player_settings_t :=
  match read_file io fs path with
  | None => s
  | Some content => fold_left import_line (fgets_lines 1024 (length content) content) s
  end.
Definition import_legacy_subsonic_servers (io : load_env) (fs : files) (s : player_settings_t) : player_settings_t :=
  let s := if subsonic_saved_count s =? 0 then fold_left (import_legacy_subsonic_list_file io fs) legacy_lists s else s in
  match subsonic_url s with
  | (_ :: _) as u =>
      if subsonic_saved_count s =? 0
      then settings_subsonic_server_upsert s (Some u) (Some (subsonic_username s)) (Some (subsonic_password s)) (subsonic_verify_tls s) else s
  | [] => s
  end.

Section Load.
Context (qsort : list subsonic_saved_server_t -> list subsonic_saved_server_t) (LONG_MAX : Z).
(** Whether the saved servers have the profile as it is. *)
Definition same_row (rows : list subsonic_saved_server_t) (e : subsonic_saved_server_t) : bool :=
  match (j ← find_index rows (url e); rows !! j) with
  | Some r => bytes_eqb (username (login r)) (username (login e)) && bytes_eqb (password (login r)) (password (login e)) &&
              eqb (verify_tls (login r)) (verify_tls (login e))
  | None => false
  end.
(** The loop over the profiles of the settings. *)
Fixpoint push_rows (io : load_env) (rows : list subsonic_saved_server_t) (i : nat) (es : list subsonic_saved_server_t) (wrote : bool) (st : saved_servers) : bool * saved_servers :=
  match es with
  | [] => (wrote, st)
  | e :: es =>
      if match url e with [] => true | _ => same_row rows e end then push_rows io rows (S i) es wrote st
      else push_rows io rows (S i) es true
             (subsonic_saved_servers_upsert (servers_io io i) st (Some (url e)) (Some (username (login e))) (Some (password (login e))) (verify_tls (login e)))
  end.
Definition mirror_rows (rows : list subsonic_saved_server_t) : list subsonic_saved_server_t :=
  let rows := take SETTINGS_SUBSONIC_SAVED_MAX rows in
  map (fun e => {| url := snprintf_s URL_SIZE (url e);
                   login := {| username := snprintf_s FIELD_SIZE (username (login e)); password := snprintf_s FIELD_SIZE (password (login e)); verify_tls := verify_tls (login e) |} |}) rows ++
  repeat no_server (SETTINGS_SUBSONIC_SAVED_MAX - length rows).
Definition sync_subsonic_saved_sidecar (io : load_env) (s : player_settings_t) (st : saved_servers) : player_settings_t * saved_servers :=
  let '(rows, st) := subsonic_saved_servers_load qsort (servers_io io 0) st in
  let '(wrote, st) := push_rows io rows 1 (in_use (subsonic_saved_count s) (subsonic_saved s)) false st in
  let '(rows, st) := if wrote then subsonic_saved_servers_load qsort (servers_io io (S SETTINGS_SUBSONIC_SAVED_MAX)) st else (rows, st) in
  match rows with
  | [] => (s, st)
  | _ => (s <| subsonic_saved := mirror_rows rows |> <| subsonic_saved_count := Z.of_nat (Nat.min (length rows) SETTINGS_SUBSONIC_SAVED_MAX) |>, st)
  end.
(** The settings, and the saved servers, which are on the same disk. *)
Definition settings_load (io : load_env) (st : saved_servers) : bool * player_settings_t * saved_servers :=
  let fs := ss_disk st in
  let content := match read_file io fs SETTINGS_FILE_PATH with Some content => Some content | None => read_file io fs SETTINGS_LEGACY_FILE_PATH end in
  let s := match content with Some content => settle_settings (load_lines LONG_MAX content) | None => set_defaults end in
  let '(s, st) := sync_subsonic_saved_sidecar io (import_legacy_subsonic_servers io fs s) st in
  (match content with Some _ => true | None => false end, s, st).
End Load.

(** The calls of one [settings_write_file]: creating the file, its mode, the
    stream over it; what reaches the file when not all of the text does; and the
    rename. How the printing, flushing and closing turn out is not looked at. *)
Record write_env := { w_open : bool; w_fchmod : bool; w_fdopen : bool; w_left : option (list Z); w_rename : bool }.
Definition settings_write_file (io : write_env) (s : player_settings_t) : list fs_op :=
  if negb (w_open io) then [] else
  if negb (w_fchmod io && w_fdopen io) then [Create SETTINGS_TMP_FILE_PATH] else
  [Create SETTINGS_TMP_FILE_PATH; Append SETTINGS_TMP_FILE_PATH (default (settings_text s) (w_left io))] ++
  if w_rename io then [Rename SETTINGS_TMP_FILE_PATH SETTINGS_FILE_PATH] else [].

Example settings_defaults_back : settle_settings (load_lines 2147483647 (settings_text set_defaults)) = migrate_settings set_defaults.
Proof. by vm_compute. Qed.
