(* ===== verification/SettingsProofs.v ===== *)
(** The text of the settings read back: every line sets the field it was printed
    from, and the fields no line brings back keep their defaults. *)
From Stdlib Require String.
From S2P Require Import Prelude Endian QueueResume PlaylistFiles PathCache RowFile Doubles CText AudioHelpers SavedServers Settings.
Local Open Scope Z_scope.
Local Open Scope settings_scope.
#[local] Arguments bs : simpl never.
#[local] Arguments Z.max : simpl never.
#[local] Arguments Z.add : simpl never.
#[local] Arguments alter : simpl never.

(** ** Settings that fit in the file *)
Definition text_field (size : nat) (v : list Z) : Prop := Forall line_byte v /\ (length v < size)%nat.
Definition server_ok (e : subsonic_saved_server_t) : Prop :=
  text_field URL_SIZE (url e) /\ text_field FIELD_SIZE (username (login e)) /\ text_field FIELD_SIZE (password (login e)).
Definition in_i64 (v : Z) : Prop := -9223372036854775808 <= v <= 9223372036854775807.
Record storable (s : player_settings_t) : Prop := {
  ok_doubles : double_ok (volume s) /\ double_ok (last_position s);
  ok_strings : text_field 512 (last_track s) /\ text_field 128 (last_source_name s) /\ text_field 256 (subsonic_url s) /\
    text_field 128 (subsonic_username s) /\ text_field 128 (subsonic_password s) /\ text_field 16 (bt_codec s) /\
    text_field 64 (timezone s) /\ text_field 64 (hostname s);
  ok_checked : (bt_last_output_mac s = [] \/ valid_bt_output_mac (bt_last_output_mac s) = true) /\
    (remote_control_pin s = [] \/ valid_remote_control_pin (remote_control_pin s) = true) /\
    text_field 64 (custom_font s) /\ safe_font (custom_font s) = true;
  ok_ints : Forall in_i32 [last_source_kind s; resume_mode s; play_pause_button_mode s; replaygain_mode s; screen_timeout_seconds s;
    screen_dim_delay_seconds s; idle_shutdown_minutes s; usb_mode s; play_mode s; startup_volume_fixed_percent s; sleep_timer_minutes s;
    font_size_tier s; lyrics_font_size_tier s; brightness_percent s];
  ok_unsigned : in_u32 (accent_color s) /\ in_u32 (bt_sample_rate s);
  ok_clock : in_i64 (clock_manual_epoch s) /\ in_i64 (clock_system_reference s);
  ok_saved : length (subsonic_saved s) = SETTINGS_SUBSONIC_SAVED_MAX /\ 0 <= subsonic_saved_count s <= Z.of_nat SETTINGS_SUBSONIC_SAVED_MAX /\
    Forall server_ok (subsonic_saved s) /\ Forall (eq no_server) (drop (Z.to_nat (subsonic_saved_count s)) (subsonic_saved s));
  ok_rates : length (bt_device_rates s) = BT_DEVICE_RATE_MAX /\ 0 <= bt_device_rate_count s <= Z.of_nat BT_DEVICE_RATE_MAX /\
    Forall (fun d => text_field MAC_SIZE (mac d) /\ in_u32 (rate d)) (bt_device_rates s) }.

(** ** One line *)
Section Lines.
Context (LONG_MAX : Z) (Hlong : 2147483647 <= LONG_MAX).
Abbreviation load_key := (load_key LONG_MAX).
Abbreviation load_line := (load_line LONG_MAX).
Abbreviation load_lines := (load_lines LONG_MAX).

Lemma load_line_row s (key value : list Z) :
  61 ∉ key -> 10 ∉ key -> 10 ∉ value -> load_line s ((key ++ [61] ++ value) ++ [10]) = load_key key value s.
Proof.
  intros H61 H10 Hv. unfold Settings.load_line.
  destruct (take_while_all (fun c => negb (c =? 10)) (key ++ [61] ++ value) [10]) as [-> _].
  { rewrite !list.Forall_app. split; [|split; [by constructor|]]; apply list.Forall_forall; intros c Hc; apply negb_true_iff, Z.eqb_neq; by intros ->. }
  { by intros c t [= <- <-]. }
  assert (drop (S (length key)) (key ++ 61 :: value) = value) as Hdrop
    by (rewrite cons_middle, app_assoc; apply drop_app_length'; rewrite length_app; cbn; lia).
  cbn [app]. rewrite strchr_here by assumption. rewrite take_app_length, Hdrop. reflexivity.
Qed.

(** Evaluates the comparisons of a known key. *)
Ltac pick t :=
  lazymatch t with
  | if ?c then ?a else ?b => let v := eval vm_compute in c in lazymatch v with true => constr:(a) | false => pick b end
  | _ => constr:(t)
  end.
Ltac load_step :=
  match goal with
  | |- context [Settings.load_key ?L (bs ?k) ?v ?s] =>
      let body := eval cbv beta delta [Settings.load_key] in (Settings.load_key L (bs k) v s) in
      let r := pick body in
      change (Settings.load_key L (bs k) v s) with r
  end.

(** *** Values *)
Definition value_ok (v : list Z) : Prop := Forall line_byte v /\ (length v <= 511)%nat.
Lemma text_value size v : (size <= 512)%nat -> text_field size v -> value_ok v.
Proof. intros Hs [H1 H2]. split; [done|lia]. Qed.
Lemma flag_value b : value_ok (flag b).
Proof. destruct b; (split; [constructor; [unfold line_byte, is_char; lia|done]|cbn; lia]). Qed.
Lemma dec_value v : in_i32 v -> value_ok (dec v).
Proof. intros Hv. split; [by apply dec_line|]. destruct (dec_bytes v Hv) as [_ H]. lia. Qed.
Lemma udec_value v : 0 <= v < 10 ^ 20 -> value_ok (udec v).
Proof. intros Hv. split; [apply digit_line, udec_spec; lia|]. pose proof (udec_length 20 v). lia. Qed.
Lemma unsigned_value v : in_u32 v -> value_ok (udec v).
Proof. unfold in_u32. intros Hv. apply udec_value. change (10 ^ 20) with 100000000000000000000. lia. Qed.
Lemma sdec_value v : in_i64 v -> value_ok (sdec v).
Proof.
  intros Hv. unfold in_i64 in Hv. destruct (udec_value (Z.abs v)) as [H1 _]; [change (10 ^ 20) with 100000000000000000000; lia|].
  pose proof (udec_length 20 (Z.abs v) ltac:(lia)) as H2. change (10 ^ Z.of_nat 20) with 100000000000000000000 in H2.
  unfold sdec. split; [by apply (minus_line (v <? 0))|]. rewrite length_app. destruct (v <? 0); cbn [length]; lia.
Qed.
Lemma print3_value x : double_ok x -> value_ok (print3 x).
Proof. intros Hx. split; [apply print3_line|]. pose proof (print3_length x Hx). lia. Qed.
Lemma hex6_value v : value_ok (hex6 v).
Proof. destruct (hex6_line v) as [H1 H2]. split; [done|lia]. Qed.

Lemma mac_value m : m = [] \/ valid_bt_output_mac m = true -> value_ok m.
Proof.
  intros [->|H]; [by split; [|cbn; lia]|]. unfold valid_bt_output_mac in H. apply andb_true_iff in H as [Hlen%Nat.eqb_eq H]. split; [|lia].
  rewrite forallb_forall in H. apply list.Forall_forall. intros c [i Hi]%list_elem_of_lookup.
  assert (mac_char i c = true) as Hc by (apply H, list_elem_of_In, list_elem_of_lookup; exists i; by rewrite list_lookup_imap, Hi).
  unfold mac_char, is_hex, isdigit in Hc. unfold line_byte, is_char. destruct (existsb _ _); bool_prop; lia.
Qed.
Lemma pin_value m : m = [] \/ valid_remote_control_pin m = true -> value_ok m.
Proof.
  intros [->|H]; [by split; [|cbn; lia]|]. unfold valid_remote_control_pin, REMOTE_CONTROL_PIN_MAX_LENGTH in H. rewrite !andb_true_iff, !Nat.leb_le, forallb_forall in H.
  destruct H as ((_ & Hlen) & H). split; [|lia]. by apply digit_line, List.Forall_forall.
Qed.
Lemma rate_value m r : text_field MAC_SIZE m -> in_u32 r -> value_ok (m ++ [44] ++ udec r).
Proof.
  intros [Hm Hlen] Hr. unfold MAC_SIZE in Hlen. unfold in_u32 in Hr. pose proof (udec_length 10 r) as Hd. change (10 ^ Z.of_nat 10) with 10000000000 in Hd. split.
  - rewrite !list.Forall_app. split; [done|]. split; [constructor; [unfold line_byte, is_char; lia|done]|]. apply digit_line, udec_spec. lia.
  - rewrite !length_app. cbn [length]. lia.
Qed.

Definition plain_key (k : list Z) : bool := forallb (fun c => (0 <? c) && (c <? 256) && negb (c =? 61) && negb (c =? 10)) k && (length k <=? 40)%nat.
Lemma plain_key_spec k : plain_key k = true -> Forall line_byte k /\ 61 ∉ k /\ (length k <= 40)%nat.
Proof.
  unfold plain_key. rewrite andb_true_iff, forallb_forall, Nat.leb_le. intros [H Hlen]. setoid_rewrite <- list_elem_of_In in H.
  split; [|split; [|done]]; [apply list.Forall_forall; intros c Hc%H; unfold line_byte, is_char; bool_prop; lia|]. by intros Hc%H.
Qed.
Lemma key_row_ok k v : plain_key k = true -> value_ok v -> row_ok 600 (k ++ [61] ++ v).
Proof.
  intros (Hk & _ & Hlen)%plain_key_spec [Hv Hv']. assert (Forall line_byte (k ++ [61] ++ v)) as Hall.
  { rewrite !list.Forall_app. split; [done|split; [|done]]. constructor; [unfold line_byte, is_char; lia|done]. }
  apply line_bytes in Hall as [H1 H2]. split; [done|]. split; [done|]. rewrite !length_app. cbn [length]. lia.
Qed.
Definition ended (r : list Z) : list Z := r ++ [10].
Abbreviation load_rows rows s := (fold_left load_line (map ended rows) s).
Lemma load_row k v rows s :
  plain_key k = true -> value_ok v -> load_rows ((k ++ [61] ++ v) :: rows) s = load_rows rows (load_key k v s).
Proof.
  intros (Hk & H61 & _)%plain_key_spec [Hv _]. cbn [map fold_left]. f_equal. apply line_bytes in Hk as [_ Hk], Hv as [_ Hv].
  by apply load_line_row.
Qed.

(** *** What the values read back as *)
Lemma snprintf_text size v : text_field size v -> snprintf_s size v = v.
Proof. intros [_ H]. apply take_ge. lia. Qed.
Lemma equals_flag b : equals (flag b) "1" = b.
Proof. by destruct b. Qed.
Lemma load_mac m : m = [] \/ valid_bt_output_mac m = true -> (if valid_bt_output_mac m then snprintf_s MAC_SIZE m else []) = m.
Proof.
  intros [->|H]; [done|]. rewrite H. unfold valid_bt_output_mac in H. apply andb_true_iff in H as [H _]. apply Nat.eqb_eq in H.
  apply take_ge. unfold MAC_SIZE. lia.
Qed.
Lemma load_pin m t :
  m = [] \/ valid_remote_control_pin m = true -> remote_control_pin t = [] ->
  (if valid_remote_control_pin m then t <| remote_control_pin := snprintf_s (S REMOTE_CONTROL_PIN_MAX_LENGTH) m |> else t) = t <| remote_control_pin := m |>.
Proof.
  intros [->|H] Ht; [destruct t; cbn in *; by subst|]. rewrite H. unfold valid_remote_control_pin in H. rewrite !andb_true_iff, Nat.leb_le in H.
  destruct H as ((_ & H) & _). apply Nat.leb_le in H. unfold snprintf_s. by rewrite take_ge by lia.
Qed.
(** No line of the file brings a rate of a device back. *)
Lemma load_device_rate_never value s : load_device_rate LONG_MAX value s = s.
Proof.
  unfold load_device_rate. destruct (strchr 44 value) as [comma|] eqn:E; [|done]. apply strchr_Some in E.
  destruct (strtoul _ _ _) as [[parsed [|]]|]; [|done|done]. destruct (valid_bt_output_mac value) eqn:Hv; [|by rewrite andb_false_r].
  destruct (Nat.eqb_spec comma 17) as [->|]; [exfalso|by rewrite andb_false_r].
  unfold valid_bt_output_mac in Hv. apply andb_true_iff in Hv as [Hv _]. apply Nat.eqb_eq in Hv.
  destruct E as [E _]. apply lookup_lt_Some in E. lia.
Qed.

(** *** Rows of the arrays *)
Lemma scan_saved_key_at i field :
  (i < 16)%nat -> forallb (fun c => negb (isspace c)) (bs field) = true -> bs field <> [] -> (length (bs field) <= 31)%nat ->
  scan_saved_key LONG_MAX (saved_key i field) = Some (Z.of_nat i, bs field).
Proof.
  intros Hi Hf Hne Hlen. assert (in_i32 (Z.of_nat i)) as Hi32 by (unfold in_i32, INT_MAX; lia).
  unfold scan_saved_key, saved_key. change (drop 15 _) with (dec (Z.of_nat i) ++ [95] ++ bs field).
  rewrite strtol_dec; [|done|done|by intros c t [= <- <-]]. cbn [mbind option_bind app]. change (95 =? 95) with true. cbn [negb].
  destruct (take_while_all (fun c => negb (isspace c)) (bs field) []) as [Htake _]; [by apply List.Forall_forall; apply forallb_forall|done|].
  rewrite app_nil_r in Htake. assert (drop_while isspace (bs field) = bs field) as ->.
  { destruct (bs field) as [|c t]; [done|]. cbn in Hf |- *. apply andb_true_iff in Hf as [Hc _]. by destruct (isspace c). }
  rewrite Htake, take_ge by done. rewrite i32_id by done. by destruct (bs field).
Qed.
Lemma load_saved_key i field v s : load_key (saved_key i field) v s = load_saved_row LONG_MAX (saved_key i field) v s.
Proof. reflexivity. Qed.
Lemma alter_at {A} (f : A -> A) (l : list A) (i : nat) x : l !! i = Some x -> alter f i l = <[i := f x]> l.
Proof. revert i. induction l as [|y l IH]; intros [|i] Hi; [done|done|by injection Hi as ->|]. exact (f_equal (cons y) (IH i Hi)). Qed.
(** A row of entry [i], which is in use from then on. *)
Lemma load_saved_field i field v s :
  (i < 16)%nat -> forallb (fun c => negb (isspace c)) (bs field) = true -> bs field <> [] -> (length (bs field) <= 31)%nat ->
  load_key (saved_key i field) v s =
    s <| subsonic_saved_count := Z.max (subsonic_saved_count s) (Z.of_nat i + 1) |>
      <| subsonic_saved := alter (set_saved_field (bs field) v) i (subsonic_saved s) |>.
Proof.
  intros Hi H1 H2 H3. rewrite load_saved_key. unfold load_saved_row. rewrite scan_saved_key_at by done.
  rewrite (proj2 (Z.leb_le 0 _)), (proj2 (Z.ltb_lt _ (Z.of_nat SETTINGS_SUBSONIC_SAVED_MAX))) by (unfold SETTINGS_SUBSONIC_SAVED_MAX; lia).
  cbn [andb]. rewrite Nat2Z.id. destruct (Z.ltb_spec (subsonic_saved_count s) (Z.of_nat i + 1)).
  - rewrite Z.max_r by lia. by destruct s.
  - rewrite Z.max_l by lia. by destruct s.
Qed.
Lemma saved_key_plain i field : (i < 16)%nat -> plain_key (bs field) = true -> (length (bs field) <= 12)%nat -> plain_key (saved_key i field) = true.
Proof.
  intros Hi Hf Hlen. assert (in_i32 (Z.of_nat i)) as Hi32 by (unfold in_i32, INT_MAX; lia). destruct (dec_bytes _ Hi32) as [Hd Hl].
  unfold plain_key in *. apply andb_true_iff in Hf as [Hf _]. unfold saved_key. rewrite !forallb_app, Hf.
  assert (forallb (fun c => (0 <? c) && (c <? 256) && negb (c =? 61) && negb (c =? 10)) (dec (Z.of_nat i)) = true) as ->.
  { apply forallb_forall. rewrite List.Forall_forall in Hd. intros c Hc%Hd. unfold number_byte in Hc. apply orb_true_iff in Hc as [Hc%isdigit_range|Hc]; bool_prop; lia. }
  apply andb_true_iff. split; [done|]. apply Nat.leb_le. rewrite !length_app. change (length (bs "subsonic_saved_")) with 15%nat. cbn [length]. lia.
Qed.
Lemma load_saved_entry i e s rows :
  (i < 16)%nat -> server_ok e -> subsonic_saved s !! i = Some no_server -> subsonic_saved_count s <= Z.of_nat i + 1 ->
  load_rows (saved_rows i e ++ rows) s = load_rows rows (s <| subsonic_saved_count := Z.of_nat i + 1 |> <| subsonic_saved := <[i := e]> (subsonic_saved s) |>).
Proof.
  intros Hi (Hu & Hn & Hp) Hs Hc. change (saved_rows i e ++ rows) with ((saved_key i "url" ++ [61] ++ url e) :: (saved_key i "username" ++ [61] ++ username (login e)) ::
    (saved_key i "password" ++ [61] ++ password (login e)) :: (saved_key i "verify_tls" ++ [61] ++ flag (verify_tls (login e))) :: rows).
  rewrite !load_row by (apply saved_key_plain; [done|done|by apply Nat.leb_le] || apply flag_value || by eapply text_value; [|done]; apply Nat.leb_le).
  rewrite !load_saved_field by (done || by apply Nat.leb_le). f_equal. destruct s. unfold setter. cbn in *. f_equal; [|lia].
  rewrite !list_alter_alter_eq, (alter_at _ _ i no_server) by done. f_equal.
  transitivity {| url := snprintf_s URL_SIZE (url e); login := {| username := snprintf_s FIELD_SIZE (username (login e));
    password := snprintf_s FIELD_SIZE (password (login e)); verify_tls := equals (flag (verify_tls (login e))) "1" |} |}; [reflexivity|].
  rewrite (snprintf_text _ _ Hu), (snprintf_text _ _ Hn), (snprintf_text _ _ Hp), equals_flag. by destruct e as [? []].
Qed.

Lemma load_saved_rows es : forall i s rows,
  Forall server_ok es -> (i + length es <= SETTINGS_SUBSONIC_SAVED_MAX)%nat -> subsonic_saved_count s = Z.of_nat i ->
  drop i (subsonic_saved s) = repeat no_server (SETTINGS_SUBSONIC_SAVED_MAX - i) ->
  load_rows (concat (imap (fun k => saved_rows (i + k)) es) ++ rows) s =
    load_rows rows (s <| subsonic_saved_count := Z.of_nat (i + length es) |>
      <| subsonic_saved := take i (subsonic_saved s) ++ es ++ repeat no_server (SETTINGS_SUBSONIC_SAVED_MAX - (i + length es)) |>).
Proof.
  induction es as [|e es IH]; intros i s rows Hes Hi Hc Hdrop.
  - cbn [imap concat app length]. rewrite Nat.add_0_r, <- Hdrop, take_drop, <- Hc. f_equal. by destruct s.
  - apply Forall_cons_1 in Hes as [He Hes]. cbn [length] in Hi. rewrite imap_cons. cbn [concat]. rewrite <- app_assoc, Nat.add_0_r.
    assert (subsonic_saved s !! i = Some no_server) as Hlook.
    { rewrite <- (Nat.add_0_r i), <- lookup_drop, Hdrop. by destruct (SETTINGS_SUBSONIC_SAVED_MAX - i)%nat eqn:E; [lia|]. }
    rewrite load_saved_entry by (unfold SETTINGS_SUBSONIC_SAVED_MAX in Hi; done || lia).
    assert (imap ((fun k => saved_rows (i + k)) ∘ S) es = imap (fun k => saved_rows (S i + k)) es) as ->
      by (apply imap_ext; intros k x _; unfold compose; by rewrite Nat.add_succ_r).
    assert (length (take i (subsonic_saved s)) = i) as Hlen by (rewrite length_take; apply lookup_lt_Some in Hlook; lia).
    rewrite IH; [|done|lia|by destruct s; cbn; lia|].
    + f_equal. destruct s. unfold setter. cbn in *. f_equal; [|lia].
      rewrite (take_S_r _ i e) by (rewrite list_lookup_insert_eq; [done|by eapply lookup_lt_Some]). rewrite take_insert_ge by lia.
      rewrite <- app_assoc. cbn [app]. by rewrite Nat.add_succ_r.
    + destruct s. unfold setter. cbn [Settings.subsonic_saved] in *. rewrite drop_insert_lt by lia. replace (S i) with (i + 1)%nat by lia. rewrite <- drop_drop, Hdrop.
      replace (SETTINGS_SUBSONIC_SAVED_MAX - i)%nat with (S (SETTINGS_SUBSONIC_SAVED_MAX - (i + 1))) by lia. reflexivity.
Qed.
Lemma load_rate_rows ds s rows :
  Forall (fun d => text_field MAC_SIZE (mac d) /\ in_u32 (rate d)) ds -> load_rows (map rate_row ds ++ rows) s = load_rows rows s.
Proof.
  induction 1 as [|d ds [Hm Hr] _ IH]; [done|].
  change (map rate_row (d :: ds) ++ rows) with ((bs "bt_device_rate" ++ [61] ++ (mac d ++ [44] ++ udec (rate d))) :: (map rate_row ds ++ rows)).
  rewrite load_row by (done || by apply rate_value). rewrite <- IH. f_equal. exact (load_device_rate_never _ _).
Qed.

(** ** The whole file *)

(** What the file keeps of the settings: the doubles in thousandths, 24 bits of the
    colour, and neither the rates of the devices nor the mode that is not written. *)
Definition stored (s : player_settings_t) : player_settings_t :=
  s <| volume := to_float (milli (volume s)) |> <| last_position := milli (last_position s) |> <| accent_color := Z.land (accent_color s) 16777215 |>
    <| bt_dac_mode_enabled := false |> <| bt_device_rates := repeat no_rate BT_DEVICE_RATE_MAX |> <| bt_device_rate_count := 0 |>.

Create HintDb values.
Hint Resolve flag_value udec_value sdec_value dec_value hex6_value print3_value unsigned_value mac_value pin_value : values.
Ltac load_key_step :=
  match goal with
  | |- context [Settings.load_key ?L (bs ?k) ?v ?s] =>
      let body := eval cbv beta delta [Settings.load_key] in (Settings.load_key L (bs k) v s) in
      let r := pick body in change (Settings.load_key L (bs k) v s) with r
  end.
Ltac load_next :=
  unfold kv at 1; rewrite load_row by (reflexivity || eauto 3 with values nocore || (eapply text_value; [|eassumption]; by apply Nat.leb_le)); load_key_step.
Lemma colour_range c : 0 <= Z.land c 16777215 < 16777216.
Proof. change 16777215 with (Z.ones 24). rewrite Z.land_ones by lia. by apply Z.mod_pos_bound. Qed.
Lemma load_colour c : u32 (only_value (strtoul (ULONG_MAX LONG_MAX) 16 (hex6 (Z.land c 16777215)))) = Z.land c 16777215.
Proof. pose proof (colour_range c). rewrite strtoul_hex6 by (unfold ULONG_MAX; lia). apply u32_id. unfold in_u32. cbn. lia. Qed.
Lemma load_unsigned v : in_u32 v -> u32 (only_value (strtoul (ULONG_MAX LONG_MAX) 10 (udec v))) = v.
Proof.
  intros Hv. pose proof Hv as Hv'. unfold in_u32 in Hv'. rewrite <- (app_nil_r (udec v)), strtoul_udec by (done || unfold ULONG_MAX; lia). by apply u32_id.
Qed.
Lemma load_clock v : in_i64 v -> only_value (strtol LLONG_MAX (sdec v)) = v.
Proof. intros Hv. unfold LLONG_MAX. by rewrite strtoll_sdec. Qed.
Lemma load_font v : text_field 64 v -> safe_font v = true -> (if safe_font v then snprintf_s 64 v else []) = v.
Proof. intros Hv ->. by apply snprintf_text. Qed.

Ltac read_values :=
  rewrite ?atof_print3, ?equals_flag, ?load_colour;
  repeat match goal with
  | |- context [snprintf_s ?size ?v] => rewrite (snprintf_text size v) by assumption
  | |- context [atoi LONG_MAX (dec ?v)] => rewrite (atoi_dec LONG_MAX v) by assumption
  | |- context [only_value (strtol LLONG_MAX (sdec ?v))] => rewrite (load_clock v) by assumption
  | |- context [u32 (only_value (strtoul _ 10 (udec ?v)))] => rewrite (load_unsigned v) by assumption
  end.
Ltac rest_of_state t := match goal with |- fold_left _ _ ?s = _ => set (t := s) end.
(** The rows in use and the empty ones behind them. *)
Lemma saved_whole s :
  length (subsonic_saved s) = SETTINGS_SUBSONIC_SAVED_MAX -> 0 <= subsonic_saved_count s <= Z.of_nat SETTINGS_SUBSONIC_SAVED_MAX ->
  Forall (eq no_server) (drop (Z.to_nat (subsonic_saved_count s)) (subsonic_saved s)) ->
  let es := in_use (subsonic_saved_count s) (subsonic_saved s) in
  Z.of_nat (length es) = subsonic_saved_count s /\ es ++ repeat no_server (SETTINGS_SUBSONIC_SAVED_MAX - length es) = subsonic_saved s.
Proof.
  intros Hlen Hc Hdrop es. assert (length es = Z.to_nat (subsonic_saved_count s)) as Hes by (unfold es, in_use; rewrite length_take; lia).
  rewrite Hes. split; [lia|]. transitivity (es ++ drop (Z.to_nat (subsonic_saved_count s)) (subsonic_saved s)); [f_equal|apply take_drop].
  rewrite <- Hlen, <- length_drop. clear -Hdrop. induction Hdrop as [|e l <- _ IH]; [done|]. exact (f_equal (cons no_server) IH).
Qed.
Lemma load_settings_rows s : storable s -> load_rows (settings_rows s) set_defaults = stored s.
Proof.
  intros []. rewrite !Forall_cons_iff in ok_ints0. destruct_and!. unfold settings_rows, player_rows, bluetooth_rows, other_rows.
  rewrite <- !app_comm_cons, !app_nil_l. do 18 load_next. read_values. rest_of_state t1.
  pose proof (load_saved_rows (in_use (subsonic_saved_count s) (subsonic_saved s)) 0) as Hsaved.
  rewrite Hsaved; [| |unfold in_use; rewrite length_take; lia|reflexivity|reflexivity].
  2:{ by apply Forall_take. }
  destruct (saved_whole s) as [Hcount Hwhole]; [assumption|lia|assumption|]. rewrite Nat.add_0_l, Hcount. change (take 0 _ ++ ?l) with l. rewrite Hwhole. clear Hsaved Hcount Hwhole.
  do 3 load_next. read_values. rewrite load_rate_rows by (by apply Forall_take). rest_of_state t2.
  do 2 load_next. rewrite load_mac by done. do 4 load_next. read_values. rest_of_state t3. load_next. rewrite load_pin by (done || reflexivity). rest_of_state t4.
  do 15 load_next. read_values. rest_of_state t5. do 16 load_next. rewrite load_font by done. read_values.
  cbn [map fold_left]. subst t1 t2 t3 t4 t5. clear. destruct s. reflexivity.
Qed.

Ltac value_step := reflexivity || eauto 3 with values nocore || (eapply text_value; [|eassumption]; by apply Nat.leb_le).
Lemma saved_rows_ok i es : Forall server_ok es -> (i + length es <= SETTINGS_SUBSONIC_SAVED_MAX)%nat -> Forall (row_ok 600) (concat (imap (fun k => saved_rows (i + k)) es)).
Proof.
  intros Hes. revert i. induction Hes as [|e es (Hu & Hn & Hp) _ IH]; intros i Hi; [done|]. cbn [length] in Hi. rewrite imap_cons. cbn [concat].
  apply list.Forall_app. split.
  - rewrite Nat.add_0_r. unfold saved_rows, SETTINGS_SUBSONIC_SAVED_MAX in *. repeat (constructor; [apply key_row_ok; [apply saved_key_plain; [lia|done|by apply Nat.leb_le]|value_step]|]). constructor.
  - rewrite (imap_ext _ (fun k => saved_rows (S i + k))) by (intros k x _; unfold compose; by rewrite Nat.add_succ_r). apply IH. lia.
Qed.
Lemma settings_rows_ok s : storable s -> Forall (row_ok 600) (settings_rows s).
Proof.
  intros []. rewrite !Forall_cons_iff in ok_ints0. destruct_and!. unfold settings_rows. rewrite !list.Forall_app. repeat split.
  - unfold player_rows, kv. repeat (constructor; [apply key_row_ok; value_step|]). constructor.
  - apply (saved_rows_ok 0); [by apply Forall_take|]. unfold in_use. rewrite length_take. lia.
  - unfold bluetooth_rows, kv. repeat (constructor; [apply key_row_ok; value_step|]). constructor.
  - apply Forall_map, Forall_take. eapply List.Forall_impl; [|eassumption]. intros d [Hm Hr]. apply key_row_ok; [reflexivity|by apply rate_value].
  - unfold other_rows, kv. repeat (constructor; [apply key_row_ok; value_step|]). constructor.
Qed.
Lemma load_settings_text s : storable s -> load_lines (settings_text s) = stored s.
Proof.
  intros Hs. unfold Settings.load_lines, settings_text. rewrite fgets_lines_rows; [|by apply settings_rows_ok|apply rows_text_length].
  by apply load_settings_rows.
Qed.
End Lines.

(** ** After the last line *)
Definition within (lo hi v : Z) : bool := (lo <=? v) && (v <=? hi).
Definition one_of (steps : list Z) (v : Z) : bool := existsb (Z.eqb v) steps.
Definition in_bounds (s : player_settings_t) : bool :=
  within 0 2 (usb_mode s) && within 0 3 (play_mode s) && within 0 2 (font_size_tier s) && within 1 2 (lyrics_font_size_tier s) && within 0 2 (replaygain_mode s) &&
  within 0 100 (startup_volume_fixed_percent s) && within 0 100 (brightness_percent s) && within 0 2 (resume_mode s) && within 0 2 (play_pause_button_mode s) &&
  idle_suspend_default_migrated s && one_of SCREEN_TIMEOUT_STEPS (screen_timeout_seconds s) && one_of SCREEN_DIM_DELAY_STEPS (screen_dim_delay_seconds s) &&
  one_of IDLE_SHUTDOWN_STEPS (idle_shutdown_minutes s) && one_of SLEEP_TIMER_STEPS (sleep_timer_minutes s).
Lemma in_range_id lo hi v other : within lo hi v = true -> in_range lo hi v other = v.
Proof. unfold in_range, within. intros H. split_ifs; bool_prop; lia. Qed.
Lemma in_range_within lo hi v other : within lo hi other = true -> within lo hi (in_range lo hi v other) = true.
Proof. unfold in_range, within. intros H. split_ifs; bool_prop; lia. Qed.
(** A step stays what it is, and whatever the value, a step comes out. *)
Definition steps_stay (steps : list Z) : bool := forallb (fun v => nearest_step v steps =? v) steps.
Lemma nearest_step_id steps v : steps_stay steps = true -> one_of steps v = true -> nearest_step v steps = v.
Proof.
  unfold steps_stay, one_of. rewrite forallb_forall, existsb_exists. intros H (w & Hw & ->%Z.eqb_eq). by apply Z.eqb_eq, H.
Qed.
Lemma nearest_step_fold value rest : forall best,
  let r := fold_left (fun '(best, best_diff) step => if distance value step <? best_diff then (step, distance value step) else (best, best_diff)) rest (best, distance value best) in
  (fst r = best \/ fst r ∈ rest) /\ snd r = distance value (fst r) /\ snd r <= distance value best /\ Forall (fun step => snd r <= distance value step) rest.
Proof.
  induction rest as [|step rest IH]; intros best; cbn [fold_left]; [cbn; repeat split; [by left|lia|done]|].
  destruct (Z.ltb_spec (distance value step) (distance value best)) as [Hlt|Hge].
  - destruct (IH step) as (Hin & H1 & H2 & H3). split; [right; rewrite list.elem_of_cons; tauto|]. split; [done|]. split; [lia|by constructor].
  - destruct (IH best) as (Hin & H1 & H2 & H3). split; [rewrite list.elem_of_cons; tauto|]. split; [done|]. split; [lia|constructor; [lia|done]].
Qed.
Lemma nearest_step_in value steps : steps <> [] -> one_of steps (nearest_step value steps) = true.
Proof.
  destruct steps as [|first rest]; [done|]. intros _. unfold nearest_step. destruct (nearest_step_fold value rest first) as (H & _).
  apply existsb_exists. eexists. split; [|by apply Z.eqb_eq]. destruct H as [->|H]; [by left|right; by apply list_elem_of_In].
Qed.
(** Where the differences are numbers of C, no step is nearer. *)
Lemma nearest_step_nearest value steps :
  Forall (fun step => - INT_MAX <= value - step <= INT_MAX) steps -> Forall (fun step => Z.abs (value - nearest_step value steps) <= Z.abs (value - step)) steps.
Proof.
  destruct steps as [|first rest]; [done|]. intros Hall. unfold nearest_step. destruct (nearest_step_fold value rest first) as (Hin & Hd & Hf & Hr).
  assert (forall step, In step (first :: rest) -> distance value step = Z.abs (value - step)) as Hdist.
  { intros step Hstep. rewrite List.Forall_forall in Hall. apply Hall in Hstep. unfold distance. rewrite (i32_id (value - step)), i32_id; unfold in_i32, INT_MAX in *; lia. }
  rewrite Hd, (Hdist (fst _)) in Hf, Hr by (destruct Hin as [->|Hin]; [by left|right; by apply list_elem_of_In]).
  constructor; [rewrite <- (Hdist first) by (by left); exact Hf|]. apply List.Forall_forall. intros step Hstep.
  rewrite List.Forall_forall in Hr. rewrite <- (Hdist step) by (by right). by apply Hr.
Qed.

Lemma settle_bounds s : in_bounds (settle_settings s) = true.
Proof.
  assert (forall t, idle_suspend_default_migrated t = true -> in_bounds (snap_settings (clamp_settings t)) = true) as Hin.
  { intros t Ht. unfold in_bounds. destruct t. cbn in Ht. rewrite !andb_true_iff. repeat split;
      match goal with |- ?x = true => let y := eval lazy -[in_range nearest_step within one_of] in x in change (y = true) end;
      first [apply in_range_within; reflexivity|apply nearest_step_in; discriminate|exact Ht]. }
  unfold settle_settings. destruct (idle_suspend_default_migrated s) eqn:E.
  - replace (migrate_settings (clamp_settings s)) with (clamp_settings s); [by apply Hin|]. unfold migrate_settings. destruct s; cbn in E |- *. by rewrite E.
  - rewrite <- (Hin (migrate_settings s)); [|by unfold migrate_settings; rewrite E; destruct s]. f_equal. destruct s. cbn in E. subst. reflexivity.
Qed.
Lemma settle_in_bounds s : in_bounds s = true -> settle_settings s = s.
Proof.
  unfold in_bounds. rewrite !andb_true_iff. intros H. destruct_and!.
  unfold settle_settings. assert (clamp_settings s = s) as ->.
  { unfold clamp_settings. destruct s; cbn in *. by rewrite !in_range_id by assumption. }
  assert (migrate_settings s = s) as -> by (unfold migrate_settings; by case_match).
  unfold snap_settings. destruct s; unfold setter. cbn -[nearest_step one_of] in *. by rewrite !nearest_step_id by done.
Qed.
