(* ===== verification/SettingsSane.v ===== *)
(** Whatever the bytes of the settings file, what is loaded from it fits the
    structure, can be saved again, and is in range. *)
From Stdlib Require String.
From S2P Require Import Prelude Endian QueueResume PlaylistFiles PathCache RowFile Doubles CText AudioHelpers SavedServers Settings SettingsProofs.
Local Open Scope Z_scope.
Local Open Scope settings_scope.

(** ** Values *)
Lemma double_fits x : fits_format 53 1024 x -> double_ok x.
Proof. by destruct x. Qed.
Lemma scaled_ok neg m base e : double_ok (scaled neg m base e).
Proof.
  unfold scaled. destruct m; [done| |done]. destruct (0 <=? e); [by apply double_fits, binary_normalize_fits|].
  destruct (base ^ - e); [done| |done]. by apply double_fits, SFdiv_fits.
Qed.
Lemma milli_ok x : double_ok (milli x).
Proof. destruct x; [done..|apply scaled_ok]. Qed.
Lemma atof_ok s : double_ok (atof s).
Proof.
  unfold atof. destruct (read_sign s) as [negative t]. destruct (starts_with_ci _ _); [done|]. destruct (starts_with_ci _ _); [done|].
  destruct (_ ≫= _) as [[[m behind] t']|]; [apply scaled_ok|]. destruct (read_mantissa 10 t) as [[[m behind] t']|]; [apply scaled_ok|done].
Qed.
Lemma to_float_ok x : double_ok x -> double_ok (to_float x).
Proof.
  destruct x as [| | |s m e]; try done. intros _. unfold to_float.
  pose proof (binary_normalize_fits 24 128 ltac:(done) (cond_Zopp s (Z.pos m)) e s) as H. destruct (binary_normalize _ _ _ _ _); [done..|].
  destruct H as [H1 H2]. change (2 ^ 24) with 16777216 in H1. split; [change (2 ^ 53) with 9007199254740992|]; lia.
Qed.
Lemma snprintf_field size v : (0 < size)%nat -> Forall line_byte v -> text_field size (snprintf_s size v).
Proof. intros Hs Hv. split; [by apply Forall_take|]. unfold snprintf_s. rewrite length_take. lia. Qed.
Lemma strtol_bound L s : 0 <= L -> - L - 1 <= only_value (strtol L s) <= L.
Proof.
  intros HL. unfold strtol. destruct (match drop_while isspace s with [] => _ | _ => _ end) as [neg t].
  destruct (take_while isdigit t) as [|d ds] eqn:E; [cbn; lia|]. cbn [only_value].
  assert (forall l v, 0 <= v -> Forall (fun c => isdigit c = true) l -> 0 <= fold_left (fun v c => v * 10 + (c - 48)) l v) as Hpos.
  { intros l. induction l as [|c l IH]; intros v Hv Hl; [done|]. apply Forall_cons_1 in Hl as [Hc%isdigit_range Hl]. cbn [fold_left]. apply IH; [lia|done]. }
  assert (Forall (fun c => isdigit c = true) (take_while isdigit t)) as Hall.
  { clear. induction t as [|c t IH]; [done|]. cbn. destruct (isdigit c) eqn:Ec; [by constructor|done]. }
  rewrite E in Hall. specialize (Hpos (d :: ds) 0 ltac:(lia) Hall).
  destruct neg; lia.
Qed.
Lemma strtol_clock s : in_i64 (only_value (strtol LLONG_MAX s)).
Proof. pose proof (strtol_bound LLONG_MAX s ltac:(done)) as H. unfold LLONG_MAX in *. unfold in_i64. lia. Qed.
Lemma strchr_take c n s : strchr c s = None -> strchr c (take n s) = None.
Proof. rewrite !strchr_None. intros H Hin. apply H. by apply elem_of_take in Hin as (i & Hi & _); apply list_elem_of_lookup_2 in Hi. Qed.
Lemma starts_with_take p n s : starts_with p (take n s) = true -> starts_with p s = true.
Proof. rewrite !starts_with_spec. intros [t Ht]. exists (t ++ drop n s). by rewrite app_assoc, <- Ht, take_drop. Qed.
Lemma strstr_take p n s : strstr p s = None -> strstr p (take n s) = None.
Proof.
  revert n. induction s as [|c s IH]; intros n; [by rewrite take_nil|]. cbn [strstr]. destruct (starts_with p (c :: s)) eqn:E; [done|].
  destruct (strstr p s) eqn:Es; [done|]. intros _. destruct n as [|n]; cbn [take strstr].
  - destruct p; [done|]. done.
  - destruct (starts_with p (c :: take n s)) eqn:E'; [|by rewrite IH].
    change (c :: take n s) with (take (S n) (c :: s)) in E'. apply starts_with_take in E'. congruence.
Qed.
Lemma safe_font_take n v : safe_font v = true -> safe_font (take n v) = true.
Proof.
  unfold safe_font. destruct (strchr 47 v) eqn:E1, (strchr 92 v) eqn:E2, (strstr (bs "..") v) eqn:E3; try done. intros _.
  by rewrite !strchr_take, strstr_take.
Qed.

(** ** One line *)
Section Lines.
Context (LONG_MAX : Z).
Lemma set_saved_field_ok field value e : Forall line_byte value -> server_ok e -> server_ok (set_saved_field field value e).
Proof.
  intros Hv (Hu & Hn & Hp). unfold set_saved_field. repeat case_match; (split; [|split]); try done; by apply snprintf_field; [apply Nat.ltb_lt|].
Qed.
Lemma load_saved_row_storable key value s : Forall line_byte value -> storable s -> storable (load_saved_row LONG_MAX key value s).
Proof.
  intros Hv Hs. unfold load_saved_row. destruct (scan_saved_key _ _) as [[idx field]|]; [|done].
  destruct (Z.leb_spec 0 idx); [|done]. destruct (Z.ltb_spec idx (Z.of_nat SETTINGS_SUBSONIC_SAVED_MAX)) as [Hlt|]; [|done]. cbn [andb].
  set (t := if _ : bool then _ else s). assert (storable t /\ idx + 1 <= subsonic_saved_count t) as [Ht Hidx].
  { unfold t. destruct (Z.ltb_spec (subsonic_saved_count s) (idx + 1)) as [Hc|]; [|done]. split; [|destruct s; cbn; lia].
    destruct (ok_saved s Hs) as (Hlen & Hr & Hall & Hrest). destruct s, Hs; constructor; try assumption. cbn in *. repeat split; try done; [lia|lia|].
    replace (Z.to_nat (idx + 1)) with (Z.to_nat subsonic_saved_count + (Z.to_nat (idx + 1) - Z.to_nat subsonic_saved_count))%nat by lia.
    rewrite <- drop_drop. by apply Forall_drop. }
  clearbody t. clear Hs s. destruct (ok_saved t Ht) as (Hlen & Hr & Hall & Hrest). destruct t, Ht; constructor; try assumption. cbn in *.
  repeat split; [by rewrite length_alter|lia|lia|apply Forall_alter_all; [done|intros e; by apply set_saved_field_ok]|].
  rewrite drop_alter_lt; [done|lia].
Qed.

Lemma atoi_i32 s : in_i32 (atoi LONG_MAX s).
Proof. apply i32_range. Qed.
Lemma mode_i32 (b : bool) : in_i32 (if b then 1 else 0).
Proof. by destruct b; unfold in_i32, INT_MAX. Qed.
Lemma mac_checked v : let m := if valid_bt_output_mac v then snprintf_s MAC_SIZE v else [] in m = [] \/ valid_bt_output_mac m = true.
Proof.
  destruct (valid_bt_output_mac v) eqn:E; [|by left]. right. pose proof (load_mac v (or_intror E)) as H. rewrite E in H. cbv zeta. by rewrite H.
Qed.
Lemma snprintf_pin v : valid_remote_control_pin v = true -> snprintf_s (S REMOTE_CONTROL_PIN_MAX_LENGTH) v = v.
Proof. unfold valid_remote_control_pin. rewrite !andb_true_iff, !Nat.leb_le. intros ((_ & H) & _). unfold snprintf_s. rewrite take_ge; [done|lia]. Qed.
Lemma font_checked v :
  Forall line_byte v -> let f := if safe_font v then snprintf_s 64 v else [] in text_field 64 f /\ safe_font f = true.
Proof.
  intros Hv. destruct (safe_font v) eqn:E; [|by split; [split; [|cbn; lia]|]]. split; [|by apply safe_font_take].
  apply snprintf_field; [lia|done].
Qed.
Create HintDb sane.
#[local] Hint Resolve atoi_i32 mode_i32 mac_checked atof_ok to_float_ok u32_range strtol_clock : sane.
Ltac keep_cbn := cbn -[in_i32 in_u32 in_i64 double_ok text_field atoi atof to_float snprintf_s u32 only_value strtol strtoul valid_bt_output_mac safe_font Z.le] in *.
Ltac one_field :=
  match goal with
  | Hs : storable ?s |- _ => destruct s, Hs; constructor; try assumption; unfold setter in *; keep_cbn;
      rewrite ?Forall_cons_iff in *; destruct_and?; split_and?; try assumption;
      first [by eauto 3 with sane nocore|apply snprintf_field; [by apply Nat.ltb_lt|assumption]|apply font_checked; assumption]
  end.
Lemma load_key_storable key value s : Forall line_byte value -> storable s -> storable (load_key LONG_MAX key value s).
Proof.
  intros Hv Hs. unfold load_key.
  do 19 (destruct (equals key _); [one_field|]). destruct (starts_with _ key); [by apply load_saved_row_storable|].
  destruct (equals key _); [one_field|]. destruct (equals key _); [by rewrite load_device_rate_never|].
  do 8 (destruct (equals key _); [one_field|]). destruct (equals key _); [|].
  { destruct (valid_remote_control_pin value) eqn:E; [|done]. rewrite snprintf_pin by done. assert (value = [] \/ valid_remote_control_pin value = true) by (by right). one_field. }
  repeat (destruct (equals key _); [one_field|]). done.
Qed.
Lemma take_while_lines l : Forall is_char l -> Forall line_byte (take_while (fun c => negb (c =? 10)) l).
Proof.
  intros H. induction H as [|c l Hc _ IH]; [done|]. cbn. destruct (Z.eqb_spec c 10); [done|]. by constructor.
Qed.
Lemma load_line_storable s line : Forall is_char line -> storable s -> storable (load_line LONG_MAX s line).
Proof.
  intros Hl Hs. unfold load_line. pose proof (take_while_lines line Hl) as H. destruct (strchr 61 _); [|done].
  apply load_key_storable; [by apply Forall_drop|done].
Qed.
End Lines.
