(* ===== verification/SettingsLoad.v ===== *)
(** The settings in their files, src/core/settings.c: [settings_load] with the
    older files and the saved servers, [settings_write_file] with its calls that
    can fail, and the theorems on what survives a restart. *)
From Stdlib Require String.
From stdpp Require Import gmap.
From S2P Require Import Prelude Endian StableSort QueueResume PlaylistFiles PlaylistAtomic PathCache RowFile Doubles CText AudioHelpers SavedServers SavedServersProofs Settings SettingsProofs SettingsSane.
Local Open Scope Z_scope.
Local Open Scope settings_scope.

(** ** Settings that come back *)

(** Nothing of the text is lost, and nothing fails. *)
Definition all_written (io : write_env) : bool :=
  w_open io && w_fchmod io && w_fdopen io && w_rename io && match w_left io with None => true | Some _ => false end.
Lemma settings_write_publishes io s :
  all_written io = true ->
  settings_write_file io s = [Create SETTINGS_TMP_FILE_PATH; Append SETTINGS_TMP_FILE_PATH (settings_text s); Rename SETTINGS_TMP_FILE_PATH SETTINGS_FILE_PATH].
Proof.
  unfold all_written, settings_write_file. rewrite !andb_true_iff. intros ((((-> & ->) & ->) & ->) & H). by destruct (w_left io).
Qed.
Lemma contents_elem (es : list subsonic_saved_server_t) e : NoDup (map url es) -> e ∈ es -> contents es !! url e = Some (login e).
Proof.
  intros Hn He. unfold RowFile.contents. apply elem_of_list_to_map_1; [by rewrite <- list_fmap_compose|].
  apply list_elem_of_fmap. by exists e.
Qed.
Lemma same_row_self rows e : NoDup (map url rows) -> e ∈ rows -> same_row rows e = true.
Proof.
  intros Hn He. pose proof (contents_elem rows e Hn He) as H. rewrite <- find_contents in H. unfold same_row, find_index.
  destruct (find_key url rows (url e)) as [j|]; [|done]. cbn [mbind option_bind] in *. destruct (rows !! j) as [r|]; [|done]. cbn in H. injection H as ->.
  by rewrite !bytes_eqb_refl, eqb_reflx.
Qed.
Lemma push_rows_same io rows i es wrote st : Forall (fun e => same_row rows e = true) es -> push_rows io rows i es wrote st = (wrote, st).
Proof.
  intros H. revert i. induction H as [|e es He _ IH]; intros i; [done|]. cbn [push_rows]. destruct (url e) eqn:E; [apply IH|]. rewrite He. apply IH.
Qed.
Lemma server_stored e : server_ok e ->
  {| url := snprintf_s URL_SIZE (url e);
     login := {| username := snprintf_s FIELD_SIZE (username (login e)); password := snprintf_s FIELD_SIZE (password (login e)); verify_tls := verify_tls (login e) |} |} = e.
Proof. intros (Hu & Hn & Hp). rewrite !snprintf_text by done. by destruct e as [? []]. Qed.
Lemma mirror_rows_self rows :
  Forall server_ok rows -> (length rows <= SETTINGS_SUBSONIC_SAVED_MAX)%nat -> mirror_rows rows = rows ++ repeat no_server (SETTINGS_SUBSONIC_SAVED_MAX - length rows).
Proof.
  intros Hall Hlen. unfold mirror_rows. rewrite take_ge by done. f_equal. induction Hall as [|e rows He _ IH]; [done|]. cbn [map]. rewrite server_stored by done. f_equal.
  apply IH. cbn in Hlen. lia.
Qed.

Lemma stored_storable s : storable s -> storable (stored s).
Proof.
  intros Hs. pose proof (ok_doubles s Hs). pose proof (colour_range (accent_color s)) as Hcolour. pose proof (ok_unsigned s Hs).
  assert (forall n, (0 < n)%nat -> text_field n []) as Hnil by (intros n Hn; by split).
  destruct s, Hs; constructor; try assumption.
  - split; [apply to_float_ok|]; apply milli_ok.
  - split; [|tauto]. cbn in Hcolour |- *. unfold in_u32. lia.
  - split_and!; [done|done|done|]. cbn. repeat (constructor; [split; [apply Hnil; unfold MAC_SIZE; lia|done]|]). constructor.
Qed.

Section Restart.
Context (qsort : list subsonic_saved_server_t -> list subsonic_saved_server_t) (LONG_MAX : Z) (Hlong : 2147483647 <= LONG_MAX).
(** The saved servers are the ones of the settings; with none of them there is
    nothing to import either. *)
Definition in_step (io : load_env) (st : saved_servers) (s : player_settings_t) : Prop :=
  let rows := fst (subsonic_saved_servers_load qsort (servers_io io 0) st) in
  rows = in_use (subsonic_saved_count s) (subsonic_saved s) /\ NoDup (map url rows) /\
  (rows = [] -> subsonic_url s = [] /\ Forall (fun p => ss_disk st !! p = None) legacy_lists).

Lemma sync_in_step io st s :
  storable s -> in_step io st s ->
  sync_subsonic_saved_sidecar qsort io (import_legacy_subsonic_servers io (ss_disk st) s) st = (s, snd (subsonic_saved_servers_load qsort (servers_io io 0) st)).
Proof.
  intros Hs (Hrows & Hn & Hnone). destruct (ok_saved s Hs) as (Hlen & Hc & Hall & Hrest). destruct (saved_whole s Hlen Hc Hrest) as [Hcount Hwhole].
  assert (import_legacy_subsonic_servers io (ss_disk st) s = s) as ->.
  { unfold import_legacy_subsonic_servers. cbv zeta. destruct (Z.eqb_spec (subsonic_saved_count s) 0) as [E|E]; [|destruct (Z.eqb_spec (subsonic_saved_count s) 0); [done|by destruct (subsonic_url s)]].
    rewrite Hrows, E in Hnone. destruct (Hnone eq_refl) as [Eu Hlists].
    assert (fold_left (import_legacy_subsonic_list_file io (ss_disk st)) legacy_lists s = s) as ->; [|by rewrite Eu].
    clear -Hlists. induction Hlists as [|p ps Hp _ IH]; [done|]. cbn [fold_left].
    assert (import_legacy_subsonic_list_file io (ss_disk st) s p = s) as ->; [|done].
    unfold import_legacy_subsonic_list_file, read_file. rewrite Hp. by destruct (can_open io p). }
  unfold sync_subsonic_saved_sidecar. destruct (subsonic_saved_servers_load qsort (servers_io io 0) st) as [rows st1]. cbn [fst snd] in *.
  rewrite push_rows_same; [|rewrite <- Hrows; apply list.Forall_forall; intros e He; by apply same_row_self].
  assert (mirror_rows rows = subsonic_saved s /\ Z.of_nat (Nat.min (length rows) SETTINGS_SUBSONIC_SAVED_MAX) = subsonic_saved_count s) as [Hm Hcnt].
  { assert (length rows <= SETTINGS_SUBSONIC_SAVED_MAX)%nat as Hle by (rewrite Hrows; unfold in_use; rewrite length_take; lia).
    rewrite mirror_rows_self, Hrows by (done || rewrite Hrows; by apply Forall_take). split; [exact Hwhole|]. rewrite <- Hrows in *. lia. }
  destruct rows as [|e rows]; [done|]. rewrite Hm, Hcnt. f_equal. by destruct s.
Qed.


Definition on_disk (st : saved_servers) (fs : files) : saved_servers := {| servers := servers st; ss_loaded := ss_loaded st; ss_disk := fs |}.
End Restart.
(** ** Any file *)
Lemma fgets_lines_chars size fuel content : Forall is_byte content -> Forall (Forall is_char) (fgets_lines size fuel content).
Proof.
  revert content. induction fuel as [|fuel IH]; intros content Hc; [done|]. cbn [fgets_lines]. destruct content as [|c content]; [done|].
  constructor; [by apply cstr_bytes, Forall_take|by apply IH, Forall_drop].
Qed.
Lemma set_defaults_storable : storable set_defaults.
Proof.
  assert (forall n, (0 < n)%nat -> text_field n []) as Hnil by (intros n Hn; by split).
  assert (server_ok no_server) as Hserver by (split; [|split]; apply Hnil; by apply Nat.ltb_lt).
  constructor.
  - split; [|done]. split; by vm_compute.
  - cbn. split_and!; try (by apply Hnil; lia). split; [by repeat constructor|by apply Nat.ltb_lt].
  - cbn. split_and!; [by left|by left|apply Hnil; lia|done].
  - cbn. rewrite !Forall_cons_iff. unfold in_i32, INT_MAX. split_and!; done || lia.
  - cbn. unfold in_u32. lia.
  - cbn. unfold in_i64. lia.
  - cbn [subsonic_saved subsonic_saved_count set_defaults]. split_and!; [done|done|done| |]; cbn; by repeat constructor.
  - cbn [bt_device_rates bt_device_rate_count set_defaults]. split_and!; [done|done|done|]. repeat (constructor; [split; [apply Hnil; unfold MAC_SIZE; lia|done]|]). constructor.
Qed.

(** *** Lines *)

(** A line as [fgets] gives it: at most its last byte is a newline. *)
Definition text_line (l : list Z) : Prop := exists a, Forall line_byte a /\ (l = a \/ l = a ++ [10]).
Lemma cstr_line l : Forall is_byte l -> 10 ∉ l -> Forall line_byte (cstr l).
Proof.
  intros Hb H10. apply line_bytes. split; [by apply cstr_bytes|]. intros Hin. apply H10. revert Hin. clear.
  induction l as [|c l IH]; [done|]. cbn [cstr]. case_match; [by intros ?%elem_of_nil|]. rewrite !list.elem_of_cons. tauto.
Qed.
Lemma cstr_snoc_char l c : is_char c -> cstr (l ++ [c]) = cstr l \/ cstr (l ++ [c]) = cstr l ++ [c].
Proof.
  intros Hc. induction l as [|x l IH]; cbn [app cstr].
  - right. unfold is_char in Hc. by rewrite (proj2 (Z.eqb_neq c 0)) by lia.
  - destruct (x =? 0); [by left|]. destruct IH as [->| ->]; [by left|by right].
Qed.
Lemma fgets_lines_text size fuel content : Forall is_byte content -> Forall text_line (fgets_lines size fuel content).
Proof.
  revert content. induction fuel as [|fuel IH]; intros content Hc; [done|]. cbn [fgets_lines]. destruct content as [|c content]; [done|].
  set (l := c :: content) in *. cbv zeta. set (n := Nat.min _ _). constructor; [|by apply IH, Forall_drop].
  destruct (strchr 10 l) as [i|] eqn:E.
  - apply strchr_Some in E as [Hi Hbefore]. assert (10 ∉ take i l) as H10 by (intros (j & Hj & Hlt)%elem_of_take; by apply (Hbefore j Hlt)).
    destruct (decide (n <= i)%nat) as [Hn|Hn].
    + exists (cstr (take n l)). split; [|by left]. apply cstr_line; [by apply Forall_take|]. intros (j & Hj & Hlt)%elem_of_take. apply (Hbefore j); [lia|done].
    + assert (n = S i) as -> by (unfold n in *; lia). rewrite (take_S_r _ _ _ Hi). exists (cstr (take i l)).
      split; [apply cstr_line; [by apply Forall_take|done]|]. apply cstr_snoc_char. unfold is_char. lia.
  - apply strchr_None in E. exists (cstr (take n l)). split; [|by left]. apply cstr_line; [by apply Forall_take|]. intros (j & Hj & _)%elem_of_take. apply E. by apply list_elem_of_lookup_2 in Hj.
Qed.
Lemma drop_while_Forall (P : Z -> Prop) p l : Forall P l -> Forall P (drop_while p l).
Proof. induction 1 as [|c l Hc Hl IH]; [done|]. cbn. destruct (p c); [done|by constructor]. Qed.
Lemma trim_Forall (P : Z -> Prop) l : Forall P l -> Forall P (library_trim_eol l).
Proof. intros H. rewrite library_trim_eol_rev. by apply Forall_rev, drop_while_Forall, Forall_rev. Qed.
Lemma trim_text_line l : text_line l -> Forall line_byte (library_trim_eol l).
Proof. intros (a & Ha & [->| ->]); [by apply trim_Forall|]. rewrite trim_eol_snoc_eol by done. by apply trim_Forall. Qed.
Lemma split_tab_Forall (P : Z -> Prop) s a b : Forall P s -> split_tab s = Some (a, b) -> Forall P a /\ Forall P b.
Proof. unfold split_tab. intros Hs. destruct (strchr 9 s); [|done]. intros [= <- <-]. by split; [apply Forall_take|apply Forall_drop]. Qed.

(** *** The saved servers *)
Abbreviation servers_ok st := (Forall server_ok (servers st)).
Lemma parse_line_ok line u p : text_line line -> parse_line line = Some (u, p) -> server_ok {| url := u; login := p |}.
Proof.
  intros Hl%trim_text_line. unfold parse_line. destruct (_ =? _)%nat; [done|].
  destruct (split_tab _) as [[u' r1]|] eqn:E1; [|done]. cbn [mbind option_bind]. destruct (split_tab_Forall _ _ _ _ Hl E1) as [Hu H1].
  destruct (split_tab r1) as [[user r2]|] eqn:E2; [|done]. cbn [mbind option_bind]. destruct (split_tab_Forall _ _ _ _ H1 E2) as [Hn H2].
  destruct (split_tab r2) as [[pass r3]|] eqn:E3; [|done]. cbn [mbind option_bind]. destruct (split_tab_Forall _ _ _ _ H2 E3) as [Hp _].
  match goal with |- context [fits ?a ?b] => destruct (fits a b) eqn:E end; [|done]. intros [= <- <-].
  unfold fits in E. rewrite !andb_true_iff, !Nat.ltb_lt in E. destruct E as (((_ & ?) & ?) & ?). by split; [|split].
Qed.
Lemma snprintf_server_ok u p v :
  Forall line_byte u -> Forall line_byte (username p) -> Forall line_byte (password p) ->
  server_ok {| url := snprintf_s URL_SIZE u; login := {| username := snprintf_s FIELD_SIZE (username p); password := snprintf_s FIELD_SIZE (password p); verify_tls := v |} |}.
Proof. intros Hu Hn Hp. by split; [|split]; (apply snprintf_field; [by apply Nat.ltb_lt|]). Qed.
Lemma append_parsed_ok io es u p :
  Forall server_ok es -> server_ok {| url := u; login := p |} -> Forall server_ok (snd (append_parsed io es u p)).
Proof.
  intros Hes ((Hu & _) & (Hn & _) & (Hp & _)). unfold append_parsed. destruct (fits u p); [|done]. destruct (_ <=? _)%nat; [done|]. destruct (ss_alloc _ _); [|done].
  apply list.Forall_app. split; [done|]. constructor; [by apply snprintf_server_ok|done].
Qed.
Lemma set_profile_servers_ok es i u p : Forall server_ok es -> server_ok {| url := u; login := p |} -> Forall server_ok (set_profile es i p).
Proof.
  intros Hes (_ & (Hn & _) & (Hp & _)). apply Forall_alter_all; [done|]. intros e (Hu & _).
  split; [done|]. by split; (apply snprintf_field; [by apply Nat.ltb_lt|]).
Qed.
Lemma parse_rows_servers_ok io lines es : Forall text_line lines -> Forall server_ok es -> Forall server_ok (parse_rows io lines es).
Proof.
  intros Hl. revert es. induction Hl as [|line lines Hline _ IH]; intros es Hes; [done|]. cbn [parse_rows].
  destruct (parse_line line) as [[u p]|] eqn:E; [|by apply IH]. apply parse_line_ok in E; [|done].
  destruct (find_index es u); [by apply IH, set_profile_servers_ok with u|]. destruct (_ <=? _)%nat; [done|].
  pose proof (append_parsed_ok io es u p Hes E) as H. destruct (append_parsed io es u p) as [ok es']. destruct ok; [by apply IH|done].
Qed.
Definition disk_bytes (fs : files) : Prop := map_Forall (fun _ c => Forall is_byte c) fs.
Lemma load_from_dir_servers_ok io dir st : disk_bytes (ss_disk st) -> servers_ok st -> servers_ok (load_from_dir io dir st) /\ ss_disk (load_from_dir io dir st) = ss_disk st.
Proof.
  intros Hd Hst. unfold load_from_dir. destruct (ss_can_open io (servers_path dir)); [|done].
  destruct (ss_disk st !! servers_path dir) as [content|] eqn:E; [|done]. split; [|done]. apply parse_rows_servers_ok; [|done]. apply fgets_lines_text. by apply (Hd (servers_path dir)).
Qed.
Lemma import_from_servers_ok io dir st :
  servers_ok st /\ (servers st = [] -> disk_bytes (ss_disk st)) -> servers_ok (import_from io dir st) /\ (servers (import_from io dir st) = [] -> disk_bytes (ss_disk (import_from io dir st))).
Proof.
  intros [Hok Hd]. unfold import_from. destruct (servers st) eqn:E; [|by rewrite E].
  destruct (load_from_dir_servers_ok io dir st) as [H1 H2]; [by apply Hd|by rewrite E|]. destruct (servers (load_from_dir io dir st)) eqn:E'.
  - rewrite E', H2. split; [done|]. intros _. by apply Hd.
  - cbn. by rewrite E'.
Qed.
Lemma ensure_loaded_servers_ok io st :
  disk_bytes (ss_disk st) -> servers_ok st -> servers_ok (ensure_loaded io st) /\ ss_loaded (ensure_loaded io st) = true.
Proof.
  intros Hd Hok. unfold ensure_loaded. destruct (ss_loaded st) eqn:El; [done|]. unfold load_file.
  set (st0 := {| servers := []; ss_loaded := true; ss_disk := ss_disk st |}).
  assert (forall dir st, ss_loaded st = true -> ss_loaded (load_from_dir io dir st) = true) as Hload by (intros dir x Hx; unfold load_from_dir; by case_match).
  assert (forall dir st, ss_loaded st = true -> ss_loaded (import_from io dir st) = true) as Himport.
  { intros dir x Hx. unfold import_from. case_match; [|done]. case_match; cbn; by apply Hload. }
  split; [|by do 3 apply Himport; apply Hload].
  do 3 apply import_from_servers_ok. destruct (load_from_dir_servers_ok io SUBSONIC_SAVED_SERVERS_DIR st0) as [H1 H2]; [done|done|]. rewrite H2. by split.
Qed.
Lemma upsert_servers_ok io st e :
  ss_loaded st = true -> servers_ok st -> server_ok e ->
  let st' := subsonic_saved_servers_upsert io st (Some (url e)) (Some (username (login e))) (Some (password (login e))) (verify_tls (login e)) in
  servers_ok st' /\ ss_loaded st' = true.
Proof.
  intros Hl Hok He. cbv zeta. unfold subsonic_saved_servers_upsert, default, from_option, id. destruct e as [u [user pass verify]]. cbn [url login username password verify_tls] in *.
  set (p := {| username := user; password := pass; verify_tls := verify |}) in *. destruct (fits u p); [|done]. cbn [negb]. destruct (_ || _ || _); [done|].
  unfold ensure_loaded. rewrite Hl. destruct (find_index (servers st) u) as [i|].
  - destruct (servers st !! i); [|done]. destruct (_ && _ && _); [done|]. split; [|done]. by apply set_profile_servers_ok with u.
  - pose proof (append_parsed_ok io (servers st) u p Hok He) as H. destruct (append_parsed io (servers st) u p) as [ok es]. by destruct ok.
Qed.
Lemma push_rows_servers_ok io rows es : forall i wrote st,
  ss_loaded st = true -> servers_ok st -> Forall server_ok es ->
  let '(_, st') := push_rows io rows i es wrote st in servers_ok st' /\ ss_loaded st' = true.
Proof.
  induction es as [|e es IH]; intros i wrote st Hl Hok Hes; [done|]. apply Forall_cons_1 in Hes as [He Hes]. cbn [push_rows].
  destruct (match url e with [] => true | _ => same_row rows e end); [by apply IH|].
  destruct (upsert_servers_ok (servers_io io i) st e Hl Hok He) as [H1 H2]. by apply IH.
Qed.

(** *** The settings *)
Lemma settings_upsert_storable s u user pass verify :
  Forall line_byte u -> Forall line_byte user -> Forall line_byte pass -> storable s ->
  storable (settings_subsonic_server_upsert s (Some u) (Some user) (Some pass) verify).
Proof.
  intros Hu Hn Hp Hs. unfold settings_subsonic_server_upsert. destruct u as [|c u]; [done|]. unfold default, from_option, id. cbv zeta. set (put := fun _ : subsonic_saved_server_t => _).
  assert (forall e, server_ok (put e)) as Hput by (intros e; by apply (snprintf_server_ok (c :: u) {| username := user; password := pass; verify_tls := verify |})).
  clearbody put. destruct (ok_saved s Hs) as (Hlen & Hc & Hall & Hrest). destruct (find_index _ (c :: u)) as [i|] eqn:E.
  - apply find_key_bound in E as (e & He & _). apply lookup_lt_Some in He. unfold in_use in He. rewrite length_take in He.
    destruct s, Hs; constructor; try assumption. cbn in *. split_and!; [by rewrite length_alter|lia|lia|by apply Forall_alter_all|].
    rewrite drop_alter_lt; [done|lia].
  - destruct (Z.leb_spec (Z.of_nat SETTINGS_SUBSONIC_SAVED_MAX) (subsonic_saved_count s)); [done|]. destruct s, Hs; constructor; try assumption. cbn in *.
    split_and!; [by rewrite length_alter|lia|lia|by apply Forall_alter_all|]. rewrite drop_alter_lt by lia.
    rewrite Z2Nat.inj_add by lia. rewrite <- drop_drop. by apply Forall_drop.
Qed.
Lemma import_line_storable s line : text_line line -> storable s -> storable (import_line s line).
Proof.
  intros Hl%trim_text_line Hs. unfold import_line. destruct (split_tab (library_trim_eol line)) as [[u r1]|] eqn:E1; [|done]. cbn [mbind option_bind].
  destruct (split_tab_Forall _ _ _ _ Hl E1) as [Hu H1]. destruct (split_tab r1) as [[user r2]|] eqn:E2; [|done]. cbn [mbind option_bind].
  destruct (split_tab_Forall _ _ _ _ H1 E2) as [Hn H2]. destruct (split_tab r2) as [[pass r3]|] eqn:E3; [|done]. cbn [mbind option_bind].
  destruct (split_tab_Forall _ _ _ _ H2 E3) as [Hp _]. by apply settings_upsert_storable.
Qed.
Lemma fold_storable {A} (f : player_settings_t -> A -> player_settings_t) (P : A -> Prop) l s :
  (forall s x, P x -> storable s -> storable (f s x)) -> Forall P l -> storable s -> storable (fold_left f l s).
Proof. intros Hf Hl. revert s. induction Hl as [|x l Hx _ IH]; intros s Hs; [done|]. by apply IH, Hf. Qed.
Lemma read_file_bytes io fs path content : disk_bytes fs -> read_file io fs path = Some content -> Forall is_byte content.
Proof. intros Hd. unfold read_file. destruct (can_open io path); [|done]. apply Hd. Qed.
Lemma import_legacy_storable io fs s : disk_bytes fs -> storable s -> storable (import_legacy_subsonic_servers io fs s).
Proof.
  intros Hd Hs. unfold import_legacy_subsonic_servers. cbv zeta. set (t := if _ : bool then _ else s). assert (storable t) as Ht.
  { unfold t. destruct (_ =? 0); [|done]. apply (fold_storable _ (fun _ => True)); [|by apply List.Forall_forall|done]. intros x path _ Hx.
    unfold import_legacy_subsonic_list_file. destruct (read_file io fs path) as [content|] eqn:E; [|done].
    apply (fold_storable _ text_line); [by intros; apply import_line_storable|by eapply fgets_lines_text, read_file_bytes|done]. }
  clearbody t. destruct (subsonic_url t) as [|c u] eqn:Eu; [done|]. destruct (_ =? 0); [|done].
  destruct (ok_strings t Ht) as (_ & _ & (Hu & _) & (Hn & _) & (Hp & _) & _). rewrite Eu in Hu. by apply settings_upsert_storable.
Qed.
Lemma load_lines_storable LONG_MAX content : Forall is_byte content -> storable (load_lines LONG_MAX content).
Proof.
  intros Hc. unfold load_lines. apply (fold_storable _ (Forall is_char)); [by intros; apply load_line_storable|by apply fgets_lines_chars|apply set_defaults_storable].
Qed.
Lemma steps_i32 steps v : forallb (fun s => (0 <=? s) && (s <=? 1800)) steps = true -> steps <> [] -> in_i32 (nearest_step v steps).
Proof.
  rewrite forallb_forall. intros H Hne. pose proof (nearest_step_in v steps Hne) as Hin. unfold one_of in Hin. apply existsb_exists in Hin as (w & Hw & ->%Z.eqb_eq).
  apply H in Hw. bool_prop. unfold in_i32, INT_MAX. lia.
Qed.
Lemma in_range_i32 lo hi v other : in_i32 v -> in_i32 other -> in_i32 (in_range lo hi v other).
Proof. unfold in_range. by case_match. Qed.
Lemma settle_storable s : storable s -> storable (settle_settings s).
Proof.
  assert (forall s, storable s -> storable (clamp_settings s)) as Hclamp.
  { clear. intros s Hs. destruct s, Hs; constructor; try assumption. cbn -[in_range in_i32] in *. rewrite !Forall_cons_iff in *. destruct_and!.
    split_and!; try assumption; apply in_range_i32; (assumption || (unfold in_i32, INT_MAX; lia)). }
  assert (forall s, storable s -> storable (migrate_settings s)) as Hmigrate.
  { clear. intros s Hs. unfold migrate_settings. case_match; [done|]. destruct s, Hs; constructor; try assumption. cbn -[in_i32] in *. rewrite !Forall_cons_iff in *. destruct_and!.
    split_and!; try assumption; unfold in_i32, INT_MAX; lia. }
  intros Hs. unfold settle_settings. apply Hclamp, Hmigrate in Hs. revert Hs. generalize (migrate_settings (clamp_settings s)). clear s. intros s Hs.
  destruct s, Hs; constructor; try assumption. cbn -[nearest_step in_i32] in *. rewrite !Forall_cons_iff in *. destruct_and!.
  split_and!; try assumption; by apply steps_i32.
Qed.

(** ** Whatever is on the disk *)
Lemma upsert_in_bounds s u user pass verify : in_bounds (settings_subsonic_server_upsert s u user pass verify) = in_bounds s.
Proof. unfold settings_subsonic_server_upsert. destruct u as [[|c u]|]; [done| |done]. destruct (find_index _ _); [by destruct s|]. destruct (_ <=? _); by destruct s. Qed.
Lemma fold_in_bounds {A} (f : player_settings_t -> A -> player_settings_t) l s :
  (forall s x, in_bounds (f s x) = in_bounds s) -> in_bounds (fold_left f l s) = in_bounds s.
Proof. intros Hf. revert s. induction l as [|x l IH]; intros s; [done|]. cbn [fold_left]. by rewrite IH. Qed.
Lemma import_legacy_in_bounds io fs s : in_bounds (import_legacy_subsonic_servers io fs s) = in_bounds s.
Proof.
  assert (forall s line, in_bounds (import_line s line) = in_bounds s) as Hline by (intros x line; unfold import_line; case_match; [repeat case_match; apply upsert_in_bounds|done]).
  unfold import_legacy_subsonic_servers. cbv zeta. set (t := if _ : bool then _ else s). assert (in_bounds t = in_bounds s) as <-.
  { unfold t. destruct (_ =? 0); [|done]. apply fold_in_bounds. intros x path. unfold import_legacy_subsonic_list_file. case_match; [by apply fold_in_bounds|done]. }
  clearbody t. destruct (subsonic_url t); [done|]. destruct (_ =? 0); [apply upsert_in_bounds|done].
Qed.
Lemma mirror_rows_ok rows : Forall server_ok rows -> Forall server_ok (mirror_rows rows) /\ length (mirror_rows rows) = SETTINGS_SUBSONIC_SAVED_MAX /\
  Forall (eq no_server) (drop (Nat.min (length rows) SETTINGS_SUBSONIC_SAVED_MAX) (mirror_rows rows)).
Proof.
  intros H. assert (server_ok no_server) as Hno by (split; [|split]; (split; [done|by apply Nat.ltb_lt])).
  assert (forall n, Forall server_ok (repeat no_server n)) as Hrep by (intros n; induction n; by constructor).
  assert (forall n, Forall (eq no_server) (repeat no_server n)) as Heq by (intros n; induction n; by constructor).
  assert (length (take SETTINGS_SUBSONIC_SAVED_MAX rows) = Nat.min (length rows) SETTINGS_SUBSONIC_SAVED_MAX) as Hlen by (rewrite length_take; lia).
  unfold mirror_rows. split_and!.
  - apply list.Forall_app. split; [|done]. apply Forall_map, Forall_take. eapply List.Forall_impl; [|exact H]. intros e (? & ? & ?).
    by apply (snprintf_server_ok (url e) (login e)); apply H0 || apply H1 || apply H2.
  - rewrite length_app, length_map, repeat_length, Hlen. lia.
  - rewrite drop_app_length' by (by rewrite length_map). done.
Qed.
Lemma push_rows_quiet io rows i es st st' : push_rows io rows i es false st = (false, st') -> st' = st.
Proof.
  assert (forall es i st, fst (push_rows io rows i es true st) = true) as Htrue
    by (intros l; induction l as [|e l IH]; intros k x; [done|]; cbn [push_rows]; case_match; apply IH).
  revert i st. induction es as [|e es IH]; intros i st; [by intros [= <-]|]. cbn [push_rows]. destruct (match url e with [] => true | _ => same_row rows e end); [apply IH|].
  intros H. apply (f_equal fst) in H. by rewrite Htrue in H.
Qed.
Section Any.
Context (qsort : list subsonic_saved_server_t -> list subsonic_saved_server_t) `{!QSort cmp_url qsort} (LONG_MAX : Z).
(** The settings mirror the first of the saved servers. *)
Definition mirrors (s : player_settings_t) (st : saved_servers) : Prop :=
  servers st <> [] -> subsonic_saved s = mirror_rows (qsort (servers st)) /\
    subsonic_saved_count s = Z.of_nat (Nat.min (length (servers st)) SETTINGS_SUBSONIC_SAVED_MAX).
Lemma load_rows_of io st :
  ss_loaded st = true -> ss_copy io = true -> subsonic_saved_servers_load qsort io st = (qsort (servers st), st).
Proof.
  intros Hl Hc. unfold subsonic_saved_servers_load, ensure_loaded. rewrite Hl, Hc. destruct (servers st) as [|e es] eqn:E; [|done].
  pose proof (qsort_perm (cmp := cmp_url) (qsort := qsort) []) as ->%Permutation_nil_r. done.
Qed.
Lemma load_rows_fit io st :
  disk_bytes (ss_disk st) -> servers_ok st -> let '(rows, st') := subsonic_saved_servers_load qsort io st in Forall server_ok rows /\ servers_ok st' /\ ss_loaded st' = true.
Proof.
  intros Hd Hok. unfold subsonic_saved_servers_load. destruct (ensure_loaded_servers_ok io st Hd Hok) as [H1 H2]. split; [|done].
  destruct (servers (ensure_loaded io st)) as [|e es] eqn:E; [done|]. destruct (ss_copy io); [|done]. rewrite (qsort_perm (cmp := cmp_url) (qsort := qsort)). done.
Qed.
Lemma mirror_storable s rows :
  Forall server_ok rows -> storable s ->
  let s' := s <| subsonic_saved := mirror_rows rows |> <| subsonic_saved_count := Z.of_nat (Nat.min (length rows) SETTINGS_SUBSONIC_SAVED_MAX) |> in
  storable s' /\ in_bounds s' = in_bounds s.
Proof.
  intros Hrows Hs. destruct (mirror_rows_ok rows Hrows) as (H1 & H2 & H3). split; [|by destruct s]. destruct s, Hs; constructor; try assumption.
  cbn -[mirror_rows Nat.min] in *. rewrite Nat2Z.id. split_and!; [done|lia|lia|done|done].
Qed.
Lemma sync_spec io s st :
  disk_bytes (ss_disk st) -> servers_ok st -> storable s ->
  let '(s', st') := sync_subsonic_saved_sidecar qsort io s st in
  storable s' /\ in_bounds s' = in_bounds s /\ servers_ok st' /\ ss_loaded st' = true /\ ((forall i, ss_copy (servers_io io i) = true) -> mirrors s' st').
Proof.
  intros Hd Hok Hs. unfold sync_subsonic_saved_sidecar. pose proof (load_rows_fit (servers_io io 0) st Hd Hok) as Hload.
  destruct (subsonic_saved_servers_load qsort (servers_io io 0) st) as [rows st1] eqn:E1. destruct Hload as (Hrows & Hok1 & Hl1).
  assert (ss_copy (servers_io io 0) = true -> rows = qsort (servers st1)) as Hq1.
  { intros Hc. revert E1. unfold subsonic_saved_servers_load. rewrite Hc. destruct (servers (ensure_loaded (servers_io io 0) st)) eqn:E; intros [= <- <-]; rewrite E; [|done].
    by pose proof (qsort_perm (cmp := cmp_url) (qsort := qsort) []) as ->%Permutation_nil_r. }
  assert (Forall server_ok (in_use (subsonic_saved_count s) (subsonic_saved s))) as Huse by (apply Forall_take, Hs).
  pose proof (push_rows_servers_ok io rows _ 1 false st1 Hl1 Hok1 Huse) as Hpush.
  destruct (push_rows io rows 1 _ false st1) as [wrote st2] eqn:E2. destruct Hpush as [Hok2 Hl2].
  set (again := if wrote then _ else (rows, st2)). assert (again.2 = st2 /\ Forall server_ok again.1 /\ ((forall i, ss_copy (servers_io io i) = true) -> again.1 = qsort (servers st2))) as (Est & Hagain & Hq).
  { unfold again. destruct wrote; [|split_and!; [done|done|]].
    - unfold subsonic_saved_servers_load, ensure_loaded. rewrite Hl2. cbn [fst snd]. split; [done|]. destruct (servers st2) as [|e es] eqn:E.
      + split; [done|]. intros _. by pose proof (qsort_perm (cmp := cmp_url) (qsort := qsort) []) as ->%Permutation_nil_r.
      + split; [|intros Hc; by rewrite Hc]. destruct (ss_copy (servers_io io (S SETTINGS_SUBSONIC_SAVED_MAX))); [|constructor]. by rewrite (qsort_perm (cmp := cmp_url) (qsort := qsort)).
    - intros Hc. cbn [fst]. rewrite Hq1 by done. by rewrite (push_rows_quiet _ _ _ _ _ _ E2). }
  destruct again as [rows' st']. cbn [fst snd] in *. subst st'.
  assert ((forall i, ss_copy (servers_io io i) = true) -> length rows' = length (servers st2)) as Hlen by (intros Hc; rewrite Hq by done; apply Permutation_length, (qsort_perm (cmp := cmp_url))).
  destruct rows' as [|e rows'].
  - split_and!; [done|done|done|done|]. intros Hc Hne. specialize (Hlen Hc). by destruct (servers st2).
  - destruct (mirror_storable s (e :: rows') Hagain Hs) as [H1 H2]. split_and!; [done|done|done|done|]. intros Hc _. rewrite <- Hq, <- Hlen by done. by destruct s.
Qed.
(** C18. Whatever bytes are in the files of the disk and whatever calls fail, the
    settings a restart loads fit their structure and can be saved again; loaded
    from a file, they are in range: modes, percentages, timeouts on the steps of
    the screens. The saved servers they list are the first of the saved servers
    in order. *)
Theorem settings_load_sane (io : load_env) (st : saved_servers) :
  disk_bytes (ss_disk st) -> servers_ok st ->
  let '(ok, s, st') := settings_load qsort LONG_MAX io st in
  storable s /\ (ok = true -> in_bounds s = true) /\ servers_ok st' /\
  ((forall i, ss_copy (servers_io io i) = true) -> mirrors s st').
Proof.
  intros Hd Hok. unfold settings_load. cbv zeta. set (content := match read_file io (ss_disk st) SETTINGS_FILE_PATH with Some _ => _ | None => _ end).
  set (s0 := match content with Some _ => _ | None => set_defaults end).
  assert (storable s0 /\ (match content with Some _ => true | None => false end = true -> in_bounds s0 = true)) as [Hs0 Hb0].
  { unfold s0. destruct content as [c|] eqn:E; [|split; [apply set_defaults_storable|done]]. split; [|intros _; apply settle_bounds].
    apply settle_storable, load_lines_storable. unfold content in E.
    destruct (read_file io (ss_disk st) SETTINGS_FILE_PATH) eqn:E1; [injection E as <-; by eapply read_file_bytes|by eapply read_file_bytes]. }
  pose proof (sync_spec io _ st Hd Hok (import_legacy_storable io (ss_disk st) s0 Hd Hs0)) as H.
  destruct (sync_subsonic_saved_sidecar _ _ _ _) as [s st']. rewrite import_legacy_in_bounds in H. destruct H as (H1 & H2 & H3 & _ & H5).
  split_and!; [done|by rewrite H2|done|done].
Qed.
End Any.
