(* ===== verification/SettingsExamples.v ===== *)
(** Flaws of the settings file, src/core/settings.c, each computed on an input
    where it shows. *)
From Stdlib Require String.
From stdpp Require Import gmap.
From S2P Require Import Prelude Endian StableSort QueueResume PlaylistFiles PlaylistAtomic PathCache RowFile Doubles CText AudioHelpers SavedServers SavedServersProofs Settings SettingsProofs SettingsSane SettingsLoad.
Local Open Scope Z_scope.
Local Open Scope settings_scope.

(** ** The rates of the devices

    The check of the address is given the whole value of the line, comma and rate
    included, so that no line is ever taken: whatever the file says, and whatever
    was saved, a restart knows no rate of a device. *)
Lemma load_key_rates LONG_MAX key value s :
  bt_device_rates (load_key LONG_MAX key value s) = bt_device_rates s /\ bt_device_rate_count (load_key LONG_MAX key value s) = bt_device_rate_count s.
Proof.
  unfold load_key. do 19 (destruct (equals key _); [by destruct s|]). destruct (starts_with _ key).
  { unfold load_saved_row. destruct (scan_saved_key _ _) as [[idx field]|]; [|done]. destruct (_ && _); [|done]. destruct (_ <? _); by destruct s. }
  destruct (equals key _); [by destruct s|]. destruct (equals key _); [by rewrite load_device_rate_never|].
  repeat (destruct (equals key _); [try destruct (valid_remote_control_pin value); by destruct s|]). done.
Qed.
Lemma load_lines_rates LONG_MAX content :
  bt_device_rates (load_lines LONG_MAX content) = repeat no_rate BT_DEVICE_RATE_MAX /\ bt_device_rate_count (load_lines LONG_MAX content) = 0.
Proof.
  unfold load_lines. assert (forall lines s, bt_device_rates (fold_left (load_line LONG_MAX) lines s) = bt_device_rates s /\
    bt_device_rate_count (fold_left (load_line LONG_MAX) lines s) = bt_device_rate_count s) as H; [|by apply (H _ set_defaults)].
  intros lines. induction lines as [|line lines IH]; intros s; [done|]. cbn [fold_left]. destruct (IH (load_line LONG_MAX s line)) as [-> ->].
  unfold load_line. destruct (strchr 61 _); [apply load_key_rates|done].
Qed.
Lemma device_rates_forgotten LONG_MAX content address :
  settings_bt_rate_for (Some (settle_settings (load_lines LONG_MAX content))) (Some address) = bt_sample_rate (settle_settings (load_lines LONG_MAX content)).
Proof.
  destruct (load_lines_rates LONG_MAX content) as [H1 H2]. assert (bt_device_rate_count (settle_settings (load_lines LONG_MAX content)) = 0) as H.
  { rewrite <- H2. unfold settle_settings, migrate_settings. generalize (load_lines LONG_MAX content). intros s. destruct s; cbn. by destruct idle_suspend_default_migrated. }
  unfold settings_bt_rate_for, find_rate. rewrite H. by destruct address.
Qed.
Example device_rate_set :
  let s := settings_bt_set_rate_for set_defaults (Some (bs "AA:BB:CC:DD:EE:FF")) 48000 in
  settings_bt_rate_for (Some s) (Some (bs "aa:bb:cc:dd:ee:ff")) = 48000 /\
  settings_bt_rate_for (Some (settle_settings (load_lines 2147483647 (settings_text s)))) (Some (bs "AA:BB:CC:DD:EE:FF")) = 0.
Proof. by vm_compute. Qed.

(** ** The first choice of a new device

    A new device has no file, and keeps the mark of the migration unset until it has
    loaded one: what is switched off before the first restart is on again after it. *)
Lemma first_choice_lost :
  let s := set_defaults <| idle_shutdown_enabled := false |> in
  idle_shutdown_enabled (settle_settings (load_lines 2147483647 (settings_text s))) = true.
Proof. by vm_compute. Qed.

(** ** A full disk

    The file that could not be written is renamed over the good one. *)
Lemma failed_write_published s left fs :
  run (settings_write_file {| w_open := true; w_fchmod := true; w_fdopen := true; w_left := Some left; w_rename := true |} s) fs !! SETTINGS_FILE_PATH = Some left.
Proof.
  unfold settings_write_file. cbn [w_open w_fchmod w_fdopen w_left w_rename negb andb default from_option app]. unfold id.
  rewrite run_publish. apply lookup_insert_eq.
Qed.

(** ** A newline in a name

    The name of an album is written as it is; one with a newline says two lines. *)
Lemma name_sets_volume :
  let s := set_defaults <| last_source_name := bs "Live" ++ [10] ++ bs "volume=9" |> in
  let s' := load_lines 2147483647 (settings_text s) in
  last_source_name s' = bs "Live" /\ volume s' = to_float (dbl 9).
Proof. by vm_compute. Qed.

(** ** The nearest step of a number far below *)
Lemma nearest_step_overflows : nearest_step (-2147483648) SCREEN_TIMEOUT_STEPS = 1800.
Proof. by vm_compute. Qed.

(** ** Witnesses *)
Definition example_file : list Z := rows_text (map bs ["volume=0.5"; "last_track=/data/mnt/sd_0/a b.flac"; "last_position=61.25"; "remote_control_pin=1234";
  "screen_timeout_seconds=100"; "idle_suspend_default_migrated=1"; "subsonic_saved_0_url=https://A.example"; "subsonic_saved_0_username=you";
  "subsonic_saved_0_password=x y"; "subsonic_saved_1_url=https://b.example"; "subsonic_saved_1_username=me"; "subsonic_saved_1_verify_tls=1"; "usb_mode=77"]%string).
Definition example_settings : player_settings_t := settle_settings (load_lines 2147483647 example_file).
Definition example_io : load_env := {| can_open := fun _ => true; servers_io := fun _ => good_io |}.
Definition example_write : write_env := {| w_open := true; w_fchmod := true; w_fdopen := true; w_left := None; w_rename := true |}.
Lemma example_storable : storable example_settings.
Proof. apply settle_storable, load_lines_storable, bytes_b_true. by vm_compute. Qed.
Lemma settings_load_sane_witness :
  let st := {| servers := []; ss_loaded := false; ss_disk := {[SETTINGS_FILE_PATH := example_file]} |} in
  let '(ok, s, st') := settings_load (isort cmp_url) 2147483647 example_io st in
  storable s /\ in_bounds s = true /\ servers_ok st' /\ mirrors (isort cmp_url) s st'.
Proof.
  intros st. pose proof (settings_load_sane (isort cmp_url) 2147483647 example_io st) as H.
  assert (disk_bytes (ss_disk st)) as Hd by (apply map_Forall_singleton, bytes_b_true; by vm_compute). specialize (H Hd ltac:(constructor)).
  assert (fst (fst (settings_load (isort cmp_url) 2147483647 example_io st)) = true) as Hok by (by vm_compute).
  destruct (settings_load (isort cmp_url) 2147483647 example_io st) as [[ok s] st']. cbn [fst] in Hok. destruct H as (H1 & H2 & H3 & H4).
  split; [exact H1|]. split; [exact (H2 Hok)|]. split; [exact H3|]. apply H4. intros i. reflexivity.
Defined.
