(* ===== verification/SettingsQueue.v ===== *)
(** Saving the settings from several threads, src/core/settings.c: the callers of
    [settings_save], which write under a mutex, and of [settings_save_async], which
    leave a snapshot to a worker. An event is one critical section of the queue
    mutex, one taking or giving back of the write mutex, or one writing of the
    file, and any enabled event may come next. *)
From Stdlib Require String.
From stdpp Require Import gmap sorting.
From S2P Require Import Prelude PlaylistFiles PlaylistAtomic Doubles Settings SettingsProofs SettingsLoad.
Local Open Scope Z_scope.

(** ** State *)

(** Where a call of [settings_save] is: waiting for the write mutex, holding it,
    with its generation counted, with the file written. *)
Inductive save_phase :=
  | Waits (s : player_settings_t)
  | Holds (s : player_settings_t)
  | Counted (s : player_settings_t) (g : Z)
  | Wrote.
(** Where [settings_worker_main] is: waiting for something to save, with a
    snapshot taken, holding the write mutex, with the generation compared, done. *)
Inductive worker_phase :=
  | Idle
  | Took (s : player_settings_t) (g : Z)
  | Locked (s : player_settings_t) (g : Z)
  | Compared (s : player_settings_t) (g : Z) (current : bool)
  | Done.
Inductive holder := Caller (i : nat) | Worker.

(** The variables of the file, the threads, who has the write mutex, and the disk.
    [requests], the settings saved so far, the last first, and [written], what was
    written with its generation, the last first, are what the theorem talks about. *)
Record save_state := {
  settings_save_generation : Z; settings_queued_snapshot : player_settings_t; settings_queued_generation : Z; settings_save_pending : bool;
  callers : gmap nat save_phase; worker : worker_phase; write_mutex : option holder; disk : files;
  requests : list player_settings_t; written : list (Z * player_settings_t) }.
Inductive event :=
  | CallSave (i : nat) (s : player_settings_t)
  | CallAsync (s : player_settings_t)
  | SaveLock (i : nat) | SaveCount (i : nat) | SaveWrite (i : nat) (io : write_env) | SaveUnlock (i : nat)
  | WorkerTake | WorkerLock | WorkerCompare | WorkerWrite (io : write_env) | WorkerUnlock.

Definition with_caller (st : save_state) (i : nat) (p : option save_phase) (m : option holder) : save_state :=
  {| settings_save_generation := settings_save_generation st; settings_queued_snapshot := settings_queued_snapshot st;
     settings_queued_generation := settings_queued_generation st; settings_save_pending := settings_save_pending st;
     callers := match p with Some p => <[i := p]> (callers st) | None => delete i (callers st) end; worker := worker st; write_mutex := m; disk := disk st;
     requests := requests st; written := written st |}.
Definition with_worker (st : save_state) (p : worker_phase) (pending : bool) (m : option holder) : save_state :=
  {| settings_save_generation := settings_save_generation st; settings_queued_snapshot := settings_queued_snapshot st;
     settings_queued_generation := settings_queued_generation st; settings_save_pending := pending;
     callers := callers st; worker := p; write_mutex := m; disk := disk st; requests := requests st; written := written st |}.
(** The generation one further, for one more request. *)
Definition count (st : save_state) (s : player_settings_t) : save_state :=
  {| settings_save_generation := u64 (settings_save_generation st + 1); settings_queued_snapshot := settings_queued_snapshot st;
     settings_queued_generation := settings_queued_generation st; settings_save_pending := settings_save_pending st;
     callers := callers st; worker := worker st; write_mutex := write_mutex st; disk := disk st; requests := s :: requests st; written := written st |}.
Definition enqueue (st : save_state) (s : player_settings_t) : save_state :=
  let st := count st s in
  {| settings_save_generation := settings_save_generation st; settings_queued_snapshot := s;
     settings_queued_generation := settings_save_generation st; settings_save_pending := true;
     callers := callers st; worker := worker st; write_mutex := write_mutex st; disk := disk st; requests := requests st; written := written st |}.
Definition write (st : save_state) (io : write_env) (s : player_settings_t) (g : Z) : save_state :=
  {| settings_save_generation := settings_save_generation st; settings_queued_snapshot := settings_queued_snapshot st;
     settings_queued_generation := settings_queued_generation st; settings_save_pending := settings_save_pending st;
     callers := callers st; worker := worker st; write_mutex := write_mutex st; disk := run (settings_write_file io s) (disk st);
     requests := requests st; written := (g, s) :: written st |}.

(** ** Steps *)
Section Steps.
(** Whether the worker could be started; without it [settings_save_async] is
    [settings_save], and its events are those. *)
Context (settings_worker_ready : bool).
Definition settings_save (st : save_state) (i : nat) (e : event) : option save_state :=
  match e, callers st !! i with
  | CallSave _ s, None => Some (with_caller st i (Some (Waits s)) (write_mutex st))
  | SaveLock _, Some (Waits s) => match write_mutex st with None => Some (with_caller st i (Some (Holds s)) (Some (Caller i))) | Some _ => None end
  | SaveCount _, Some (Holds s) => let st := count st s in Some (with_caller st i (Some (Counted s (settings_save_generation st))) (write_mutex st))
  | SaveWrite _ io, Some (Counted s g) => Some (with_caller (write st io s g) i (Some Wrote) (write_mutex st))
  | SaveUnlock _, Some Wrote => Some (with_caller st i None None)
  | _, _ => None
  end.
Definition settings_worker_main (st : save_state) (e : event) : option save_state :=
  match e, worker st with
  | WorkerTake, Idle =>
      if settings_save_pending st then Some (with_worker st (Took (settings_queued_snapshot st) (settings_queued_generation st)) false (write_mutex st)) else None
  | WorkerLock, Took s g => match write_mutex st with None => Some (with_worker st (Locked s g) (settings_save_pending st) (Some Worker)) | Some _ => None end
  | WorkerCompare, Locked s g => Some (with_worker st (Compared s g (g =? settings_save_generation st)) (settings_save_pending st) (write_mutex st))
  | WorkerWrite io, Compared s g current =>
      Some (with_worker (if current then write st io s g else st) Done (settings_save_pending st) (write_mutex st))
  | WorkerUnlock, Done => Some (with_worker st Idle (settings_save_pending st) None)
  | _, _ => None
  end.
Definition step (st : save_state) (e : event) : option save_state :=
  match e with
  | CallSave i _ | SaveLock i | SaveCount i | SaveWrite i _ | SaveUnlock i => settings_save st i e
  | CallAsync s => if settings_worker_ready then Some (enqueue st s) else None
  | WorkerTake | WorkerLock | WorkerCompare | WorkerWrite _ | WorkerUnlock => if settings_worker_ready then settings_worker_main st e else None
  end.
Fixpoint steps (st : save_state) (es : list event) : option save_state :=
  match es with [] => Some st | e :: es => st' ← step st e; steps st' es end.
End Steps.
Definition initial (fs : files) : save_state :=
  {| settings_save_generation := 0; settings_queued_snapshot := set_defaults; settings_queued_generation := 0; settings_save_pending := false;
     callers := ∅; worker := Idle; write_mutex := None; disk := fs; requests := []; written := [] |}.

(** ** Invariant *)

(** The request with a number, the first with 1. *)
Definition request_no (reqs : list player_settings_t) (g : Z) : option player_settings_t := if 1 <=? g then rev reqs !! Z.to_nat (g - 1) else None.
Lemma request_no_bound reqs g s : request_no reqs g = Some s -> 1 <= g <= Z.of_nat (length reqs).
Proof. unfold request_no. destruct (Z.leb_spec 1 g); [|done]. intros Hg%lookup_lt_Some. rewrite length_rev in Hg. lia. Qed.
Lemma request_no_old reqs g s x : request_no reqs g = Some s -> request_no (x :: reqs) g = Some s.
Proof. unfold request_no. destruct (1 <=? g); [|done]. intros H. cbn [rev]. by apply lookup_app_l_Some. Qed.
Lemma request_no_last reqs x : request_no (x :: reqs) (Z.of_nat (length reqs) + 1) = Some x.
Proof.
  unfold request_no. rewrite (proj2 (Z.leb_le 1 _)) by lia. cbn [rev]. rewrite lookup_app_r by (rewrite length_rev; lia).
  rewrite length_rev. by replace (Z.to_nat _ - _)%nat with 0%nat by lia.
Qed.

Definition inside (p : save_phase) : bool := match p with Waits _ => false | _ => true end.
Definition worker_inside (p : worker_phase) : bool := match p with Idle | Took _ _ => false | _ => true end.
(** A request that is still to be written, by whoever has it. *)
Definition unwritten (st : save_state) (g : Z) (s : player_settings_t) : Prop := request_no (requests st) g = Some s /\ g ∉ map fst (written st).
Definition above (st : save_state) (g : Z) : Prop := Forall (fun g' => g' < g) (map fst (written st)).
Definition worker_has (st : save_state) (g : Z) (s : player_settings_t) : Prop :=
  worker st = Took s g \/ worker st = Locked s g \/ worker st = Compared s g true.

Record inv (ready : bool) (st : save_state) : Prop := {
  inv_generation : settings_save_generation st = Z.of_nat (length (requests st));
  inv_callers i p : callers st !! i = Some p -> inside p = true -> write_mutex st = Some (Caller i);
  inv_holder i : write_mutex st = Some (Caller i) -> exists p, callers st !! i = Some p /\ inside p = true;
  inv_worker : worker_inside (worker st) = true <-> write_mutex st = Some Worker;
  inv_ready : ready = false -> worker st = Idle /\ settings_save_pending st = false;
  inv_written : StronglySorted (fun g g' => g' < g) (map fst (written st)) /\ Forall (fun x => request_no (requests st) (fst x) = Some (snd x)) (written st);
  inv_pending : settings_save_pending st = true -> unwritten st (settings_queued_generation st) (settings_queued_snapshot st);
  inv_has g s : worker_has st g s -> unwritten st g s /\ (settings_save_pending st = true -> g < settings_queued_generation st);
  inv_current g s : worker st = Compared s g true -> above st g;
  inv_counted i g s : callers st !! i = Some (Counted s g) ->
    unwritten st g s /\ above st g /\ (settings_save_pending st = true -> settings_queued_generation st <> g) /\ (forall g' s', worker_has st g' s' -> g' <> g);
  inv_last s reqs : requests st = s :: reqs -> let n := Z.of_nat (length (requests st)) in
    n ∈ map fst (written st) \/ settings_save_pending st = true /\ settings_queued_generation st = n \/
    (exists s, worker_has st n s) \/ (exists i s, callers st !! i = Some (Counted s n)) }.

Lemma initial_inv ready fs : inv ready (initial fs).
Proof. split; cbn; try done; [split; constructor|by intros ? ? [?|[?|?]]]. Qed.

(** The mutex excludes. *)
Lemma one_caller ready st i j p q : inv ready st -> callers st !! i = Some p -> inside p = true -> callers st !! j = Some q -> inside q = true -> i = j.
Proof. intros H Hi Hp Hj Hq. pose proof (inv_callers _ _ H i p Hi Hp) as E. rewrite (inv_callers _ _ H j q Hj Hq) in E. by injection E. Qed.
Lemma no_worker ready st i p : inv ready st -> callers st !! i = Some p -> inside p = true -> worker_inside (worker st) = false.
Proof.
  intros H Hi Hp. destruct (worker_inside (worker st)) eqn:E; [|done]. apply (inv_worker _ _ H) in E. by rewrite (inv_callers _ _ H i p Hi Hp) in E.
Qed.
Lemma written_bound ready st g : inv ready st -> g ∈ map fst (written st) -> 1 <= g <= Z.of_nat (length (requests st)).
Proof.
  intros H Hin. apply list_elem_of_fmap in Hin as ([g' s] & -> & Hin). destruct (inv_written _ _ H) as [_ Hall]. rewrite list.Forall_forall in Hall.
  apply Hall in Hin. cbn in *. by eapply request_no_bound.
Qed.

(** ** Every event keeps it *)
Lemma call_inv ready st i s : inv ready st -> callers st !! i = None -> inv ready (with_caller st i (Some (Waits s)) (write_mutex st)).
Proof.
  intros H Hi. destruct H as [H1 H2 H3 H4 H5 H6 H7 H8 H9 H10 H11]. split; cbn; try done.
  - intros j p [[<- <-]|[_ Hj]]%lookup_insert_Some; [done|by apply H2].
  - intros j Hj. destruct (H3 j Hj) as (p & Hp & Hin). exists p. split; [|done]. rewrite lookup_insert_ne; [done|]. intros ->. congruence.
  - intros j g s' [[_ ?]|[_ Hj]]%lookup_insert_Some; [done|exact (H10 j g s' Hj)].
  - intros s' reqs E. destruct (H11 s' reqs E) as [?|[?|[?|(j & s'' & Hj)]]]; [tauto..|]. do 3 right. exists j, s''. rewrite lookup_insert_ne; [done|]. intros ->. congruence.
Qed.
Lemma lock_inv ready st i s :
  inv ready st -> callers st !! i = Some (Waits s) -> write_mutex st = None -> inv ready (with_caller st i (Some (Holds s)) (Some (Caller i))).
Proof.
  intros H Hi Hm. destruct H as [H1 H2 H3 H4 H5 H6 H7 H8 H9 H10 H11]. rewrite Hm in *. split; cbn; try done.
  - intros j p [[<- <-]|[_ Hj]]%lookup_insert_Some; [done|]. intros Hp. by specialize (H2 j p Hj Hp).
  - intros j [= <-]. exists (Holds s). by rewrite lookup_insert_eq.
  - rewrite H4. done.
  - intros j g s' [[_ ?]|[_ Hj]]%lookup_insert_Some; [done|exact (H10 j g s' Hj)].
  - intros s' reqs E. destruct (H11 s' reqs E) as [?|[?|[?|(j & s'' & Hj)]]]; [tauto..|]. do 3 right. exists j, s''. rewrite lookup_insert_ne; [done|]. intros ->. congruence.
Qed.
Lemma unwritten_count st x g s : unwritten st g s -> unwritten (count st x) g s.
Proof. intros [H1 H2]. split; [by apply request_no_old|done]. Qed.
Lemma count_inv_requests ready st :
  inv ready st -> forall x, Z.of_nat (length (x :: requests st)) < 18446744073709551616 -> settings_save_generation (count st x) = Z.of_nat (length (x :: requests st)).
Proof. intros H x Hlen. cbn [count settings_save_generation length] in *. rewrite (inv_generation _ _ H). unfold u64. rewrite Z.mod_small; lia. Qed.
(** The new generation is above all that went before. *)
Lemma count_new ready st x :
  inv ready st -> let n := Z.of_nat (length (x :: requests st)) in unwritten (count st x) n x /\ above (count st x) n.
Proof.
  intros H n. assert (n = Z.of_nat (length (requests st)) + 1) as En by (unfold n; cbn [length]; lia). split; [split|].
  - rewrite En. apply request_no_last.
  - intros Hin. apply (written_bound ready st n H) in Hin. lia.
  - apply list.Forall_forall. intros g Hin. apply (written_bound ready st g H) in Hin. lia.
Qed.
Lemma written_count st x :
  Forall (fun y => request_no (requests st) (fst y) = Some (snd y)) (written st) -> Forall (fun y => request_no (x :: requests st) (fst y) = Some (snd y)) (written st).
Proof. intros H. eapply List.Forall_impl; [|exact H]. intros y. apply request_no_old. Qed.
Lemma save_count_inv ready st i s :
  inv ready st -> callers st !! i = Some (Holds s) -> Z.of_nat (length (s :: requests st)) < 18446744073709551616 ->
  inv ready (with_caller (count st s) i (Some (Counted s (settings_save_generation (count st s)))) (write_mutex st)).
Proof.
  intros H Hi Hlen. pose proof (count_inv_requests ready st H s Hlen) as Egen. destruct (count_new ready st s H) as [Hnew Habove]. rewrite Egen.
  set (n := Z.of_nat (length (s :: requests st))) in *. assert (n = Z.of_nat (length (requests st)) + 1) as En by (unfold n; cbn [length]; lia).
  assert (forall g s', unwritten st g s' -> g < n) as Hless by (intros g s' [Hr _]; apply request_no_bound in Hr; lia).
  pose proof H as [H1 H2 H3 H4 H5 H6 H7 H8 H9 H10 H11]. split; cbn -[length]; try done.
  - intros j p [[<- <-]|[_ Hj]]%lookup_insert_Some; [intros _; by apply (H2 i (Holds s))|by apply H2].
  - intros j Hj. destruct (H3 j Hj) as (p & Hp & Hin). destruct (decide (i = j)) as [<-|Hne]; [exists (Counted s n); cbn; by rewrite lookup_insert_eq|].
    exists p. cbn. by rewrite lookup_insert_ne.
  - split; [apply H6|by apply written_count, H6].
  - intros Hp. by apply unwritten_count, H7.
  - intros g s' Hg. destruct (H8 g s' Hg) as [Hu Hlt]. split; [by apply unwritten_count|done].
  - intros j g s' [[<- [= <- <-]]|[Hne Hj]]%lookup_insert_Some.
    + split; [done|]. split; [done|]. split; [intros Hp E; specialize (Hless _ _ (H7 Hp)); cbn in E; lia|].
      intros g' s'' Hg E. destruct (H8 g' s'' Hg) as [Hu _]. specialize (Hless _ _ Hu). lia.
    + by destruct Hne; apply (one_caller ready st i j (Holds s) (Counted s' g)).
  - intros s' reqs _. do 3 right. exists i, s. cbn. by rewrite lookup_insert_eq.
Qed.
Lemma enqueue_inv st s :
  inv true st -> Z.of_nat (length (s :: requests st)) < 18446744073709551616 -> inv true (enqueue st s).
Proof.
  intros H Hlen. pose proof (count_inv_requests true st H s Hlen) as Egen. destruct (count_new true st s H) as [Hnew Habove]. unfold enqueue. rewrite Egen.
  set (n := Z.of_nat (length (s :: requests st))) in *. assert (n = Z.of_nat (length (requests st)) + 1) as En by (unfold n; cbn [length]; lia).
  assert (forall g s', unwritten st g s' -> g < n) as Hless by (intros g s' [Hr _]; apply request_no_bound in Hr; lia).
  pose proof H as [H1 H2 H3 H4 H5 H6 H7 H8 H9 H10 H11]. split; cbn -[length]; try done.
  - split; [apply H6|by apply written_count, H6].
  - intros g s' Hg. destruct (H8 g s' Hg) as [Hu _]. split; [by apply (unwritten_count st s)|]. intros _. by apply (Hless g s').
  - intros i g s' Hi. destruct (H10 i g s' Hi) as (Hu & Ha & _ & Hw). split; [by apply (unwritten_count st s)|]. split; [done|]. split; [|done].
    intros _ E. specialize (Hless _ _ Hu). cbn in E. lia.
  - intros s' reqs _. right. left. done.
Qed.
Lemma unwritten_write st io g s g' s' : unwritten st g' s' -> g' <> g -> unwritten (write st io s g) g' s'.
Proof. intros [H1 H2] Hne. split; [done|]. cbn. by rewrite list.elem_of_cons; intros [?|?]. Qed.
Lemma written_write ready st g s :
  inv ready st -> unwritten st g s -> above st g ->
  StronglySorted (fun g g' => g' < g) (g :: map fst (written st)) /\ Forall (fun x => request_no (requests st) (fst x) = Some (snd x)) ((g, s) :: written st).
Proof. intros H [Hr _] Ha. destruct (inv_written _ _ H) as [H1 H2]. split; [by constructor|by constructor]. Qed.
Lemma save_write_inv ready st i io s g :
  inv ready st -> callers st !! i = Some (Counted s g) -> inv ready (with_caller (write st io s g) i (Some Wrote) (write_mutex st)).
Proof.
  intros H Hi. pose proof H as [H1 H2 H3 H4 H5 H6 H7 H8 H9 H10 H11]. destruct (H10 i g s Hi) as (Hu & Ha & Hp & Hw).
  pose proof (no_worker ready st i _ H Hi eq_refl) as Hout. split; cbn -[length]; try done.
  - intros j p [[<- <-]|[_ Hj]]%lookup_insert_Some; [intros _; by apply (H2 i (Counted s g))|by apply H2].
  - intros j Hj. destruct (H3 j Hj) as (p & Hq & Hin). destruct (decide (i = j)) as [<-|Hne]; [exists Wrote; by rewrite lookup_insert_eq|].
    exists p. by rewrite lookup_insert_ne.
  - by apply (written_write ready).
  - intros Hpend. apply (unwritten_write st io g s); [by apply H7|by apply Hp].
  - intros g' s' Hg. destruct (H8 g' s' Hg) as [Hu' Hlt]. split; [|done]. apply (unwritten_write st io g s); [done|]. by apply (Hw g' s').
  - intros g' s' Hg. by rewrite Hg in Hout.
  - intros j g' s' [[_ ?]|[Hne Hj]]%lookup_insert_Some; [done|]. by destruct Hne; apply (one_caller ready st i j (Counted s g) (Counted s' g')).
  - intros s' reqs E. destruct (H11 s' reqs E) as [Hin|[?|[?|(j & s'' & Hj)]]]; [left; by right|tauto..|].
    destruct (decide (i = j)) as [<-|Hne]; [left|by destruct Hne; apply (one_caller ready st i j (Counted s g) (Counted s'' (Z.of_nat (length (requests st)))))].
    rewrite Hi in Hj. injection Hj as _ ->. by left.
Qed.
Lemma save_unlock_inv ready st i : inv ready st -> callers st !! i = Some Wrote -> inv ready (with_caller st i None None).
Proof.
  intros H Hi. pose proof H as [H1 H2 H3 H4 H5 H6 H7 H8 H9 H10 H11]. pose proof (no_worker ready st i _ H Hi eq_refl) as Hout. split; cbn -[length]; try done.
  - intros j p [Hne Hj]%lookup_delete_Some Hp. by destruct Hne; apply (one_caller ready st i j Wrote p).
  - rewrite Hout. done.
  - intros j g' s' [_ Hj]%lookup_delete_Some. exact (H10 j g' s' Hj).
  - intros s' reqs E. destruct (H11 s' reqs E) as [?|[?|[?|(j & s'' & Hj)]]]; [tauto..|]. do 3 right. exists j, s''. rewrite lookup_delete_ne; [done|]. intros ->. congruence.
Qed.
Lemma take_inv st :
  inv true st -> worker st = Idle -> settings_save_pending st = true ->
  inv true (with_worker st (Took (settings_queued_snapshot st) (settings_queued_generation st)) false (write_mutex st)).
Proof.
  intros H Hw Hp. pose proof H as [H1 H2 H3 H4 H5 H6 H7 H8 H9 H10 H11]. rewrite Hw in *. split; cbn -[length]; try done.
  - intros g s [[= <- <-]|[?|?]]; [|done..]. split; [by apply H7|done].
  - intros i g s Hi. destruct (H10 i g s Hi) as (Hu & Ha & Hne & _). split; [done|]. split; [done|]. split; [done|]. intros g' s' [[= <- <-]|[?|?]]; [|done..]. by apply Hne.
  - intros s' reqs E. destruct (H11 s' reqs E) as [?|[[_ <-]|[(s & [?|[?|?]])|?]]]; try (by left); try tauto; try congruence; try (by do 3 right).
    right. right. left. exists (settings_queued_snapshot st). by left.
Qed.
Lemma worker_lock_inv st s g :
  inv true st -> worker st = Took s g -> write_mutex st = None -> inv true (with_worker st (Locked s g) (settings_save_pending st) (Some Worker)).
Proof.
  intros H Hw Hm. pose proof H as [H1 H2 H3 H4 H5 H6 H7 H8 H9 H10 H11]. rewrite Hm in *. split; cbn -[length]; try done.
  - intros i p Hi Hp. by specialize (H2 i p Hi Hp).
  - intros g' s' [?|[[= <- <-]|?]]; [done| |done]. apply H8. by left.
  - intros i g' s' Hi. by specialize (H2 i _ Hi eq_refl).
  - intros s' reqs E. destruct (H11 s' reqs E) as [?|[?|[(s'' & [Hx|[?|?]])|?]]]; try (by left); try tauto; try congruence; try (by do 3 right).
    right. right. left. exists s. right. left. rewrite Hw in Hx. by injection Hx as -> ->.
Qed.
Lemma compare_inv st s g :
  inv true st -> worker st = Locked s g ->
  inv true (with_worker st (Compared s g (g =? settings_save_generation st)) (settings_save_pending st) (write_mutex st)).
Proof.
  intros H Hw. pose proof H as [H1 H2 H3 H4 H5 H6 H7 H8 H9 H10 H11]. destruct (H8 g s) as [[Hr Hfresh] Hlt]; [right; by left|].
  assert (write_mutex st = Some Worker) as Hm by (apply H4; by rewrite Hw). split; cbn -[length]; try done.
  - intros g' s' [?|[?|[= <- <- _]]]; [done..|]. done.
  - intros g' s' [= <- <- Hg]. apply Z.eqb_eq in Hg. apply list.Forall_forall. intros g' Hin. pose proof (written_bound true st g' H Hin).
    assert (g' <> g) by (intros ->; done). lia.
  - intros i g' s' Hi. specialize (H2 i _ Hi eq_refl). congruence.
  - intros s' reqs E. destruct (H11 s' reqs E) as [?|[?|[(s'' & [?|[Hx|?]])|?]]]; try (by left); try tauto; try congruence; try (by do 3 right).
    right. right. left. exists s. right. right. rewrite Hw in Hx. injection Hx as -> ->. by rewrite H1, Z.eqb_refl.
Qed.
Lemma worker_write_inv st io s g current :
  inv true st -> worker st = Compared s g current -> inv true (with_worker (if current then write st io s g else st) Done (settings_save_pending st) (write_mutex st)).
Proof.
  intros H Hw. pose proof H as [H1 H2 H3 H4 H5 H6 H7 H8 H9 H10 H11].
  assert (write_mutex st = Some Worker) as Hm by (apply H4; by rewrite Hw). destruct current; split; cbn -[length]; try done.
  - apply (written_write true); [done|apply (H8 g s); by do 2 right|by apply (H9 g s)].
  - intros Hp. apply (unwritten_write st io g s); [by apply H7|]. destruct (H8 g s) as [_ Hlt]; [by do 2 right|]. specialize (Hlt Hp). lia.
  - by intros g' s' [?|[?|?]].
  - intros i g' s' Hi. specialize (H2 i _ Hi eq_refl). congruence.
  - intros s' reqs E. destruct (H11 s' reqs E) as [?|[?|[(s'' & [?|[?|Hx]])|?]]]; try (by left; right); try tauto; try congruence; try (by do 3 right).
    left. rewrite Hw in Hx. injection Hx as -> ->. by left.
  - by intros g' s' [?|[?|?]].
  - intros i g' s' Hi. specialize (H2 i _ Hi eq_refl). congruence.
  - intros s' reqs E. destruct (H11 s' reqs E) as [?|[?|[(s'' & [?|[?|?]])|?]]]; try (by left); try tauto; try congruence; try (by do 3 right).
Qed.
Lemma worker_unlock_inv st : inv true st -> worker st = Done -> inv true (with_worker st Idle (settings_save_pending st) None).
Proof.
  intros H Hw. pose proof H as [H1 H2 H3 H4 H5 H6 H7 H8 H9 H10 H11]. assert (write_mutex st = Some Worker) as Hm by (apply H4; by rewrite Hw).
  split; cbn -[length]; try done.
  - intros i p Hi Hp. specialize (H2 i p Hi Hp). congruence.
  - by intros g s [?|[?|?]].
  - intros i g' s' Hi. specialize (H2 i _ Hi eq_refl). congruence.
  - intros s' reqs E. destruct (H11 s' reqs E) as [?|[?|[(s'' & [?|[?|?]])|?]]]; try (by left); try tauto; try congruence; try (by do 3 right).
Qed.
Lemma step_requests ready st e st' : step ready st e = Some st' -> (length (requests st) <= length (requests st'))%nat.
Proof.
  intros H. destruct e; cbn in H; try (destruct ready; [|done]);
    repeat (case_match; simplify_eq/=; try done); simplify_eq/=; try case_match; cbn; lia.
Qed.
Lemma step_inv ready st e st' :
  inv ready st -> step ready st e = Some st' -> Z.of_nat (length (requests st')) < 18446744073709551616 -> inv ready st'.
Proof.
  intros H. destruct e; cbn [step settings_save settings_worker_main].
  - destruct (callers st !! i) as [p|] eqn:Hi; [done|]. intros [= <-] _. by apply call_inv.
  - destruct ready; [|done]. intros [= <-] Hlen. by apply enqueue_inv.
  - destruct (callers st !! i) as [[s| | |]|] eqn:Hi; try done. destruct (write_mutex st) eqn:Hm; [done|]. intros [= <-] _. by apply lock_inv.
  - destruct (callers st !! i) as [[|s| |]|] eqn:Hi; try done. intros [= <-] Hlen. by apply save_count_inv.
  - destruct (callers st !! i) as [[| |s g|]|] eqn:Hi; try done. intros [= <-] _. by apply save_write_inv.
  - destruct (callers st !! i) as [[| | |]|] eqn:Hi; try done. intros [= <-] _. by apply save_unlock_inv.
  - destruct ready; [|done]. destruct (worker st) eqn:Hw; try done. destruct (settings_save_pending st) eqn:Hp; [|done]. intros [= <-] _. by apply take_inv.
  - destruct ready; [|done]. destruct (worker st) eqn:Hw; try done. destruct (write_mutex st) eqn:Hm; [done|]. intros [= <-] _. by apply worker_lock_inv.
  - destruct ready; [|done]. destruct (worker st) eqn:Hw; try done. intros [= <-] _. by apply compare_inv.
  - destruct ready; [|done]. destruct (worker st) eqn:Hw; try done. intros [= <-] _. by apply worker_write_inv.
  - destruct ready; [|done]. destruct (worker st) eqn:Hw; try done. intros [= <-] _. by apply worker_unlock_inv.
Qed.
Lemma saves_snoc ready st es e : steps ready st (es ++ [e]) = (st' ← steps ready st es; step ready st' e).
Proof.
  revert st. induction es as [|x es IH]; intros st; cbn [steps app]; [cbn; by destruct (step ready st e)|].
  destruct (step ready st x) as [st'|]; cbn; [apply IH|done].
Qed.
Lemma saves_inv ready st es st' :
  inv ready st -> steps ready st es = Some st' -> Z.of_nat (length (requests st')) < 18446744073709551616 -> inv ready st'.
Proof.
  intros H. revert st'. induction es as [|e es IH] using rev_ind; intros st'; [by intros [= <-]|]. rewrite saves_snoc.
  destruct (steps ready st es) as [st1|]; [|done]. cbn. intros Hstep Hlen. pose proof (step_requests _ _ _ _ Hstep).
  apply (step_inv ready st1 e st'); [apply IH; [done|lia]|done|done].
Qed.

(** ** The file *)

(** Every writing went well. *)
Definition write_ok (e : event) : Prop := match e with SaveWrite _ io | WorkerWrite io => all_written io = true | _ => True end.
Definition last_written (fs : files) (st : save_state) : option (list Z) :=
  match written st with [] => fs !! SETTINGS_FILE_PATH | (_, s) :: _ => Some (settings_text s) end.
Lemma step_file ready fs st e st' :
  step ready st e = Some st' -> write_ok e -> disk st !! SETTINGS_FILE_PATH = last_written fs st -> disk st' !! SETTINGS_FILE_PATH = last_written fs st'.
Proof.
  assert (forall st io s g, all_written io = true -> disk (write st io s g) !! SETTINGS_FILE_PATH = last_written fs (write st io s g)) as Hwrite.
  { intros x io s g Hio. cbn. rewrite settings_write_publishes by done. rewrite run_publish. apply lookup_insert_eq. }
  intros H Hok Hd. destruct e; cbn in H; try (destruct ready; [|done]); repeat (case_match; simplify_eq/=; try done); simplify_eq/=; try done;
    match goal with |- context [write ?x ?io ?s ?g] => exact (Hwrite x io s g Hok) end.
Qed.
Lemma saves_file ready fs es st' :
  steps ready (initial fs) es = Some st' -> Forall write_ok es -> disk st' !! SETTINGS_FILE_PATH = last_written fs st'.
Proof.
  revert st'. induction es as [|e es IH] using rev_ind; intros st'; [by intros [= <-]|]. rewrite saves_snoc.
  destruct (steps ready (initial fs) es) as [st1|]; [|done]. cbn. intros Hstep [Hes [He _]%Forall_cons_1]%list.Forall_app. by apply (step_file ready fs st1 e), IH.
Qed.

(** ** Theorems *)

(** No call under way, and nothing left for the worker. *)
Definition quiet (st : save_state) : Prop := callers st = ∅ /\ worker st = Idle /\ settings_save_pending st = false.
(** C19. Whatever the order of the threads: an older snapshot is never written after a
    newer one, each is written as it was saved, none twice; and when everything is
    done and no writing failed, the file holds the settings saved last. *)
Theorem settings_saves_ordered (ready : bool) (fs : files) (es : list event) (st : save_state) :
  steps ready (initial fs) es = Some st -> Z.of_nat (length (requests st)) < 18446744073709551616 ->
  StronglySorted (fun g g' => g' < g) (map fst (written st)) /\
  Forall (fun '(g, s) => request_no (requests st) g = Some s) (written st) /\
  (quiet st -> Forall write_ok es -> disk st !! SETTINGS_FILE_PATH = match requests st with [] => fs !! SETTINGS_FILE_PATH | s :: _ => Some (settings_text s) end).
Proof.
  intros Hsteps Hlen. pose proof (saves_inv ready _ es st (initial_inv ready fs) Hsteps Hlen) as H. destruct (inv_written _ _ H) as [Hsort Hall].
  split; [done|]. split; [eapply List.Forall_impl; [|exact Hall]; by intros []|]. intros (Hc & Hw & Hp) Hok. rewrite (saves_file ready fs es st Hsteps Hok).
  unfold last_written. destruct (requests st) as [|s reqs] eqn:Er.
  - destruct (written st) as [|[g s] ws] eqn:Ew; [done|]. apply Forall_cons_1 in Hall as [Hg _]. apply request_no_bound in Hg. cbn in Hg. lia.
  - assert (Z.of_nat (length (requests st)) ∈ map fst (written st)) as Hin.
    { destruct (inv_last _ _ H s reqs Er) as [Hin|[[Hp' _]|[(s' & Hs)|(i & s' & Hi)]]]; [done|congruence| |by rewrite Hc in Hi].
      unfold worker_has in Hs. rewrite Hw in Hs. by destruct Hs as [?|[?|?]]. }
    destruct (written st) as [|[g s'] ws] eqn:Ew; [by apply elem_of_nil in Hin|]. apply Forall_cons_1 in Hall as [Hg _]. cbn [fst snd map] in *.
    assert (g = Z.of_nat (length (s :: reqs))) as ->.
    { pose proof (request_no_bound _ _ _ Hg). rewrite Er in Hin. apply list.elem_of_cons in Hin as [?|Hin]; [done|].
      inversion_clear Hsort as [|? ? _ Hlt]. rewrite list.Forall_forall in Hlt. specialize (Hlt _ Hin). lia. }
    replace (Z.of_nat (length (s :: reqs))) with (Z.of_nat (length reqs) + 1) in Hg by (cbn [length]; lia). rewrite request_no_last in Hg. by injection Hg as ->.
Qed.

(** ** Everything ends *)
Definition internal (e : event) : bool := match e with CallSave _ _ | CallAsync _ => false | _ => true end.
Definition phase_work (p : save_phase) : nat := match p with Waits _ => 4 | Holds _ => 3 | Counted _ _ => 2 | Wrote => 1 end.
Definition worker_work (p : worker_phase) : nat := match p with Took _ _ => 4 | Locked _ _ => 3 | Compared _ _ _ => 2 | Done => 1 | Idle => 0 end.
Definition callers_work (m : gmap nat save_phase) : nat := map_fold (fun _ p n => phase_work p + n)%nat 0%nat m.
(** The events still to come for what is under way. *)
Definition work (st : save_state) : nat := callers_work (callers st) + worker_work (worker st) + if settings_save_pending st then 5 else 0.
Lemma callers_work_fresh m i p : m !! i = None -> callers_work (<[i := p]> m) = (phase_work p + callers_work m)%nat.
Proof. intros Hi. unfold callers_work. rewrite map_fold_insert_L; [done| |done]. intros. lia. Qed.
Lemma callers_work_delete m i p : m !! i = Some p -> callers_work m = (phase_work p + callers_work (delete i m))%nat.
Proof. intros Hi. rewrite <- (insert_delete_id m i p Hi) at 1. by rewrite callers_work_fresh by apply lookup_delete_eq. Qed.
Lemma callers_work_insert m i p q : m !! i = Some p -> callers_work (<[i := q]> m) = (phase_work q + callers_work (delete i m))%nat.
Proof. intros Hi. rewrite <- insert_delete_eq. by rewrite callers_work_fresh by apply lookup_delete_eq. Qed.
Lemma step_work ready st e st' : internal e = true -> step ready st e = Some st' -> (work st' < work st)%nat.
Proof.
  intros He H. destruct e; try done; cbn in H; try (destruct ready; [|done]).
  1-4: destruct (callers st !! i) as [p|] eqn:Hi; [|done]; unfold work; rewrite (callers_work_delete _ _ _ Hi);
    destruct p; try done; try (destruct (write_mutex st); [done|]); injection H as <-; cbn [with_caller callers worker settings_save_pending write count];
    rewrite ?(callers_work_insert _ _ _ _ Hi); cbn [phase_work]; lia.
  - unfold work. destruct (worker st); try done. destruct (settings_save_pending st); [|done]. injection H as <-. cbn. lia.
  - unfold work. destruct (worker st); try done. destruct (write_mutex st); [done|]. injection H as <-. cbn. lia.
  - unfold work. destruct (worker st); try done. injection H as <-. cbn. lia.
  - unfold work. destruct (worker st); try done. injection H as <-. destruct current; cbn; lia.
  - unfold work. destruct (worker st); try done. injection H as <-. cbn. lia.
Qed.
Definition can_move (ready : bool) (st : save_state) : Prop := exists e st', internal e = true /\ write_ok e /\ step ready st e = Some st'.
Definition good_write : write_env := {| w_open := true; w_fchmod := true; w_fdopen := true; w_left := None; w_rename := true |}.
Lemma inv_moves ready st : inv ready st -> quiet st \/ can_move ready st.
Proof.
  intros H. destruct (write_mutex st) as [[i|]|] eqn:Hm.
  - right. destruct (inv_holder _ _ H i Hm) as (p & Hi & Hp).
    destruct p as [s|s|s g|]; [done|exists (SaveCount i)|exists (SaveWrite i good_write)|exists (SaveUnlock i)]; cbn; rewrite Hi; by eexists.
  - right. assert (worker_inside (worker st) = true) as Hw by (by apply (inv_worker _ _ H)).
    assert (ready = true) as -> by (destruct ready; [done|]; destruct (inv_ready _ _ H eq_refl) as [E _]; by rewrite E in Hw).
    destruct (worker st) as [|s g|s g|s g c|] eqn:E; try done; [exists WorkerCompare|exists (WorkerWrite good_write)|exists WorkerUnlock]; cbn; rewrite E; by eexists.
  - destruct (map_choose_or_empty (callers st)) as [(i & p & Hi)|Hc].
    + right. destruct p as [s|s|s g|]; [|by pose proof (inv_callers _ _ H i _ Hi eq_refl); congruence..]. exists (SaveLock i). cbn. rewrite Hi, Hm. by eexists.
    + destruct (worker st) as [|s g|s g|s g c|] eqn:E; [|right|by pose proof (proj1 (inv_worker _ _ H)) as Hw; rewrite E, Hm in Hw; specialize (Hw eq_refl)..].
      * destruct (settings_save_pending st) eqn:Hp; [right|by left].
        assert (ready = true) as -> by (destruct ready; [done|]; destruct (inv_ready _ _ H eq_refl); congruence).
        exists WorkerTake. cbn. rewrite E, Hp. by eexists.
      * assert (ready = true) as -> by (destruct ready; [done|]; destruct (inv_ready _ _ H eq_refl); congruence).
        exists WorkerLock. cbn. rewrite E, Hm. by eexists.
Qed.
(** C20. Nothing hangs: as long as something is under way an event of its can happen,
    whatever the order so far, and each takes from the work that is left; so
    without new calls every order ends, with all saved. *)
Theorem settings_saves_finish (ready : bool) (fs : files) (es : list event) (st : save_state) :
  steps ready (initial fs) es = Some st -> Z.of_nat (length (requests st)) < 18446744073709551616 ->
  (quiet st \/ can_move ready st) /\ (forall e st', internal e = true -> step ready st e = Some st' -> (work st' < work st)%nat).
Proof.
  intros Hsteps Hlen. split; [by eapply inv_moves, saves_inv; [apply initial_inv|..]|]. intros e st'. apply step_work.
Qed.

(** ** Witnesses

    A snapshot is queued, the worker takes it, and a synchronous save comes in
    between: the worker leaves its own. *)
Definition quieter : player_settings_t := Settings.setter volume (dbl 0) set_defaults.
Definition overtaken : list event :=
  [CallAsync set_defaults; WorkerTake; CallSave 7 quieter; SaveLock 7; SaveCount 7; SaveWrite 7 good_write; SaveUnlock 7; WorkerLock; WorkerCompare;
   WorkerWrite good_write; WorkerUnlock].
Lemma settings_saves_ordered_witness :
  exists st, steps true (initial ∅) overtaken = Some st /\ map fst (written st) = [2] /\ disk st !! SETTINGS_FILE_PATH = Some (settings_text quieter).
Proof.
  destruct (steps true (initial ∅) overtaken) as [st|] eqn:E; [|by vm_compute in E]. exists st. split; [done|].
  assert (requests st = [quieter; set_defaults] /\ written st = [(2, quieter)] /\ quiet st) as (Hr & Hw & Hq).
  { cbn in E. injection E as <-. done. }
  destruct (settings_saves_ordered true ∅ overtaken st E) as (_ & _ & Hfile); [rewrite Hr; cbn; lia|].
  split; [by rewrite Hw|]. rewrite Hfile by (done || by repeat constructor). by rewrite Hr.
Defined.
Lemma settings_saves_finish_witness :
  exists st, steps true (initial ∅) (take 2 overtaken) = Some st /\ work st = 4%nat /\ (quiet st \/ can_move true st).
Proof.
  destruct (steps true (initial ∅) (take 2 overtaken)) as [st|] eqn:E; [|by vm_compute in E]. exists st. split; [done|].
  assert (requests st = [set_defaults] /\ work st = 4%nat) as [Hr Hw] by (cbn in E; injection E as <-; by split).
  split; [done|]. apply (settings_saves_finish true ∅ (take 2 overtaken) st E). rewrite Hr. cbn. lia.
Defined.
