(* ===== verification/PluginDisabled.v ===== *)
(** The list of plugins that are switched off, src/plugins/plugin_disabled_list.c:
    what the list in memory and its file on the card agree on. *)
From stdpp Require Import gmap.
From S2P Require Import Prelude Endian QueueResume PlaylistFiles PlaylistAtomic RowFile.
Local Open Scope Z_scope.

Definition PLUGINS_DIR : list Z := bs "/data/mnt/sd_0/.plugins".
Definition DISABLED_LIST_PATH : list Z := PLUGINS_DIR ++ bs "/.disabled".
Definition DISABLED_LIST_TMP_PATH : list Z := DISABLED_LIST_PATH ++ bs ".tmp".
Definition PLUGIN_DISABLED_LIST_MAX : nat := 64.
Definition NAME_SIZE : nat := 256.

Record disabled_list := { disabled_names : list (list Z); pd_disk : files }.

Definition strip_eol (s : list Z) : list Z := library_trim_eol s.
Fixpoint load_names (lines names : list (list Z)) : list (list Z) :=
  match lines with
  | [] => names
  | line :: lines =>
      if (PLUGIN_DISABLED_LIST_MAX <=? length names)%nat then names
      else match strip_eol line with
           | [] => load_names lines names
           | name => load_names lines (names ++ [snprintf_s NAME_SIZE name])
           end
  end.
(** [opened]: the file, if it exists, can be opened. *)
Definition plugin_disabled_list_load (opened : bool) (st : disabled_list) : disabled_list :=
  {| disabled_names := match (if opened then pd_disk st !! DISABLED_LIST_PATH else None) with
                       | Some content => load_names (fgets_lines NAME_SIZE (length content) content) []
                       | None => []
                       end;
     pd_disk := pd_disk st |}.

Definition find_name (names : list (list Z)) (filename : list Z) : option nat := find_key (fun n => n) names filename.
Definition plugin_disabled_list_contains (st : disabled_list) (filename : list Z) : bool :=
  match find_name (disabled_names st) filename with Some _ => true | None => false end.

Definition write_disabled_list (io : save_env) (names : list (list Z)) : bool * list fs_op :=
  rewrite_ops io false DISABLED_LIST_TMP_PATH DISABLED_LIST_PATH (rows_text names).

(** The result, the list afterwards, and the steps taken in the files. *)
Definition set_steps (io : save_env) (names : list (list Z)) (filename : list Z) (disabled : bool) : bool * list (list Z) * list fs_op :=
  let found := find_name names filename in
  if disabled then
    match found with
    | Some _ => (true, names, [])
    | None =>
        if (PLUGIN_DISABLED_LIST_MAX <=? length names)%nat then (false, names, [])
        else
          let added := names ++ [snprintf_s NAME_SIZE filename] in
          let '(ok, ops) := write_disabled_list io added in
          (ok, if ok then added else take (length added - 1) added, ops)
    end
  else
    match found with
    | None => (true, names, [])
    | Some i =>
        let removed := snprintf_s NAME_SIZE (default [] (names !! i)) in
        let rest := delete i names in
        let '(ok, ops) := write_disabled_list io rest in
        (ok, if ok then rest else rest ++ [removed], ops)
    end.
Definition plugin_disabled_list_set (io : save_env) (st : disabled_list) (filename : list Z) (disabled : bool) : bool * disabled_list :=
  let '(ok, names, ops) := set_steps io (disabled_names st) filename disabled in
  (ok, {| disabled_names := names; pd_disk := run ops (pd_disk st) |}).

(** ** The list and its file *)

(** A name that reads back from its line. *)
Definition name_ok (n : list Z) : Prop := row_ok NAME_SIZE n /\ list.last n <> Some 13 /\ n <> [].
Definition names_ok (names : list (list Z)) : Prop := NoDup names /\ (length names <= PLUGIN_DISABLED_LIST_MAX)%nat /\ Forall name_ok names.
(** The file has these names in some order. *)
Definition in_file (fs : files) (names : list (list Z)) : Prop := exists l, l ≡ₚ names /\ file_is rows_text [] DISABLED_LIST_PATH [] (fun _ => True) fs l.

Lemma find_name_in names n : match find_name names n with Some _ => true | None => false end = bool_decide (n ∈ names).
Proof.
  destruct (find_name names n) as [i|] eqn:E; symmetry.
  - apply bool_decide_eq_true_2. apply find_key_bound in E as (e & He & <-). by eapply list_elem_of_lookup_2.
  - apply bool_decide_eq_false_2. apply find_key_None in E. by rewrite map_id in E.
Qed.
Lemma contains_in st n : plugin_disabled_list_contains st n = bool_decide (n ∈ disabled_names st).
Proof. apply find_name_in. Qed.
Lemma load_names_rows l acc :
  Forall name_ok l -> (length (acc ++ l) <= PLUGIN_DISABLED_LIST_MAX)%nat -> load_names (map (fun n => n ++ [10]) l) acc = acc ++ l.
Proof.
  intros Hl. revert acc. induction Hl as [|n l ((Hc & Hn & Hsize) & Hlast & Hne) _ IH]; intros acc Hmax; cbn [map load_names]; [by rewrite app_nil_r|].
  rewrite length_app in Hmax. cbn [length] in Hmax. rewrite (proj2 (Nat.leb_gt _ _)) by lia. unfold strip_eol. rewrite trim_path_line by done.
  destruct n as [|c n]; [done|]. unfold snprintf_s. rewrite take_ge by (cbn [length] in *; lia). rewrite IH by (rewrite !length_app; cbn [length]; lia).
  by rewrite <- app_assoc.
Qed.
Lemma load_reads fs names :
  in_file fs names -> names_ok names -> disabled_names (plugin_disabled_list_load true {| disabled_names := []; pd_disk := fs |}) ≡ₚ names.
Proof.
  intros (l & Hperm & Hfile) (_ & Hmax & Hnames). rewrite <- Hperm in Hnames. pose proof (Permutation_length Hperm) as Hlen.
  unfold plugin_disabled_list_load. cbn [pd_disk disabled_names]. destruct Hfile as [[_ ->]|[-> [-> _]%Forall_cons_1]]; [|done].
  rewrite fgets_lines_rows.
  - by rewrite load_names_rows by (done || (cbn; lia)).
  - eapply List.Forall_impl; [|exact Hnames]. by intros n [H _].
  - apply rows_text_length.
Qed.

Lemma disabled_tmp_apart : DISABLED_LIST_TMP_PATH ∉ [DISABLED_LIST_PATH].
Proof. by apply (bool_decide_eq_true_1 _). Qed.
(** A rewrite that works puts the new names into the file; one that fails leaves
    the old ones, in memory as well once they are put back. *)
Lemma write_spec io names new back fs n :
  in_file fs names -> back ≡ₚ names ->
  let '(ok, ops) := write_disabled_list io new in
  ok = all_saved io /\ in_file (run ops fs) (if ok then new else back) /\ (in_file (run (take n ops) fs) names \/ in_file (run (take n ops) fs) new).
Proof.
  intros (l & Hperm & Hfile) Hback. unfold write_disabled_list. pose proof (rewrite_ops_ok io false DISABLED_LIST_TMP_PATH DISABLED_LIST_PATH (rows_text new)) as Hok.
  pose proof (rewrite_cut rows_text [] DISABLED_LIST_PATH DISABLED_LIST_TMP_PATH [] (fun _ => True) io false fs l new n disabled_tmp_apart I Hfile) as Hcut.
  pose proof (rewrite_saved rows_text [] DISABLED_LIST_PATH DISABLED_LIST_TMP_PATH [] (fun _ => True) io false fs new I) as Hsaved.
  pose proof (fun k => rewrite_failed rows_text [] DISABLED_LIST_PATH DISABLED_LIST_TMP_PATH [] (fun _ => True) io false fs l new k disabled_tmp_apart) as Hfailed.
  destruct (rewrite_ops _ _ _ _ _) as [ok ops]. cbn [fst snd] in *. split; [done|]. rewrite <- Hok in *. split.
  - destruct ok; [exists new; by split; [|apply Hsaved]|]. exists l. split; [by rewrite Hperm|].
    specialize (Hfailed (length ops) eq_refl Hfile). by rewrite take_ge in Hfailed by lia.
  - destruct Hcut as [H|H]; [left; by exists l|right; by exists new].
Qed.
(** What a list becomes. *)
Definition switched (names : list (list Z)) (filename : list Z) (disabled : bool) (n : list Z) : Prop :=
  if disabled then n ∈ names \/ n = filename else n ∈ names /\ n <> filename.

Lemma name_ok_stored n : name_ok n -> snprintf_s NAME_SIZE n = n.
Proof. intros ((_ & _ & Hsize) & _). unfold snprintf_s. apply take_ge. lia. Qed.
Lemma names_ok_perm a b : a ≡ₚ b -> names_ok a -> names_ok b.
Proof. unfold names_ok. by intros ->. Qed.
Lemma names_ok_added names n : names_ok names -> n ∉ names -> name_ok n -> (length names < PLUGIN_DISABLED_LIST_MAX)%nat -> names_ok (names ++ [n]).
Proof.
  intros (Hd & Hmax & Hok) Hn Hname Hroom. split; [|split; [rewrite length_app; cbn [length]; lia|apply list.Forall_app; by split; [|constructor]]].
  apply list.NoDup_app. split; [done|]. split; [|apply NoDup_singleton]. intros x Hx ->%list_elem_of_singleton. done.
Qed.
Lemma names_ok_rest x names : names_ok (x :: names) -> names_ok names.
Proof. intros ([_ Hd]%list.NoDup_cons & Hmax & [_ Hok]%Forall_cons_1). cbn [length] in Hmax. split; [done|]. split; [lia|done]. Qed.
Lemma set_steps_spec io names filename disabled fs :
  names_ok names -> name_ok filename -> in_file fs names ->
  let '(ok, names', ops) := set_steps io names filename disabled in
  ok = (eqb (bool_decide (filename ∈ names)) disabled || (negb disabled || (length names <? PLUGIN_DISABLED_LIST_MAX)%nat) && all_saved io) /\
  names_ok names' /\ in_file (run ops fs) names' /\ (if ok then forall n, n ∈ names' <-> switched names filename disabled n else names' ≡ₚ names) /\
  forall k, in_file (run (take k ops) fs) names \/
    exists new, names_ok new /\ (forall n, n ∈ new <-> switched names filename disabled n) /\ in_file (run (take k ops) fs) new.
Proof.
  intros Hok Hname Hfile. pose proof (find_name_in names filename) as Hin. unfold set_steps, switched.
  destruct disabled, (find_name names filename) as [i|] eqn:Ei.
  - symmetry in Hin. rewrite Hin. apply bool_decide_eq_true_1 in Hin. split; [done|]. split; [done|]. split; [done|]. split; [set_solver|].
    intros k. rewrite take_nil. by left.
  - symmetry in Hin. rewrite Hin. apply bool_decide_eq_false_1 in Hin. cbn [eqb negb orb andb].
    destruct (Nat.leb_spec PLUGIN_DISABLED_LIST_MAX (length names)) as [Hfull|Hroom].
    { rewrite (proj2 (Nat.ltb_ge _ _)) by done. split; [done|]. split; [done|]. split; [done|]. split; [done|]. intros k. rewrite take_nil. by left. }
    rewrite name_ok_stored by done. rewrite (proj2 (Nat.ltb_lt _ _)) by lia. pose proof (names_ok_added names filename Hok Hin Hname Hroom) as Hnew.
    pose proof (fun k => write_spec io names (names ++ [filename]) names fs k Hfile (Permutation_refl _)) as H.
    destruct (write_disabled_list io (names ++ [filename])) as [ok ops].
    assert (take (length (names ++ [filename]) - 1) (names ++ [filename]) = names) as ->
      by (rewrite length_app; cbn [length]; rewrite Nat.add_sub; apply take_app_length).
    destruct (H 0%nat) as (-> & Hrun & _). split; [done|]. split; [by destruct (all_saved io)|]. split; [done|]. split; [destruct (all_saved io); [set_solver|done]|].
    intros k. destruct (H k) as (_ & _ & [Hold|Hafter]); [by left|right]. exists (names ++ [filename]). split; [done|]. split; [set_solver|done].
  - symmetry in Hin. rewrite Hin. destruct (find_key_bound _ _ _ _ Ei) as (e & He & Ee). cbn in Ee. subst e. rewrite He. cbn [default from_option]. unfold id.
    rewrite name_ok_stored by done. cbn [eqb negb orb andb]. pose proof (delete_Permutation _ _ _ He) as Hperm.
    assert (filename ∉ delete i names) as Hgone by (destruct Hok as (Hd & _); rewrite Hperm in Hd; by apply list.NoDup_cons in Hd as [? _]).
    assert (delete i names ++ [filename] ≡ₚ names) as Hback by (rewrite Hperm at 2; rewrite Permutation_app_comm; done).
    assert (names_ok (delete i names)) as Hnew by (eapply names_ok_rest, names_ok_perm; [exact Hperm|done]).
    pose proof (fun k => write_spec io names (delete i names) (delete i names ++ [filename]) fs k Hfile Hback) as H.
    destruct (write_disabled_list io (delete i names)) as [ok ops]. destruct (H 0%nat) as (-> & Hrun & _). split; [done|].
    assert (forall n, n ∈ delete i names <-> n ∈ names /\ n <> filename) as Hmem by (intros n; rewrite Hperm at 2; set_solver).
    split; [destruct (all_saved io); [done|by eapply names_ok_perm; [symmetry; exact Hback|]]|]. split; [done|]. split; [by destruct (all_saved io)|].
    intros k. destruct (H k) as (_ & _ & [Hold|Hafter]); [by left|right]. exists (delete i names). done.
  - symmetry in Hin. rewrite Hin. apply bool_decide_eq_false_1 in Hin. split; [done|]. split; [done|]. split; [done|]. split; [set_solver|].
    intros k. rewrite take_nil. by left.
Qed.

(** C21. The list in memory and its file agree, whatever calls fail: switching a
    plugin off or on says whether it was kept, and changes what it says in memory
    and on the card or, when the write fails or the list is full, neither. When the
    power fails at any step, the list that is loaded next is the old or the new one. *)
Theorem disabled_list_in_step io st filename disabled :
  names_ok (disabled_names st) -> in_file (pd_disk st) (disabled_names st) -> name_ok filename ->
  let '(ok, st') := plugin_disabled_list_set io st filename disabled in
  let ops := snd (set_steps io (disabled_names st) filename disabled) in
  names_ok (disabled_names st') /\ in_file (pd_disk st') (disabled_names st') /\
  ok = (eqb (plugin_disabled_list_contains st filename) disabled || (negb disabled || (length (disabled_names st) <? PLUGIN_DISABLED_LIST_MAX)%nat) && all_saved io) /\
  (forall n, plugin_disabled_list_contains st' n = true <-> if ok then switched (disabled_names st) filename disabled n else n ∈ disabled_names st) /\
  (forall n, plugin_disabled_list_contains (plugin_disabled_list_load true st') n = plugin_disabled_list_contains st' n) /\
  (forall k, let loaded := disabled_names (plugin_disabled_list_load true {| disabled_names := []; pd_disk := run (take k ops) (pd_disk st) |}) in
    (forall n, n ∈ loaded <-> n ∈ disabled_names st) \/ (forall n, n ∈ loaded <-> switched (disabled_names st) filename disabled n)).
Proof.
  intros Hok Hfile Hname. unfold plugin_disabled_list_set. pose proof (set_steps_spec io (disabled_names st) filename disabled (pd_disk st) Hok Hname Hfile) as H.
  destruct (set_steps io (disabled_names st) filename disabled) as [[ok names] ops]. destruct H as (Eok & Hok' & Hfile' & Hnames & Hcut). cbn [snd disabled_names pd_disk].
  split; [done|]. split; [done|]. split; [by rewrite contains_in|]. split; [|split].
  - intros n. rewrite contains_in. cbn [disabled_names]. rewrite bool_decide_eq_true. destruct ok; [apply Hnames|by rewrite Hnames].
  - intros n. rewrite !contains_in. apply bool_decide_ext. by rewrite (load_reads _ _ Hfile' Hok').
  - intros k. destruct (Hcut k) as [H|(new & Hnew & Hmem & H)]; [left|right]; intros n; rewrite (load_reads _ _ H); [done|done|apply Hmem|done].
Qed.

(** ** Examples *)
Definition good_save : save_env := {| se_open := true; se_write := true; se_left := []; se_sync := true; se_close := true; se_rename := true; se_unlink := true |}.
Definition full_save : save_env := {| se_open := true; se_write := false; se_left := bs "qob"; se_sync := true; se_close := true; se_rename := true; se_unlink := true |}.
Definition one_disabled : disabled_list := snd (plugin_disabled_list_set good_save {| disabled_names := []; pd_disk := ∅ |} (bs "lyrics.lua") true).
Lemma lyrics_ok : name_ok (bs "lyrics.lua").
Proof. split; [|done]. split; [by apply chars_b_true|]. split; [by apply (bool_decide_eq_true_1 _)|by apply Nat.ltb_lt]. Qed.

Lemma disabled_list_in_step_witness :
  plugin_disabled_list_contains one_disabled (bs "lyrics.lua") = true /\
  fst (plugin_disabled_list_set full_save one_disabled (bs "lyrics.lua") false) = false /\
  plugin_disabled_list_contains (snd (plugin_disabled_list_set full_save one_disabled (bs "lyrics.lua") false)) (bs "lyrics.lua") = true.
Proof.
  pose proof (disabled_list_in_step full_save one_disabled (bs "lyrics.lua") false) as H.
  destruct (plugin_disabled_list_set full_save one_disabled (bs "lyrics.lua") false) as [ok st'] eqn:E.
  destruct H as (_ & _ & Eok & Hnames & _).
  - split; [apply NoDup_singleton|]. split; [by apply Nat.leb_le|]. constructor; [apply lyrics_ok|done].
  - exists [bs "lyrics.lua"]. split; [done|]. left. by split.
  - apply lyrics_ok.
  - split; [by vm_compute|]. split; [rewrite Eok; by vm_compute|]. apply Hnames. rewrite Eok. by left.
Defined.
(** A full list refuses a name although no write failed. *)
Definition full_list : disabled_list := {| disabled_names := map (fun i => bs "p" ++ dec (Z.of_nat i)) (seq 0 64); pd_disk := ∅ |}.
Lemma disabled_list_full : fst (plugin_disabled_list_set good_save full_list (bs "lyrics.lua") true) = false.
Proof. by vm_compute. Qed.
