(* ===== verification/RemoteTrack.v ===== *)
(** The table of remote tracks, src/library/remote_track.c: the keys that stand
    for them in a playlist, and their descriptors. The mutex makes publishing and
    copying one step each. *)
From S2P Require Import Prelude Doubles.
Local Open Scope Z_scope.

Definition REMOTE_TRACK_MAX_ENTRIES : Z := 500.
Record remote_track_meta_t := {
  provider : list Z; track_id : list Z; title : list Z; artist : list Z; album : list Z; duration_ms : Z; artwork_url : list Z;
  codec : list Z; sample_rate : Z; bit_depth : Z; channels : Z; bitrate_kbps : Z; has_replaygain : bool; replaygain_db : spec_float;
  stream_url : list Z; verify_tls : bool }.

Definition key_byte (c : Z) : bool := negb ((c =? 47) || (c <? 32)).
Definition remote : list Z := bs "remote://".
(** The result, and what is written to [out], a buffer of [out_size] bytes. *)
Definition remote_track_make_key (provider track_id : option (list Z)) (out_size : nat) : bool * option (list Z) :=
  match provider, track_id with
  | Some ((_ :: _) as p), Some ((_ :: _) as t) =>
      if negb (forallb key_byte p) || negb (forallb key_byte t) then (false, None) else
      let key := remote ++ p ++ bs "/" ++ t in
      ((length key <? out_size)%nat, if (out_size =? 0)%nat then None else Some (snprintf_s out_size key))
  | _, _ => (false, None)
  end.
Definition remote_track_path_is_remote (path : option (list Z)) : bool :=
  match path with Some path => starts_with remote path | None => false end.

(** The result and the table afterwards. *)
Definition remote_track_meta_set_all (malloc : bool) (table entries : list remote_track_meta_t) (count : Z) : bool * list remote_track_meta_t :=
  let count := if count <? 0 then 0 else count in
  let count := if REMOTE_TRACK_MAX_ENTRIES <? count then REMOTE_TRACK_MAX_ENTRIES else count in
  let new_table := take (Z.to_nat count) entries in
  if 0 <? count then
    if negb (forallb (fun e => fst (remote_track_make_key (Some (provider e)) (Some (track_id e)) 256)) new_table) then (false, table)
    else if negb malloc then (false, table) else (true, new_table)
  else (true, []).
Definition remote_track_meta_copy_for_path (table : list remote_track_meta_t) (path : option (list Z)) : option remote_track_meta_t :=
  if negb (remote_track_path_is_remote path) then None else
  let rest := drop 9 (default [] path) in
  slash ← strchr 47 rest;
  let track := drop (S slash) rest in
  List.find (fun e => (length (provider e) =? slash)%nat && starts_with (provider e) (take slash rest) && bytes_eqb (track_id e) track) table.

(** ** Keys *)
Lemma key_byte_slash s : forallb key_byte s = true -> 47 ∉ s.
Proof. rewrite forallb_forall. intros H Hin%list_elem_of_In. apply H in Hin. done. Qed.
(** What a key is, and that it determines its track. *)
Lemma make_key_inv p t size key :
  remote_track_make_key (Some p) (Some t) size = (true, Some key) ->
  key = remote ++ p ++ 47 :: t /\ 47 ∉ p /\ 47 ∉ t /\ p <> [] /\ t <> [].
Proof.
  unfold remote_track_make_key. destruct p as [|c p]; [done|]. destruct t as [|c' t]; [done|].
  destruct (forallb key_byte (c :: p)) eqn:Ep; [|done]. destruct (forallb key_byte (c' :: t)) eqn:Et; [|done]. cbn [negb orb].
  change (remote ++ (c :: p) ++ bs "/" ++ c' :: t) with (remote ++ (c :: p) ++ 47 :: c' :: t). remember (remote ++ (c :: p) ++ 47 :: c' :: t) as k eqn:Ek.
  intros H. injection H as Hlen Hkey. apply Nat.ltb_lt in Hlen. destruct (Nat.eqb_spec size 0); [lia|]. injection Hkey as <-.
  unfold snprintf_s. rewrite take_ge by lia. split; [done|]. split; [by apply key_byte_slash|]. by split; [apply key_byte_slash|].
Qed.
Lemma starts_with_same a b : length a = length b -> starts_with a b = bytes_eqb a b.
Proof. revert b. induction a as [|x a IH]; intros [|y b]; cbn; try done. intros [= H]. by rewrite IH. Qed.
Lemma copy_for_key table p t :
  47 ∉ p -> remote_track_meta_copy_for_path table (Some (remote ++ p ++ 47 :: t)) =
    List.find (fun e => bytes_eqb (provider e) p && bytes_eqb (track_id e) t) table.
Proof.
  intros Hp. unfold remote_track_meta_copy_for_path, remote_track_path_is_remote. cbn [default from_option].
  rewrite (proj2 (starts_with_spec remote _)) by (by eexists). cbn [negb]. unfold id. rewrite (drop_app_length' remote) by done. rewrite strchr_here by done. cbn [mbind option_bind].
  replace (p ++ 47 :: t) with ((p ++ [47]) ++ t) by (by rewrite <- app_assoc). rewrite (drop_app_length' (p ++ [47])) by (rewrite length_app; cbn; lia).
  rewrite <- app_assoc, take_app_length. induction table as [|e table IH]; [done|]. cbn [List.find]. rewrite IH.
  destruct (Nat.eqb_spec (length (provider e)) (length p)) as [Hl|Hl]; cbn [andb]; [by rewrite starts_with_same|].
  destruct (bytes_eqb_spec (provider e) p) as [E|_]; [by rewrite E in Hl|done].
Qed.

(** Publishing a queue of remote tracks is all or nothing; a key made from a
    provider and a track finds the first descriptor with these in the table that
    was published, and no other track has the same key. *)
Theorem remote_track_keys malloc table entries count :
  0 <= count -> count <= Z.of_nat (length entries) ->
  let '(ok, table') := remote_track_meta_set_all malloc table entries count in
  let published := take (Z.to_nat (Z.min count REMOTE_TRACK_MAX_ENTRIES)) entries in
  ok = ((count =? 0) || forallb (fun e => fst (remote_track_make_key (Some (provider e)) (Some (track_id e)) 256)) published && malloc) /\
  table' = (if ok then published else table) /\
  forall p t size key, remote_track_make_key (Some p) (Some t) size = (true, Some key) ->
    remote_track_path_is_remote (Some key) = true /\
    remote_track_meta_copy_for_path table' (Some key) = List.find (fun e => bytes_eqb (provider e) p && bytes_eqb (track_id e) t) table' /\
    forall p' t' size', remote_track_make_key (Some p') (Some t') size' = (true, Some key) -> p' = p /\ t' = t.
Proof.
  intros Hcount Hlen. unfold remote_track_meta_set_all. rewrite (proj2 (Z.ltb_ge count 0)) by lia.
  replace (if REMOTE_TRACK_MAX_ENTRIES <? count then REMOTE_TRACK_MAX_ENTRIES else count) with (Z.min count REMOTE_TRACK_MAX_ENTRIES)
    by (destruct (Z.ltb_spec REMOTE_TRACK_MAX_ENTRIES count); lia).
  set (new := take _ entries). assert (forall (t : list remote_track_meta_t) p t' size key, remote_track_make_key (Some p) (Some t') size = (true, Some key) ->
    remote_track_path_is_remote (Some key) = true /\ remote_track_meta_copy_for_path t (Some key) = List.find (fun e => bytes_eqb (provider e) p && bytes_eqb (track_id e) t') t /\
    forall p2 t2 size', remote_track_make_key (Some p2) (Some t2) size' = (true, Some key) -> p2 = p /\ t2 = t') as Hkeys.
  { intros tbl p t size key (-> & Hp & Ht & _)%make_key_inv. split; [apply starts_with_spec; by eexists|]. split; [by apply copy_for_key|].
    intros p2 t2 size' (E & Hp2 & _)%make_key_inv. apply app_inv_head in E. pose proof (f_equal (strchr 47) E) as Es. rewrite !strchr_here in Es by done. injection Es as Es.
    apply app_inj_1 in E as [-> E]; [|done]. by injection E as ->. }
  destruct (Z.ltb_spec 0 (Z.min count REMOTE_TRACK_MAX_ENTRIES)) as [Hpos|Hzero].
  - rewrite (proj2 (Z.eqb_neq count 0)) by lia. cbn [orb]. destruct (forallb _ new) eqn:E; cbn [negb andb]; [|by split; [|split; [|apply Hkeys]]].
    destruct malloc; cbn [negb]; by split; [|split; [|apply Hkeys]].
  - assert (count = 0) as -> by (unfold REMOTE_TRACK_MAX_ENTRIES in Hzero; lia). by split; [|split; [|apply Hkeys]].
Qed.

Definition descriptor (p t url : list Z) : remote_track_meta_t :=
  {| provider := p; track_id := t; title := []; artist := []; album := []; duration_ms := 0; artwork_url := []; codec := bs "flac"; sample_rate := 44100;
     bit_depth := 16; channels := 2; bitrate_kbps := 0; has_replaygain := false; replaygain_db := dbl 0; stream_url := url; verify_tls := true |}.
Definition queue : list remote_track_meta_t := [descriptor (bs "qobuz") (bs "12") (bs "https://a"); descriptor (bs "qobuz") (bs "34") (bs "https://b")].
Lemma remote_track_keys_witness :
  snd (remote_track_make_key (Some (bs "qobuz")) (Some (bs "34")) 64) = Some (bs "remote://qobuz/34") /\
  remote_track_meta_copy_for_path (snd (remote_track_meta_set_all true [] queue 2)) (Some (bs "remote://qobuz/34")) = Some (descriptor (bs "qobuz") (bs "34") (bs "https://b")).
Proof.
  pose proof (remote_track_keys true [] queue 2) as H. destruct (remote_track_meta_set_all true [] queue 2) as [ok table] eqn:E.
  destruct H as (Hok & Htable & Hkeys); [done|done|]. split; [by vm_compute|]. cbn [snd].
  destruct (Hkeys (bs "qobuz") (bs "34") 64%nat (bs "remote://qobuz/34")) as (_ & -> & _); [by vm_compute|]. rewrite Htable, Hok. by vm_compute.
Defined.
(** A key that does not fit is written all the same, cut off. *)
Lemma make_key_writes_cut : remote_track_make_key (Some (bs "qobuz")) (Some (bs "1234")) 17 = (false, Some (bs "remote://qobuz/1")).
Proof. by vm_compute. Qed.
