(* ===== verification/QueryPostings.v ===== *)
(** The postings of the tag cache's query index: buffered writing, the blocks of
    delta-coded ranks, and reading one rank back; the first half of
    src/library/tagcache_query_index.h. *)
From S2P Require Import Prelude ScanIntern TagSort Memory.
Local Open Scope Z_scope.

Definition TC_QUERY_MAGIC : Z := 1413697841.
Definition TC_QUERY_VERSION : Z := 2.
Definition TC_QUERY_VERSION_LEGACY : Z := 1.
Definition TC_QUERY_BLOCK_VALUES : Z := 128.
Definition TC_QUERY_BLOCK_MODE_DELTA : Z := 0.
Definition TC_QUERY_BLOCK_MODE_RAW24 : Z := 1.
(** [sizeof(encoded)]: 1 + 4 + 5 * 127. *)
Definition ENCODED_MAX : Z := 640.
Definition UINT64_MAX : Z := 18446744073709551615.

(** ** Structs in the file *)
Record tc_query_header := {
  h_magic : Z; h_version : Z; directory_count : Z; h_reserved : Z;
  directory_offset : Z; postings_offset : Z; postings_count : Z; h_file_size : Z;
  h_generation : Z; h_serial : Z; h_commitid : Z; h_entry_count : Z; h_live_entries : Z; h_group_count : Z * Z * Z }.
Definition HEADER_BYTES : nat := 80.
Definition header_bytes (h : tc_query_header) : list Z :=
  le_bytes 4 (h_magic h) ++ le_bytes 4 (h_version h) ++ le_bytes 4 (directory_count h) ++ le_bytes 4 (h_reserved h) ++
  le_bytes 8 (directory_offset h) ++ le_bytes 8 (postings_offset h) ++ le_bytes 8 (postings_count h) ++
  le_bytes 8 (h_file_size h) ++
  let '(g0, g1, g2) := h_group_count h in
  concat (map (le_bytes 4) (map u32 [h_generation h; h_serial h; h_commitid h; h_entry_count h; h_live_entries h; g0; g1; g2])).
Definition header_of (b : list Z) : tc_query_header :=
  {| h_magic := field 4 0 b; h_version := field 4 4 b; directory_count := field 4 8 b; h_reserved := field 4 12 b;
     directory_offset := field 8 16 b; postings_offset := field 8 24 b; postings_count := field 8 32 b;
     h_file_size := field 8 40 b; h_generation := i32 (field 4 48 b); h_serial := i32 (field 4 52 b);
     h_commitid := i32 (field 4 56 b); h_entry_count := i32 (field 4 60 b); h_live_entries := i32 (field 4 64 b);
     h_group_count := (i32 (field 4 68 b), i32 (field 4 72 b), i32 (field 4 76 b)) |}.

Record tc_query_dir := { d_category : Z; d_key : Z; d_start : Z; d_count : Z }.
Definition DIR_BYTES : nat := 24.
Definition dir_bytes (d : tc_query_dir) : list Z :=
  le_bytes 4 (d_category d) ++ le_bytes 4 (d_key d) ++ le_bytes 8 (d_start d) ++ le_bytes 8 (d_count d).
Definition dir_of (b : list Z) : tc_query_dir :=
  {| d_category := field 4 0 b; d_key := field 4 4 b; d_start := field 8 8 b; d_count := field 8 16 b |}.

(** ** Writing *)

(** The next system call: [true] is a failure; a list that ran out has no more. *)
Definition io_call (io : list bool) : option (list bool) :=
  match io with [] => Some [] | true :: _ => None | false :: io => Some io end.

Record tc_query_writer := { w_file : list Z; w_bytes : Z; w_data : list Z }.
Definition new_writer : tc_query_writer := {| w_file := []; w_bytes := 0; w_data := [] |}.
(** [sizeof(w->data)]. *)
Definition WRITER_BYTES : Z := 32768.
Definition w_used (w : tc_query_writer) : Z := Z.of_nat (length (w_data w)).

Section Postings.
(** The largest [off_t]. *)
Context (OFF_MAX : Z).

Definition query_read (file : list Z) (n : nat) (off : Z) : option (list Z) :=
  if (INT64_MAX <? off) || (INT64_MAX - off <? Z.of_nat n) || (OFF_MAX <? off) then None else read_at file n off.

Definition query_writer_flush (w : tc_query_writer) (io : list bool) : option (tc_query_writer * list bool) :=
  if w_used w =? 0 then Some (w, io) else
  if (INT64_MAX <? w_bytes w) || (INT64_MAX - w_bytes w <? w_used w) || (OFF_MAX <? w_bytes w) then None else
  io ← io_call io;
  Some ({| w_file := pwrite_at 0 (w_file w) (Z.to_nat (w_bytes w)) (w_data w);
           w_bytes := u64 (w_bytes w + w_used w); w_data := [] |}, io).
Definition query_writer_add (w : tc_query_writer) (record : list Z) (io : list bool) : option (tc_query_writer * list bool) :=
  let size := Z.of_nat (length record) in
  if WRITER_BYTES <? size then None else
  '(w, io) ← (if WRITER_BYTES <? w_used w + size then query_writer_flush w io else Some (w, io));
  Some ({| w_file := w_file w; w_bytes := w_bytes w; w_data := w_data w ++ record |}, io).

(** ** Encoding a block *)
Definition zigzag_of (delta : Z) : Z := if 0 <=? delta then u64 (delta * 2) else u64 (- delta * 2 - 1).
(** Seven bits at a time, into [encoded]; a 64-bit number has at most ten. *)
Fixpoint emit_varint (fuel : nat) (zigzag : Z) (encoded : list Z) : option (list Z) :=
  match fuel with
  | O => None
  | S fuel =>
      if ENCODED_MAX <=? Z.of_nat (length encoded) then None else
      let byte := Z.land zigzag 127 in
      let zigzag := Z.shiftr zigzag 7 in
      let encoded := encoded ++ [Z.lor byte (if zigzag =? 0 then 0 else 128)] in
      if zigzag =? 0 then Some encoded else emit_varint fuel zigzag encoded
  end.
Fixpoint encode_deltas (previous : Z) (values : list Z) (encoded : list Z) : option (list Z) :=
  match values with
  | [] => Some encoded
  | v :: values => encoded ← emit_varint 10 (zigzag_of (v - previous)) encoded; encode_deltas v values encoded
  end.
Definition raw24_bytes (v : Z) : list Z := [u8 v; u8 (Z.shiftr v 8); u8 (Z.shiftr v 16)].
Definition encode_block (values : list Z) : option (list Z) :=
  match values with
  | [] => None
  | first :: rest =>
      encoded ← encode_deltas first rest (TC_QUERY_BLOCK_MODE_DELTA :: le_bytes 4 first);
      let raw_size := 1 + Z.of_nat (length values) * 3 in
      Some (if forallb (fun v => v <=? 16777215) values && (raw_size <? Z.of_nat (length encoded))
            then TC_QUERY_BLOCK_MODE_RAW24 :: concat (map raw24_bytes values) else encoded)
  end.

Definition blocks_of (count : Z) : Z := count / TC_QUERY_BLOCK_VALUES + (if count mod TC_QUERY_BLOCK_VALUES =? 0 then 0 else 1).

Fixpoint compress_loop (todo : nat) (raw : list Z) (count ordinal : Z) (packed offsets : tc_query_writer) (io : list bool)
    : option (tc_query_writer * tc_query_writer * list bool) :=
  match todo with
  | O => Some (packed, offsets, io)
  | S todo =>
      let remaining := count - ordinal in
      let n := if TC_QUERY_BLOCK_VALUES <? remaining then TC_QUERY_BLOCK_VALUES else remaining in
      if INT64_MAX / 4 <? ordinal then None else
      bytes ← query_read raw (Z.to_nat (n * 4)) (ordinal * 4);
      let values := map le_value (records 4 (Z.to_nat n) bytes) in
      if existsb (fun v => INT32_MAX <? v) values then None else
      encoded ← encode_block values;
      '(packed, io) ← query_writer_add packed encoded io;
      if (INT64_MAX <? w_bytes packed) || (INT64_MAX - w_bytes packed <? w_used packed) then None else
      '(offsets, io) ← query_writer_add offsets (le_bytes 8 (w_bytes packed + w_used packed)) io;
      compress_loop todo raw count (ordinal + n) packed offsets io
  end.
(** The packed blocks and their offsets. *)
Definition query_compress_postings (raw : list Z) (count : Z) (io : list bool)
    : option (tc_query_writer * tc_query_writer * list bool) :=
  '(offsets, io) ← query_writer_add new_writer (le_bytes 8 0) io;
  '(packed, offsets, io) ← compress_loop (Z.to_nat (blocks_of count)) raw count 0 new_writer offsets io;
  '(packed, io) ← query_writer_flush packed io;
  '(offsets, io) ← query_writer_flush offsets io;
  Some (packed, offsets, io).

(** ** Reading back *)
Definition query_v2_offset (file : list Z) (h : tc_query_header) (index : Z) : option Z :=
  if (blocks_of (postings_count h) <? index) || (INT64_MAX / 8 <? index) || (INT64_MAX - index * 8 <? postings_offset h)
  then None else
  le_value <$> query_read file 8 (postings_offset h + index * 8).

(** The bytes of one delta: at most [todo] of them. *)
Fixpoint read_varint (todo : nat) (rest : list Z) (zigzag shift : Z) : option (Z * list Z) :=
  match todo, rest with
  | S todo, part :: rest =>
      if match todo with O => true | _ => false end && (negb (Z.land part 128 =? 0) || negb (Z.land part 112 =? 0)) then None else
      let zigzag := Z.lor zigzag (u64 (Z.shiftl (Z.land part 127) shift)) in
      if Z.land part 128 =? 0 then Some (zigzag, rest) else read_varint todo rest zigzag (shift + 7)
  | _, _ => None
  end.
Definition delta_of (zigzag : Z) : Z :=
  if Z.land zigzag 1 =? 0 then Z.shiftr zigzag 1 else - (Z.shiftr zigzag 1 + 1).
Fixpoint decode_deltas (n : nat) (previous : Z) (rest : list Z) : option (list Z * list Z) :=
  match n with
  | O => Some ([], rest)
  | S n =>
      '(zigzag, rest) ← read_varint 5 rest 0 0;
      let value := previous + delta_of zigzag in
      if (value <? 0) || (INT32_MAX <? value) then None else
      '(values, rest) ← decode_deltas n value rest;
      Some (value :: values, rest)
  end.
Definition decode_raw24 (n : nat) (b : list Z) : option (list Z) :=
  let values := map (fun r => match r with
                              | [b0; b1; b2] => Z.lor (Z.lor b0 (Z.shiftl b1 8)) (Z.shiftl b2 16)
                              | _ => 0
                              end) (records 3 n b) in
  if existsb (fun v => INT32_MAX <? v) values then None else Some values.
(** The values of [encoded], of [length] bytes. *)
Definition decode_block (encoded : list Z) (n : nat) : option (list Z) :=
  match encoded with
  | [] => None
  | mode :: body =>
      if mode =? TC_QUERY_BLOCK_MODE_RAW24 then
        if negb (Z.of_nat (length encoded) =? 1 + Z.of_nat n * 3) then None else decode_raw24 n body
      else if negb (mode =? TC_QUERY_BLOCK_MODE_DELTA) || (Z.of_nat (length encoded) <? 5) || (n =? 0)%nat then None else
        let first := le_value (take 4 body) in
        if INT32_MAX <? first then None else
        '(values, rest) ← decode_deltas (n - 1) first (drop 4 body);
        match rest with [] => Some (first :: values) | _ => None end
  end.
Definition query_decode_v2_block (file : list Z) (h : tc_query_header) (block : Z) (n : nat) : option (list Z) :=
  let blocks := blocks_of (postings_count h) in
  if blocks <=? block then None else
  begin ← query_v2_offset file h block; end_ ← query_v2_offset file h (block + 1);
  if (end_ <? begin) || (ENCODED_MAX <? end_ - begin) then None else
  let table_entries := u64 (blocks + 1) in
  if UINT64_MAX / 8 <? table_entries then None else
  let table_bytes := table_entries * 8 in
  let data_bytes := u64 (h_file_size h - postings_offset h) in
  if (data_bytes <? table_bytes) || (data_bytes - table_bytes <? begin) || (data_bytes - table_bytes <? end_) then None else
  let data_offset := u64 (postings_offset h + table_bytes) in
  if INT64_MAX - begin <? data_offset then None else
  encoded ← query_read file (Z.to_nat (end_ - begin)) (data_offset + begin);
  decode_block encoded n.

(** The block the reader decoded last. *)
Record query_cache := { cache_valid : bool; cache_block : Z; cache_values : list Z }.
Definition empty_cache : query_cache := {| cache_valid := false; cache_block := 0; cache_values := [] |}.

Definition read_header (file : list Z) : option tc_query_header := header_of <$> query_read file HEADER_BYTES 0.

(** The rank at [start + offset], and the cache after. *)
Definition query_posting (file : list Z) (c : query_cache) (start offset : Z) : option Z * query_cache :=
  match read_header file with
  | None => (None, c)
  | Some h =>
      if (postings_count h <? start) || (postings_count h - start <=? offset) then (None, c) else
      let ordinal := start + offset in
      if h_version h =? TC_QUERY_VERSION_LEGACY then
        if (INT64_MAX / 4 <? ordinal) || (INT64_MAX - ordinal * 4 <? postings_offset h) then (None, c) else
        match le_value <$> query_read file 4 (postings_offset h + ordinal * 4) with
        | Some value => (if INT32_MAX <? value then None else Some value, c)
        | None => (None, c)
        end
      else
        let block := ordinal / TC_QUERY_BLOCK_VALUES in
        let within := Z.to_nat (ordinal mod TC_QUERY_BLOCK_VALUES) in
        let count := Z.min (postings_count h - block * TC_QUERY_BLOCK_VALUES) TC_QUERY_BLOCK_VALUES in
        if negb (cache_valid c) || negb (cache_block c =? block) then
          match query_decode_v2_block file h block (Z.to_nat count) with
          | None => (None, {| cache_valid := false; cache_block := cache_block c; cache_values := cache_values c |})
          | Some values => (values !! within, {| cache_valid := true; cache_block := block; cache_values := values |})
          end
        else (cache_values c !! within, c)
  end.
End Postings.
