(* ===== verification/QueryPostingsProofs.v ===== *)
(** The postings of the query index: what is written is read back. *)
From S2P Require Import Prelude Endian ScanIntern TagSort TagSortProofs Memory QueryPostings.
Local Open Scope Z_scope.

(** ** Runs with failing calls *)

(** A run that gives a result with [P], or stopped at a failing call. *)
Definition ran {A} (io : list bool) (r : option (A * list bool)) (P : A -> Prop) : Prop :=
  match r with Some (a, io') => P a /\ (true ∈ io' -> true ∈ io) | None => true ∈ io end.

Lemma ran_bind {A B} io (r : option (A * list bool)) (f : A * list bool -> option (B * list bool)) P Q :
  ran io r P -> (forall a io', P a -> ran io' (f (a, io')) Q) -> ran io (r ≫= f) Q.
Proof.
  intros H Hf. destruct r as [[a io']|]; [|done]. destruct H as [Ha Hio]. cbn [mbind option_bind].
  specialize (Hf a io' Ha). destruct (f (a, io')) as [[b io'']|]; cbn in *; [|by apply Hio].
  destruct Hf as [Hb Hio']. split; [done|auto].
Qed.
Lemma ran_ret {A} io (a : A) (P : A -> Prop) : P a -> ran io (Some (a, io)) P.
Proof. by split. Qed.
Lemma ran_weaken {A} io (r : option (A * list bool)) (P Q : A -> Prop) : ran io r P -> (forall a, P a -> Q a) -> ran io r Q.
Proof. destruct r as [[a io']|]; [|done]. intros [Ha Hio] H. split; auto. Qed.
Lemma io_call_ran io : match io_call io with Some io' => true ∈ io' -> true ∈ io | None => true ∈ io end.
Proof. destruct io as [|[] io]; cbn; [done|by left|by right]. Qed.
(** Without failing calls there is a result. *)
Lemma ran_complete {A} (r : option (A * list bool)) P : ran [] r P -> exists a io, r = Some (a, io) /\ P a.
Proof. destruct r as [[a io]|]; [intros [H _]; eauto|by intros H%elem_of_nil]. Qed.

Section Proofs.
Context (OFF_MAX : Z).
(** The largest file both the checks of the code and the file system allow. *)
Definition FILE_MAX : Z := Z.min INT64_MAX OFF_MAX.
Abbreviation flush := (query_writer_flush OFF_MAX).
Abbreviation add := (query_writer_add OFF_MAX).

(** The records added so far are in the file or wait in the buffer. *)
Definition wrote (w : tc_query_writer) (l : list Z) : Prop :=
  w_file w ++ w_data w = l /\ w_bytes w = Z.of_nat (length (w_file w)) /\ w_used w <= WRITER_BYTES.
Lemma wrote_new : wrote new_writer [].
Proof. done. Qed.
Lemma wrote_length w l : wrote w l -> w_bytes w + w_used w = Z.of_nat (length l).
Proof. intros (<- & -> & _). rewrite length_app. unfold w_used. lia. Qed.

Lemma flush_ran w l io :
  wrote w l -> Z.of_nat (length l) <= FILE_MAX ->
  ran io (flush w io) (fun w' => w_file w' = l /\ w_bytes w' = Z.of_nat (length l) /\ w_data w' = []).
Proof.
  intros Hw Hl. pose proof (wrote_length _ _ Hw) as Hlen. destruct Hw as (Hw & Hb & Hu). unfold FILE_MAX in Hl.
  unfold query_writer_flush. assert (0 <= w_bytes w /\ 0 <= w_used w) as [H1 H2] by (unfold w_used in *; lia).
  destruct (Z.eqb_spec (w_used w) 0) as [E|E].
  { assert (w_data w = []) as Ed by (apply length_zero_iff_nil; unfold w_used in E; lia).
    rewrite Ed, app_nil_r in Hw. apply ran_ret. split; [done|]. split; [rewrite <- Hw; lia|done]. }
  rewrite (proj2 (Z.ltb_ge INT64_MAX _)), (proj2 (Z.ltb_ge _ (w_used w))), (proj2 (Z.ltb_ge OFF_MAX _)) by lia. cbn [orb].
  pose proof (io_call_ran io) as Hio. destruct (io_call io) as [io'|]; [|done]. cbn [mbind option_bind].
  split; [|done]. cbn [w_file w_bytes w_data]. rewrite Hb, Nat2Z.id, pwrite_at_end. split; [done|]. split; [|done].
  unfold u64. rewrite Z.mod_small; [lia|]. unfold INT64_MAX in Hl. lia.
Qed.
Lemma add_ran w l record io :
  wrote w l -> Z.of_nat (length record) <= WRITER_BYTES -> Z.of_nat (length l) <= FILE_MAX ->
  ran io (add w record io) (fun w' => wrote w' (l ++ record)).
Proof.
  intros Hw Hr Hl. unfold query_writer_add. rewrite (proj2 (Z.ltb_ge _ _)) by done.
  destruct (Z.ltb_spec WRITER_BYTES (w_used w + Z.of_nat (length record))).
  - eapply ran_bind; [by apply flush_ran|]. intros w' io' (H1 & H2 & H3). apply ran_ret.
    unfold wrote, w_used. cbn [w_file w_data w_bytes]. rewrite H1, H2, H3. by split_and!.
  - cbn [mbind option_bind]. apply ran_ret. destruct Hw as (<- & H1 & H2). unfold wrote, w_used in *.
    cbn [w_file w_data w_bytes]. rewrite app_assoc, length_app. split_and!; [done|done|lia].
Qed.

(** ** Deltas *)
Fixpoint varint (k : nat) (z : Z) : list Z :=
  match k with O => [] | S k => if z <? 128 then [z] else 128 + z mod 128 :: varint k (z / 128) end.

Lemma length_varint k z : (0 < k)%nat -> (1 <= length (varint k z) <= k)%nat.
Proof.
  revert z. induction k as [|k IH]; intros z Hk; [lia|]. cbn [varint]. destruct (z <? 128); [cbn; lia|].
  cbn [length]. destruct k as [|k]; [cbn; lia|]. specialize (IH (z / 128)). lia.
Qed.
Lemma emit_varint_spec k fuel z encoded :
  (0 < k <= fuel)%nat -> 0 <= z < 128 ^ Z.of_nat k -> Z.of_nat (length encoded + k) <= ENCODED_MAX ->
  emit_varint fuel z encoded = Some (encoded ++ varint k z).
Proof.
  revert fuel z encoded. induction k as [|k IH]; intros [|fuel] z encoded Hk Hz Hl; try lia. cbn [emit_varint varint].
  rewrite (proj2 (Z.leb_gt _ _)) by lia. rewrite Z.shiftr_div_pow2 by lia. change (2 ^ 7) with 128.
  change 127 with (Z.ones 7). rewrite Z.land_ones by lia. change (2 ^ 7) with 128.
  destruct (Z.ltb_spec z 128).
  - rewrite Z.div_small, Z.mod_small by lia. cbn [Z.eqb]. by rewrite Z.lor_0_r.
  - rewrite (proj2 (Z.eqb_neq _ _)) by div_lia. rewrite Nat2Z.inj_succ, Z.pow_succ_r in Hz by lia.
    destruct k as [|k]; [cbn in Hz; lia|].
    rewrite IH; [|lia|div_lia|rewrite length_app; cbn [length]; lia]. rewrite <- app_assoc. cbn [app].
    do 3 f_equal. change 128 with (Z.shiftl 1 7) at 2. rewrite lor_field by (try lia; apply Z.mod_pos_bound; lia). lia.
Qed.

Lemma part_low b : is_byte b -> (if b <? 128 then (Z.land b 128 =? 0) && (Z.land b 127 =? b)
  else negb (Z.land b 128 =? 0) && (Z.land b 127 =? b - 128)) = true.
Proof.
  apply (byte_forall (fun b => if b <? 128 then (Z.land b 128 =? 0) && (Z.land b 127 =? b)
    else negb (Z.land b 128 =? 0) && (Z.land b 127 =? b - 128))). vm_compute. reflexivity.
Qed.
Lemma part_last b : is_byte b -> (if b <? 16 then Z.land b 112 =? 0 else true) = true.
Proof. apply (byte_forall (fun b => if b <? 16 then Z.land b 112 =? 0 else true)). vm_compute. reflexivity. Qed.

Lemma read_varint_spec k z acc shift rest :
  (0 < k)%nat -> shift = 7 * (5 - Z.of_nat k) -> 0 <= shift -> 0 <= z -> z * 2 ^ shift < 4294967296 -> 0 <= acc < 2 ^ shift ->
  read_varint k (varint k z ++ rest) acc shift = Some (acc + z * 2 ^ shift, rest).
Proof.
  revert z acc shift. induction k as [|k IH]; intros z acc shift Hk Hs Hs0 Hz Hz32 Hacc; [lia|]. cbn [varint].
  assert (0 < 2 ^ shift) as Hp by (apply Z.pow_pos_nonneg; lia).
  assert (forall x, 0 <= x -> x * 2 ^ shift < 4294967296 -> u64 (Z.shiftl x shift) = Z.shiftl x shift) as Hu.
  { intros x Hx1 Hx2. unfold u64. rewrite Z.shiftl_mul_pow2 by lia. apply Z.mod_small. lia. }
  destruct (Z.ltb_spec z 128) as [Hlt|Hge]; cbn [app read_varint].
  - pose proof (part_low z ltac:(unfold is_byte; lia)) as Hb. rewrite (proj2 (Z.ltb_lt z 128)) in Hb by lia.
    bool_prop. rewrite H, H0. cbn [negb Z.eqb orb].
    assert ((match k with O => true | _ => false end) && negb (Z.land z 112 =? 0) = false) as ->.
    { destruct k; [|done]. cbn [andb]. assert (shift = 28) as -> by lia.
      pose proof (part_last z ltac:(unfold is_byte; lia)) as Hc. rewrite (proj2 (Z.ltb_lt z 16)) in Hc by lia. by rewrite Hc. }
    by rewrite Hu, lor_field by lia.
  - assert (is_byte (128 + z mod 128)) as Hbyte by (unfold is_byte; pose proof (Z.mod_pos_bound z 128); lia).
    pose proof (part_low _ Hbyte) as Hb. rewrite (proj2 (Z.ltb_ge _ 128)) in Hb by (pose proof (Z.mod_pos_bound z 128); lia).
    bool_prop. rewrite H0. rewrite (proj2 (Z.eqb_neq _ 0) H). cbn [negb orb].
    destruct k as [|k]; [assert (shift = 28) as -> by lia; lia|]. cbn [andb].
    replace (128 + z mod 128 - 128) with (z mod 128) by lia. pose proof (Z.mod_pos_bound z 128).
    assert (z = 128 * (z / 128) + z mod 128) as Hdiv by div_lia.
    rewrite Hu, lor_field by (try lia; nia).
    assert (2 ^ (shift + 7) = 128 * 2 ^ shift) as Hpow by (rewrite Z.pow_add_r by lia; lia).
    rewrite IH; [|lia|lia|lia|div_lia|rewrite Hpow; nia|rewrite Hpow; nia]. rewrite Hpow. do 2 f_equal. nia.
Qed.

Lemma zigzag_range d : - INT32_MAX <= d <= INT32_MAX -> 0 <= zigzag_of d < 4294967296.
Proof. unfold zigzag_of, u64, INT32_MAX. intros. destruct (Z.leb_spec 0 d); rewrite Z.mod_small by lia; lia. Qed.
Lemma land_1 z : Z.land z 1 = z mod 2.
Proof. change 1 with (Z.ones 1). by rewrite Z.land_ones. Qed.
Lemma delta_of_zigzag d : - INT32_MAX <= d <= INT32_MAX -> delta_of (zigzag_of d) = d.
Proof.
  unfold delta_of, zigzag_of, u64, INT32_MAX. intros Hd. rewrite land_1, Z.shiftr_div_pow2 by lia. change (2 ^ 1) with 2.
  destruct (Z.leb_spec 0 d); rewrite (Z.mod_small _ 18446744073709551616) by lia; destruct (_ =? 0) eqn:E; bool_prop; div_lia.
Qed.

Definition rank_ok (v : Z) : Prop := 0 <= v <= INT32_MAX.
Fixpoint deltas (previous : Z) (values : list Z) : list Z :=
  match values with [] => [] | v :: values => varint 5 (zigzag_of (v - previous)) ++ deltas v values end.
Lemma length_deltas previous values : (length values <= length (deltas previous values) <= 5 * length values)%nat.
Proof.
  revert previous. induction values as [|v values IH]; intros p; cbn [deltas length]; [lia|].
  rewrite length_app. pose proof (length_varint 5 (zigzag_of (v - p)) ltac:(lia)). specialize (IH v). lia.
Qed.
Lemma encode_deltas_spec previous values encoded :
  rank_ok previous -> Forall rank_ok values -> Z.of_nat (length encoded + 5 * length values) <= ENCODED_MAX ->
  encode_deltas previous values encoded = Some (encoded ++ deltas previous values).
Proof.
  intros Hp Hv. revert previous encoded Hp. induction Hv as [|v values Hv _ IH]; intros p encoded Hp Hl; cbn [encode_deltas deltas].
  { by rewrite app_nil_r. }
  cbn [length] in Hl. assert (0 <= zigzag_of (v - p) < 4294967296) as Hz by (apply zigzag_range; unfold rank_ok in *; lia).
  rewrite (emit_varint_spec 5) by (change (128 ^ Z.of_nat 5) with 34359738368; lia). cbn [mbind option_bind].
  pose proof (length_varint 5 (zigzag_of (v - p)) ltac:(lia)).
  rewrite IH; [by rewrite app_assoc|done|rewrite length_app; lia].
Qed.
Lemma decode_deltas_spec previous values rest :
  rank_ok previous -> Forall rank_ok values ->
  decode_deltas (length values) previous (deltas previous values ++ rest) = Some (values, rest).
Proof.
  intros Hp Hv. revert previous Hp. induction Hv as [|v values Hv _ IH]; intros p Hp; cbn [length decode_deltas deltas]; [done|].
  assert (- INT32_MAX <= v - p <= INT32_MAX) as Hd by (unfold rank_ok in *; lia).
  pose proof (zigzag_range _ Hd) as Hz. rewrite <- app_assoc, read_varint_spec by (cbn; lia). cbn [mbind option_bind].
  rewrite Z.add_0_l, Z.pow_0_r, Z.mul_1_r, delta_of_zigzag by done. unfold rank_ok in Hv.
  replace (p + (v - p)) with v by lia. rewrite (proj2 (Z.ltb_ge v 0)), (proj2 (Z.ltb_ge _ v)) by lia. cbn [orb].
  by rewrite IH.
Qed.

(** ** Blocks *)
Definition is24 (v : Z) : Prop := v <= 16777215.
Lemma raw24_le v : 0 <= v -> raw24_bytes v = le_bytes 3 v.
Proof.
  intros Hv. unfold raw24_bytes, u8. cbn [le_bytes]. rewrite !Z.shiftr_div_pow2 by lia.
  change (2 ^ 8) with 256. change (2 ^ 16) with (256 * 256). by rewrite Z.div_div by lia.
Qed.
Lemma length_raw24 values : length (concat (map raw24_bytes values)) = (3 * length values)%nat.
Proof. by apply length_concat_records. Qed.
Lemma decode_raw24_spec values :
  Forall rank_ok values -> Forall is24 values -> decode_raw24 (length values) (concat (map raw24_bytes values)) = Some values.
Proof.
  intros Hv H24. unfold decode_raw24. 
  rewrite <- (app_nil_r (concat _)), records_map by done.
  rewrite map_map. assert (map (fun v => Z.lor (Z.lor (u8 v) (Z.shiftl (u8 (Z.shiftr v 8)) 8)) (Z.shiftl (u8 (Z.shiftr v 16)) 16)) values = values) as E.
  { rewrite <- (map_id values) at 2. apply map_ext_in. intros v Hin. rewrite !List.Forall_forall in Hv, H24.
    specialize (Hv v Hin). specialize (H24 v Hin). unfold rank_ok, is24 in *. unfold u8.
    rewrite !Z.shiftr_div_pow2 by lia. change (2 ^ 8) with 256. change (2 ^ 16) with 65536.
    rewrite (lor_field (v mod 256) _ 8) by (change (2 ^ 8) with 256; div_lia). change (2 ^ 8) with 256.
    rewrite (lor_field _ _ 16) by (change (2 ^ 16) with 65536; div_lia). change (2 ^ 16) with 65536. div_lia. }
  cbn [raw24_bytes]. rewrite E. destruct (existsb _ values) eqn:Ex; [|done].
  apply existsb_exists in Ex as (v & Hin & Hgt). bool_prop. rewrite List.Forall_forall in Hv. specialize (Hv v Hin). unfold rank_ok in Hv. lia.
Qed.

Lemma encode_block_spec values :
  Forall rank_ok values -> (1 <= length values <= 128)%nat ->
  exists b, encode_block values = Some b /\ decode_block b (length values) = Some values /\
    Z.of_nat (length values) + 3 <= Z.of_nat (length b) <= 5 * Z.of_nat (length values) /\
    (Forall is24 values -> Z.of_nat (length b) <= 1 + 3 * Z.of_nat (length values)).
Proof.
  intros Hv Hn. destruct Hv as [|v values Hv Hvs]; cbn [length] in *; [lia|]. cbn [encode_block].
  rewrite encode_deltas_spec by (try done; unfold ENCODED_MAX; cbn [length]; rewrite length_le_bytes; lia).
  cbn [mbind option_bind]. pose proof (length_deltas v values) as Hd.
  set (delta_block := (_ :: le_bytes 4 v) ++ deltas v values).
  assert (length delta_block = (5 + length (deltas v values))%nat) as Hlen.
  { subst delta_block. rewrite length_app. cbn [length]. rewrite length_le_bytes. lia. }
  assert (decode_block delta_block (S (length values)) = Some (v :: values)) as Hdec.
  { subst delta_block. cbn [app decode_block Z.eqb negb orb Nat.eqb]. unfold rank_ok in Hv.
    rewrite (proj2 (Z.ltb_ge _ 5)) by (cbn [length]; rewrite length_app, length_le_bytes; lia). cbn [orb].
    change (take 4 (le_bytes 4 v ++ deltas v values)) with (le_bytes 4 v).
    change (drop 4 (le_bytes 4 v ++ deltas v values)) with (deltas v values).
    rewrite le_value_bytes by (change (256 ^ Z.of_nat 4) with 4294967296; unfold INT32_MAX in Hv; lia).
    rewrite (proj2 (Z.ltb_ge _ v)) by lia. cbn [Nat.sub]. rewrite Nat.sub_0_r, <- (app_nil_r (deltas v values)).
    by rewrite decode_deltas_spec. }
  destruct (forallb _ _ && _) eqn:E.
  - apply andb_true_iff in E as [E24 Elen]. assert (Forall is24 (v :: values)) as H24.
    { rewrite forallb_forall in E24. apply List.Forall_forall. intros x Hx. specialize (E24 x Hx). bool_prop. done. }
    eexists. split; [done|]. split; [|cbn [length]; rewrite length_raw24; cbn [length]; split; lia].
    cbn [decode_block length]. rewrite Z.eqb_refl, length_raw24. cbn [length].
    rewrite (proj2 (Z.eqb_eq _ _)) by lia. cbn [negb]. by apply (decode_raw24_spec (v :: values)); [constructor|].
  - eexists. split; [done|]. split; [done|]. rewrite Hlen. split; [lia|]. intros H24.
    apply andb_false_iff in E as [E|E]; bool_prop; [|rewrite Hlen in E; cbn [length] in E; lia].
    apply not_true_iff_false in E. destruct E. apply forallb_forall. rewrite List.Forall_forall in H24. intros x Hx.
    apply Z.leb_le. by apply H24.
Qed.

(** ** Cutting the ranks into blocks *)
Fixpoint chunks (k todo : nat) (values : list Z) : list (list Z) :=
  match todo with O => [] | S todo => take k values :: chunks k todo (drop k values) end.
Definition BLOCK : nat := Z.to_nat TC_QUERY_BLOCK_VALUES.
Definition blocks (values : list Z) : list (list Z) :=
  chunks BLOCK (Z.to_nat (blocks_of (Z.of_nat (length values)))) values.
(** The code of each block, and where the blocks end. *)
Definition codes (values : list Z) : list (list Z) := map (fun c => default [] (encode_block c)) (blocks values).
Fixpoint ends (from : Z) (l : list (list Z)) : list Z :=
  match l with [] => [] | b :: l => from + Z.of_nat (length b) :: ends (from + Z.of_nat (length b)) l end.

Lemma blocks_of_spec n : 0 <= n -> 128 * (blocks_of n) - 127 <= n <= 128 * blocks_of n \/ (n = 0 /\ blocks_of n = 0).
Proof. unfold blocks_of, TC_QUERY_BLOCK_VALUES. intros Hn. destruct (Z.eqb_spec (n mod 128) 0); div_lia. Qed.
Lemma lookup_chunks k todo values i :
  chunks k todo values !! i = if (i <? todo)%nat then Some (take k (drop (k * i) values)) else None.
Proof.
  revert values i. induction todo as [|todo IH]; intros values i; [by destruct i|]. cbn [chunks].
  destruct i as [|i]; [by rewrite Nat.mul_0_r|]. cbn [lookup list_lookup]. rewrite IH, drop_drop.
  change (S i <? S todo)%nat with (i <? todo)%nat. by rewrite Nat.mul_succ_r, (Nat.add_comm (k * i)).
Qed.
Lemma length_chunks k todo values : length (chunks k todo values) = todo.
Proof. revert values. induction todo as [|todo IH]; intros values; cbn; [done|by rewrite IH]. Qed.
Lemma length_ends from l : length (ends from l) = length l.
Proof. revert from. induction l as [|b l IH]; intros from; cbn; [done|by rewrite IH]. Qed.
Lemma lookup_ends from l i :
  (from :: ends from l) !! i = if (i <=? length l)%nat then Some (from + Z.of_nat (length (concat (take i l)))) else None.
Proof.
  revert from i. induction l as [|b l IH]; intros from i.
  - destruct i as [|[|i]]; cbn; [by rewrite Z.add_0_r|done|done].
  - destruct i as [|i]; [cbn; by rewrite Z.add_0_r|]. change ((from :: ends from (b :: l)) !! S i)
      with ((from + Z.of_nat (length b) :: ends (from + Z.of_nat (length b)) l) !! i). rewrite IH. change (S i <=? length (b :: l))%nat with (i <=? length l)%nat.
    destruct (_ <=? _)%nat; [|done]. f_equal. cbn [take concat]. rewrite length_app. lia.
Qed.

(** ** Compressing *)
Lemma blocks_elem values c :
  Forall rank_ok values -> c ∈ blocks values ->
  exists b, encode_block c = Some b /\ decode_block b (length c) = Some c /\
    Z.of_nat (length c) + 3 <= Z.of_nat (length b) <= 5 * Z.of_nat (length c) /\ (1 <= length c <= BLOCK)%nat /\
    (Forall is24 values -> Z.of_nat (length b) <= 1 + 3 * Z.of_nat (length c)).
Proof.
  intros Hv Hin. apply list_elem_of_lookup in Hin as [i Hi]. unfold blocks in Hi. rewrite lookup_chunks in Hi.
  destruct (Nat.ltb_spec i (Z.to_nat (blocks_of (Z.of_nat (length values))))) as [Hlt|]; [|done]. apply (inj Some) in Hi. subst c.
  pose proof (blocks_of_spec (Z.of_nat (length values)) ltac:(lia)) as Hb. unfold BLOCK, TC_QUERY_BLOCK_VALUES in *.
  change (Z.to_nat 128) with 128%nat in *.
  assert (1 <= length (take 128 (drop (128 * i) values)) <= 128)%nat as Hl by (rewrite length_take, length_drop; lia).
  destruct (encode_block_spec (take 128 (drop (128 * i) values))) as (b & H1 & H2 & H3 & H4); [by apply Forall_take, Forall_drop|lia|].
  assert (Forall is24 values -> Forall is24 (take 128 (drop (128 * i) values))) as H24 by (intros; by apply Forall_take, Forall_drop).
  revert H1 H2 H3 H4 H24 Hl. generalize (take 128 (drop (128 * i) values)). intros c H1 H2 H3 H4 H24 Hl.
  exists b. split_and!; try done; try lia.
Qed.

Lemma lookup_codes values j b : codes values !! j = Some b <-> exists c, blocks values !! j = Some c /\ b = default [] (encode_block c).
Proof.
  unfold codes. split.
  - intros H. change (map ?f ?l) with (f <$> l) in H. apply list_lookup_fmap_Some in H as (c & -> & Hc). eauto.
  - intros (c & Hc & ->). change (map ?f ?l) with (f <$> l). rewrite list_lookup_fmap, Hc. done.
Qed.
Lemma length_codes values : length (codes values) = Z.to_nat (blocks_of (Z.of_nat (length values))).
Proof. unfold codes, blocks. by rewrite length_map, length_chunks. Qed.
Lemma length_concat_codes values l :
  Forall rank_ok values -> (forall b, b ∈ l -> b ∈ codes values) -> (length (concat l) <= 640 * length l)%nat.
Proof.
  intros Hv. induction l as [|b l IH]; intros Hl; cbn [concat length]; [lia|].
  rewrite length_app. assert (b ∈ codes values) as Hb by (apply Hl; left).
  apply list_elem_of_lookup in Hb as [j Hj]. apply lookup_codes in Hj as (c & Hc & ->).
  apply list_elem_of_lookup_2 in Hc. destruct (blocks_elem values c Hv Hc) as (b & -> & _ & Hlen & Hn & _). cbn [default].
  unfold BLOCK, TC_QUERY_BLOCK_VALUES in Hn. change (Z.to_nat 128) with 128%nat in Hn.
  assert (length (concat l) <= 640 * length l)%nat; [|cbn; lia]. apply IH. intros b' Hb'. apply Hl. by right.
Qed.
Lemma le_values c : Forall rank_ok c -> map le_value (records 4 (length c) (concat (map (le_bytes 4) c))) = c.
Proof.
  intros Hc. rewrite <- (app_nil_r (concat _)), records_map by apply length_le_bytes. rewrite map_map.
  rewrite <- (map_id c) at 2. apply map_ext_in. intros v Hin. rewrite List.Forall_forall in Hc. specialize (Hc v Hin).
  apply le_value_bytes. change (256 ^ Z.of_nat 4) with 4294967296. unfold rank_ok, INT32_MAX in Hc. lia.
Qed.
Lemma existsb_ranks c : Forall rank_ok c -> existsb (fun v => INT32_MAX <? v) c = false.
Proof.
  intros Hc. apply not_true_iff_false. intros Ex. apply existsb_exists in Ex as (v & Hin & Hgt). bool_prop.
  rewrite List.Forall_forall in Hc. specialize (Hc v Hin). unfold rank_ok in Hc. lia.
Qed.

(** What a round reads of the raw postings. *)
Lemma read_raw values (j k : nat) n off :
  4 * Z.of_nat (length values) <= FILE_MAX -> (j + k <= length values)%nat -> n = (4 * k)%nat -> off = Z.of_nat (4 * j) ->
  query_read OFF_MAX (concat (map (le_bytes 4) values)) n off = Some (concat (map (le_bytes 4) (take k (drop j values)))).
Proof.
  intros Hmax Hj -> ->. unfold FILE_MAX in Hmax. unfold query_read.
  rewrite (proj2 (Z.ltb_ge INT64_MAX _)), (proj2 (Z.ltb_ge _ (Z.of_nat (4 * k)))), (proj2 (Z.ltb_ge OFF_MAX _)) by lia. cbn [orb].
  rewrite read_at_inside by (rewrite ?(length_concat_records (le_bytes 4) 4) by apply length_le_bytes; lia).
  rewrite Nat2Z.id. by rewrite take_concat_records by apply length_le_bytes.
Qed.

Lemma compress_loop_ran values todo j packed offsets P O io :
  Forall rank_ok values -> 8 * (Z.of_nat (length values) + 128) <= FILE_MAX ->
  (j + todo)%nat = Z.to_nat (blocks_of (Z.of_nat (length values))) ->
  wrote packed P -> wrote offsets O ->
  P = concat (take j (codes values)) -> (length O = 8 * S j)%nat ->
  ran io (compress_loop OFF_MAX todo (concat (map (le_bytes 4) values)) (Z.of_nat (length values)) (128 * Z.of_nat j) packed offsets io)
    (fun '(p, o) => wrote p (P ++ concat (drop j (codes values))) /\
       wrote o (O ++ concat (map (le_bytes 8) (ends (Z.of_nat (length P)) (drop j (codes values)))))).
Proof.
  intros Hv Hmax. revert j packed offsets P O io. induction todo as [|todo IH]; intros j packed offsets P O io Hj Hp Ho HP HO.
  { cbn [compress_loop]. rewrite (drop_ge (codes values)) by (rewrite length_codes; lia).
    cbn [concat ends map]. rewrite !app_nil_r. by apply ran_ret. }
  pose proof (blocks_of_spec (Z.of_nat (length values)) ltac:(lia)) as Hb.
  destruct (blocks values !! j) as [c|] eqn:Ec; [|apply lookup_ge_None in Ec; unfold blocks in Ec; rewrite length_chunks in Ec; lia].
  destruct (blocks_elem values c Hv (list_elem_of_lookup_2 _ _ _ Ec)) as (b & Henc & Hdec & Hbl & Hcl & _).
  assert (codes values !! j = Some b) as Hcode by (apply lookup_codes; exists c; by rewrite Henc).
  unfold blocks in Ec. rewrite lookup_chunks in Ec. destruct (_ <? _)%nat; [|done]. apply (inj Some) in Ec.
  unfold BLOCK, TC_QUERY_BLOCK_VALUES in Ec, Hcl. change (Z.to_nat 128) with 128%nat in Ec, Hcl.
  assert (length c = 128 `min` (length values - 128 * j))%nat as Hlc by by rewrite <- Ec, length_take, length_drop.
  assert (take (length c) (drop (128 * j) values) = c) as Hc.
  { rewrite <- Ec at 2. destruct (Nat.le_ge_cases 128 (length values - 128 * j)); [by rewrite Hlc, Nat.min_l|].
    by rewrite !take_ge by (rewrite length_drop; lia). }
  assert (Forall rank_ok c) as Hvc by (rewrite <- Ec; by apply Forall_take, Forall_drop).
  assert (length P <= 640 * j)%nat as HlP.
  { subst P. etransitivity; [apply (length_concat_codes values); [done|intros x Hx; by eapply elem_of_take in Hx as (? & Hx & _); eapply list_elem_of_lookup_2]|].
    rewrite length_take. lia. }
  cbn [compress_loop]. unfold TC_QUERY_BLOCK_VALUES.
  assert ((if 128 <? Z.of_nat (length values) - 128 * Z.of_nat j then 128 else Z.of_nat (length values) - 128 * Z.of_nat j) = Z.of_nat (length c)) as ->.
  { destruct (Z.ltb_spec 128 (Z.of_nat (length values) - 128 * Z.of_nat j)); lia. }
  unfold FILE_MAX in Hmax. rewrite (proj2 (Z.ltb_ge (INT64_MAX / 4) _)) by (unfold INT64_MAX in *; div_lia).
  rewrite (read_raw values (128 * j) (length c)) by (unfold FILE_MAX; lia). rewrite Hc. cbn [mbind option_bind].
  rewrite Nat2Z.id, le_values, existsb_ranks, Henc by done. cbn [mbind option_bind].
  eapply ran_bind; [apply (add_ran packed P b io Hp); unfold WRITER_BYTES, FILE_MAX; lia|]. intros packed' io' Hp'.
  pose proof (wrote_length _ _ Hp') as Hlp. rewrite length_app in Hlp.
  assert (0 <= w_used packed') by (unfold w_used; lia).
  rewrite (proj2 (Z.ltb_ge INT64_MAX _)), (proj2 (Z.ltb_ge _ (w_used packed'))) by lia. cbn [orb].
  eapply ran_bind; [apply (add_ran offsets O (le_bytes 8 (w_bytes packed' + w_used packed')) io' Ho); rewrite ?length_le_bytes; unfold WRITER_BYTES, FILE_MAX; lia|].
  intros offsets' io'' Ho'.
  assert (forall x y, compress_loop OFF_MAX todo (concat (map (le_bytes 4) values)) (Z.of_nat (length values)) (128 * Z.of_nat j + Z.of_nat (length c)) x y io'' =
    compress_loop OFF_MAX todo (concat (map (le_bytes 4) values)) (Z.of_nat (length values)) (128 * Z.of_nat (S j)) x y io'') as ->.
  { intros x y. destruct todo as [|todo]; [done|]. f_equal. lia. }
  eapply ran_weaken; [apply (IH (S j) packed' offsets' (P ++ b) (O ++ le_bytes 8 (w_bytes packed' + w_used packed')) io''); [lia|done|done| |]|].
  - subst P. rewrite (take_S_r _ _ _ Hcode), concat_app. cbn [concat]. by rewrite app_nil_r.
  - rewrite length_app, length_le_bytes. lia.
  - intros [p o] [H1 H2]. rewrite (drop_S _ _ _ Hcode). cbn [concat ends map]. rewrite !length_app, Nat2Z.inj_add in H2.
    rewrite <- app_assoc in H1, H2. rewrite Hlp, Nat2Z.inj_add in H2. by split.
Qed.

(** Compressing the ranks gives their codes and where each ends. *)
Lemma query_compress_ran values io :
  Forall rank_ok values -> 8 * (Z.of_nat (length values) + 128) <= FILE_MAX ->
  ran io (query_compress_postings OFF_MAX (concat (map (le_bytes 4) values)) (Z.of_nat (length values)) io)
    (fun '(p, o) => w_file p = concat (codes values) /\ w_bytes p = Z.of_nat (length (concat (codes values))) /\
       w_file o = concat (map (le_bytes 8) (0 :: ends 0 (codes values)))).
Proof.
  intros Hv Hmax. unfold query_compress_postings.
  pose proof (blocks_of_spec (Z.of_nat (length values)) ltac:(lia)) as Hb.
  assert (length (concat (codes values)) <= 640 * length (codes values))%nat as Hlen by by apply (length_concat_codes values).
  assert (length (concat (map (le_bytes 8) (0 :: ends 0 (codes values)))) = (8 * S (length (codes values)))%nat) as Hlo.
  { rewrite (length_concat_records (le_bytes 8) 8) by apply length_le_bytes. cbn [length]. by rewrite length_ends. }
  rewrite length_codes in Hlen, Hlo.
  eapply ran_bind; [apply (add_ran new_writer []); [apply wrote_new|unfold WRITER_BYTES; rewrite length_le_bytes; lia|cbn; lia]|].
  intros offsets io1 Ho.
  eapply ran_bind; [apply (compress_loop_ran values _ 0 new_writer offsets [] (le_bytes 8 0) io1); try done; rewrite ?length_le_bytes; lia|].
  intros [packed offsets'] io2 [Hp Ho']. rewrite drop_0 in Hp, Ho'. cbn [app length] in Hp, Ho'.
  eapply ran_bind; [apply (flush_ran packed _ io2 Hp)|].
  { unfold FILE_MAX in *. cbn [app]. lia. }
  intros packed' io3 (H1 & H2 & _).
  eapply ran_bind; [apply (flush_ran offsets' _ io3 Ho')|].
  { change (le_bytes 8 0 ++ concat (map (le_bytes 8) (ends (Z.of_nat 0) (codes values)))) with (concat (map (le_bytes 8) (0 :: ends 0 (codes values)))).
    rewrite Hlo. unfold FILE_MAX in *. lia. }
  intros offsets'' io4 (H3 & _ & _). apply ran_ret. by split_and!.
Qed.
End Proofs.

(** Ranks above 24 bits turn the raw encoding off: seventeen bytes for four values. *)
Lemma encode_block_wide : (length <$> encode_block [0; 16777216; 0; 16777216]) = Some 17%nat.
Proof. reflexivity. Qed.
