(* ===== verification/QueryIndex.v ===== *)
(** The query index of the tag cache: the tuples a catalogue gives, sorting them
    into postings and a directory, checking the file, and looking a key up; the
    second half of src/library/tagcache_query_index.h. *)
From S2P Require Import Prelude ScanIntern StableSort TagSort Memory TagText QueryPostings.
Local Open Scope Z_scope.

(** ** The catalogue

    What the index reads: the reader of the tag files (tagcache_reader.h and
    tagcache_reader_index.h) as a record of its operations. A slot is deleted or
    holds a song, a title rank is a place in the order by title, and the groups of
    each kind are in the order of their names. *)
Record song := { title : list Z; artist : list Z; album : list Z; album_artist : list Z }.
Record group := { name : list Z; g_album_artist : list Z }.

Definition TAGCACHE_GROUP_ARTIST : Z := 0.
Definition TAGCACHE_GROUP_ALBUM_ARTIST : Z := 1.
Definition TAGCACHE_GROUP_ALBUM : Z := 2.

Record catalogue := {
  ent_count : Z; live_count : Z; reader_group_n : Z -> Z;
  disk_gen : Z; master_serial : Z; master_commitid : Z;
  (** [FLAG_DELETED] of a slot; [None] when it cannot be read. *)
  slot_deleted : Z -> option bool;
  reader_song_fields : Z -> option song;
  (** The slot at a title rank, and the rank of a slot ([reader_rank_of]). *)
  title_slot : Z -> option Z;
  reader_rank_of : Z -> Z;
  reader_group_at : Z -> Z -> option group }.

(** Comparing a group with a name, and for albums with its album artist. *)
Definition group_cmp (kind : Z) (g : group) (nm aa : list Z) : Z :=
  let c := ascii_casecmp (name g) nm in
  if (c =? 0) && (kind =? TAGCACHE_GROUP_ALBUM) then ascii_casecmp (g_album_artist g) aa else c.
(** Each round halves an interval of at most 2^31 groups. *)
Fixpoint group_index_loop (fuel : nat) (cat : catalogue) (kind : Z) (nm aa : list Z) (lo hi : Z) : Z :=
  match fuel with
  | O => -1
  | S fuel =>
      if hi <=? lo then -1 else
      let mid := lo + (hi - lo) / 2 in
      match reader_group_at cat kind mid with
      | None => -1
      | Some g =>
          let c := group_cmp kind g nm aa in
          if c =? 0 then mid else
          if c <? 0 then group_index_loop fuel cat kind nm aa (mid + 1) hi
          else group_index_loop fuel cat kind nm aa lo mid
      end
  end.
Definition reader_group_index (cat : catalogue) (kind : Z) (nm aa : list Z) : Z :=
  if (kind <? 0) || (2 <? kind) then -1 else group_index_loop 33 cat kind nm aa 0 (reader_group_n cat kind).

(** The first album group whose name is not before [nm]. *)
Fixpoint album_bound_loop (fuel : nat) (cat : catalogue) (nm : list Z) (lo hi : Z) : option Z :=
  match fuel with
  | O => None
  | S fuel =>
      if hi <=? lo then Some lo else
      let mid := lo + (hi - lo) / 2 in
      match reader_group_at cat TAGCACHE_GROUP_ALBUM mid with
      | None => None
      | Some g => if ascii_casecmp (name g) nm <? 0 then album_bound_loop fuel cat nm (mid + 1) hi
                  else album_bound_loop fuel cat nm lo mid
      end
  end.
Definition query_build_album_key (cat : catalogue) (nm : list Z) : Z :=
  default (-1) (album_bound_loop 33 cat nm 0 (reader_group_n cat TAGCACHE_GROUP_ALBUM)).

(** ** Tuples *)
Definition TC_QUERY_ARTIST : Z := 1.
Definition TC_QUERY_ALBUM_ARTIST : Z := 2.
Definition TC_QUERY_ARTIST_ALBUMS : Z := 4.
Definition TC_QUERY_ALBUM_ARTIST_ALBUMS : Z := 5.
Definition TC_QUERY_SONG_GRAM : Z := 16.
Definition TC_QUERY_GROUP0_GRAM : Z := 18.
Definition TC_QUERY_ALBUM_NAME : Z := 21.

Record tc_query_tuple := { category : Z; key : Z; rank : Z }.
Definition TUPLE_BYTES : nat := 12.
Definition tuple_bytes (t : tc_query_tuple) : list Z :=
  le_bytes 4 (category t) ++ le_bytes 4 (key t) ++ le_bytes 4 (rank t).
Definition tuple_of (b : list Z) : tc_query_tuple :=
  {| category := field 4 0 b; key := field 4 4 b; rank := field 4 8 b |}.
Definition no_tuple : tc_query_tuple := {| category := 0; key := 0; rank := 0 |}.

Fixpoint gram_loop (s : list Z) (shift key : Z) : Z :=
  match s with [] => key | c :: s => gram_loop s (shift + 8) (Z.lor key (u32 (Z.shiftl (ascii_fold c) shift))) end.
Definition query_gram_key (s : list Z) : Z := gram_loop s 0 (u32 (Z.shiftl (Z.of_nat (length s)) 24)).

Definition query_u32_cmp (x y : Z) : Z := (if y <? x then 1 else 0) - (if x <? y then 1 else 0).
Definition query_tuple_cmp (x y : tc_query_tuple) : Z :=
  if negb (category x =? category y) then if category x <? category y then -1 else 1 else
  if negb (key x =? key y) then if key x <? key y then -1 else 1 else
  (if rank y <? rank x then 1 else 0) - (if rank x <? rank y then 1 else 0).

(** The grams of one, two and three characters at each place of [value]. *)
Definition grams_at (value : list Z) (i : nat) : list Z :=
  map (fun size => query_gram_key (take size (drop i value)))
    (List.filter (fun size => (i + size <=? length value)%nat) [1; 2; 3]%nat).
Definition all_grams (value : list Z) : list Z := flat_map (grams_at value) (seq 0 (length value)).
(** [grams[i] != grams[i - 1]]. *)
Fixpoint drop_repeats (previous : option Z) (l : list Z) : list Z :=
  match l with
  | [] => []
  | g :: l => if bool_decide (previous = Some g) then drop_repeats (Some g) l else g :: drop_repeats (Some g) l
  end.

Section Index.
Context (OFF_MAX : Z) (qsort : list Z -> list Z).
Abbreviation add := (query_writer_add OFF_MAX).
Abbreviation flush := (query_writer_flush OFF_MAX).

Definition query_emit (w : tc_query_writer) (category key rank : Z) (io : list bool) : option (tc_query_writer * list bool) :=
  add w (tuple_bytes {| category := category; key := u32 key; rank := u32 rank |}) io.
Fixpoint emit_loop (w : tc_query_writer) (category rank : Z) (grams : list Z) (io : list bool)
    : option (tc_query_writer * list bool) :=
  match grams with
  | [] => Some (w, io)
  | g :: grams => '(w, io) ← query_emit w category g rank io; emit_loop w category rank grams io
  end.
(** [None] also when the array [grams] of three times [TAGCACHE_PATH_MAX] would
    overflow, which no string of the reader is long enough for. *)
Definition query_emit_grams (w : tc_query_writer) (category rank : Z) (value : list Z) (io : list bool)
    : option (tc_query_writer * list bool) :=
  let grams := all_grams value in
  if TAGCACHE_PATH_MAX * 3 <? Z.of_nat (length grams) then None else
  emit_loop w category rank (drop_repeats None (qsort grams)) io.

Fixpoint artists_loop (cat : catalogue) (w : tc_query_writer) (names : list (list Z)) (rank album : Z) (io : list bool)
    : option (tc_query_writer * list bool) :=
  match names with
  | [] => Some (w, io)
  | nm :: names =>
      let artist := reader_group_index cat TAGCACHE_GROUP_ARTIST nm [] in
      if artist <? 0 then None else
      '(w, io) ← query_emit w TC_QUERY_ARTIST artist rank io;
      '(w, io) ← query_emit w TC_QUERY_ARTIST_ALBUMS artist album io;
      artists_loop cat w names rank album io
  end.
Definition emit_song (cat : catalogue) (w : tc_query_writer) (slot : Z) (s : song) (io : list bool)
    : option (tc_query_writer * list bool) :=
  let rank := reader_rank_of cat slot in
  let aa := reader_group_index cat TAGCACHE_GROUP_ALBUM_ARTIST (album_artist s) [] in
  let album_group := reader_group_index cat TAGCACHE_GROUP_ALBUM (album s) (album_artist s) in
  let album_name := query_build_album_key cat (album s) in
  if (rank <? 0) || (aa <? 0) || (album_group <? 0) || (album_name <? 0) then None else
  '(w, io) ← query_emit w TC_QUERY_ALBUM_ARTIST aa rank io;
  '(w, io) ← query_emit w TC_QUERY_ALBUM_NAME album_name rank io;
  '(w, io) ← query_emit w TC_QUERY_ALBUM_ARTIST_ALBUMS aa album_group io;
  '(w, io) ← query_emit_grams w TC_QUERY_SONG_GRAM rank (title s) io;
  '(w, io) ← query_emit_grams w TC_QUERY_SONG_GRAM rank (artist s) io;
  artists_loop cat w (split_artist (artist s)) rank album_group io.
Fixpoint slots_loop (todo : nat) (cat : catalogue) (w : tc_query_writer) (slot : Z) (io : list bool)
    : option (tc_query_writer * list bool) :=
  match todo with
  | O => Some (w, io)
  | S todo =>
      deleted ← slot_deleted cat slot;
      if (deleted : bool) then slots_loop todo cat w (slot + 1) io else
      s ← reader_song_fields cat slot;
      '(w, io) ← emit_song cat w slot s io;
      slots_loop todo cat w (slot + 1) io
  end.
Fixpoint groups_loop (todo : nat) (cat : catalogue) (w : tc_query_writer) (kind i : Z) (io : list bool)
    : option (tc_query_writer * list bool) :=
  match todo with
  | O => Some (w, io)
  | S todo =>
      g ← reader_group_at cat kind i;
      '(w, io) ← query_emit_grams w (TC_QUERY_GROUP0_GRAM + kind) i (name g) io;
      groups_loop todo cat w kind (i + 1) io
  end.
Fixpoint kinds_loop (kinds : list Z) (cat : catalogue) (w : tc_query_writer) (io : list bool)
    : option (tc_query_writer * list bool) :=
  match kinds with
  | [] => Some (w, io)
  | kind :: kinds =>
      '(w, io) ← groups_loop (Z.to_nat (reader_group_n cat kind)) cat w kind 0 io;
      kinds_loop kinds cat w io
  end.

(** ** Postings and directory *)
Abbreviation tuple_files := (TagSort.files (A:=tc_query_tuple)).
Definition set_faults (s : tuple_files) (io : list bool) : tuple_files :=
  {| f_main := f_main s; f_scratch := f_scratch s; f_faults := io |}.

(** What the loop over the sorted tuples carries. *)
Record building := {
  b_previous : option tc_query_tuple; b_entry : tc_query_dir;
  b_directory : tc_query_writer; b_postings : tc_query_writer; b_post : Z; b_dirs : Z }.
Definition close_entry (b : building) (io : list bool) : option (building * list bool) :=
  match b_previous b with
  | None => Some (b, io)
  | Some _ =>
      let entry := {| d_category := d_category (b_entry b); d_key := d_key (b_entry b); d_start := d_start (b_entry b);
                      d_count := b_post b - d_start (b_entry b) |} in
      '(directory, io) ← add (b_directory b) (dir_bytes entry) io;
      Some ({| b_previous := b_previous b; b_entry := entry; b_directory := directory; b_postings := b_postings b;
               b_post := b_post b; b_dirs := b_dirs b + 1 |}, io)
  end.
Definition add_tuple (b : building) (t : tc_query_tuple) (io : list bool) : option (building * list bool) :=
  if match b_previous b with Some p => query_tuple_cmp t p =? 0 | None => false end then Some (b, io) else
  '(b, io) ← (if match b_previous b with Some p => (category t =? category p) && (key t =? key p) | None => false end
              then Some (b, io)
              else
                '(b, io) ← close_entry b io;
                Some ({| b_previous := b_previous b;
                         b_entry := {| d_category := category t; d_key := key t; d_start := b_post b; d_count := d_count (b_entry b) |};
                         b_directory := b_directory b; b_postings := b_postings b; b_post := b_post b; b_dirs := b_dirs b |}, io));
  '(postings, io) ← add (b_postings b) (le_bytes 4 (rank t)) io;
  Some ({| b_previous := Some t; b_entry := b_entry b; b_directory := b_directory b; b_postings := postings;
           b_post := b_post b + 1; b_dirs := b_dirs b |}, io).
Fixpoint tuples_loop (todo : nat) (r : TagSort.reader (A:=tc_query_tuple)) (s : tuple_files) (b : building)
    : option (tuple_files * building) :=
  match todo with
  | O => Some (s, b)
  | S todo =>
      t ← tc_sort_reader_record r;
      '(b, io) ← add_tuple b t (f_faults s);
      '(r, s) ← tc_sort_reader_advance 12 r (set_faults s io);
      tuples_loop todo r s b
  end.

(** Memory for the sort: its budget and its two allocations. *)
Context (want_large malloc_large malloc_small : bool).

Definition query_build (cat : catalogue) (io : list bool) : option (list Z * list bool) :=
  io ← (foldl (fun io _ => io ≫= io_call) (Some io) (seq 0 4));
  '(tuples, io) ← slots_loop (Z.to_nat (ent_count cat)) cat new_writer 0 io;
  '(tuples, io) ← kinds_loop [0; 1; 2] cat tuples io;
  '(tuples, io) ← flush tuples io;
  let tuple_count := w_bytes tuples / 12 in
  if INT64_MAX <? tuple_count then None else
  s ← tc_sort_fd query_tuple_cmp no_tuple 12 want_large malloc_large malloc_small false tuple_count
        {| f_main := map tuple_of (records TUPLE_BYTES (Z.to_nat tuple_count) (w_file tuples)); f_scratch := []; f_faults := io |};
  let n := Z.to_nat tuple_count in
  '(stream, s) ← tc_sort_reader_fill 12
      {| r_fd := true; r_buf := []; r_cap := 2730; r_pos := 0; r_have := 0; r_next := 0; r_end := n |} s;
  '(s, b) ← tuples_loop n stream s
      {| b_previous := None; b_entry := {| d_category := 0; d_key := 0; d_start := 0; d_count := 0 |};
         b_directory := new_writer; b_postings := new_writer; b_post := 0; b_dirs := 0 |};
  '(b, io) ← close_entry b (f_faults s);
  if 4294967295 <? b_dirs b then None else
  '(directory, io) ← flush (b_directory b) io;
  '(postings, io) ← flush (b_postings b) io;
  io ← io_call io; io ← io_call io;
  '(packed, offsets, io) ← query_compress_postings OFF_MAX (w_file postings) (b_post b) io;
  io ← io_call io;
  let post_offset := u64 (80 + w_bytes directory) in
  let offsets_size := Z.of_nat (length (w_file offsets)) in
  if (UINT64_MAX - post_offset <? offsets_size) || (u64 (UINT64_MAX - post_offset - w_bytes packed) <? offsets_size) then None else
  let header :=
    {| h_magic := TC_QUERY_MAGIC; h_version := TC_QUERY_VERSION; directory_count := b_dirs b; h_reserved := 0;
       directory_offset := 80; postings_offset := post_offset; postings_count := b_post b;
       h_file_size := u64 (post_offset + offsets_size + w_bytes packed);
       h_generation := disk_gen cat; h_serial := master_serial cat; h_commitid := master_commitid cat;
       h_entry_count := ent_count cat; h_live_entries := live_count cat;
       h_group_count := (reader_group_n cat 0, reader_group_n cat 1, reader_group_n cat 2) |} in
  io ← (foldl (fun io _ => io ≫= io_call) (Some io) (seq 0 4));
  Some (header_bytes header ++ w_file directory ++ w_file offsets ++ w_file packed, io).

(** ** Checking and looking up *)
Definition query_validate (cat : catalogue) (file : list Z) (file_size : Z) : bool :=
  match read_header OFF_MAX file with
  | None => false
  | Some h =>
      if negb (h_magic h =? TC_QUERY_MAGIC) ||
         (negb (h_version h =? TC_QUERY_VERSION_LEGACY) && negb (h_version h =? TC_QUERY_VERSION)) ||
         negb (h_generation h =? disk_gen cat) || negb (h_serial h =? master_serial cat) ||
         negb (h_commitid h =? master_commitid cat) || negb (h_entry_count h =? ent_count cat) ||
         negb (h_live_entries h =? live_count cat) ||
         negb (bool_decide (h_group_count h = (reader_group_n cat 0, reader_group_n cat 1, reader_group_n cat 2))) ||
         negb (directory_offset h =? 80) || negb (postings_offset h =? u64 (80 + u64 (directory_count h * 24))) ||
         negb (h_file_size h =? file_size) || (INT64_MAX <? h_file_size h) || (h_file_size h <? postings_offset h) ||
         (postings_count h <? directory_count h) then false
      else if h_version h =? TC_QUERY_VERSION_LEGACY then
        (postings_count h =? (h_file_size h - postings_offset h) / 4) && ((h_file_size h - postings_offset h) mod 4 =? 0)
      else
        let blocks := blocks_of (postings_count h) in
        if blocks =? UINT64_MAX then false else
        let table_entries := blocks + 1 in
        if UINT64_MAX / 8 <? table_entries then false else
        let table_bytes := table_entries * 8 in
        if h_file_size h - postings_offset h <? table_bytes then false else
        let payload := h_file_size h - postings_offset h - table_bytes in
        if (UINT64_MAX / 3 <? blocks) || (UINT64_MAX - 3 * blocks <? postings_count h) then false else
        let minimum := postings_count h + 3 * blocks in
        if (UINT64_MAX - blocks) / 3 <? postings_count h then false else
        let maximum := 3 * postings_count h + blocks in
        if (payload <? minimum) || (maximum <? payload) then false else
        match query_read OFF_MAX file 8 (postings_offset h) with
        | None => false
        | Some first =>
            if INT64_MAX - blocks * 8 <? postings_offset h then false else
            match query_read OFF_MAX file 8 (postings_offset h + blocks * 8) with
            | None => false
            | Some last => (le_value first =? 0) && (le_value last =? payload)
            end
        end
  end.

Definition read_dir (file : list Z) (h : tc_query_header) (i : Z) : option tc_query_dir :=
  dir_of <$> query_read OFF_MAX file DIR_BYTES (u64 (directory_offset h + i * 24)).
Fixpoint lookup_loop (fuel : nat) (file : list Z) (h : tc_query_header) (category key lo hi : Z) : option Z :=
  match fuel with
  | O => None
  | S fuel =>
      if hi <=? lo then Some lo else
      let mid := lo + (hi - lo) / 2 in
      d ← read_dir file h mid;
      if (d_category d <? category) || ((d_category d =? category) && (d_key d <? key))
      then lookup_loop fuel file h category key (mid + 1) hi
      else lookup_loop fuel file h category key lo mid
  end.
(** Where the postings of a key start, and how many there are. *)
Definition query_lookup (file : list Z) (category key : Z) : option (Z * Z) :=
  h ← read_header OFF_MAX file;
  lo ← lookup_loop 33 file h category key 0 (directory_count h);
  if directory_count h <=? lo then None else
  d ← read_dir file h lo;
  if negb (d_category d =? category) || negb (d_key d =? key) || (postings_count h <? d_start d) ||
     (postings_count h - d_start d <? d_count d) then None
  else Some (d_start d, d_count d).

(** The rarest gram of the needle: [(0, 0)] as soon as one is nowhere. *)
Fixpoint needle_loop (todo i : nat) (file : list Z) (domain : Z) (needle : list Z) (gram_length : nat) (best : Z * Z) : Z * Z :=
  match todo with
  | O => best
  | S todo =>
      match query_lookup file domain (query_gram_key (take gram_length (drop i needle))) with
      | None => (0, 0)
      | Some (start, count) =>
          needle_loop todo (S i) file domain needle gram_length (if count <? snd best then (start, count) else best)
      end
  end.
Definition query_needle (file : list Z) (domain : Z) (needle : list Z) : option (Z * Z) :=
  match needle with
  | [] => None
  | _ =>
      let length := length needle in
      let gram_length := Nat.min length 3 in
      Some (needle_loop (length - gram_length + 1) 0 file domain needle gram_length (0, UINT64_MAX))
  end.
End Index.
