(* ===== verification/QueryFile.v ===== *)
(** A query file: its header, directory, offsets and blocks in place, and what
    reading a directory entry or a rank of it gives. *)
From S2P Require Import Prelude ScanIntern TagSort Memory QueryPostings QueryPostingsProofs QueryIndex.
Local Open Scope Z_scope.

Definition offsets_bytes (values : list Z) : list Z := concat (map (le_bytes 8) (0 :: ends 0 (codes values))).
Definition image (h : tc_query_header) (dirs : list tc_query_dir) (values : list Z) : list Z :=
  header_bytes h ++ concat (map dir_bytes dirs) ++ offsets_bytes values ++ concat (codes values).

(** ** Structs *)
Definition in_u64 (z : Z) : Prop := 0 <= z <= UINT64_MAX.
Definition header_range (h : tc_query_header) : Prop :=
  in_u32 (h_magic h) /\ in_u32 (h_version h) /\ in_u32 (directory_count h) /\ in_u32 (h_reserved h) /\
  in_u64 (directory_offset h) /\ in_u64 (postings_offset h) /\ in_u64 (postings_count h) /\ in_u64 (h_file_size h) /\
  in_i32 (h_generation h) /\ in_i32 (h_serial h) /\ in_i32 (h_commitid h) /\ in_i32 (h_entry_count h) /\ in_i32 (h_live_entries h) /\
  let '(g0, g1, g2) := h_group_count h in in_i32 g0 /\ in_i32 g1 /\ in_i32 g2.

Lemma le4_value v : in_u32 v -> le_value (le_bytes 4 v) = v.
Proof. apply (le_value_bytes 4). Qed.
Lemma le8_value v : in_u64 v -> le_value (le_bytes 8 v) = v.
Proof. intros H. apply (le_value_bytes 8). unfold in_u64, UINT64_MAX in H. change (256 ^ Z.of_nat 8) with 18446744073709551616. lia. Qed.
Lemma le4_i32 v : in_i32 v -> i32 (le_value (le_bytes 4 (u32 v))) = v.
Proof. intros H. rewrite le4_value by apply u32_range. by apply i32_u32. Qed.

Lemma length_header h : length (header_bytes h) = HEADER_BYTES.
Proof.
  unfold header_bytes. destruct (h_group_count h) as [[g0 g1] g2]. rewrite !length_app, !length_le_bytes. reflexivity.
Qed.
Lemma header_of_bytes h : header_range h -> header_of (header_bytes h) = h.
Proof.
  unfold header_range. destruct h as [m v dc r d_o po pc fs ge se ci ec le gc]. destruct gc as [[g0 g1] g2].
  cbn [h_magic h_version directory_count h_reserved directory_offset postings_offset postings_count h_file_size
       h_generation h_serial h_commitid h_entry_count h_live_entries h_group_count].
  intros (?&?&?&?&?&?&?&?&?&?&?&?&?&?&?&?).
  transitivity {| h_magic := le_value (le_bytes 4 m); h_version := le_value (le_bytes 4 v);
     directory_count := le_value (le_bytes 4 dc); h_reserved := le_value (le_bytes 4 r);
     directory_offset := le_value (le_bytes 8 d_o); postings_offset := le_value (le_bytes 8 po);
     postings_count := le_value (le_bytes 8 pc); h_file_size := le_value (le_bytes 8 fs);
     h_generation := i32 (le_value (le_bytes 4 (u32 ge))); h_serial := i32 (le_value (le_bytes 4 (u32 se)));
     h_commitid := i32 (le_value (le_bytes 4 (u32 ci))); h_entry_count := i32 (le_value (le_bytes 4 (u32 ec)));
     h_live_entries := i32 (le_value (le_bytes 4 (u32 le)));
     h_group_count := (i32 (le_value (le_bytes 4 (u32 g0))), i32 (le_value (le_bytes 4 (u32 g1))), i32 (le_value (le_bytes 4 (u32 g2)))) |};
    [reflexivity|]. by rewrite !le4_value, !le8_value, !i32_u32 by (done || apply u32_range).
Qed.

Definition dir_range (d : tc_query_dir) : Prop :=
  in_u32 (d_category d) /\ in_u32 (d_key d) /\ in_u64 (d_start d) /\ in_u64 (d_count d).
Lemma length_dir d : length (dir_bytes d) = DIR_BYTES.
Proof. unfold dir_bytes. by rewrite !length_app, !length_le_bytes. Qed.
Lemma dir_of_bytes d : dir_range d -> dir_of (dir_bytes d) = d.
Proof.
  destruct d as [c k s n]. unfold dir_range. cbn [d_category d_key d_start d_count]. intros (?&?&?&?).
  transitivity {| d_category := le_value (le_bytes 4 c); d_key := le_value (le_bytes 4 k);
    d_start := le_value (le_bytes 8 s); d_count := le_value (le_bytes 8 n) |}; [reflexivity|].
  by rewrite !le4_value, !le8_value by done.
Qed.
Lemma length_tuple t : length (tuple_bytes t) = TUPLE_BYTES.
Proof. unfold tuple_bytes. by rewrite !length_app, !length_le_bytes. Qed.
Definition tuple_range (t : tc_query_tuple) : Prop := in_u32 (category t) /\ in_u32 (key t) /\ in_u32 (rank t).
Lemma tuple_of_bytes t : tuple_range t -> tuple_of (tuple_bytes t) = t.
Proof.
  destruct t as [c k r]. unfold tuple_range. cbn [category key rank]. intros (?&?&?).
  transitivity {| category := le_value (le_bytes 4 c); key := le_value (le_bytes 4 k); rank := le_value (le_bytes 4 r) |}; [reflexivity|].
  by rewrite !le4_value by done.
Qed.

(** ** Reading a file of this shape *)
Section File.
Context (OFF_MAX : Z) (h : tc_query_header) (dirs : list tc_query_dir) (values : list Z).

Record file_ok : Prop := {
  ok_range : header_range h;
  ok_version : h_version h = TC_QUERY_VERSION;
  ok_dirs : directory_count h = Z.of_nat (length dirs);
  ok_dir_offset : directory_offset h = 80;
  ok_offset : postings_offset h = 80 + 24 * Z.of_nat (length dirs);
  ok_count : postings_count h = Z.of_nat (length values);
  ok_size : h_file_size h = Z.of_nat (length (image h dirs values));
  ok_fits : Z.of_nat (length (image h dirs values)) <= FILE_MAX OFF_MAX;
  ok_values : Forall rank_ok values;
  ok_dir_range : Forall dir_range dirs }.
Hypothesis Hok : file_ok.
Abbreviation file := (image h dirs values).

Lemma length_dirs l : length (concat (map dir_bytes l)) = (24 * length l)%nat.
Proof. apply (length_concat_records dir_bytes 24), length_dir. Qed.
Lemma length_offsets : length (offsets_bytes values) = (8 * S (Z.to_nat (blocks_of (postings_count h))))%nat.
Proof using Hok.
  unfold offsets_bytes. rewrite (length_concat_records (le_bytes 8) 8) by apply length_le_bytes.
  cbn [length]. by rewrite length_ends, length_codes, (ok_count Hok).
Qed.
Lemma length_image : Z.of_nat (length file) =
  80 + 24 * Z.of_nat (length dirs) + 8 * (blocks_of (postings_count h) + 1) + Z.of_nat (length (concat (codes values))).
Proof using Hok.
  unfold image. rewrite !length_app, length_header, length_dirs, length_offsets. unfold HEADER_BYTES.
  pose proof (blocks_of_spec (postings_count h)) as Hb. rewrite (ok_count Hok) in *. lia.
Qed.

(** A read of bytes the file has where it is asked. *)
Lemma query_read_app pre data post off n :
  file = pre ++ data ++ post -> n = length data -> off = Z.of_nat (length pre) ->
  query_read OFF_MAX file n off = Some data.
Proof using Hok.
  intros E -> ->. pose proof (ok_fits Hok) as Hf. rewrite E, !length_app in Hf. unfold FILE_MAX in Hf. unfold query_read.
  rewrite (proj2 (Z.ltb_ge INT64_MAX _)), (proj2 (Z.ltb_ge _ (Z.of_nat (length data)))), (proj2 (Z.ltb_ge OFF_MAX _)) by lia.
  rewrite E. by apply read_at_app.
Qed.
Lemma read_header_ok : read_header OFF_MAX file = Some h.
Proof using Hok.
  unfold read_header. rewrite (query_read_app [] (header_bytes h) (concat (map dir_bytes dirs) ++ offsets_bytes values ++ concat (codes values)));
    [|done|by rewrite length_header|done].
  cbn [fmap option_fmap option_map]. by rewrite header_of_bytes by apply Hok.
Qed.
Lemma read_dir_ok i d : dirs !! i = Some d -> read_dir OFF_MAX file h (Z.of_nat i) = Some d.
Proof using Hok.
  intros Hi. unfold read_dir. rewrite (ok_dir_offset Hok). pose proof (lookup_lt_Some _ _ _ Hi) as Hlt.
  pose proof (ok_fits Hok) as Hf. pose proof length_image as Hl. unfold FILE_MAX, INT64_MAX in Hf.
  pose proof (blocks_of_spec (postings_count h)) as Hb. rewrite (ok_count Hok) in *.
  unfold u64. rewrite Z.mod_small by lia.
  rewrite (query_read_app (header_bytes h ++ concat (map dir_bytes (take i dirs))) (dir_bytes d)
    (concat (map dir_bytes (drop (S i) dirs)) ++ offsets_bytes values ++ concat (codes values))).
  - cbn [fmap option_fmap option_map]. rewrite dir_of_bytes; [done|]. pose proof (ok_dir_range Hok) as Hr.
    rewrite list.Forall_lookup in Hr. by eapply Hr.
  - unfold image. rewrite <- (take_drop_middle dirs i d Hi) at 1. rewrite map_app, concat_app. cbn [map concat].
    by rewrite <- !app_assoc.
  - by rewrite length_dir.
  - rewrite length_app, length_header, length_dirs, length_take. unfold HEADER_BYTES. lia.
Qed.
Lemma query_v2_offset_ok (i : nat) :
  (i <= length (codes values))%nat ->
  query_v2_offset OFF_MAX file h (Z.of_nat i) = Some (Z.of_nat (length (concat (take i (codes values))))).
Proof using Hok.
  intros Hi. unfold query_v2_offset. pose proof length_image as Hl. pose proof (ok_fits Hok) as Hf. unfold FILE_MAX in Hf.
  pose proof (length_codes values) as Hlc. rewrite <- (ok_count Hok) in Hlc.
  pose proof (blocks_of_spec (postings_count h)) as Hb. rewrite (ok_count Hok) in *.
  rewrite (proj2 (Z.ltb_ge (blocks_of _) _)), (proj2 (Z.ltb_ge (INT64_MAX / 8) _)) by (unfold INT64_MAX in *; div_lia).
  rewrite (ok_offset Hok). rewrite (proj2 (Z.ltb_ge _ (80 + _))) by lia. cbn [orb].
  pose proof (lookup_ends 0 (codes values) i) as He. rewrite (proj2 (Nat.leb_le _ _)) in He by done.
  rewrite Z.add_0_l in He. set (l := 0 :: ends 0 (codes values)) in *.
  rewrite (query_read_app (header_bytes h ++ concat (map dir_bytes dirs) ++ concat (map (le_bytes 8) (take i l)))
    (le_bytes 8 (Z.of_nat (length (concat (take i (codes values))))))
    (concat (map (le_bytes 8) (drop (S i) l)) ++ concat (codes values))).
  - cbn [fmap option_fmap option_map]. rewrite le8_value; [done|]. unfold in_u64.
    assert (length (concat (take i (codes values))) <= length (concat (codes values)))%nat.
    { rewrite <- (take_drop i (codes values)) at 2. rewrite concat_app, length_app. lia. }
    unfold UINT64_MAX, INT64_MAX in *. lia.
  - unfold image, offsets_bytes. fold l. rewrite <- (take_drop_middle l i _ He) at 1. rewrite map_app, concat_app. cbn [map concat].
    by rewrite <- !app_assoc.
  - by rewrite length_le_bytes.
  - rewrite !length_app, length_header, length_dirs, (length_concat_records (le_bytes 8) 8) by apply length_le_bytes.
    rewrite length_take, (Nat.min_l i); [unfold HEADER_BYTES; lia|]. apply lookup_lt_Some in He. lia.
Qed.

Lemma decode_v2_ok (i : nat) c :
  blocks values !! i = Some c -> query_decode_v2_block OFF_MAX file h (Z.of_nat i) (length c) = Some c.
Proof using Hok.
  intros Hc. pose proof length_image as Hl. pose proof (ok_fits Hok) as Hf. unfold FILE_MAX in Hf.
  destruct (blocks_elem values c (ok_values Hok) (list_elem_of_lookup_2 _ _ _ Hc)) as (b & Henc & Hdec & Hlen & Hn & _).
  assert (codes values !! i = Some b) as Hb by (apply lookup_codes; exists c; by rewrite Henc).
  pose proof (lookup_lt_Some _ _ _ Hb) as Hlt. pose proof (length_codes values) as Hlc. rewrite <- (ok_count Hok) in Hlc.
  unfold query_decode_v2_block. rewrite (proj2 (Z.leb_gt _ _)) by lia.
  replace (Z.of_nat i + 1) with (Z.of_nat (S i)) by lia. rewrite !query_v2_offset_ok by lia. cbn [mbind option_bind].
  rewrite (take_S_r _ _ _ Hb), concat_app, length_app. cbn [concat]. rewrite app_nil_r.
  set (begin := length (concat (take i (codes values)))). unfold BLOCK, TC_QUERY_BLOCK_VALUES in Hn. change (Z.to_nat 128) with 128%nat in Hn.
  rewrite (proj2 (Z.ltb_ge (Z.of_nat (begin + length b)) _)), (proj2 (Z.ltb_ge ENCODED_MAX _)) by (unfold ENCODED_MAX; lia). cbn [orb].
  pose proof (blocks_of_spec (postings_count h)) as Hbs. rewrite (ok_count Hok) in Hbs.
  assert (begin + length b <= length (concat (codes values)))%nat as Hend.
  { subst begin. rewrite <- (take_drop_middle _ _ _ Hb) at 2. rewrite concat_app. cbn [concat]. rewrite !length_app. lia. }
  unfold u64. rewrite (Z.mod_small (blocks_of _ + 1)) by (unfold INT64_MAX in *; lia).
  rewrite (proj2 (Z.ltb_ge (UINT64_MAX / 8) _)) by (unfold UINT64_MAX, INT64_MAX in *; div_lia).
  rewrite (ok_size Hok), (ok_offset Hok), (Z.mod_small (_ - _)) by (unfold INT64_MAX in *; lia).
  rewrite !(proj2 (Z.ltb_ge (_ - _) _)) by lia. cbn [orb]. rewrite Z.mod_small by (unfold INT64_MAX in *; lia).
  rewrite (query_read_app (header_bytes h ++ concat (map dir_bytes dirs) ++ offsets_bytes values ++ concat (take i (codes values))) b
    (concat (drop (S i) (codes values)))); [done| |lia|].
  - unfold image. rewrite <- (take_drop_middle _ _ _ Hb) at 1. rewrite concat_app. cbn [concat]. by rewrite <- !app_assoc.
  - rewrite !length_app, length_header, length_dirs, length_offsets. fold begin. unfold HEADER_BYTES. lia.
Qed.

(** The cached block, if any, is a block of this file. *)
Definition cache_ok (c : query_cache) : Prop :=
  cache_valid c = true -> 0 <= cache_block c /\ blocks values !! Z.to_nat (cache_block c) = Some (cache_values c).

Lemma query_posting_ok c start offset :
  cache_ok c -> 0 <= start -> 0 <= offset -> start + offset < Z.of_nat (length values) ->
  exists c', query_posting OFF_MAX file c start offset = (values !! Z.to_nat (start + offset), c') /\ cache_ok c'.
Proof using Hok.
  intros Hc Hs Ho Hlt. unfold query_posting. rewrite read_header_ok, (ok_count Hok).
  rewrite (proj2 (Z.ltb_ge _ start)), (proj2 (Z.leb_gt _ offset)) by lia. cbn [orb]. rewrite (ok_version Hok).
  change (TC_QUERY_VERSION =? TC_QUERY_VERSION_LEGACY) with false. cbn iota.
  unfold TC_QUERY_BLOCK_VALUES. set (block := (start + offset) / 128). set (within := Z.to_nat ((start + offset) mod 128)).
  pose proof (blocks_of_spec (Z.of_nat (length values)) ltac:(lia)) as Hb.
  assert (0 <= block < blocks_of (Z.of_nat (length values))) as Hblock by (subst block; div_lia).
  set (b := take BLOCK (drop (BLOCK * Z.to_nat block) values)).
  assert (blocks values !! Z.to_nat block = Some b) as Hb'.
  { unfold blocks. rewrite lookup_chunks, (proj2 (Nat.ltb_lt _ _)) by lia. done. }
  assert (b !! within = values !! Z.to_nat (start + offset)) as Hw.
  { subst b. unfold BLOCK, TC_QUERY_BLOCK_VALUES. change (Z.to_nat 128) with 128%nat.
    rewrite lookup_take_lt by (subst within; div_lia). rewrite lookup_drop. f_equal. subst within block. div_lia. }
  destruct (negb (cache_valid c) || negb (cache_block c =? block)) eqn:E.
  - assert (Z.to_nat (Z.min (Z.of_nat (length values) - block * 128) 128) = length b) as ->.
    { subst b. rewrite length_take, length_drop. unfold BLOCK, TC_QUERY_BLOCK_VALUES. change (Z.to_nat 128) with 128%nat. lia. }
    rewrite <- (Z2Nat.id block) by lia. rewrite (decode_v2_ok _ _ Hb'), Hw. eexists. split; [done|].
    intros _. cbn [cache_block cache_values]. rewrite Nat2Z.id. split; [lia|done].
  - bool_prop. destruct (Hc H) as [_ Hcb]. rewrite H0 in Hcb.
    rewrite Hb' in Hcb. injection Hcb as <-. rewrite Hw. by eexists.
Qed.
Lemma empty_cache_ok : cache_ok empty_cache.
Proof. done. Qed.
End File.
