(* ===== verification/QueryBuild.v ===== *)
(** Building the query index: the tuples of a catalogue, sorted, become a file in
    which every key leads to its ranks in ascending order. *)
From stdpp Require Import sorting.
From S2P Require Import Prelude ScanIntern StableSort TagSort TagSortProofs TagSortDriver Memory TagText QueryPostings QueryPostingsProofs QueryIndex QueryFile.
Local Open Scope Z_scope.

(** ** The order of tuples *)
#[export] Instance query_tuple_cmp_order : CmpOrder query_tuple_cmp.
Proof.
  split.
  - intros [c1 k1 r1] [c2 k2 r2]. unfold query_tuple_cmp. cbn [category key rank].
    destruct (Z.eqb_spec c1 c2), (Z.eqb_spec c2 c1), (Z.eqb_spec k1 k2), (Z.eqb_spec k2 k1), (Z.ltb_spec c1 c2), (Z.ltb_spec c2 c1),
      (Z.ltb_spec k1 k2), (Z.ltb_spec k2 k1), (Z.ltb_spec r1 r2), (Z.ltb_spec r2 r1); cbn; lia.
  - intros [c1 k1 r1] [c2 k2 r2] [c3 k3 r3]. unfold query_tuple_cmp. cbn [category key rank].
    destruct (Z.eqb_spec c1 c2) as [->|]; cbn [negb].
    + destruct (Z.eqb_spec c2 c3) as [->|]; cbn [negb]; [|destruct (Z.ltb_spec c2 c3); lia].
      destruct (Z.eqb_spec k1 k2) as [->|]; cbn [negb].
      * destruct (Z.eqb_spec k2 k3) as [->|]; cbn [negb]; [|destruct (Z.ltb_spec k2 k3); lia].
        destruct (Z.ltb_spec r2 r1), (Z.ltb_spec r1 r2), (Z.ltb_spec r3 r2), (Z.ltb_spec r2 r3), (Z.ltb_spec r3 r1), (Z.ltb_spec r1 r3); lia.
      * destruct (Z.eqb_spec k2 k3) as [->|]; cbn [negb].
        { rewrite (proj2 (Z.eqb_neq k1 k3)) by done. cbn [negb]. destruct (Z.ltb_spec k1 k3); lia. }
        destruct (Z.ltb_spec k1 k2), (Z.ltb_spec k2 k3); try lia. rewrite (proj2 (Z.eqb_neq k1 k3)) by lia. cbn [negb].
        rewrite (proj2 (Z.ltb_lt k1 k3)) by lia. lia.
    + destruct (Z.eqb_spec c2 c3) as [->|]; cbn [negb].
      { rewrite (proj2 (Z.eqb_neq c1 c3)) by done. cbn [negb]. destruct (Z.ltb_spec c1 c3); lia. }
      destruct (Z.ltb_spec c1 c2), (Z.ltb_spec c2 c3); try lia. rewrite (proj2 (Z.eqb_neq c1 c3)) by lia. cbn [negb].
      rewrite (proj2 (Z.ltb_lt c1 c3)) by lia. lia.
Qed.
#[export] Instance query_u32_cmp_order : CmpOrder query_u32_cmp.
Proof.
  split; unfold query_u32_cmp.
  - intros a b. destruct (Z.ltb_spec a b), (Z.ltb_spec b a); cbn; lia.
  - intros a b c. destruct (Z.ltb_spec b a), (Z.ltb_spec a b), (Z.ltb_spec c b), (Z.ltb_spec b c), (Z.ltb_spec c a), (Z.ltb_spec a c); lia.
Qed.
Lemma query_tuple_cmp_eq x y : query_tuple_cmp x y = 0 <-> x = y.
Proof.
  destruct x as [c1 k1 r1], y as [c2 k2 r2]. unfold query_tuple_cmp. cbn [category key rank].
  destruct (Z.eqb_spec c1 c2) as [->|]; cbn [negb]; [|destruct (Z.ltb_spec c1 c2); split; [lia|congruence|lia|congruence]].
  destruct (Z.eqb_spec k1 k2) as [->|]; cbn [negb]; [|destruct (Z.ltb_spec k1 k2); split; [lia|congruence|lia|congruence]].
  destruct (Z.ltb_spec r1 r2), (Z.ltb_spec r2 r1); split; try lia; try (intros [=]; lia). intros _. f_equal. lia.
Qed.
(** Strictly before: by key, and then by rank. *)
Definition key_lt (c1 k1 c2 k2 : Z) : Prop := c1 < c2 \/ (c1 = c2 /\ k1 < k2).
Definition tuple_lt (x y : tc_query_tuple) : Prop := query_tuple_cmp x y < 0.
Lemma tuple_lt_spec x y :
  tuple_lt x y <-> key_lt (category x) (key x) (category y) (key y) \/ (category x = category y /\ key x = key y /\ rank x < rank y).
Proof.
  destruct x as [c1 k1 r1], y as [c2 k2 r2]. unfold tuple_lt, key_lt, query_tuple_cmp. cbn [category key rank].
  destruct (Z.eqb_spec c1 c2) as [->|]; cbn [negb]; [|destruct (Z.ltb_spec c1 c2); lia].
  destruct (Z.eqb_spec k1 k2) as [->|]; cbn [negb]; [|destruct (Z.ltb_spec k1 k2); lia].
  destruct (Z.ltb_spec r1 r2), (Z.ltb_spec r2 r1); lia.
Qed.

(** ** Runs of equal keys *)
Definition same_key (t : tc_query_tuple) (c k : Z) : bool := (category t =? c) && (key t =? k).
Definition runs_entry (t : tc_query_tuple) (at_ : Z) (n : Z) : tc_query_dir :=
  {| d_category := category t; d_key := key t; d_start := at_; d_count := n |}.
Fixpoint runs (at_ : Z) (l : list tc_query_tuple) : list tc_query_dir :=
  match l with
  | [] => []
  | t :: l =>
      match runs (at_ + 1) l with
      | d :: ds => if same_key t (d_category d) (d_key d) then runs_entry t at_ (d_count d + 1) :: ds
                   else runs_entry t at_ 1 :: d :: ds
      | [] => [runs_entry t at_ 1]
      end
  end.

Lemma runs_head at_ t l : exists n ds, runs at_ (t :: l) = runs_entry t at_ n :: ds /\ 0 < n.
Proof.
  revert at_ t. induction l as [|u l IH]; intros at_ t; [by eexists 1, []|].
  destruct (IH (at_ + 1) u) as (n & ds & E & Hn). cbn [runs] in E |- *. rewrite E. destruct (same_key _ _ _).
  - eexists (n + 1), ds. cbn [runs_entry d_count]. split; [done|lia].
  - eexists 1, _. split; [done|lia].
Qed.
Lemma runs_snoc_same at_ l t u :
  list.last l = Some t -> same_key u (category t) (key t) = true ->
  exists ds d, runs at_ l = ds ++ [d] /\ d_category d = category t /\ d_key d = key t /\
    runs at_ (l ++ [u]) = ds ++ [{| d_category := d_category d; d_key := d_key d; d_start := d_start d; d_count := d_count d + 1 |}].
Proof.
  intros Hl Hu. revert at_. induction l as [|x l IH]; intros at_; [done|]. destruct l as [|y l].
  - injection Hl as ->. exists [], (runs_entry t at_ 1). split; [done|]. split; [done|]. split; [done|].
    cbn [app runs runs_entry d_category d_key]. unfold same_key in *. rewrite Z.eqb_sym, (Z.eqb_sym (key t)), Hu.
    unfold runs_entry. do 2 f_equal.
  - rewrite list.last_cons_cons in Hl. destruct (IH Hl (at_ + 1)) as (ds & d & E & Hc & Hk & E').
    change (runs at_ (x :: y :: l)) with (match runs (at_ + 1) (y :: l) with
      | d :: ds => if same_key x (d_category d) (d_key d) then runs_entry x at_ (d_count d + 1) :: ds else runs_entry x at_ 1 :: d :: ds
      | [] => [runs_entry x at_ 1] end).
    change (runs at_ ((x :: y :: l) ++ [u])) with (match runs (at_ + 1) ((y :: l) ++ [u]) with
      | d :: ds => if same_key x (d_category d) (d_key d) then runs_entry x at_ (d_count d + 1) :: ds else runs_entry x at_ 1 :: d :: ds
      | [] => [runs_entry x at_ 1] end).
    rewrite E, E'. destruct ds as [|d0 ds]; cbn [app].
    + cbn [d_category d_key]. destruct (same_key x _ _) eqn:Ex.
      * exists [], (runs_entry x at_ (d_count d + 1)). unfold same_key in Ex. bool_prop.
        split; [done|]. split; [cbn; congruence|]. split; [cbn; congruence|]. done.
      * by exists [runs_entry x at_ 1], d.
    + destruct (same_key x _ _).
      * by exists (runs_entry x at_ (d_count d0 + 1) :: ds), d.
      * by exists (runs_entry x at_ 1 :: d0 :: ds), d.
Qed.
Lemma runs_snoc_new at_ l u :
  match list.last l with Some t => same_key u (category t) (key t) = false | None => True end ->
  runs at_ (l ++ [u]) = runs at_ l ++ [runs_entry u (at_ + Z.of_nat (length l)) 1].
Proof.
  revert at_. induction l as [|x l IH]; intros at_ H; [cbn; by rewrite Z.add_0_r|]. destruct l as [|y l].
  - cbn [app runs runs_entry d_category d_key length]. cbn in H. unfold same_key in *. rewrite Z.eqb_sym, (Z.eqb_sym (key x)), H. done.
  - rewrite list.last_cons_cons in H. specialize (IH (at_ + 1) H).
    change (runs at_ ((x :: y :: l) ++ [u])) with (match runs (at_ + 1) ((y :: l) ++ [u]) with
      | d :: ds => if same_key x (d_category d) (d_key d) then runs_entry x at_ (d_count d + 1) :: ds else runs_entry x at_ 1 :: d :: ds
      | [] => [runs_entry x at_ 1] end).
    rewrite IH. cbn [length]. replace (at_ + Z.of_nat (S (S (length l)))) with (at_ + 1 + Z.of_nat (S (length l))) by lia.
    destruct (runs_head (at_ + 1) y l) as (n & ds & E & _). cbn [runs] in E |- *. rewrite E. cbn [app].
    destruct (same_key x _ _); done.
Qed.

(** The ranks of a key. *)
Definition posts (l : list tc_query_tuple) (c k : Z) : list Z := map rank (List.filter (fun t => same_key t c k) l).
Lemma elem_of_posts l c k r : r ∈ posts l c k <-> {| category := c; key := k; rank := r |} ∈ l.
Proof.
  unfold posts. rewrite list_elem_of_In, in_map_iff. split.
  - intros (t & <- & Hin). apply filter_In in Hin as [Hin Hk]. unfold same_key in Hk. bool_prop. apply list_elem_of_In.
    destruct t as [c' k' r]. cbn in *. by subst.
  - intros Hin. apply list_elem_of_In in Hin. eexists. split; [|apply filter_In; split; [exact Hin|]]; [done|].
    unfold same_key. cbn. by rewrite !Z.eqb_refl.
Qed.

Lemma posts_cons t l c k : posts (t :: l) c k = if same_key t c k then rank t :: posts l c k else posts l c k.
Proof. unfold posts. cbn [List.filter]. by destruct (same_key t c k). Qed.

(** An entry leads to the ranks of its key. *)
Definition entry_ok (at_ : Z) (l : list tc_query_tuple) (d : tc_query_dir) : Prop :=
  at_ <= d_start d /\ 0 < d_count d /\ d_start d + d_count d <= at_ + Z.of_nat (length l) /\
  d_count d = Z.of_nat (length (posts l (d_category d) (d_key d))) /\
  forall i, 0 <= i < d_count d -> (rank <$> l !! Z.to_nat (d_start d - at_ + i)) = posts l (d_category d) (d_key d) !! Z.to_nat i.
Definition dir_lt (d e : tc_query_dir) : Prop := key_lt (d_category d) (d_key d) (d_category e) (d_key e).

Lemma entry_ok_tail at_ t l d :
  entry_ok (at_ + 1) l d -> same_key t (d_category d) (d_key d) = false -> entry_ok at_ (t :: l) d.
Proof.
  intros (H1 & H2 & H3 & H4 & H5) Ht. unfold entry_ok. rewrite posts_cons, Ht. cbn [length].
  split; [lia|]. split; [lia|]. split; [lia|]. split; [done|].
  intros i Hi. rewrite <- H5 by done.
  replace (Z.to_nat (d_start d - at_ + i)) with (S (Z.to_nat (d_start d - (at_ + 1) + i))) by lia. done.
Qed.
Lemma entry_ok_cons at_ t l d :
  entry_ok (at_ + 1) l d -> d_start d = at_ + 1 -> d_category d = category t -> d_key d = key t ->
  entry_ok at_ (t :: l) (runs_entry t at_ (d_count d + 1)).
Proof.
  intros (H1 & H2 & H3 & H4 & H5) Hs Hc Hk. unfold entry_ok. cbn [runs_entry d_category d_key d_start d_count length].
  rewrite posts_cons. unfold same_key. rewrite !Z.eqb_refl. cbn [andb length]. rewrite Hc, Hk in *.
  split; [lia|]. split; [lia|]. split; [lia|]. split; [lia|].
  intros i Hi. destruct (Z.eq_dec i 0) as [->|]; [by rewrite Z.sub_diag|].
  replace (Z.to_nat (at_ - at_ + i)) with (S (Z.to_nat (i - 1))) by lia. replace (Z.to_nat i) with (S (Z.to_nat (i - 1))) by lia.
  cbn [lookup list_lookup]. rewrite <- H5 by lia. do 2 f_equal. lia.
Qed.
Lemma entry_ok_single at_ t l : posts l (category t) (key t) = [] -> entry_ok at_ (t :: l) (runs_entry t at_ 1).
Proof.
  intros Hp. unfold entry_ok. cbn [runs_entry d_category d_key d_start d_count length]. rewrite posts_cons. unfold same_key.
  rewrite !Z.eqb_refl. cbn [andb]. rewrite Hp. cbn [length].
  split; [lia|]. split; [lia|]. split; [lia|]. split; [lia|].
  intros i Hi. assert (i = 0) as -> by lia. by rewrite Z.sub_diag.
Qed.

(** The entry of a run leads to its ranks, and the entries are in order. *)
Lemma runs_spec at_ l :
  StronglySorted tuple_lt l ->
  StronglySorted dir_lt (runs at_ l) /\ (forall d, d ∈ runs at_ l -> entry_ok at_ l d) /\
  (forall t, t ∈ l -> exists d, d ∈ runs at_ l /\ d_category d = category t /\ d_key d = key t).
Proof.
  intros Hl. revert at_. induction Hl as [|t l Hl IH Ht]; intros at_.
  { split; [constructor|]. split; intros x Hx; by apply not_elem_of_nil in Hx. }
  destruct l as [|u l].
  { cbn [runs]. split; [repeat constructor|]. split.
    - intros d Hd. apply list_elem_of_singleton in Hd as ->. by apply entry_ok_single.
    - intros x Hx. apply list_elem_of_singleton in Hx as ->. eexists. split; [left|done]. }
  destruct (IH (at_ + 1)) as (Hs & He & Hm). destruct (runs_head (at_ + 1) u l) as (n & ds & E & Hn).
  change (runs at_ (t :: u :: l)) with (match runs (at_ + 1) (u :: l) with
      | d :: ds => if same_key t (d_category d) (d_key d) then runs_entry t at_ (d_count d + 1) :: ds else runs_entry t at_ 1 :: d :: ds
      | [] => [runs_entry t at_ 1] end).
  rewrite E in *. set (d := runs_entry u (at_ + 1) n) in *. apply StronglySorted_inv in Hs as [Hs Hd].
  rewrite List.Forall_forall in Hd.
  assert (forall e, e ∈ ds -> dir_lt d e) as Hd' by (intros e He'; by apply Hd, list_elem_of_In).
  assert (tuple_lt t u) as Htu by (by apply Forall_inv in Ht). apply tuple_lt_spec in Htu.
  destruct (same_key t (d_category d) (d_key d)) eqn:Ek; unfold same_key in Ek.
  - bool_prop. split; [|split].
    + constructor; [done|]. apply List.Forall_forall. intros e Hin. unfold dir_lt in *. cbn [runs_entry d_category d_key].
      rewrite H, H0. by apply Hd.
    + intros e Hin. apply list.elem_of_cons in Hin as [->|Hin].
      * apply entry_ok_cons; [apply He; left|done|done|done].
      * apply entry_ok_tail; [apply He; by right|]. specialize (Hd' e Hin). unfold dir_lt, key_lt in Hd'. unfold same_key.
        rewrite H, H0. destruct (Z.eqb_spec (d_category d) (d_category e)), (Z.eqb_spec (d_key d) (d_key e)); try done; lia.
    + intros x Hx. apply list.elem_of_cons in Hx as [->|Hx].
      * eexists. split; [left|done].
      * destruct (Hm x Hx) as (e & Hin & Hc & Hk). apply list.elem_of_cons in Hin as [->|Hin].
        -- eexists. split; [left|]. cbn [runs_entry d_category d_key]. by rewrite H, H0.
        -- exists e. split; [by right|done].
  - assert (key_lt (category t) (key t) (d_category d) (d_key d)) as Hlt.
    { subst d. cbn [runs_entry d_category d_key] in *. unfold key_lt in *.
      destruct (Z.eqb_spec (category t) (category u)), (Z.eqb_spec (key t) (key u)); try done; lia. }
    assert (forall e, e ∈ d :: ds -> key_lt (category t) (key t) (d_category e) (d_key e)) as Hlt'.
    { intros e Hin. apply list.elem_of_cons in Hin as [->|Hin]; [done|]. specialize (Hd' e Hin). unfold dir_lt, key_lt in *. lia. }
    assert (forall e, e ∈ d :: ds -> same_key t (d_category e) (d_key e) = false) as Hne.
    { intros e Hin. specialize (Hlt' e Hin). unfold key_lt in Hlt'. unfold same_key.
      destruct (Z.eqb_spec (category t) (d_category e)), (Z.eqb_spec (key t) (d_key e)); try done; lia. }
    split; [|split].
    + constructor; [constructor; [done|by apply List.Forall_forall]|]. apply List.Forall_forall. intros e Hin.
      apply list_elem_of_In in Hin. by apply Hlt'.
    + intros e Hin. apply list.elem_of_cons in Hin as [->|Hin]; [|apply entry_ok_tail; auto].
      apply entry_ok_single. apply elem_of_nil_inv. intros r Hr. apply elem_of_posts in Hr.
      destruct (Hm _ Hr) as (e & Hin & Hc & Hk). specialize (Hlt' e Hin). cbn [category key] in Hc, Hk. rewrite Hc, Hk in Hlt'.
      unfold key_lt in Hlt'. lia.
    + intros x Hx. apply list.elem_of_cons in Hx as [->|Hx].
      * eexists. split; [left|done].
      * destruct (Hm x Hx) as (e & Hin & Hck). exists e. split; [by right|done].
Qed.

(** ** Looking a key up *)
Lemma strongly_sorted_lookup {A} (R : A -> A -> Prop) l i j x y :
  StronglySorted R l -> (i < j)%nat -> l !! i = Some x -> l !! j = Some y -> R x y.
Proof.
  intros Hs. revert i j. induction Hs as [|z l Hs IH Hz]; intros i j Hij Hi Hj; [done|].
  destruct j as [|j]; [lia|]. destruct i as [|i].
  - injection Hi as ->. rewrite List.Forall_forall in Hz. by apply Hz, list_elem_of_In, (list_elem_of_lookup_2 l j).
  - eapply (IH i j); [lia|done|done].
Qed.

Section Lookup.
Context (OFF_MAX : Z) (h : tc_query_header) (U : list tc_query_tuple).
Abbreviation dirs := (runs 0 U).
Abbreviation file := (image h dirs (map rank U)).
Hypothesis Hok : file_ok OFF_MAX h dirs (map rank U).
Hypothesis Hsorted : StronglySorted tuple_lt U.

Definition dir_before (d : tc_query_dir) (c k : Z) : bool := (d_category d <? c) || ((d_category d =? c) && (d_key d <? k)).
Lemma dir_before_spec d c k : dir_before d c k = true <-> key_lt (d_category d) (d_key d) c k.
Proof.
  unfold dir_before, key_lt. rewrite orb_true_iff, andb_true_iff, !Z.ltb_lt, Z.eqb_eq. done.
Qed.
Lemma dirs_ordered i j d e : (i < j)%nat -> dirs !! i = Some d -> dirs !! j = Some e -> dir_lt d e.
Proof using Hsorted.
  destruct (runs_spec 0 U Hsorted) as [Hs _]. by apply strongly_sorted_lookup.
Qed.

Lemma lookup_loop_S fuel f hd c k lo hi :
  lookup_loop OFF_MAX (S fuel) f hd c k lo hi =
  if hi <=? lo then Some lo else
  d ← read_dir OFF_MAX f hd (lo + (hi - lo) / 2);
  if dir_before d c k then lookup_loop OFF_MAX fuel f hd c k (lo + (hi - lo) / 2 + 1) hi
  else lookup_loop OFF_MAX fuel f hd c k lo (lo + (hi - lo) / 2).
Proof. done. Qed.
Lemma lookup_loop_ok fuel c k lo hi :
  0 <= lo <= hi -> hi <= Z.of_nat (length dirs) -> hi - lo < 2 ^ Z.of_nat fuel ->
  (forall i d, (i < Z.to_nat lo)%nat -> dirs !! i = Some d -> dir_before d c k = true) ->
  (forall i d, (Z.to_nat hi <= i)%nat -> dirs !! i = Some d -> dir_before d c k = false) ->
  exists m, lookup_loop OFF_MAX (S fuel) file h c k lo hi = Some m /\ 0 <= m <= Z.of_nat (length dirs) /\
    (forall i d, (i < Z.to_nat m)%nat -> dirs !! i = Some d -> dir_before d c k = true) /\
    (forall i d, (Z.to_nat m <= i)%nat -> dirs !! i = Some d -> dir_before d c k = false).
Proof using Hok Hsorted.
  revert lo hi. induction fuel as [|fuel IH]; intros lo hi Hlo Hhi Hf Hb Ha; rewrite lookup_loop_S;
    (destruct (Z.leb_spec hi lo); [exists lo; assert (hi = lo) as -> by lia; split_and!; try done; lia|]); [cbn in Hf; lia|].
  set (mid := lo + (hi - lo) / 2). assert (lo <= mid < hi) as Hmid by (subst mid; div_lia).
  rewrite Nat2Z.inj_succ, Z.pow_succ_r in Hf by lia.
  destruct (lookup_lt_is_Some_2 dirs (Z.to_nat mid)) as [d Hd]; [lia|].
  pose proof (read_dir_ok OFF_MAX h dirs (map rank U) Hok _ _ Hd) as Hr. rewrite Z2Nat.id in Hr by lia. rewrite Hr.
  cbn [mbind option_bind]. destruct (dir_before d c k) eqn:E.
  - apply IH; [lia|lia|subst mid; div_lia| |done]. intros i e Hi He. destruct (decide (i = Z.to_nat mid)) as [->|].
    { rewrite Hd in He. by injection He as <-. }
    apply dir_before_spec. apply dir_before_spec in E. assert (dir_lt e d) as Hlt by (eapply (dirs_ordered i (Z.to_nat mid)); [lia|done|done]).
    unfold dir_lt, key_lt in *. lia.
  - apply IH; [lia|lia|subst mid; div_lia|done|]. intros i e Hi He. destruct (decide (i = Z.to_nat mid)) as [->|].
    { rewrite Hd in He. by injection He as <-. }
    apply not_true_iff_false. rewrite dir_before_spec. apply not_true_iff_false in E. rewrite dir_before_spec in E.
    assert (dir_lt d e) as Hlt by (eapply (dirs_ordered (Z.to_nat mid) i); [lia|done|done]). unfold dir_lt, key_lt in *. lia.
Qed.

(** A key leads to its ranks, and one without ranks is not found. *)
Lemma query_lookup_ok c k :
  match posts U c k with
  | [] => query_lookup OFF_MAX file c k = None
  | ps => exists start, query_lookup OFF_MAX file c k = Some (start, Z.of_nat (length ps)) /\ 0 <= start /\
      start + Z.of_nat (length ps) <= Z.of_nat (length U) /\
      forall i, 0 <= i < Z.of_nat (length ps) -> map rank U !! Z.to_nat (start + i) = ps !! Z.to_nat i
  end.
Proof using Hok Hsorted.
  destruct (runs_spec 0 U Hsorted) as (Hs & He & Hm). unfold query_lookup.
  assert (exists fuel, 33%nat = S fuel /\ 4294967296 <= 2 ^ Z.of_nat fuel) as (fuel & -> & Hfuel) by (exists 32%nat; split; [done|lia]).
  rewrite (read_header_ok _ _ _ _ Hok). cbn [mbind option_bind]. rewrite (ok_dirs _ _ _ _ Hok).
  pose proof (ok_range _ _ _ _ Hok) as Hrange. unfold header_range in Hrange. destruct Hrange as (_ & _ & Hdc & _).
  rewrite (ok_dirs _ _ _ _ Hok) in Hdc. unfold in_u32 in Hdc.
  destruct (lookup_loop_ok fuel c k 0 (Z.of_nat (length dirs))) as (m & -> & Hm0 & Hb & Ha); [lia|lia|lia|lia| |].
  { intros i d Hi Hd. apply lookup_lt_Some in Hd. lia. }
  cbn [mbind option_bind].
  assert (forall d, d ∈ dirs -> d_category d = c -> d_key d = k -> dirs !! Z.to_nat m = Some d) as Hfind.
  { intros d Hin Hc Hk. apply list_elem_of_lookup in Hin as [j Hj].
    assert (dir_before d c k = false) as Hd by (apply not_true_iff_false; rewrite dir_before_spec; unfold key_lt; lia).
    destruct (Nat.lt_trichotomy j (Z.to_nat m)) as [Hlt|[->|Hgt]]; [|done|].
    - rewrite (Hb j d Hlt Hj) in Hd. done.
    - destruct (lookup_lt_is_Some_2 dirs (Z.to_nat m)) as [e Hme]; [apply lookup_lt_Some in Hj; lia|].
      pose proof (Ha _ e (le_n _) Hme) as Hf. pose proof (dirs_ordered _ _ _ _ Hgt Hme Hj) as Hlt.
      apply not_true_iff_false in Hf. rewrite dir_before_spec in Hf. unfold dir_lt in Hlt. rewrite Hc, Hk in Hlt. done. }
  destruct (posts U c k) as [|p ps] eqn:Ep.
  - destruct (Z.leb_spec (Z.of_nat (length dirs)) m); [done|].
    destruct (lookup_lt_is_Some_2 dirs (Z.to_nat m)) as [d Hd]; [lia|].
    pose proof (read_dir_ok _ _ _ _ Hok _ _ Hd) as Hr. rewrite Z2Nat.id in Hr by lia. rewrite Hr. cbn [mbind option_bind].
    destruct (Z.eqb_spec (d_category d) c) as [Hc|]; [|done]. destruct (Z.eqb_spec (d_key d) k) as [Hk|]; [|done].
    destruct (He d (list_elem_of_lookup_2 _ _ _ Hd)) as (_ & Hpos & _ & Hcnt & _). rewrite Hc, Hk, Ep in Hcnt. cbn in Hcnt. lia.
  - assert (p ∈ posts U c k) as Hp by (rewrite Ep; left). apply elem_of_posts, Hm in Hp as (d & Hin & Hc & Hk).
    cbn [category key] in Hc, Hk. pose proof (Hfind d Hin Hc Hk) as Hd. pose proof (lookup_lt_Some _ _ _ Hd).
    rewrite (proj2 (Z.leb_gt _ _)) by lia.
    pose proof (read_dir_ok _ _ _ _ Hok _ _ Hd) as Hr. rewrite Z2Nat.id in Hr by lia. rewrite Hr. cbn [mbind option_bind].
    rewrite (proj2 (Z.eqb_eq _ _) Hc), (proj2 (Z.eqb_eq _ _) Hk). cbn [negb orb].
    destruct (He d Hin) as (H1 & H2 & H3 & H4 & H5). rewrite Hc, Hk, Ep in *. pose proof (ok_count _ _ _ _ Hok) as Hpc.
    rewrite length_map in Hpc. rewrite (proj2 (Z.ltb_ge _ (d_start d))), (proj2 (Z.ltb_ge _ (d_count d))) by lia. cbn [orb].
    exists (d_start d). rewrite <- H4. split; [done|]. split; [lia|]. split; [lia|]. intros i Hi.
    change (map rank U) with (rank <$> U). rewrite list_lookup_fmap, <- H5 by done. do 3 f_equal. lia.
Qed.
End Lookup.
