(* ===== verification/QueryCatalogue.v ===== *)
(** What the query index relies on in the catalogue it reads, the searches in its
    groups, and the tuples it emits for them. *)
From S2P Require Import Prelude Endian ScanIntern StableSort TagSort Memory TagText QueryPostings QueryPostingsProofs QueryIndex QueryFile.
Local Open Scope Z_scope.

(** ** The order of groups *)
Definition live_song (cat : catalogue) (slot : Z) (s : song) : Prop :=
  0 <= slot < ent_count cat /\ slot_deleted cat slot = Some false /\ reader_song_fields cat slot = Some s.

(** A string of the reader: in a buffer of [TAGCACHE_PATH_MAX]. *)
Definition reader_string (s : list Z) : Prop := Forall is_char s /\ Z.of_nat (length s) < TAGCACHE_PATH_MAX.
Definition group_ok (g : group) : Prop := reader_string (name g) /\ Forall is_char (g_album_artist g).
Definition song_ok (s : song) : Prop :=
  reader_string (title s) /\ reader_string (artist s) /\ Forall is_char (album s) /\ Forall is_char (album_artist s).

(** The reader's promise: titles and slots name each other, the groups are in the
    strict order of their names, and every song is in its groups. *)
Class CatalogueOk (cat : catalogue) : Prop := {
  cat_counts : 0 <= live_count cat <= INT32_MAX /\ 0 <= ent_count cat <= INT32_MAX;
  cat_groups_count kind : 0 <= kind <= 2 -> 0 <= reader_group_n cat kind <= INT32_MAX;
  cat_ids : in_i32 (disk_gen cat) /\ in_i32 (master_serial cat) /\ in_i32 (master_commitid cat);
  cat_slot slot : 0 <= slot < ent_count cat -> exists b, slot_deleted cat slot = Some b;
  cat_song slot : 0 <= slot < ent_count cat -> slot_deleted cat slot = Some false ->
    exists s, reader_song_fields cat slot = Some s /\ song_ok s;
  cat_rank slot s : live_song cat slot s ->
    0 <= reader_rank_of cat slot < live_count cat /\ title_slot cat (reader_rank_of cat slot) = Some slot;
  cat_title r : 0 <= r < live_count cat ->
    exists slot s, title_slot cat r = Some slot /\ live_song cat slot s /\ reader_rank_of cat slot = r;
  cat_group kind i : 0 <= kind <= 2 -> 0 <= i < reader_group_n cat kind ->
    exists g, reader_group_at cat kind i = Some g /\ group_ok g;
  cat_group_range kind i g : reader_group_at cat kind i = Some g -> 0 <= i < reader_group_n cat kind;
  cat_sorted kind i j g g' : 0 <= kind <= 2 -> i < j ->
    reader_group_at cat kind i = Some g -> reader_group_at cat kind j = Some g' ->
    group_cmp kind g (name g') (g_album_artist g') < 0;
  cat_artists slot s nm : live_song cat slot s -> nm ∈ split_artist (artist s) ->
    exists i g, reader_group_at cat TAGCACHE_GROUP_ARTIST i = Some g /\ ascii_casecmp (name g) nm = 0;
  cat_album_artist slot s : live_song cat slot s ->
    exists i g, reader_group_at cat TAGCACHE_GROUP_ALBUM_ARTIST i = Some g /\ ascii_casecmp (name g) (album_artist s) = 0;
  cat_album slot s : live_song cat slot s ->
    exists i g, reader_group_at cat TAGCACHE_GROUP_ALBUM i = Some g /\
      ascii_casecmp (name g) (album s) = 0 /\ ascii_casecmp (g_album_artist g) (album_artist s) = 0 }.

Lemma group_cmp_neg kind g n a :
  group_cmp kind g n a < 0 <->
  ascii_casecmp (name g) n < 0 \/ (kind = TAGCACHE_GROUP_ALBUM /\ ascii_casecmp (name g) n = 0 /\ ascii_casecmp (g_album_artist g) a < 0).
Proof.
  unfold group_cmp. destruct (Z.eqb_spec (ascii_casecmp (name g) n) 0), (Z.eqb_spec kind TAGCACHE_GROUP_ALBUM); cbn [andb]; lia.
Qed.
Lemma group_cmp_zero kind g n a :
  group_cmp kind g n a = 0 <->
  ascii_casecmp (name g) n = 0 /\ (kind = TAGCACHE_GROUP_ALBUM -> ascii_casecmp (g_album_artist g) a = 0).
Proof.
  unfold group_cmp. destruct (Z.eqb_spec (ascii_casecmp (name g) n) 0), (Z.eqb_spec kind TAGCACHE_GROUP_ALBUM); cbn [andb]; lia.
Qed.
Lemma casecmp_lt_trans a b c :
  Forall is_char a -> Forall is_char b -> Forall is_char c ->
  ascii_casecmp a b < 0 -> ascii_casecmp b c <= 0 -> ascii_casecmp a c < 0.
Proof.
  intros Ha Hb Hc H1 H2. pose proof (ascii_casecmp_trans a b c Ha Hb Hc ltac:(lia) H2).
  destruct (Z.eq_dec (ascii_casecmp a c) 0) as [E|]; [|lia].
  pose proof (ascii_casecmp_trans b c a Hb Hc Ha H2) as H3. rewrite (ascii_casecmp_sym c a), (ascii_casecmp_sym b a) in H3. lia.
Qed.
Lemma casecmp_le_lt_trans a b c :
  Forall is_char a -> Forall is_char b -> Forall is_char c ->
  ascii_casecmp a b <= 0 -> ascii_casecmp b c < 0 -> ascii_casecmp a c < 0.
Proof.
  intros Ha Hb Hc H1 H2. pose proof (ascii_casecmp_trans a b c Ha Hb Hc H1 ltac:(lia)).
  destruct (Z.eq_dec (ascii_casecmp a c) 0) as [E|]; [|lia].
  pose proof (ascii_casecmp_trans c a b Hc Ha Hb) as H3. rewrite (ascii_casecmp_sym c a), (ascii_casecmp_sym c b) in H3. lia.
Qed.
(** A group before one that is not after [n] is before [n]; and after one not before it, after. *)
Lemma group_before_trans kind g g' n a :
  group_ok g -> group_ok g' -> Forall is_char n -> Forall is_char a ->
  group_cmp kind g (name g') (g_album_artist g') < 0 -> group_cmp kind g' n a <= 0 -> group_cmp kind g n a < 0.
Proof.
  intros [[Hg _] Hga] [[Hg' _] Hga'] Hn Ha H1 H2. apply group_cmp_neg in H1. apply group_cmp_neg.
  assert (ascii_casecmp (name g') n < 0 \/ (ascii_casecmp (name g') n = 0 /\
    (kind = TAGCACHE_GROUP_ALBUM -> ascii_casecmp (g_album_artist g') a <= 0))) as H2'.
  { destruct (Z.eq_dec (group_cmp kind g' n a) 0) as [E|E].
    - apply group_cmp_zero in E as [E1 E2]. right. split; [done|]. intros Hk. specialize (E2 Hk). lia.
    - assert (group_cmp kind g' n a < 0) as Hlt by lia. apply group_cmp_neg in Hlt. lia. }
  destruct H1 as [H1|(Hk & H1 & H1')].
  - left. eapply casecmp_lt_trans; [..|exact H1|]; try done. lia.
  - destruct H2' as [H2'|[H2' H3]].
    + left. eapply casecmp_le_lt_trans; [..|exact H2']; try done. lia.
    + right. split; [done|]. split.
      * apply ascii_casecmp_eq; [done|done|]. apply ascii_casecmp_eq in H1; [|done..]. apply ascii_casecmp_eq in H2'; [|done..]. congruence.
      * eapply casecmp_lt_trans; [..|exact H1'|]; auto.
Qed.
Lemma group_after_trans kind g g' n a :
  group_ok g -> group_ok g' -> Forall is_char n -> Forall is_char a ->
  group_cmp kind g (name g') (g_album_artist g') < 0 -> 0 <= group_cmp kind g n a -> 0 < group_cmp kind g' n a.
Proof.
  intros Hg Hg' Hn Ha H1 H2. destruct (Z.le_gt_cases (group_cmp kind g' n a) 0) as [H|]; [|done].
  pose proof (group_before_trans kind g g' n a Hg Hg' Hn Ha H1 H). lia.
Qed.

(** ** Searching the groups *)
Section Search.
Context (cat : catalogue) `{!CatalogueOk cat}.

Lemma group_at_in kind i : 0 <= kind <= 2 -> 0 <= i -> i < reader_group_n cat kind ->
  exists g, reader_group_at cat kind i = Some g /\ group_ok g.
Proof using CatalogueOk0. intros Hk H1 H2. by apply cat_group. Qed.
Lemma group_at_ok kind i g : 0 <= kind <= 2 -> reader_group_at cat kind i = Some g -> group_ok g.
Proof using CatalogueOk0.
  intros Hk Hg. destruct (cat_group kind i Hk (cat_group_range kind i g Hg)) as (g' & Hg' & H). congruence.
Qed.

Lemma group_loop_ok fuel kind n a lo hi i g :
  0 <= kind <= 2 -> Forall is_char n -> Forall is_char a ->
  0 <= lo <= i -> i < hi -> hi <= reader_group_n cat kind -> hi - lo < 2 ^ Z.of_nat fuel ->
  reader_group_at cat kind i = Some g -> group_cmp kind g n a = 0 ->
  group_index_loop (S fuel) cat kind n a lo hi = i.
Proof.
  intros Hk Hn Ha. revert lo hi. induction fuel as [|fuel IH]; intros lo hi Hlo Hhi Hr Hf Hi Hg; [cbn in Hf; lia|].
  rewrite Nat2Z.inj_succ, Z.pow_succ_r in Hf by lia. remember (S fuel) as f eqn:Ef. cbn [group_index_loop].
  rewrite (proj2 (Z.leb_gt _ _)) by lia. set (mid := lo + (hi - lo) / 2). assert (lo <= mid < hi) as Hmid by (subst mid; div_lia).
  destruct (group_at_in kind mid Hk) as (m & Hm & Hmok); [lia|lia|]. rewrite Hm.
  pose proof (group_at_ok kind i g Hk Hi) as Hgok.
  destruct (Z.lt_trichotomy mid i) as [Hlt|[E|Hgt]].
  - pose proof (cat_sorted kind mid i m g Hk Hlt Hm Hi) as Hs.
    pose proof (group_before_trans kind m g n a Hmok Hgok Hn Ha Hs ltac:(lia)) as Hc.
    rewrite (proj2 (Z.eqb_neq _ 0)), (proj2 (Z.ltb_lt _ 0)) by lia. subst f. apply IH; try done; try lia.
  - assert (m = g) as -> by congruence. by rewrite (proj2 (Z.eqb_eq _ _) Hg).
  - pose proof (cat_sorted kind i mid g m Hk Hgt Hi Hm) as Hs.
    pose proof (group_after_trans kind g m n a Hgok Hmok Hn Ha Hs ltac:(lia)) as Hc.
    rewrite (proj2 (Z.eqb_neq _ 0)), (proj2 (Z.ltb_ge _ 0)) by lia. subst f. apply IH; try done; try lia.
Qed.
Lemma group_loop_found fuel kind n a lo hi i :
  0 <= lo -> group_index_loop fuel cat kind n a lo hi = i -> 0 <= i ->
  exists g, reader_group_at cat kind i = Some g /\ group_cmp kind g n a = 0.
Proof.
  revert lo hi. induction fuel as [|fuel IH]; intros lo hi Hlo; cbn [group_index_loop]; [intros; lia|].
  destruct (Z.leb_spec hi lo); [intros; lia|]. destruct (reader_group_at cat kind (lo + _)) as [m|] eqn:Em; [|intros; lia].
  destruct (Z.eqb_spec (group_cmp kind m n a) 0); [intros <- _; by exists m|].
  pose proof (Z.div_pos (hi - lo) 2). destruct (_ <? 0); apply IH; lia.
Qed.

(** The search gives the group of the name, or -1 when there is none. *)
Lemma reader_group_index_spec kind n a :
  0 <= kind <= 2 -> Forall is_char n -> Forall is_char a ->
  (forall i g, reader_group_at cat kind i = Some g -> group_cmp kind g n a = 0 -> reader_group_index cat kind n a = i) /\
  (0 <= reader_group_index cat kind n a ->
   exists g, reader_group_at cat kind (reader_group_index cat kind n a) = Some g /\ group_cmp kind g n a = 0).
Proof.
  intros Hk Hn Ha. unfold reader_group_index. rewrite (proj2 (Z.ltb_ge kind 0)), (proj2 (Z.ltb_ge 2 kind)) by lia. cbn [orb].
  pose proof (cat_groups_count kind Hk) as Hc. unfold INT32_MAX in Hc. split.
  - intros i g Hi Hg. pose proof (cat_group_range kind i g Hi) as Hr.
    assert (exists fuel, 33%nat = S fuel /\ 4294967296 <= 2 ^ Z.of_nat fuel) as (fuel & -> & Hfuel) by (exists 32%nat; split; [done|lia]).
    apply (group_loop_ok fuel kind n a 0 _ i g); try done; lia.
  - intros H. apply (group_loop_found 33 kind n a 0 (reader_group_n cat kind)); [lia|done|done].
Qed.

(** The first album whose name is not before [n]. *)
Lemma album_bound_ok fuel n lo hi :
  Forall is_char n -> 0 <= lo <= hi -> hi <= reader_group_n cat TAGCACHE_GROUP_ALBUM -> hi - lo < 2 ^ Z.of_nat fuel ->
  (forall i g, i < lo -> reader_group_at cat TAGCACHE_GROUP_ALBUM i = Some g -> ascii_casecmp (name g) n < 0) ->
  (forall i g, hi <= i -> reader_group_at cat TAGCACHE_GROUP_ALBUM i = Some g -> 0 <= ascii_casecmp (name g) n) ->
  exists m, album_bound_loop (S fuel) cat n lo hi = Some m /\ 0 <= m <= reader_group_n cat TAGCACHE_GROUP_ALBUM /\
    (forall i g, i < m -> reader_group_at cat TAGCACHE_GROUP_ALBUM i = Some g -> ascii_casecmp (name g) n < 0) /\
    (forall i g, m <= i -> reader_group_at cat TAGCACHE_GROUP_ALBUM i = Some g -> 0 <= ascii_casecmp (name g) n).
Proof.
  assert (0 <= TAGCACHE_GROUP_ALBUM <= 2) as Hk by (unfold TAGCACHE_GROUP_ALBUM; lia).
  intros Hn. revert lo hi. induction fuel as [|fuel IH]; intros lo hi Hlo Hhi Hf Hb Ha.
  { cbn in Hf. assert (hi = lo) as -> by lia. exists lo. cbn [album_bound_loop]. rewrite (proj2 (Z.leb_le lo lo)) by lia. by split_and!; try lia. }
  rewrite Nat2Z.inj_succ, Z.pow_succ_r in Hf by lia. remember (S fuel) as f eqn:Ef. cbn [album_bound_loop].
  destruct (Z.leb_spec hi lo); [assert (hi = lo) as -> by lia; exists lo; by split_and!; try lia|].
  set (mid := lo + (hi - lo) / 2). assert (lo <= mid < hi) as Hmid by (subst mid; div_lia).
  destruct (group_at_in _ mid Hk) as (m & Hm & [[Hmc _] Hma]); [lia|lia|]. rewrite Hm.
  assert (forall i j g g', i < j -> reader_group_at cat TAGCACHE_GROUP_ALBUM i = Some g ->
    reader_group_at cat TAGCACHE_GROUP_ALBUM j = Some g' -> Forall is_char (name g) /\ ascii_casecmp (name g) (name g') <= 0) as Hle.
  { intros i j g g' Hij Hi Hj. split.
    - by apply (group_at_ok _ i g Hk Hi).
    - pose proof (cat_sorted _ i j g g' Hk Hij Hi Hj) as Hs. apply group_cmp_neg in Hs. lia. }
  destruct (Z.ltb_spec (ascii_casecmp (name m) n) 0).
  - subst f. apply IH; [lia|lia|subst mid; div_lia| |done]. intros i g Hi Hg. destruct (Z.eq_dec i mid) as [->|].
    { rewrite Hm in Hg. by injection Hg as <-. }
    destruct (Hle i mid g m ltac:(lia) Hg Hm) as [Hgc Hgm]. by eapply (casecmp_le_lt_trans _ (name m)).
  - subst f. apply IH; [lia|lia|subst mid; div_lia|done|]. intros i g Hi Hg. destruct (Z.eq_dec i mid) as [->|].
    { rewrite Hm in Hg. by injection Hg as <-. }
    destruct (Hle mid i m g ltac:(lia) Hm Hg) as [_ Hgm]. destruct (group_at_ok _ i g Hk Hg) as [[Hxc _] _].
    rewrite ascii_casecmp_sym.
    pose proof (ascii_casecmp_trans n (name m) (name g) Hn Hmc Hxc) as Ht. rewrite (ascii_casecmp_sym n (name m)) in Ht.
    lia.
Qed.
End Search.

(** ** Grams *)
Definition gram_ok (s : list Z) : Prop := Forall is_char s /\ (1 <= length s <= 3)%nat.

Lemma gram_loop_lor s shift a b : gram_loop s shift (Z.lor a b) = Z.lor a (gram_loop s shift b).
Proof. revert shift b. induction s as [|c s IH]; intros shift b; cbn [gram_loop]; [done|]. by rewrite <- Z.lor_assoc, IH. Qed.
Lemma gram_loop_value s shift acc :
  Forall is_char s -> 0 <= shift -> shift + 8 * Z.of_nat (length s) <= 32 -> 0 <= acc < 2 ^ shift ->
  gram_loop s shift acc = acc + 2 ^ shift * le_value (fold_str s) /\ 0 <= le_value (fold_str s) < 256 ^ Z.of_nat (length s).
Proof.
  intros Hs. revert shift acc. induction Hs as [|c s Hc Hs IH]; intros shift acc H0 Hl Ha; cbn [gram_loop fold_str map le_value length]; [split; [lia|cbn; lia]|].
  cbn [length] in Hl. apply ascii_fold_char in Hc. unfold is_char in Hc.
  assert (0 < 2 ^ shift) as Hp by (apply Z.pow_pos_nonneg; lia).
  assert (2 ^ (shift + 8) = 256 * 2 ^ shift) as Hpow by (rewrite Z.pow_add_r by lia; lia).
  assert (2 ^ (shift + 8) <= 2 ^ 32) as Hmax by (apply Z.pow_le_mono_r; lia). change (2 ^ 32) with 4294967296 in Hmax.
  rewrite u32_id by (rewrite Z.shiftl_mul_pow2 by lia; unfold in_u32; nia). rewrite lor_field by lia.
  destruct (IH (shift + 8) (acc + ascii_fold c * 2 ^ shift)) as [-> Hv]; [lia|lia|nia|].
  fold (fold_str s). rewrite Hpow, Nat2Z.inj_succ, Z.pow_succ_r by lia. split; [lia|]. unfold fold_str in *. lia.
Qed.
Lemma query_gram_key_value s :
  gram_ok s -> query_gram_key s = le_value (fold_str s) + Z.of_nat (length s) * 16777216 /\ 0 <= le_value (fold_str s) < 16777216.
Proof.
  intros [Hs Hl]. unfold query_gram_key. destruct (gram_loop_value s 0 0 Hs) as [E Hv]; [lia|lia|cbn; lia|].
  assert (256 ^ Z.of_nat (length s) <= 256 ^ 3) as Hm by (apply Z.pow_le_mono_r; lia). change (256 ^ 3) with 16777216 in Hm.
  rewrite u32_id by (rewrite Z.shiftl_mul_pow2 by lia; unfold in_u32; change (2 ^ 24) with 16777216; lia).
  rewrite <- (Z.lor_0_r (Z.shiftl _ 24)), gram_loop_lor, E, Z.lor_comm. cbn [Z.pow Z.pow_pos Pos.iter Z.add].
  rewrite lor_field by (change (2 ^ 24) with 16777216; lia). change (2 ^ 24) with 16777216. change (2 ^ 0) with 1. lia.
Qed.
Lemma le_value_inj a b : Forall is_byte a -> Forall is_byte b -> length a = length b -> le_value a = le_value b -> a = b.
Proof.
  intros Ha. revert b. induction Ha as [|x a Hx _ IH]; intros b Hb; destruct Hb as [|y b Hy Hb]; cbn [length le_value]; try done.
  intros Hl E. unfold is_byte in *. assert (x = y) as -> by lia. f_equal. apply IH; [done|lia|lia].
Qed.
(** Grams have the same key exactly when they are the same up to case. *)
Lemma query_gram_key_inj s s' : gram_ok s -> gram_ok s' -> query_gram_key s = query_gram_key s' <-> fold_str s = fold_str s'.
Proof.
  intros Hs Hs'. destruct (query_gram_key_value s Hs) as [-> H1], (query_gram_key_value s' Hs') as [-> H2].
  destruct Hs as [Hs Hl], Hs' as [Hs' Hl']. split.
  - intros E. assert (length s = length s') by lia. apply le_value_inj; auto.
    + by unfold fold_str; rewrite !length_map.
    + lia.
  - intros E. rewrite E. do 2 f_equal. apply (f_equal length) in E. unfold fold_str in E. rewrite !length_map in E. lia.
Qed.
Lemma query_gram_key_range s : gram_ok s -> in_u32 (query_gram_key s).
Proof. intros Hs. destruct (query_gram_key_value s Hs) as [-> H]. destruct Hs as [_ Hl]. unfold in_u32. lia. Qed.

(** The grams of a string: those that start somewhere in it. *)
Definition gram_of (g value : list Z) : Prop := exists i, (i + length g <= length value)%nat /\ g = take (length g) (drop i value) /\ (1 <= length g <= 3)%nat.
Lemma elem_of_all_grams value k : k ∈ all_grams value <-> exists g, gram_of g value /\ k = query_gram_key g.
Proof.
  unfold all_grams, grams_at. rewrite list_elem_of_In, in_flat_map. split.
  - intros (i & Hi & Hk). apply in_seq in Hi. apply in_map_iff in Hk as (n & <- & Hn). apply filter_In in Hn as [Hn Hl].
    apply Nat.leb_le in Hl. assert (1 <= n <= 3)%nat as H13 by (cbn in Hn; lia).
    assert (length (take n (drop i value)) = n) as Hlen by (rewrite length_take, length_drop; lia).
    exists (take n (drop i value)). split; [|done]. exists i. rewrite Hlen. by split_and!; lia || done.
  - intros (g & (i & Hl & E & H13) & ->). exists i. split; [apply in_seq; lia|]. apply in_map_iff. exists (length g).
    split; [by rewrite <- E|]. apply filter_In. split; [cbn; lia|by apply Nat.leb_le].
Qed.
Lemma gram_of_chars g value : Forall is_char value -> gram_of g value -> gram_ok g.
Proof. intros Hv (i & _ & E & Hl). split; [|done]. rewrite E. by apply Forall_take, Forall_drop. Qed.
Lemma length_all_grams value : (length (all_grams value) <= 3 * length value)%nat.
Proof.
  unfold all_grams. generalize 0%nat at 1. intros n. rewrite <- (length_seq (length value) n) at 2. generalize (seq n (length value)).
  intros l. induction l as [|i l IH]; cbn [flat_map length]; [lia|]. rewrite length_app. unfold grams_at at 1. rewrite length_map.
  assert (length (List.filter (fun size => (i + size <=? length value)%nat) [1; 2; 3]%nat) <= 3)%nat by (apply (filter_length_le _ [1; 2; 3]%nat)).
  lia.
Qed.

Lemma elem_of_drop_repeats p l x : x ∈ drop_repeats p l -> x ∈ l.
Proof.
  revert p. induction l as [|y l IH]; intros p; cbn [drop_repeats]; [done|]. case_bool_decide.
  - intros H1. right. by eapply IH.
  - rewrite !list.elem_of_cons. intros [->|H1]; [by left|right; by eapply IH].
Qed.
Lemma drop_repeats_elem p l x : x ∈ l -> p = Some x \/ x ∈ drop_repeats p l.
Proof.
  revert p. induction l as [|y l IH]; intros p Hx; [by apply not_elem_of_nil in Hx|]. cbn [drop_repeats].
  apply list.elem_of_cons in Hx. case_bool_decide as Hp.
  - destruct Hx as [->|Hx]; [by left|]. destruct (IH (Some y) Hx) as [[= ->]|H1]; [by left|by right].
  - right. apply list.elem_of_cons. destruct Hx as [->|Hx]; [by left|]. destruct (IH (Some y) Hx) as [[= ->]|H1]; [by left|by right].
Qed.
Lemma elem_of_distinct l x : x ∈ drop_repeats None l <-> x ∈ l.
Proof. split; [apply elem_of_drop_repeats|]. intros H. by destruct (drop_repeats_elem None l x H). Qed.

(** A short needle occurs exactly where its gram is; a longer one only where all
    its grams are. *)
Lemma occurs_gram value needle :
  Forall is_char value -> Forall is_char needle -> (1 <= length needle <= 3)%nat ->
  query_gram_key needle ∈ all_grams value <-> occurs value needle.
Proof.
  intros Hv Hn Hl. rewrite elem_of_all_grams. split.
  - intros (g & Hg & E). apply query_gram_key_inj in E; [|done|apply (gram_of_chars _ _ Hv Hg)].
    destruct Hg as (i & Hi & Eg & Hg). exists i, (drop (length g) (drop i (fold_str value))).
    assert (fold_str g = take (length g) (drop i (fold_str value))) as Ef by (rewrite Eg at 1; unfold fold_str; by rewrite skipn_map, firstn_map).
    by rewrite E, Ef, take_drop.
  - intros (i & t & E). exists (take (length needle) (drop i value)).
    assert (length needle <= length value - i)%nat as Hlen.
    { apply (f_equal length) in E. unfold fold_str in E. rewrite length_app, length_drop, !length_map in E. lia. }
    assert (length (take (length needle) (drop i value)) = length needle) as Ht by (rewrite length_take, length_drop; lia).
    split; [exists i; rewrite Ht; by split_and!; lia || done|].
    apply query_gram_key_inj; [done|split; [by apply Forall_take, Forall_drop|lia]|].
    unfold fold_str in *. rewrite <- firstn_map, <- skipn_map, E, take_app_le by (rewrite length_map; lia).
    by rewrite take_ge by (rewrite length_map; lia).
Qed.
Lemma occurs_sub value needle i n : occurs value needle -> occurs value (take n (drop i needle)).
Proof.
  intros (j & t & E). exists (j + i)%nat, (fold_str (drop n (drop i needle)) ++ drop (i - length needle) t).
  rewrite <- drop_drop, E, app_assoc. unfold fold_str. rewrite <- map_app, take_drop, drop_app, length_map, skipn_map. done.
Qed.
