(* ===== verification/QueryEmit.v ===== *)
(** The tuples a catalogue gives the query index, and writing them. *)
From S2P Require Import Prelude ScanIntern StableSort TagSort Memory TagText QueryPostings QueryPostingsProofs QueryIndex QueryFile QueryCatalogue.
Local Open Scope Z_scope.

Definition tup (c k r : Z) : tc_query_tuple := {| category := c; key := u32 k; rank := u32 r |}.

Section Tuples.
Context (qsort : list Z -> list Z) (cat : catalogue).

Definition gram_tuples (c r : Z) (value : list Z) : list tc_query_tuple :=
  map (fun g => tup c g r) (drop_repeats None (qsort (all_grams value))).
Definition artist_tuples (r al : Z) (nm : list Z) : list tc_query_tuple :=
  let a := reader_group_index cat TAGCACHE_GROUP_ARTIST nm [] in
  [tup TC_QUERY_ARTIST a r; tup TC_QUERY_ARTIST_ALBUMS a al].
Definition song_tuples (slot : Z) (s : song) : list tc_query_tuple :=
  let r := reader_rank_of cat slot in
  let aa := reader_group_index cat TAGCACHE_GROUP_ALBUM_ARTIST (album_artist s) [] in
  let al := reader_group_index cat TAGCACHE_GROUP_ALBUM (album s) (album_artist s) in
  [tup TC_QUERY_ALBUM_ARTIST aa r; tup TC_QUERY_ALBUM_NAME (query_build_album_key cat (album s)) r;
   tup TC_QUERY_ALBUM_ARTIST_ALBUMS aa al] ++
  gram_tuples TC_QUERY_SONG_GRAM r (title s) ++ gram_tuples TC_QUERY_SONG_GRAM r (artist s) ++
  flat_map (artist_tuples r al) (split_artist (artist s)).
Definition slot_tuples (slot : Z) : list tc_query_tuple :=
  match slot_deleted cat slot, reader_song_fields cat slot with
  | Some false, Some s => song_tuples slot s
  | _, _ => []
  end.
Definition group_tuples (kind i : Z) : list tc_query_tuple :=
  match reader_group_at cat kind i with
  | Some g => gram_tuples (TC_QUERY_GROUP0_GRAM + kind) i (name g)
  | None => []
  end.
Definition kind_tuples (kind : Z) : list tc_query_tuple := flat_map (group_tuples kind) (seqZ 0 (reader_group_n cat kind)).
Definition cat_tuples : list tc_query_tuple :=
  flat_map slot_tuples (seqZ 0 (ent_count cat)) ++ flat_map kind_tuples [0; 1; 2].
End Tuples.

Section Emit.
Context (OFF_MAX : Z) (qsort : list Z -> list Z) `{!QSort query_u32_cmp qsort} (cat : catalogue) `{!CatalogueOk cat}.
Abbreviation MAX := (FILE_MAX OFF_MAX).

(** The writer holds the tuples. *)
Definition holds (w : tc_query_writer) (l : list tc_query_tuple) : Prop := wrote w (concat (map tuple_bytes l)).
Definition fits (l : list tc_query_tuple) : Prop := 12 * Z.of_nat (length l) <= MAX.
Lemma fits_app_l l1 l2 : fits (l1 ++ l2) -> fits l1.
Proof. unfold fits. rewrite length_app. lia. Qed.

Lemma emit_ran w l c k r io : holds w l -> fits l -> ran io (query_emit OFF_MAX w c k r io) (fun w' => holds w' (l ++ [tup c k r])).
Proof.
  intros Hw Hl. unfold query_emit, holds. rewrite map_app, concat_app. cbn [map concat]. rewrite app_nil_r.
  apply add_ran; [done|rewrite length_tuple; unfold WRITER_BYTES, TUPLE_BYTES; lia|].
  rewrite (length_concat_records tuple_bytes 12) by apply length_tuple. unfold fits in Hl. lia.
Qed.
Lemma emit_loop_ran w l c r grams io :
  holds w l -> fits (l ++ map (fun g => tup c g r) grams) ->
  ran io (QueryIndex.emit_loop OFF_MAX w c r grams io) (fun w' => holds w' (l ++ map (fun g => tup c g r) grams)).
Proof.
  revert w l io. induction grams as [|g grams IH]; intros w l io Hw Hl; cbn [QueryIndex.emit_loop map].
  { rewrite app_nil_r. by apply ran_ret. }
  eapply ran_bind; [apply (emit_ran w l c g r io Hw); by eapply fits_app_l|]. intros w' io' Hw'. cbn [map] in Hl.
  eapply ran_weaken; [apply (IH w' (l ++ [tup c g r]) io' Hw')|].
  - by rewrite <- app_assoc.
  - intros w'' H. by rewrite <- app_assoc in H.
Qed.
Lemma emit_grams_ran w l c r value io :
  reader_string value -> holds w l -> fits (l ++ gram_tuples qsort c r value) ->
  ran io (query_emit_grams OFF_MAX qsort w c r value io) (fun w' => holds w' (l ++ gram_tuples qsort c r value)).
Proof.
  intros [Hv Hlen] Hw Hl. unfold query_emit_grams. pose proof (length_all_grams value) as Hg.
  rewrite (proj2 (Z.ltb_ge _ _)) by (unfold TAGCACHE_PATH_MAX in *; lia). by apply emit_loop_ran.
Qed.

(** ** One song *)
Lemma artist_index slot s nm :
  live_song cat slot s -> nm ∈ split_artist (artist s) -> 0 <= reader_group_index cat TAGCACHE_GROUP_ARTIST nm [].
Proof using CatalogueOk0.
  intros Hs Hin. destruct (cat_artists slot s nm Hs Hin) as (i & g & Hi & Hg).
  destruct Hs as (Hr & Hd & Hs). destruct (cat_song slot Hr Hd) as (s' & Hs' & _ & [Hc _] & _). assert (s' = s) as -> by congruence.
  destruct (split_artist_ok (artist s) Hc) as (_ & _ & Hnm). rewrite List.Forall_forall in Hnm. apply list_elem_of_In in Hin.
  destruct (reader_group_index_spec cat TAGCACHE_GROUP_ARTIST nm []) as [H _]; [unfold TAGCACHE_GROUP_ARTIST; lia|by apply Hnm|constructor|].
  rewrite (H i g Hi) by (apply group_cmp_zero; split; [done|done]). by apply (cat_group_range _ _ _ Hi).
Qed.
Lemma live_song_ok slot s : live_song cat slot s -> song_ok s.
Proof using CatalogueOk0. intros (Hr & Hd & Hs). destruct (cat_song slot Hr Hd) as (s' & Hs' & H). congruence. Qed.
Lemma album_artist_index slot s :
  live_song cat slot s -> 0 <= reader_group_index cat TAGCACHE_GROUP_ALBUM_ARTIST (album_artist s) [].
Proof using CatalogueOk0.
  intros Hs. destruct (cat_album_artist slot s Hs) as (i & g & Hi & Hg). destruct (live_song_ok slot s Hs) as (_ & _ & _ & Hc).
  destruct (reader_group_index_spec cat TAGCACHE_GROUP_ALBUM_ARTIST (album_artist s) []) as [H _]; [unfold TAGCACHE_GROUP_ALBUM_ARTIST; lia|done|constructor|].
  rewrite (H i g Hi) by (apply group_cmp_zero; split; [done|done]). by apply (cat_group_range _ _ _ Hi).
Qed.
Lemma album_index slot s :
  live_song cat slot s -> 0 <= reader_group_index cat TAGCACHE_GROUP_ALBUM (album s) (album_artist s).
Proof using CatalogueOk0.
  intros Hs. destruct (cat_album slot s Hs) as (i & g & Hi & Hg & Hg'). destruct (live_song_ok slot s Hs) as (_ & _ & Hc & Hc').
  destruct (reader_group_index_spec cat TAGCACHE_GROUP_ALBUM (album s) (album_artist s)) as [H _]; [unfold TAGCACHE_GROUP_ALBUM; lia|done|done|].
  rewrite (H i g Hi) by by apply group_cmp_zero. by apply (cat_group_range _ _ _ Hi).
Qed.
Lemma album_key_ok n :
  Forall is_char n ->
  0 <= query_build_album_key cat n <= reader_group_n cat TAGCACHE_GROUP_ALBUM /\
  (forall i g, i < query_build_album_key cat n -> reader_group_at cat TAGCACHE_GROUP_ALBUM i = Some g -> ascii_casecmp (name g) n < 0) /\
  (forall i g, query_build_album_key cat n <= i -> reader_group_at cat TAGCACHE_GROUP_ALBUM i = Some g -> 0 <= ascii_casecmp (name g) n).
Proof using CatalogueOk0.
  intros Hn. assert (0 <= TAGCACHE_GROUP_ALBUM <= 2) as Hk by (unfold TAGCACHE_GROUP_ALBUM; lia).
  pose proof (cat_groups_count TAGCACHE_GROUP_ALBUM Hk) as Hc. unfold INT32_MAX in Hc.
  unfold query_build_album_key.
  assert (exists fuel, 33%nat = S fuel /\ 4294967296 <= 2 ^ Z.of_nat fuel) as (fuel & -> & Hfuel) by (exists 32%nat; split; [done|lia]).
  destruct (album_bound_ok cat fuel n 0 (reader_group_n cat TAGCACHE_GROUP_ALBUM) Hn) as (m & -> & H); [lia|lia|lia| | |done].
  - intros i g Hi Hg. apply cat_group_range in Hg. lia.
  - intros i g Hi Hg. apply cat_group_range in Hg. lia.
Qed.

Lemma artists_loop_ran w l names r al io :
  (forall nm, nm ∈ names -> 0 <= reader_group_index cat TAGCACHE_GROUP_ARTIST nm []) ->
  holds w l -> fits (l ++ flat_map (artist_tuples cat r al) names) ->
  ran io (artists_loop OFF_MAX cat w names r al io) (fun w' => holds w' (l ++ flat_map (artist_tuples cat r al) names)).
Proof.
  revert w l io. induction names as [|nm names IH]; intros w l io Hi Hw Hl; cbn [artists_loop flat_map].
  { rewrite app_nil_r. by apply ran_ret. }
  rewrite (proj2 (Z.ltb_ge _ 0)) by (apply Hi; left). cbn [flat_map] in Hl. unfold artist_tuples at 1 in Hl. cbn [app] in Hl.
  assert (forall m, (m <= 1)%nat -> fits (l ++ take m (artist_tuples cat r al nm))) as Hf.
  { intros m Hm. unfold fits in *. rewrite length_app in *. cbn [length] in Hl. rewrite length_take. cbn [artist_tuples length]. lia. }
  eapply ran_bind; [apply (emit_ran w l _ _ _ io Hw)|]. { specialize (Hf 0%nat ltac:(lia)). cbn [take] in Hf. by rewrite app_nil_r in Hf. }
  intros w1 io1 H1. eapply ran_bind; [apply (emit_ran w1 _ _ _ _ io1 H1); apply (Hf 1%nat); lia|]. intros w2 io2 H2.
  rewrite <- app_assoc in H2. cbn [app] in H2.
  eapply ran_weaken; [apply (IH w2 _ io2 (fun m Hm => Hi m (list_elem_of_further _ _ _ Hm)) H2)|].
  - by rewrite <- app_assoc.
  - intros w3 H. by rewrite <- app_assoc in H.
Qed.
Lemma emit_song_ran w l slot s io :
  live_song cat slot s -> holds w l -> fits (l ++ song_tuples qsort cat slot s) ->
  ran io (emit_song OFF_MAX qsort cat w slot s io) (fun w' => holds w' (l ++ song_tuples qsort cat slot s)).
Proof.
  intros Hs Hw Hl. destruct (live_song_ok slot s Hs) as (Ht & Ha & Hal & Haa). unfold emit_song.
  destruct (cat_rank slot s Hs) as [Hr _]. pose proof (album_artist_index slot s Hs). pose proof (album_index slot s Hs).
  destruct (album_key_ok (album s) Hal) as [Hk _].
  rewrite !(proj2 (Z.ltb_ge _ 0)) by lia. cbn [orb]. unfold song_tuples in Hl |- *. cbn [app] in Hl |- *.
  set (t1 := tup TC_QUERY_ALBUM_ARTIST _ _) in *. set (t2 := tup TC_QUERY_ALBUM_NAME _ _) in *. set (t3 := tup TC_QUERY_ALBUM_ARTIST_ALBUMS _ _) in *.
  set (g1 := gram_tuples qsort _ _ (title s)) in *. set (g2 := gram_tuples qsort _ _ (artist s)) in *. set (g3 := flat_map _ _) in *.
  assert (forall a b, a ++ b = t1 :: t2 :: t3 :: g1 ++ g2 ++ g3 -> fits (l ++ a)) as Hf.
  { intros a b E. rewrite <- E, app_assoc in Hl. by apply fits_app_l in Hl. }
  eapply ran_bind; [apply (emit_ran w l _ _ _ io Hw); by apply fits_app_l in Hl|]. intros w1 io1 H1.
  eapply ran_bind; [apply (emit_ran w1 _ _ _ _ io1 H1); by apply (Hf [t1] (t2 :: t3 :: g1 ++ g2 ++ g3))|]. intros w2 io2 H2.
  rewrite <- app_assoc in H2. cbn [app] in H2.
  eapply ran_bind; [apply (emit_ran w2 _ _ _ _ io2 H2); by apply (Hf [t1; t2] (t3 :: g1 ++ g2 ++ g3))|]. intros w3 io3 H3.
  rewrite <- app_assoc in H3. cbn [app] in H3.
  eapply ran_bind; [apply (emit_grams_ran w3 _ _ _ _ io3 Ht H3); rewrite <- app_assoc; by apply (Hf (t1 :: t2 :: t3 :: g1) (g2 ++ g3))|]. intros w4 io4 H4.
  rewrite <- app_assoc in H4. cbn [app] in H4.
  eapply ran_bind; [apply (emit_grams_ran w4 _ _ _ _ io4 Ha H4); rewrite <- app_assoc; apply (Hf ((t1 :: t2 :: t3 :: g1) ++ g2) g3); by rewrite <- app_assoc|]. intros w5 io5 H5.
  rewrite <- app_assoc in H5. cbn [app] in H5.
  eapply ran_weaken; [apply (artists_loop_ran w5 _ _ _ _ io5 (fun nm => artist_index slot s nm Hs) H5)|].
  - rewrite <- app_assoc. cbn [app]. by rewrite <- app_assoc.
  - intros w6 H6. rewrite <- app_assoc in H6. cbn [app] in H6. by rewrite <- app_assoc in H6.
Qed.

(** ** The whole catalogue *)
Abbreviation slot_ts := (slot_tuples qsort cat).
Abbreviation group_ts := (group_tuples qsort cat).
Lemma slots_loop_ran todo w l slot io :
  0 <= slot -> slot + Z.of_nat todo <= ent_count cat ->
  holds w l -> fits (l ++ flat_map slot_ts (seqZ slot (Z.of_nat todo))) ->
  ran io (slots_loop OFF_MAX qsort todo cat w slot io) (fun w' => holds w' (l ++ flat_map slot_ts (seqZ slot (Z.of_nat todo)))).
Proof.
  revert w l slot io. induction todo as [|todo IH]; intros w l slot io Hs He Hw Hl; cbn [slots_loop].
  { cbn. rewrite app_nil_r. by apply ran_ret. }
  rewrite Nat2Z.inj_succ in *. rewrite seqZ_cons, Z.pred_succ in * by lia. cbn [flat_map] in *. rewrite app_assoc in *.
  destruct (cat_slot slot) as [b Hb]; [lia|]. rewrite Hb. cbn [mbind option_bind]. unfold slot_tuples at 1 in Hl.
  unfold slot_tuples at 1. rewrite Hb in *. destruct b.
  - rewrite app_nil_r in *. apply IH; [lia|lia|done|done].
  - destruct (cat_song slot) as (s & Hsong & _); [lia|done|]. rewrite Hsong in *. cbn [mbind option_bind].
    eapply ran_bind; [apply (emit_song_ran w l slot s io); [by split_and!; try lia|done|by eapply fits_app_l]|].
    intros w' io' Hw'. apply IH; [lia|lia|done|done].
Qed.
Lemma groups_loop_ran todo w l kind i io :
  0 <= kind <= 2 -> 0 <= i -> i + Z.of_nat todo <= reader_group_n cat kind ->
  holds w l -> fits (l ++ flat_map (group_ts kind) (seqZ i (Z.of_nat todo))) ->
  ran io (groups_loop OFF_MAX qsort todo cat w kind i io) (fun w' => holds w' (l ++ flat_map (group_ts kind) (seqZ i (Z.of_nat todo)))).
Proof.
  intros Hk. revert w l i io. induction todo as [|todo IH]; intros w l i io Hi He Hw Hl; cbn [groups_loop].
  { cbn. rewrite app_nil_r. by apply ran_ret. }
  rewrite Nat2Z.inj_succ in *. rewrite seqZ_cons, Z.pred_succ in * by lia. cbn [flat_map] in *. rewrite app_assoc in *.
  destruct (group_at_in cat kind i Hk) as (g & Hg & Hok & _); [lia|lia|]. unfold group_tuples at 1 in Hl.
  unfold group_tuples at 1. rewrite Hg in *. cbn [mbind option_bind].
  eapply ran_bind; [apply (emit_grams_ran w l _ _ _ io Hok Hw); by eapply fits_app_l|].
  intros w' io' Hw'. apply IH; [lia|lia|done|done].
Qed.
Lemma kinds_loop_ran kinds w l io :
  (forall kind, kind ∈ kinds -> 0 <= kind <= 2) -> holds w l -> fits (l ++ flat_map (kind_tuples qsort cat) kinds) ->
  ran io (kinds_loop OFF_MAX qsort kinds cat w io) (fun w' => holds w' (l ++ flat_map (kind_tuples qsort cat) kinds)).
Proof.
  revert w l io. induction kinds as [|kind kinds IH]; intros w l io Hk Hw Hl; cbn [kinds_loop flat_map].
  { rewrite app_nil_r. by apply ran_ret. }
  cbn [flat_map] in Hl. rewrite app_assoc in *. assert (0 <= kind <= 2) as Hkind by (apply Hk; left).
  pose proof (cat_groups_count kind Hkind) as Hc. unfold kind_tuples at 1 in Hl. unfold kind_tuples at 1.
  replace (reader_group_n cat kind) with (Z.of_nat (Z.to_nat (reader_group_n cat kind))) in Hl |- * by lia.
  rewrite Nat2Z.id.
  eapply ran_bind; [apply (groups_loop_ran _ w l kind 0 io); [done|lia|lia|done|by eapply fits_app_l]|].
  intros w' io' Hw'. apply IH; [intros k Hin; apply Hk; by right|done|done].
Qed.
End Emit.
