(* ===== verification/QueryBuilt.v ===== *)
(** The query index, built: the loop over the sorted tuples, and the whole of
    [query_build] on a catalogue that keeps its promises. *)
From stdpp Require Import sorting.
From S2P Require Import Prelude Endian ScanIntern StableSort TagSort TagSortProofs TagSortDriver Memory TagText QueryPostings QueryPostingsProofs QueryIndex QueryFile QueryBuild QueryCatalogue QueryEmit.
Local Open Scope Z_scope.

(** ** One tuple *)
Lemma length_runs at_ l : (length (runs at_ l) <= length l)%nat.
Proof.
  revert at_. induction l as [|t l IH]; intros at_; cbn [runs length]; [done|]. specialize (IH (at_ + 1)).
  destruct (runs (at_ + 1) l) as [|d ds]; [cbn; lia|]. destruct (same_key _ _ _); cbn [length] in *; lia.
Qed.
Lemma sorted_last U p u : StronglySorted tuple_lt U -> list.last U = Some p -> u ∈ U -> u = p \/ tuple_lt u p.
Proof.
  intros Hs. induction Hs as [|x U Hs IH Hx]; intros Hl Hu; [done|]. apply list.elem_of_cons in Hu. destruct U as [|y U].
  - injection Hl as ->. destruct Hu as [->|Hu]; [by left|by apply not_elem_of_nil in Hu].
  - rewrite list.last_cons_cons in Hl. destruct Hu as [->|Hu]; [|by apply IH]. right. rewrite List.Forall_forall in Hx.
    apply Hx, list_elem_of_In, list.last_Some_elem_of, Hl.
Qed.
Lemma sorted_snoc {A} (R : A -> A -> Prop) l x : StronglySorted R l -> (forall y, y ∈ l -> R y x) -> StronglySorted R (l ++ [x]).
Proof.
  intros Hs. induction Hs as [|y l Hs IH Hy]; intros Hx; cbn [app]; [repeat constructor|]. constructor.
  - apply IH. intros z Hz. apply Hx. by right.
  - apply Forall_app. split; [done|]. constructor; [|constructor]. apply Hx. left.
Qed.

Definition rank_bytes (U : list tc_query_tuple) : list Z := concat (map (le_bytes 4) (map rank U)).
Definition closed_bytes (ds : list tc_query_dir) : list Z := concat (map dir_bytes ds).
Lemma length_rank_bytes U : length (rank_bytes U) = (4 * length U)%nat.
Proof. unfold rank_bytes. rewrite (length_concat_records (le_bytes 4) 4) by apply length_le_bytes. by rewrite length_map. Qed.
(** The entry being filled, as it would be closed now. *)
Definition current (b : building) : tc_query_dir :=
  {| d_category := d_category (b_entry b); d_key := d_key (b_entry b); d_start := d_start (b_entry b);
     d_count := b_post b - d_start (b_entry b) |}.

(** The tuples [P] have been added: [U] is them without repeats. *)
Record built (P U : list tc_query_tuple) (closed : list tc_query_dir) (b : building) : Prop := {
  bt_sorted : StronglySorted tuple_lt U;
  bt_elem t : t ∈ U <-> t ∈ P;
  bt_length : (length U <= length P)%nat;
  bt_last : b_previous b = list.last U;
  bt_post : b_post b = Z.of_nat (length U);
  bt_runs : runs 0 U = closed ++ match U with [] => [] | _ => [current b] end;
  bt_postings : wrote (b_postings b) (rank_bytes U);
  bt_directory : wrote (b_directory b) (closed_bytes closed);
  bt_dirs : b_dirs b = Z.of_nat (length closed) }.

Section Loop.
Context (OFF_MAX : Z).
Abbreviation MAX := (FILE_MAX OFF_MAX).

Lemma close_entry_ran P U closed b io :
  built P U closed b -> 24 * Z.of_nat (length P) <= MAX ->
  ran io (close_entry OFF_MAX b io) (fun b' => wrote (b_directory b') (closed_bytes (runs 0 U)) /\
    b_dirs b' = Z.of_nat (length (runs 0 U)) /\ b_postings b' = b_postings b /\ b_post b' = b_post b /\ b_previous b' = b_previous b).
Proof.
  intros [Hs He Hlen Hlast Hpost Hruns Hp Hd Hn] Hmax. unfold close_entry. rewrite Hlast.
  destruct (list.last U) as [p|] eqn:El.
  2:{ apply list.last_None in El as ->. assert (closed = []) as -> by by destruct closed. by apply ran_ret. }
  assert (runs 0 U = closed ++ [current b]) as E by (destruct U; [done|exact Hruns]). clear Hruns. rename E into Hruns.
  pose proof (length_runs 0 U) as Hr. rewrite Hruns, length_app in Hr. cbn [length] in Hr.
  eapply ran_bind; [apply (add_ran OFF_MAX (b_directory b) _ _ io Hd)|].
  - rewrite length_dir. unfold WRITER_BYTES, DIR_BYTES. lia.
  - unfold closed_bytes. rewrite length_dirs. lia.
  - intros w io' Hw. apply ran_ret. cbn [b_directory b_dirs b_postings b_post b_previous]. rewrite Hruns.
    split; [|split; [rewrite length_app; cbn [length]; lia|done]].
    unfold closed_bytes. rewrite map_app, concat_app. cbn [map concat]. rewrite app_nil_r. exact Hw.
Qed.

(** What is left when the entry of [t] is there: its rank is written. *)
Lemma add_rank_ran P U closed b t b1 closed1 io :
  built P U closed b -> StronglySorted tuple_lt (U ++ [t]) -> 24 * Z.of_nat (S (length P)) <= MAX ->
  d_category (b_entry b1) = category t -> d_key (b_entry b1) = key t ->
  b_post b1 = Z.of_nat (length U) -> b_postings b1 = b_postings b ->
  runs 0 (U ++ [t]) = closed1 ++ [{| d_category := category t; d_key := key t; d_start := d_start (b_entry b1);
                                     d_count := b_post b1 + 1 - d_start (b_entry b1) |}] ->
  wrote (b_directory b1) (closed_bytes closed1) -> b_dirs b1 = Z.of_nat (length closed1) ->
  ran io ('(postings, io) ← query_writer_add OFF_MAX (b_postings b1) (le_bytes 4 (rank t)) io;
          Some ({| b_previous := Some t; b_entry := b_entry b1; b_directory := b_directory b1; b_postings := postings;
                   b_post := b_post b1 + 1; b_dirs := b_dirs b1 |}, io))
    (fun b' => exists U' closed', built (P ++ [t]) U' closed' b').
Proof.
  intros [Hs He Hlen Hlast Hpost Hruns Hp Hd Hn] Hs' Hmax Hc Hk Hpost1 Hp1 Hruns1 Hd1 Hn1. rewrite Hp1.
  eapply ran_bind; [apply (add_ran OFF_MAX (b_postings b) _ _ io Hp)|].
  - rewrite length_le_bytes. unfold WRITER_BYTES. lia.
  - rewrite length_rank_bytes. lia.
  - intros w io2 Hw. apply ran_ret. exists (U ++ [t]), closed1. split; cbn [b_previous b_post b_postings b_directory b_dirs]; try done.
    + intros u. by rewrite !list.elem_of_app, He.
    + rewrite !length_app. cbn [length]. lia.
    + by rewrite list.last_snoc.
    + rewrite length_app. cbn [length]. lia.
    + rewrite Hruns1. unfold current. cbn [b_entry b_post]. rewrite Hc, Hk. by destruct U.
    + unfold rank_bytes. rewrite !map_app, concat_app. cbn [map concat]. rewrite app_nil_r. exact Hw.
Qed.
Lemma add_tuple_ran P U closed b t io :
  built P U closed b -> StronglySorted (cle query_tuple_cmp) (P ++ [t]) -> 24 * Z.of_nat (S (length P)) <= MAX ->
  ran io (add_tuple OFF_MAX b t io) (fun b' => exists U' closed', built (P ++ [t]) U' closed' b').
Proof.
  intros Hb Hsort Hmax. pose proof Hb as [Hs He Hlen Hlast Hpost Hruns Hp Hd Hn]. unfold add_tuple. rewrite Hlast.
  assert (forall u, u ∈ U -> cle query_tuple_cmp u t) as Hle.
  { intros u Hu. apply He, list_elem_of_lookup in Hu as [i Hi].
    apply (strongly_sorted_lookup _ _ i (length P) u t Hsort); [by apply lookup_lt_Some in Hi|by apply lookup_app_l_Some|by apply list_lookup_middle]. }
  destruct (match list.last U with Some p => query_tuple_cmp t p =? 0 | None => false end) eqn:Esame.
  { apply ran_ret. exists U, closed. destruct (list.last U) as [p|] eqn:El; [|done]. bool_prop. apply query_tuple_cmp_eq in Esame as ->.
    split; try done; [|rewrite length_app; lia|congruence]. intros u. rewrite list.elem_of_app, list_elem_of_singleton, He. split; [by left|].
    intros [H| ->]; [done|]. apply He. by apply list.last_Some_elem_of. }
  assert (StronglySorted tuple_lt (U ++ [t])) as Hs'.
  { apply sorted_snoc; [done|]. intros u Hu. pose proof (Hle u Hu) as Hut. unfold cle in Hut. unfold tuple_lt.
    destruct (Z.eq_dec (query_tuple_cmp u t) 0) as [E|]; [|lia]. apply query_tuple_cmp_eq in E as ->.
    destruct (list.last U) as [p|] eqn:El; [|apply list.last_None in El as ->; by apply not_elem_of_nil in Hu]. bool_prop.
    destruct (sorted_last U p t Hs El Hu) as [->|Hlt]; [by rewrite (proj2 (query_tuple_cmp_eq p p) eq_refl) in Esame|].
    pose proof (Hle p (list.last_Some_elem_of _ _ El)) as Hpt. unfold tuple_lt in Hlt. unfold cle in Hpt.
    pose proof (cmp_sym (cmp := query_tuple_cmp) t p). lia. }
  destruct (match list.last U with Some p => (category t =? category p) && (key t =? key p) | None => false end) eqn:Ekey.
  - cbn [mbind option_bind]. destruct (list.last U) as [p|] eqn:El; [|done].
    destruct (runs_snoc_same 0 U p t El Ekey) as (ds & d & E & Hc & Hk & E').
    assert (closed = ds /\ current b = d) as [-> <-].
    { rewrite E in Hruns. destruct U; [done|]. symmetry in Hruns. by apply app_inj_tail in Hruns. }
    bool_prop. cbn [current d_category d_key d_start d_count] in *. apply (add_rank_ran P U ds b t b ds io Hb); try done; try congruence.
    rewrite E'. unfold current. cbn [d_category d_key d_start d_count]. repeat f_equal; try congruence. lia.
  - assert (runs 0 (U ++ [t]) = runs 0 U ++ [runs_entry t (0 + Z.of_nat (length U)) 1]) as E.
    { apply runs_snoc_new. by destruct (list.last U). }
    eapply ran_bind; [eapply (ran_bind io _ _ _ (fun b1 => d_category (b_entry b1) = category t /\ d_key (b_entry b1) = key t /\
        d_start (b_entry b1) = b_post b1 /\ wrote (b_directory b1) (closed_bytes (runs 0 U)) /\ b_dirs b1 = Z.of_nat (length (runs 0 U)) /\
        b_postings b1 = b_postings b /\ b_post b1 = b_post b));
      [apply (close_entry_ran P U closed b io Hb); lia|]|].
    + intros b1 io1 (H1 & H2 & H3 & H4 & H5). by apply ran_ret.
    + intros b1 io1 (H1 & H2 & H3 & H4 & H5 & H6 & H7). apply (add_rank_ran P U closed b t b1 (runs 0 U) io1 Hb); try done; try congruence.
      rewrite E, H3, H7, Hpost. unfold runs_entry. do 3 f_equal; lia.
Qed.

(** ** All of them *)
Abbreviation files := (TagSort.files (A:=tc_query_tuple)).
Lemma outcome_ran {B C} (st : C -> files) (s : files) (r : option (B * list bool)) (f : B * list bool -> option C) P Q :
  ran (f_faults s) r P -> (forall b io, P b -> outcome st (set_faults s io) Q (f (b, io))) -> outcome st s Q (r ≫= f).
Proof.
  intros Hr Hf. destruct r as [[b io]|]; [|done]. destruct Hr as [Hb Hio]. specialize (Hf b io Hb). cbn [mbind option_bind].
  destruct (f (b, io)) as [c|]; cbn in *; [|tauto]. destruct Hf. split; [done|]. tauto.
Qed.
Lemma ran_outcome {B C} (st : B -> files) (s : files) (r : option B) (f : B -> option (C * list bool)) P Q :
  outcome st s P r -> (forall b, P b -> ran (f_faults (st b)) (f b) Q) -> ran (f_faults s) (r ≫= f) Q.
Proof.
  intros Hr Hf. destruct r as [b|]; [|done]. destruct Hr as [Hb Hio]. specialize (Hf b Hb). cbn [mbind option_bind].
  destruct (f b) as [[c io]|]; cbn in *; [|tauto]. destruct Hf. split; [done|]. tauto.
Qed.

Lemma tuples_loop_outcome rest P U closed r s b :
  Z.of_nat (length (f_main s)) * 12 <= INT64_MAX -> f_main s = P ++ rest -> StronglySorted (cle query_tuple_cmp) (f_main s) ->
  24 * Z.of_nat (length (f_main s)) <= MAX ->
  reader_ok (length (f_main s)) true (f_main s) r -> rem (f_main s) r = rest -> built P U closed b ->
  outcome fst s (fun p => exists U' closed', built (f_main s) U' closed' p.2)
    (tuples_loop OFF_MAX (length rest) r s b).
Proof.
  revert P U closed r s b. induction rest as [|t rest IH]; intros P U closed r s b Hfit Hs Hsort Hmax Hr Hrem Hb; cbn [tuples_loop length].
  { rewrite app_nil_r in Hs. apply outcome_ret; [|done]. rewrite Hs. by exists U, closed. }
  rewrite (reader_record_ok _ _ _ _ _ _ Hr Hrem). cbn [mbind option_bind].
  assert (f_main s = (P ++ [t]) ++ rest) as Hs' by by rewrite <- app_assoc.
  assert (S (length P) <= length (f_main s))%nat as Hlen by (rewrite Hs', !length_app; cbn [length]; lia).
  eapply outcome_ran; [apply (add_tuple_ran P U closed b t (f_faults s) Hb)|].
  - rewrite Hs' in Hsort. by apply StronglySorted_app_1_l in Hsort.
  - lia.
  - intros b1 io (U1 & closed1 & Hb1). set (s1 := set_faults s io).
    eapply outcome_bind; [apply (reader_advance_outcome 12 ltac:(lia) (length (f_main s)) Hfit true r s1 t rest Hr Hrem)|].
    intros [r2 s2] (Hr2 & Hrem2 & [Hm2 _]). cbn [fst snd] in *. change (get true s1) with (f_main s) in *. change (f_main s1) with (f_main s) in Hm2.
    rewrite <- Hm2. apply (IH (P ++ [t]) U1 closed1); rewrite ?Hm2; done.
Qed.
End Loop.

(** ** The tuples of a catalogue *)
Section Catalogue.
Context (qsort : list Z -> list Z) `{!QSort query_u32_cmp qsort} (cat : catalogue) `{!CatalogueOk cat}.

Lemma elem_of_cat_tuples t :
  t ∈ cat_tuples qsort cat <->
  (exists slot s, live_song cat slot s /\ t ∈ song_tuples qsort cat slot s) \/
  (exists kind i g, 0 <= kind <= 2 /\ reader_group_at cat kind i = Some g /\ t ∈ gram_tuples qsort (TC_QUERY_GROUP0_GRAM + kind) i (name g)).
Proof using CatalogueOk0.
  unfold cat_tuples. rewrite list.elem_of_app, !list_elem_of_In, !in_flat_map. split.
  - intros [(slot & Hslot & Ht)|(kind & Hkind & Ht)].
    + left. apply list_elem_of_In, elem_of_seqZ in Hslot. unfold slot_tuples in Ht.
      destruct (slot_deleted cat slot) as [[]|] eqn:Ed; [done| |done].
      destruct (reader_song_fields cat slot) as [s|] eqn:Es; [|done]. exists slot, s. split; [split; [lia|done]|by apply list_elem_of_In].
    + right. assert (0 <= kind <= 2) as Hk by (cbn in Hkind; lia). unfold kind_tuples in Ht. apply in_flat_map in Ht as (i & Hi & Ht).
      unfold group_tuples in Ht. destruct (reader_group_at cat kind i) as [g|] eqn:Eg; [|done]. exists kind, i, g.
      split; [done|]. split; [done|by apply list_elem_of_In].
  - intros [(slot & s & (Hr & Hd & Hs) & Ht)|(kind & i & g & Hk & Hg & Ht)].
    + left. exists slot. split; [apply list_elem_of_In, elem_of_seqZ; lia|]. unfold slot_tuples. rewrite Hd, Hs. by apply list_elem_of_In.
    + right. exists kind. split; [cbn; lia|]. unfold kind_tuples. apply in_flat_map. exists i. split.
      * apply list_elem_of_In, elem_of_seqZ. pose proof (cat_group_range kind i g Hg). lia.
      * unfold group_tuples. rewrite Hg. by apply list_elem_of_In.
Qed.
Lemma elem_of_gram_tuples c r v t :
  t ∈ gram_tuples qsort c r v <-> exists k, k ∈ all_grams v /\ t = tup c k r.
Proof using QSort0.
  unfold gram_tuples. assert (forall k, k ∈ drop_repeats None (qsort (all_grams v)) <-> k ∈ all_grams v) as Hd.
  { intros k. rewrite elem_of_distinct. apply list.elem_of_Permutation_proper, (qsort_perm (cmp := query_u32_cmp)). }
  rewrite list_elem_of_In, in_map_iff. split.
  - intros (k & <- & Hk). apply list_elem_of_In, Hd in Hk. by exists k.
  - intros (k & Hk & ->). exists k. split; [done|]. by apply list_elem_of_In, Hd.
Qed.

(** What a tuple of a song is. *)
Lemma elem_of_song_tuples slot s t :
  t ∈ song_tuples qsort cat slot s <->
  let r := reader_rank_of cat slot in
  let aa := reader_group_index cat TAGCACHE_GROUP_ALBUM_ARTIST (album_artist s) [] in
  let al := reader_group_index cat TAGCACHE_GROUP_ALBUM (album s) (album_artist s) in
  t = tup TC_QUERY_ALBUM_ARTIST aa r \/ t = tup TC_QUERY_ALBUM_NAME (query_build_album_key cat (album s)) r \/
  t = tup TC_QUERY_ALBUM_ARTIST_ALBUMS aa al \/
  (exists k, (k ∈ all_grams (title s) \/ k ∈ all_grams (artist s)) /\ t = tup TC_QUERY_SONG_GRAM k r) \/
  (exists nm, nm ∈ split_artist (artist s) /\
     (t = tup TC_QUERY_ARTIST (reader_group_index cat TAGCACHE_GROUP_ARTIST nm []) r \/
      t = tup TC_QUERY_ARTIST_ALBUMS (reader_group_index cat TAGCACHE_GROUP_ARTIST nm []) al)).
Proof using QSort0.
  unfold song_tuples. rewrite !list.elem_of_app, !list.elem_of_cons, !elem_of_gram_tuples, (list_elem_of_In (flat_map _ _) _), in_flat_map.
  cbn zeta. split.
  - intros [[->|[->|[->|H]]]|[(k & Hk & ->)|[(k & Hk & ->)|(nm & Hnm & Ht)]]].
    + by left.
    + right; by left.
    + right; right; by left.
    + by apply not_elem_of_nil in H.
    + right; right; right; left. exists k. split; [by left|done].
    + right; right; right; left. exists k. split; [by right|done].
    + right; right; right; right. exists nm. split; [by apply list_elem_of_In|].
      unfold artist_tuples in Ht. cbn [In] in Ht. destruct Ht as [<-|[<-|[]]]; [by left|by right].
  - intros [->|[->|[->|[(k & [Hk|Hk] & ->)|(nm & Hnm & Ht)]]]].
    + left; by left.
    + left; right; by left.
    + left; right; right; by left.
    + right; left. by exists k.
    + right; right; left. by exists k.
    + right; right; right. exists nm. split; [by apply list_elem_of_In|]. unfold artist_tuples. cbn [In].
      destruct Ht as [->| ->]; [by left|right; by left].
Qed.

(** Ranks are places in the order of titles or groups. *)
Lemma index_range kind n a : 0 <= kind <= 2 -> 0 <= reader_group_index cat kind n a ->
  Forall is_char n -> Forall is_char a -> reader_group_index cat kind n a < reader_group_n cat kind.
Proof using CatalogueOk0.
  intros Hk H Hn Ha. destruct (reader_group_index_spec cat kind n a Hk Hn Ha) as [_ Hs]. destruct (Hs H) as (g & Hg & _).
  pose proof (cat_group_range kind _ g Hg). lia.
Qed.
Definition rank_bound : Z := Z.max (live_count cat) (Z.max (reader_group_n cat 0) (Z.max (reader_group_n cat 1) (reader_group_n cat 2))).
Lemma cat_tuples_range t : t ∈ cat_tuples qsort cat -> tuple_range t /\ 0 <= rank t < rank_bound /\ rank_ok (rank t).
Proof using QSort0 CatalogueOk0.
  assert (forall c k r, in_u32 c -> 0 <= r < rank_bound -> tuple_range (tup c k r) /\ 0 <= rank (tup c k r) < rank_bound /\ rank_ok (rank (tup c k r))) as Htup.
  { intros c k r Hc Hr. destruct (cat_counts) as [Hl _]. pose proof (cat_groups_count 0 ltac:(lia)). pose proof (cat_groups_count 1 ltac:(lia)).
    pose proof (cat_groups_count 2 ltac:(lia)). unfold tuple_range. cbn [tup category key rank].
    assert (0 <= r <= INT32_MAX) as Hr' by (unfold rank_bound in Hr; lia). unfold rank_ok.
    rewrite (u32_id r) by (unfold in_u32, INT32_MAX in *; lia). split; [split; [done|split; [apply u32_range|]]|split; lia].
    unfold in_u32, INT32_MAX in *. lia. }
  intros Ht. apply elem_of_cat_tuples in Ht as [(slot & s & Hs & Ht)|(kind & i & g & Hk & Hg & Ht)].
  - destruct (cat_rank slot s Hs) as [Hr _]. pose proof (album_index cat slot s Hs) as Hal.
    destruct (live_song_ok cat slot s Hs) as (_ & _ & Hc & Hc').
    pose proof (index_range TAGCACHE_GROUP_ALBUM _ _ ltac:(unfold TAGCACHE_GROUP_ALBUM; lia) Hal Hc Hc') as Hal'.
    change (reader_group_n cat TAGCACHE_GROUP_ALBUM) with (reader_group_n cat 2) in Hal'.
    assert (0 <= reader_rank_of cat slot < rank_bound) as H1 by (unfold rank_bound; lia).
    assert (0 <= reader_group_index cat TAGCACHE_GROUP_ALBUM (album s) (album_artist s) < rank_bound) as H2 by (unfold rank_bound; lia).
    apply elem_of_song_tuples in Ht. cbn zeta in Ht.
    destruct Ht as [->|[->|[->|[(k & _ & ->)|(nm & _ & [->| ->])]]]]; apply Htup; done.
  - apply elem_of_gram_tuples in Ht as (k & _ & ->). apply Htup; [unfold in_u32, TC_QUERY_GROUP0_GRAM; lia|].
    pose proof (cat_group_range kind i g Hg) as Hr. unfold rank_bound.
    assert (kind = 0 \/ kind = 1 \/ kind = 2) as [->|[->| ->]] by lia; lia.
Qed.
End Catalogue.

(** ** The whole build *)
Lemma calls_ran n io :
  match foldl (fun io (_ : nat) => io ≫= io_call) (Some io) (seq 0 n) with Some io' => true ∈ io' -> true ∈ io | None => true ∈ io end.
Proof.
  generalize 0%nat. revert io. induction n as [|n IH]; intros io k; cbn [seq foldl]; [done|].
  pose proof (io_call_ran io) as H. cbn [mbind option_bind]. destruct (io_call io) as [io1|].
  - specialize (IH io1 (S k)). destruct (foldl _ _ _); auto.
  - assert (foldl (fun io (_ : nat) => io ≫= io_call) (None : option (list bool)) (seq (S k) n) = None) as ->; [|done].
    generalize (seq (S k) n). intros l. by induction l as [|x l IHl].
Qed.
Lemma call_bind_ran {B} io (r : option (list bool)) (f : list bool -> option (B * list bool)) Q :
  match r with Some io' => true ∈ io' -> true ∈ io | None => true ∈ io end ->
  (forall io', ran io' (f io') Q) -> ran io (r ≫= f) Q.
Proof.
  intros Hr Hf. destruct r as [io'|]; [|done]. specialize (Hf io'). cbn [mbind option_bind].
  destruct (f io') as [[b io'']|]; cbn in *; [|auto]. destruct Hf. split; auto.
Qed.

(** The header names the catalogue the file was built from. *)
Definition header_of_catalogue (cat : catalogue) (h : tc_query_header) : Prop :=
  h_magic h = TC_QUERY_MAGIC /\ h_generation h = disk_gen cat /\ h_serial h = master_serial cat /\ h_commitid h = master_commitid cat /\
  h_entry_count h = ent_count cat /\ h_live_entries h = live_count cat /\
  h_group_count h = (reader_group_n cat 0, reader_group_n cat 1, reader_group_n cat 2).

(** A file that indexes the catalogue: its tuples, sorted and without repeats. *)
Record index_file (OFF_MAX : Z) (qsort : list Z -> list Z) (cat : catalogue) (h : tc_query_header)
    (U : list tc_query_tuple) (file : list Z) : Prop := {
  if_image : file = image h (runs 0 U) (map rank U);
  if_ok : file_ok OFF_MAX h (runs 0 U) (map rank U);
  if_sorted : StronglySorted tuple_lt U;
  if_length : Z.of_nat (length U) <= 4294967295;
  if_elem t : t ∈ U <-> t ∈ cat_tuples qsort cat;
  if_header : header_of_catalogue cat h }.

Section Build.
Context (OFF_MAX : Z) (qsort : list Z -> list Z) `{!QSort query_u32_cmp qsort} (cat : catalogue) `{!CatalogueOk cat}.
Abbreviation L := (cat_tuples qsort cat).
Abbreviation MAX := (FILE_MAX OFF_MAX).
(** Room for the file; and no more keys than a 32-bit count. *)
Definition room : Prop := 32 * Z.of_nat (length L) + 2048 <= MAX /\ Z.of_nat (length L) <= 4294967295.

(** The file assembled from the parts. *)
Lemma assemble U :
  room -> StronglySorted tuple_lt U -> (forall t, t ∈ U <-> t ∈ L) -> (length U <= length L)%nat ->
  let packed := concat (codes (map rank U)) in
  let offsets := offsets_bytes (map rank U) in
  let n := Z.of_nat (length (runs 0 U)) in
  let h := {| h_magic := TC_QUERY_MAGIC; h_version := TC_QUERY_VERSION; directory_count := n; h_reserved := 0;
       directory_offset := 80; postings_offset := 80 + 24 * n; postings_count := Z.of_nat (length U);
       h_file_size := 80 + 24 * n + Z.of_nat (length offsets) + Z.of_nat (length packed);
       h_generation := disk_gen cat; h_serial := master_serial cat; h_commitid := master_commitid cat;
       h_entry_count := ent_count cat; h_live_entries := live_count cat;
       h_group_count := (reader_group_n cat 0, reader_group_n cat 1, reader_group_n cat 2) |} in
  80 + 24 * n + Z.of_nat (length offsets) + Z.of_nat (length packed) <= MAX /\
  index_file OFF_MAX qsort cat h U (header_bytes h ++ closed_bytes (runs 0 U) ++ offsets ++ packed).
Proof using QSort0 CatalogueOk0.
  intros [Hroom Hkeys] Hs He Hlen packed offsets n h.
  pose proof (length_runs 0 U) as Hn. fold n in Hn.
  assert (Forall rank_ok (map rank U)) as Hranks.
  { apply List.Forall_forall. intros r Hr. apply in_map_iff in Hr as (t & <- & Ht). apply list_elem_of_In, He in Ht.
    by apply (cat_tuples_range qsort cat t) in Ht as (_ & _ & Ht). }
  pose proof (blocks_of_spec (Z.of_nat (length U)) ltac:(lia)) as Hb.
  assert (Z.of_nat (length packed) <= 640 * blocks_of (Z.of_nat (length U))) as Hp.
  { pose proof (length_concat_codes (map rank U) (codes (map rank U)) Hranks (fun b H => H)) as H.
    rewrite length_codes, length_map in H. fold packed in H. lia. }
  assert (Z.of_nat (length offsets) = 8 * (blocks_of (Z.of_nat (length U)) + 1)) as Ho.
  { subst offsets. unfold offsets_bytes. rewrite (length_concat_records (le_bytes 8) 8) by apply length_le_bytes. cbn [length].
    rewrite length_ends, length_codes, length_map. lia. }
  assert (80 + 24 * n + Z.of_nat (length offsets) + Z.of_nat (length packed) <= MAX) as Hmax by lia. split; [exact Hmax|].
  assert (Z.of_nat (length (image h (runs 0 U) (map rank U))) = 80 + 24 * n + Z.of_nat (length offsets) + Z.of_nat (length packed)) as Himg.
  { unfold image. fold packed offsets. rewrite !length_app, length_header, length_dirs. unfold HEADER_BYTES. lia. }
  unfold FILE_MAX, INT64_MAX in Hmax.
  split; [done| |done|lia|done|by unfold header_of_catalogue].
  split; cbn [h_version directory_count directory_offset postings_offset postings_count h_file_size]; try done.
  - unfold header_range. cbn [h h_magic h_version directory_count h_reserved directory_offset postings_offset postings_count
      h_file_size h_generation h_serial h_commitid h_entry_count h_live_entries h_group_count].
    destruct cat_counts as [Hl Hent]. destruct cat_ids as (Hg & Hser & Hc).
    pose proof (cat_groups_count 0 ltac:(lia)). pose proof (cat_groups_count 1 ltac:(lia)). pose proof (cat_groups_count 2 ltac:(lia)).
    unfold in_u32, in_u64, in_i32, INT_MAX, UINT64_MAX, INT32_MAX, TC_QUERY_MAGIC, TC_QUERY_VERSION in *. repeat split; try lia.
  - by rewrite length_map.
  - rewrite Himg. unfold FILE_MAX, INT64_MAX. lia.
  - destruct (runs_spec 0 U Hs) as (_ & Hentry & _). apply List.Forall_forall. intros d Hd. apply list_elem_of_In in Hd.
    destruct (Hentry d Hd) as (H1 & H2 & H3 & H4 & _).
    assert (posts U (d_category d) (d_key d) <> []) as Hne by (intros E; rewrite E in H4; cbn in H4; lia).
    destruct (posts U (d_category d) (d_key d)) as [|r rs] eqn:Er; [done|].
    assert (r ∈ posts U (d_category d) (d_key d)) as Hin by (rewrite Er; left). apply elem_of_posts, He in Hin.
    destruct (cat_tuples_range qsort cat _ Hin) as ((Hc & Hk & _) & _). split; [done|]. split; [done|].
    unfold in_u64, UINT64_MAX. split; lia.
Qed.

Context (want_large malloc_large malloc_small : bool).
Abbreviation build := (query_build OFF_MAX qsort want_large malloc_large malloc_small).
Definition sort_memory : Prop := malloc_small = true \/ (want_large = true /\ malloc_large = true).

(** The last part: the counts, the postings and the header. *)
Lemma finish_ran U closed b io :
  room -> sort_memory -> built (isort query_tuple_cmp L) U closed b ->
  ran io ('(b, io) ← close_entry OFF_MAX b io;
  if 4294967295 <? b_dirs b then None else
  '(directory, io) ← query_writer_flush OFF_MAX (b_directory b) io;
  '(postings, io) ← query_writer_flush OFF_MAX (b_postings b) io;
  io ← io_call io; io ← io_call io;
  '(packed, offsets, io) ← query_compress_postings OFF_MAX (w_file postings) (b_post b) io;
  io ← io_call io;
  let post_offset := u64 (80 + w_bytes directory) in
  let offsets_size := Z.of_nat (length (w_file offsets)) in
  if (UINT64_MAX - post_offset <? offsets_size) || (u64 (UINT64_MAX - post_offset - w_bytes packed) <? offsets_size) then None else
  let header :=
    {| h_magic := TC_QUERY_MAGIC; h_version := TC_QUERY_VERSION; directory_count := b_dirs b; h_reserved := 0;
       directory_offset := 80; postings_offset := post_offset; postings_count := b_post b;
       h_file_size := u64 (post_offset + offsets_size + w_bytes packed);
       h_generation := disk_gen cat; h_serial := master_serial cat; h_commitid := master_commitid cat;
       h_entry_count := ent_count cat; h_live_entries := live_count cat;
       h_group_count := (reader_group_n cat 0, reader_group_n cat 1, reader_group_n cat 2) |} in
  io ← (foldl (fun io _ => io ≫= io_call) (Some io) (seq 0 4));
  Some (header_bytes header ++ w_file directory ++ w_file offsets ++ w_file packed, io))
    (fun file => exists h U, index_file OFF_MAX qsort cat h U file).
Proof using QSort0 CatalogueOk0.
  intros Hroom Hmem Hb. pose proof Hroom as [Hr Hk].
  assert (forall t, t ∈ U <-> t ∈ L) as He.
  { intros t. rewrite (bt_elem _ _ _ _ Hb). apply list.elem_of_Permutation_proper, isort_perm. }
  pose proof (bt_length _ _ _ _ Hb) as Hlen. rewrite isort_length in Hlen.
  pose proof (length_runs 0 U) as Hn. pose proof (assemble U Hroom (bt_sorted _ _ _ _ Hb) He Hlen) as [Hmax Hfile].
  pose proof (bt_post _ _ _ _ Hb) as Hpost. pose proof (bt_postings _ _ _ _ Hb) as Hpb.
  eapply ran_bind; [apply (close_entry_ran OFF_MAX _ U closed b io Hb)|].
  { rewrite isort_length. lia. }
  intros b1 io1 (H1 & H2 & H3 & H4 & _). rewrite H3 in *. rewrite H2, H4, Hpost in *.
  rewrite (proj2 (Z.ltb_ge 4294967295 _)) by lia.
  eapply ran_bind; [apply (flush_ran OFF_MAX _ _ io1 H1); unfold closed_bytes; rewrite length_dirs; lia|].
  intros directory io2 (Hd1 & Hd2 & _).
  eapply ran_bind; [apply (flush_ran OFF_MAX _ _ io2 Hpb); rewrite length_rank_bytes; lia|].
  intros postings io3 (Hp1 & Hp2 & _).
  eapply call_bind_ran; [apply io_call_ran|]. intros io4. eapply call_bind_ran; [apply io_call_ran|]. intros io5.
  assert (Forall rank_ok (map rank U)) as Hranks.
  { pose proof (if_ok _ _ _ _ _ _ Hfile) as Hok. apply (ok_values _ _ _ _ Hok). }
  rewrite Hp1. unfold rank_bytes. rewrite <- (length_map rank U).
  eapply ran_bind; [apply (query_compress_ran OFF_MAX (map rank U) io5 Hranks); rewrite length_map; lia|].
  intros [packed offsets] io6 (Hq1 & Hq2 & Hq3). rewrite length_map.
  eapply call_bind_ran; [apply io_call_ran|]. intros io7. cbn zeta. rewrite Hd1, Hd2, Hq1, Hq2, Hq3.
  fold (offsets_bytes (map rank U)). unfold closed_bytes at 1 2 3 4. rewrite length_dirs.
  unfold FILE_MAX, INT64_MAX in Hmax.
  replace (Z.of_nat (24 * length (runs 0 U))) with (24 * Z.of_nat (length (runs 0 U))) by lia.
  unfold u64. rewrite !(Z.mod_small (80 + _)) by lia. unfold UINT64_MAX. rewrite (Z.mod_small (_ - _)) by lia.
  rewrite !(proj2 (Z.ltb_ge _ (Z.of_nat (length (offsets_bytes _))))) by lia. cbn [orb].
  eapply call_bind_ran; [apply calls_ran|]. intros io8. apply ran_ret. rewrite !Z.mod_small by lia. by eexists _, U.
Qed.

(** The tuples, gathered and written. *)
Lemma gather_ran io :
  room -> 0 <= ent_count cat ->
  ran io (io ← (foldl (fun io _ => io ≫= io_call) (Some io) (seq 0 4));
          '(tuples, io) ← slots_loop OFF_MAX qsort (Z.to_nat (ent_count cat)) cat new_writer 0 io;
          '(tuples, io) ← kinds_loop OFF_MAX qsort [0; 1; 2] cat tuples io;
          query_writer_flush OFF_MAX tuples io)
    (fun w => w_file w = concat (map tuple_bytes L) /\ w_bytes w = 12 * Z.of_nat (length L)).
Proof using QSort0 CatalogueOk0.
  intros [Hr Hk] Hent. unfold cat_tuples in Hr. set (l1 := flat_map (slot_tuples qsort cat) (seqZ 0 (ent_count cat))) in Hr.
  set (l2 := flat_map (kind_tuples qsort cat) [0; 1; 2]) in Hr.
  assert (L = l1 ++ l2) as EL by done.
  assert (fits OFF_MAX (l1 ++ l2)) as Hfit by (unfold fits; lia).
  eapply call_bind_ran; [apply calls_ran|]. intros io1.
  eapply ran_bind; [apply (slots_loop_ran OFF_MAX qsort cat (Z.to_nat (ent_count cat)) new_writer [] 0 io1); rewrite ?Z2Nat.id by lia; try lia|].
  - apply wrote_new.
  - cbn [app]. fold l1. by eapply fits_app_l.
  - rewrite Z2Nat.id by lia. cbn [app]. fold l1. intros w1 io2 H1.
    eapply ran_bind; [apply (kinds_loop_ran OFF_MAX qsort cat [0; 1; 2] w1 l1 io2)|].
    + intros kind Hkind. rewrite !list.elem_of_cons in Hkind. destruct Hkind as [->|[->|[->|H]]]; [lia|lia|lia|by apply not_elem_of_nil in H].
    + done.
    + exact Hfit.
    + intros w2 io3 H2. fold l2 in H2. rewrite EL.
      assert (length (concat (map tuple_bytes (l1 ++ l2))) = (12 * length (l1 ++ l2))%nat) as Hlen
        by apply (length_concat_records tuple_bytes 12), length_tuple.
      eapply ran_weaken; [apply (flush_ran OFF_MAX w2 _ io3 H2); unfold fits in Hfit; rewrite Hlen; lia|].
      intros w (Hw1 & Hw2 & _). split; [done|]. rewrite Hw2, Hlen. lia.
Qed.

(** The sort and the loop over its result. *)
Lemma sorted_ran io :
  room -> sort_memory ->
  outcome fst {| f_main := L; f_scratch := []; f_faults := io |}
    (fun p => exists U closed, built (isort query_tuple_cmp L) U closed p.2)
    (s ← tc_sort_fd query_tuple_cmp no_tuple 12 want_large malloc_large malloc_small false (Z.of_nat (length L))
           {| f_main := L; f_scratch := []; f_faults := io |};
     '(stream, s) ← tc_sort_reader_fill 12
        {| r_fd := true; r_buf := []; r_cap := 2730; r_pos := 0; r_have := 0; r_next := 0; r_end := length L |} s;
     tuples_loop OFF_MAX (length L) stream s
        {| b_previous := None; b_entry := {| d_category := 0; d_key := 0; d_start := 0; d_count := 0 |};
           b_directory := new_writer; b_postings := new_writer; b_post := 0; b_dirs := 0 |}).
Proof using QSort0 CatalogueOk0.
  intros [Hr Hk] Hmem. unfold FILE_MAX in Hr.
  assert (length (isort query_tuple_cmp L) = length L) as Hlen by apply isort_length.
  assert (Z.of_nat (length L) * 12 <= INT64_MAX) as Hfit by (unfold INT64_MAX in *; lia).
  set (s0 := {| f_main := L; f_scratch := []; f_faults := io |}).
  assert (Z.to_nat (Z.of_nat (length L)) <= length (f_main s0))%nat as Hn by (cbn [s0 f_main]; lia).
  pose proof (tc_sort_fd_outcome query_tuple_cmp no_tuple 12 (Z.of_nat (length L)) want_large malloc_large malloc_small s0
    ltac:(lia) ltac:(lia) Hfit Hn Hmem) as Hsort.
  cbn [s0 f_main] in Hsort. rewrite Nat2Z.id, take_ge in Hsort by lia.
  eapply outcome_bind; [exact Hsort|].
  intros s Hs. cbn beta in Hs.
  eapply outcome_bind; [apply (reader_fill_outcome 12 ltac:(lia) (length L) ltac:(lia) true); cbn [r_fd r_cap r_end get]; rewrite ?Hs, ?Hlen; lia || done|].
  intros [r s1] (Hrd & Hrem & [Hm _]). cbn [fst snd get r_next r_end] in *. rewrite Hs in *. rewrite <- Hlen.
  assert (rem (f_main s1) r = isort query_tuple_cmp L) as Hrem1 by (rewrite Hm, Hrem, slice_all by lia; apply drop_0).
  assert (Z.of_nat (length (f_main s1)) * 12 <= INT64_MAX) as H1 by by rewrite Hm, Hlen.
  assert (24 * Z.of_nat (length (f_main s1)) <= MAX) as H2 by (rewrite Hm, Hlen; unfold FILE_MAX; lia).
  assert (StronglySorted (cle query_tuple_cmp) (f_main s1)) as H3 by (rewrite Hm; apply (isort_spec query_tuple_cmp)).
  assert (reader_ok (length (f_main s1)) true (f_main s1) r) as H4 by by rewrite Hm, Hlen.
  match goal with |- context [tuples_loop _ _ _ _ ?b] => set (b0 := b) end.
  assert (built [] [] [] b0) as H5 by (split; try done; constructor).
  pose proof (tuples_loop_outcome OFF_MAX (isort query_tuple_cmp L) [] [] [] r s1 b0 H1 Hm H3 H2 H4 Hrem1 H5) as H.
  by rewrite Hm in H.
Qed.

(** Building gives a file that indexes the catalogue, or a call failed. *)
Lemma query_build_ran io :
  room -> sort_memory -> ran io (build cat io) (fun file => exists h U, index_file OFF_MAX qsort cat h U file).
Proof using QSort0 CatalogueOk0.
  intros Hroom Hmem. destruct cat_counts as [_ [Hent _]]. pose proof Hroom as [Hr Hk].
  pose proof (gather_ran io Hroom Hent) as Hg. unfold query_build.
  destruct (foldl _ (Some io) (seq 0 4)) as [io1|]; [|exact Hg]. cbn [mbind option_bind] in Hg |- *.
  destruct (slots_loop _ _ _ _ _ _ io1) as [[w1 io2]|]; [|exact Hg]. cbn [mbind option_bind] in Hg |- *.
  destruct (kinds_loop _ _ _ _ w1 io2) as [[w2 io3]|]; [|exact Hg]. cbn [mbind option_bind] in Hg |- *.
  eapply ran_bind; [exact Hg|]. clear Hg io2 io3 w1 w2 io1. intros w io1 [Hw1 Hw2]. rewrite Hw1, Hw2.
  replace (12 * Z.of_nat (length L) / 12) with (Z.of_nat (length L)) by (rewrite Z.mul_comm, Z.div_mul; lia).
  unfold FILE_MAX in Hr. rewrite (proj2 (Z.ltb_ge INT64_MAX _)) by lia. cbn zeta.
  rewrite Nat2Z.id, <- (app_nil_r (concat _)), (records_map tuple_bytes TUPLE_BYTES) by apply length_tuple.
  rewrite map_map, (map_ext_in _ id), map_id
    by (intros t Ht; apply tuple_of_bytes, (cat_tuples_range qsort cat), list_elem_of_In, Ht).
  pose proof (sorted_ran io1 Hroom Hmem) as Hs. set (s0 := {| f_main := L; f_scratch := []; f_faults := io1 |}) in *.
  change io1 with (f_faults s0) at 1.
  destruct (tc_sort_fd _ _ _ _ _ _ _ _ s0) as [s1|]; [|exact Hs]. cbn [mbind option_bind] in Hs |- *.
  destruct (tc_sort_reader_fill _ _ s1) as [[stream s2]|]; [|exact Hs]. cbn [mbind option_bind] in Hs |- *.
  eapply (ran_outcome fst); [exact Hs|]. intros [s3 b] (U & closed & Hb). by apply (finish_ran U closed).
Qed.
End Build.

(** ** Accepting the file *)
Lemma concat_chunks k todo values : concat (chunks k todo values) = take (k * todo) values.
Proof.
  revert values. induction todo as [|todo IH]; intros values; cbn [chunks concat]; [by rewrite Nat.mul_0_r, take_0|].
  by rewrite IH, Nat.mul_succ_r, Nat.add_comm, take_take_drop.
Qed.
Lemma concat_blocks values : concat (blocks values) = values.
Proof.
  unfold blocks. rewrite concat_chunks. apply take_ge. pose proof (blocks_of_spec (Z.of_nat (length values)) ltac:(lia)) as Hb.
  unfold BLOCK, TC_QUERY_BLOCK_VALUES. change (Z.to_nat 128) with 128%nat. lia.
Qed.
Lemma payload_range values :
  Forall rank_ok values -> Forall is24 values ->
  Z.of_nat (length values) + 3 * blocks_of (Z.of_nat (length values)) <= Z.of_nat (length (concat (codes values))) <=
  3 * Z.of_nat (length values) + blocks_of (Z.of_nat (length values)).
Proof.
  intros Hv H24. pose proof (blocks_of_spec (Z.of_nat (length values)) ltac:(lia)) as Hb.
  assert (blocks_of (Z.of_nat (length values)) = Z.of_nat (length (blocks values))) as ->.
  { unfold blocks. rewrite length_chunks. lia. }
  unfold codes.
  assert (forall l, (forall c, c ∈ l -> c ∈ blocks values) ->
    Z.of_nat (length (concat l)) + 3 * Z.of_nat (length l) <= Z.of_nat (length (concat (map (fun c => default [] (encode_block c)) l))) <=
    3 * Z.of_nat (length (concat l)) + Z.of_nat (length l)) as H;
    [|specialize (H (blocks values) (fun c Hc => Hc)); by rewrite concat_blocks in H].
  intros l. induction l as [|c l IH]; intros Hl; cbn [concat map length]; [lia|].
  destruct (blocks_elem values c Hv (Hl c ltac:(left))) as (b & -> & _ & Hlen & _ & Hlen24). change (default [] (Some b)) with b.
  specialize (Hlen24 H24). rewrite !length_app. specialize (IH (fun x Hx => Hl x (list_elem_of_further _ _ _ Hx))). lia.
Qed.

Section Accept.
Context (OFF_MAX : Z) (qsort : list Z -> list Z) `{!QSort query_u32_cmp qsort} (cat : catalogue) `{!CatalogueOk cat}.
Context (h : tc_query_header) (U : list tc_query_tuple) (file : list Z) (Hfile : index_file OFF_MAX qsort cat h U file).

Lemma ranks_24 : rank_bound cat <= 16777216 -> Forall is24 (map rank U).
Proof using QSort0 CatalogueOk0 Hfile.
  intros Hr. apply List.Forall_forall. intros r Hin. apply in_map_iff in Hin as (t & <- & Ht). apply list_elem_of_In in Ht.
  apply (if_elem _ _ _ _ _ _ Hfile), (cat_tuples_range qsort cat) in Ht as (_ & Ht & _). unfold is24. lia.
Qed.
Lemma offset_read (i : nat) :
  (i <= length (codes (map rank U)))%nat ->
  exists b, query_read OFF_MAX (image h (runs 0 U) (map rank U)) 8 (postings_offset h + Z.of_nat i * 8) = Some b /\
    le_value b = Z.of_nat (length (concat (take i (codes (map rank U))))).
Proof using Hfile.
  intros Hi. pose proof (query_v2_offset_ok _ _ _ _ (if_ok _ _ _ _ _ _ Hfile) i Hi) as H. unfold query_v2_offset in H.
  destruct (_ || _); [done|]. destruct (query_read _ _ _ _) as [b|]; [|done]. cbn in H. apply (inj Some) in H. by exists b.
Qed.
(** The reader accepts the file for this catalogue, while the ranks have 24 bits. *)
Lemma query_validate_ok : rank_bound cat <= 16777216 -> query_validate OFF_MAX cat file (Z.of_nat (length file)) = true.
Proof using QSort0 CatalogueOk0 Hfile.
  intros Hr. pose proof (ranks_24 Hr) as H24. destruct Hfile as [Himg Hok Hs HU He Hh]. rewrite Himg.
  destruct Hh as (Hm & Hg & Hser & Hc & Hent & Hlive & Hgr).
  pose proof (length_image _ _ _ _ Hok) as Hlen. pose proof (ok_fits _ _ _ _ Hok) as Hfit. unfold FILE_MAX in Hfit.
  pose proof (payload_range (map rank U) (ok_values _ _ _ _ Hok) H24) as Hpay.
  pose proof (length_runs 0 U) as Hruns. pose proof (length_codes (map rank U)) as Hcodes.
  unfold query_validate. rewrite (read_header_ok _ _ _ _ Hok).
  rewrite Hm, (ok_version _ _ _ _ Hok), Hg, Hser, Hc, Hent, Hlive, Hgr, (ok_dir_offset _ _ _ _ Hok), (ok_size _ _ _ _ Hok).
  rewrite !Z.eqb_refl, bool_decide_true by done. rewrite (ok_offset _ _ _ _ Hok), (ok_dirs _ _ _ _ Hok), (ok_count _ _ _ _ Hok) in *.
  rewrite length_map in *. pose proof (blocks_of_spec (Z.of_nat (length U)) ltac:(lia)) as Hb. set (nb := blocks_of (Z.of_nat (length U))) in *.
  unfold INT64_MAX in *. unfold u64. rewrite !(Z.mod_small (Z.of_nat (length (runs 0 U)) * 24)) by lia. rewrite Z.mod_small by lia.
  rewrite (proj2 (Z.eqb_eq (80 + 24 * _) _)) by lia.
  rewrite (proj2 (Z.ltb_ge 9223372036854775807 _)), (proj2 (Z.ltb_ge _ (80 + _))), (proj2 (Z.ltb_ge (Z.of_nat (length U)) _)) by lia.
  cbn [negb orb andb].
  change (TC_QUERY_VERSION =? TC_QUERY_VERSION_LEGACY) with false. cbn iota. cbn zeta. unfold UINT64_MAX.
  rewrite (proj2 (Z.eqb_neq nb _)) by lia.
  rewrite (proj2 (Z.ltb_ge _ (nb + 1))), (proj2 (Z.ltb_ge _ ((nb + 1) * 8))), (proj2 (Z.ltb_ge _ nb)), (proj2 (Z.ltb_ge _ (Z.of_nat (length U)))) by div_lia.
  cbn [orb]. rewrite (proj2 (Z.ltb_ge _ (Z.of_nat (length U)))) by div_lia.
  rewrite (proj2 (Z.ltb_ge _ (Z.of_nat (length U) + 3 * nb))), (proj2 (Z.ltb_ge _ (Z.of_nat (length (image _ _ _)) - _ - _))) by lia.
  cbn [orb].
  destruct (offset_read 0) as (first & Hfirst & Hv0); [lia|].
  destruct (offset_read (Z.to_nat nb)) as (last & Hlast & Hv1); [lia|].
  rewrite (ok_offset _ _ _ _ Hok) in Hfirst, Hlast. rewrite Z2Nat.id in Hlast by lia. rewrite Z.add_0_r in Hfirst. rewrite Hfirst, Hlast, Hv0, Hv1.
  rewrite (proj2 (Z.ltb_ge _ _)) by lia. rewrite (take_ge _ (Z.to_nat nb)) by lia. cbn [take concat length Z.of_nat Z.eqb andb].
  apply Z.eqb_eq. lia.
Qed.
End Accept.
