(* ===== verification/QueryRun.v ===== *)
(** Queries on the tag cache: choosing the postings to read, filtering, counting
    and skipping; src/library/tagcache_query.h. *)
From S2P Require Import Prelude ScanIntern TagSort Memory TagText QueryPostings QueryIndex.
Local Open Scope Z_scope.

(** A [const char *] that may be [NULL]. *)
Definition text := option (list Z).
Definition query_nonempty (s : text) : bool := match s with Some (_ :: _) => true | _ => false end.
Definition chars (s : text) : list Z := default [] s.

Definition TAGCACHE_QUERY_SONGS : Z := -1.
Definition TAGCACHE_QUERY_TITLES : Z := -2.

(** The open database: the catalogue and, when it was accepted, the index file
    ([reader_query_fd]). *)
Record database := { db_open : bool; db_cat : catalogue; reader_query : option (list Z) }.
Definition tagcache_live_count (db : database) : Z := if db_open db then live_count (db_cat db) else 0.
Definition tagcache_group_count (db : database) (kind : Z) : Z :=
  if db_open db && (0 <=? kind) && (kind <? 3) then reader_group_n (db_cat db) kind else 0.
Definition tagcache_song_fields_at_title_rank (db : database) (rank : Z) : option song :=
  if negb (db_open db) || (rank <? 0) || (live_count (db_cat db) <=? rank) then None else
  slot ← title_slot (db_cat db) rank; reader_song_fields (db_cat db) slot.

Record tagcache_query_t := {
  q_needle : text; q_artist : text; q_album_artist : text; q_album : text;
  q_start : Z; q_count : Z; q_position : Z; q_domain : Z; q_indexed : bool; q_exact : bool }.
Definition with_source (q : tagcache_query_t) (start count : Z) : tagcache_query_t :=
  {| q_needle := q_needle q; q_artist := q_artist q; q_album_artist := q_album_artist q; q_album := q_album q;
     q_start := start; q_count := count; q_position := q_position q; q_domain := q_domain q; q_indexed := true; q_exact := q_exact q |}.
Definition with_exact (q : tagcache_query_t) (exact : bool) : tagcache_query_t :=
  {| q_needle := q_needle q; q_artist := q_artist q; q_album_artist := q_album_artist q; q_album := q_album q;
     q_start := q_start q; q_count := q_count q; q_position := q_position q; q_domain := q_domain q;
     q_indexed := q_indexed q; q_exact := exact |}.
Definition at_position (q : tagcache_query_t) (position : Z) : tagcache_query_t :=
  {| q_needle := q_needle q; q_artist := q_artist q; q_album_artist := q_album_artist q; q_album := q_album q;
     q_start := q_start q; q_count := q_count q; q_position := position; q_domain := q_domain q;
     q_indexed := q_indexed q; q_exact := q_exact q |}.

Section Run.
Context (OFF_MAX : Z) (db : database).
Abbreviation cat := (db_cat db).

Definition query_album_name_group (nm : list Z) : Z :=
  match album_bound_loop 33 cat nm 0 (tagcache_group_count db TAGCACHE_GROUP_ALBUM) with
  | None => -1
  | Some lo =>
      match reader_group_at cat TAGCACHE_GROUP_ALBUM lo with
      | Some g => if ascii_casecmp (name g) nm =? 0 then lo else -1
      | None => -1
      end
  end.

(** The smaller of the source so far and [(start, count)]. *)
Definition choose_source (q : tagcache_query_t) (start count : Z) : tagcache_query_t :=
  if negb (q_indexed q) || (count <? q_count q) then with_source q start count else q.
Definition query_choose (file : list Z) (q : tagcache_query_t) (category key : Z) : tagcache_query_t :=
  let '(start, count) := if 0 <=? key then default (0, 0) (query_lookup OFF_MAX file category (u32 key)) else (0, 0) in
  choose_source q start count.

Definition tagcache_query_begin (domain : Z) (needle artist album_artist album : text) : tagcache_query_t :=
  let filters := (if query_nonempty artist then 1 else 0) + (if query_nonempty album_artist then 1 else 0) +
                 (if query_nonempty album then 1 else 0) in
  let q := {| q_needle := needle; q_artist := artist; q_album_artist := album_artist; q_album := album;
              q_start := 0; q_count := if domain <? 0 then tagcache_live_count db else tagcache_group_count db domain;
              q_position := 0; q_domain := domain; q_indexed := false;
              q_exact := negb (query_nonempty needle) && (filters =? 0) |} in
  match (if db_open db then reader_query db else None) with
  | None => q
  | Some file =>
      let q := if domain <? 0 then
          let q := if query_nonempty artist
                   then query_choose file q TC_QUERY_ARTIST (reader_group_index cat TAGCACHE_GROUP_ARTIST (chars artist) []) else q in
          let q := if query_nonempty album_artist
                   then query_choose file q TC_QUERY_ALBUM_ARTIST
                          (reader_group_index cat TAGCACHE_GROUP_ALBUM_ARTIST (chars album_artist) []) else q in
          let q := if query_nonempty album
                   then query_choose file q TC_QUERY_ALBUM_NAME (query_album_name_group (chars album)) else q in
          with_exact q (negb (query_nonempty needle) && (filters <=? 1))
        else q in
      if query_nonempty needle then
        let q := with_exact q ((Z.of_nat (length (chars needle)) <=? 3) &&
                               ((0 <=? domain) || ((domain =? TAGCACHE_QUERY_SONGS) && (filters =? 0)))) in
        let category := if domain <? 0 then TC_QUERY_SONG_GRAM else u32 (TC_QUERY_GROUP0_GRAM + domain) in
        let '(start, count) := default (0, 0) (query_needle OFF_MAX file category (chars needle)) in
        choose_source q start count
      else q
  end.

(** What is asked of a candidate that the source alone does not settle. *)
Definition casestr (hay : list Z) (needle : text) : bool := bool_decide (is_Some (ascii_casestr hay (chars needle))).
Definition song_accepted (q : tagcache_query_t) (s : song) : bool :=
  negb (query_nonempty (q_needle q) && negb (casestr (title s) (q_needle q)) &&
        ((q_domain q =? TAGCACHE_QUERY_TITLES) || negb (casestr (artist s) (q_needle q)))) &&
  negb (query_nonempty (q_artist q) && negb (tagcache_artist_matches (artist s) (chars (q_artist q)))) &&
  negb (query_nonempty (q_album_artist q) && negb (ascii_casecmp (album_artist s) (chars (q_album_artist q)) =? 0)) &&
  negb (query_nonempty (q_album q) && negb (ascii_casecmp (album s) (chars (q_album q)) =? 0)).
Definition accepted (q : tagcache_query_t) (candidate : Z) : bool :=
  if 0 <=? q_domain q then
    match reader_group_at cat (q_domain q) candidate with
    | None => false
    | Some g => negb (query_nonempty (q_needle q) && negb (casestr (name g) (q_needle q)))
    end
  else
    match tagcache_song_fields_at_title_rank db candidate with
    | None => false
    | Some s => song_accepted q s
    end.

(** The candidate at the position. *)
Definition candidate_at (c : query_cache) (q : tagcache_query_t) : option Z * query_cache :=
  if q_indexed q then
    match reader_query db with
    | Some file => query_posting OFF_MAX file c (q_start q) (q_position q)
    | None => (None, c)
    end
  else (Some (i32 (u32 (q_position q))), c).
Fixpoint next_loop (fuel : nat) (c : query_cache) (q : tagcache_query_t) : option Z * tagcache_query_t * query_cache :=
  match fuel with
  | O => (None, q, c)
  | S fuel =>
      if q_count q <=? q_position q then (None, q, c) else
      match candidate_at c q with
      | (None, c) => (None, q, c)
      | (Some candidate, c) =>
          let q := at_position q (u64 (q_position q + 1)) in
          if q_exact q || accepted q candidate then (Some candidate, q, c) else next_loop fuel c q
      end
  end.
(** Each round moves the position on. *)
Definition tagcache_query_next (c : query_cache) (q : tagcache_query_t) : option Z * tagcache_query_t * query_cache :=
  if negb (db_open db) then (None, q, c) else next_loop (Z.to_nat (q_count q - q_position q)) c q.

Fixpoint count_loop (fuel : nat) (c : query_cache) (q : tagcache_query_t) (n : Z) : Z * tagcache_query_t * query_cache :=
  match tagcache_query_next c q with
  | (None, q, c) => (n, q, c)
  | (Some _, q, c) =>
      match fuel with O => (n, q, c) | S fuel => count_loop fuel c q (n + 1) end
  end.
Definition tagcache_query_count (c : query_cache) (q : tagcache_query_t) : Z * tagcache_query_t * query_cache :=
  if q_exact q then (i32 (u32 (u64 (q_count q - q_position q))), q, c)
  else count_loop (Z.to_nat (q_count q - q_position q)) c q 0.

(** At most [n] results; a result moves the position on, so [n] rounds are the
    loop's. *)
Fixpoint skip_loop (n : nat) (c : query_cache) (q : tagcache_query_t) : tagcache_query_t * query_cache :=
  match n with
  | O => (q, c)
  | S n =>
      match tagcache_query_next c q with
      | (None, q, c) => (q, c)
      | (Some _, q, c) => skip_loop n c q
      end
  end.
Definition tagcache_query_skip (c : query_cache) (q : tagcache_query_t) (count : Z) : tagcache_query_t * query_cache :=
  if count <=? 0 then (q, c) else
  if q_exact q then
    let remaining := u64 (q_count q - q_position q) in
    (at_position q (u64 (q_position q + (if count <? remaining then count else remaining))), c)
  else skip_loop (Z.to_nat count) c q.

(** [query_group_albums]; the result and where the postings are. *)
Definition query_group_albums (file : list Z) (kind : Z) (nm : list Z) : option (Z * Z) :=
  let group := reader_group_index cat kind nm [] in
  if group <? 0 then None else
  query_lookup OFF_MAX file (if kind =? TAGCACHE_GROUP_ARTIST then TC_QUERY_ARTIST_ALBUMS else TC_QUERY_ALBUM_ARTIST_ALBUMS) (u32 group).
End Run.
