(* ===== verification/QueryKeys.v ===== *)
(** What the keys of the query index mean: the ranks filed under a key are those of
    the songs, or groups, that a scan of the catalogue would accept. *)
From stdpp Require Import sorting.
From S2P Require Import Prelude Endian ScanIntern StableSort TagSort Memory TagText QueryPostings QueryPostingsProofs QueryIndex QueryFile QueryBuild QueryCatalogue QueryEmit QueryBuilt QueryRun.
Local Open Scope Z_scope.

Lemma album_key_loop cat n :
  0 <= query_build_album_key cat n ->
  album_bound_loop 33 cat n 0 (reader_group_n cat TAGCACHE_GROUP_ALBUM) = Some (query_build_album_key cat n).
Proof.
  unfold query_build_album_key. destruct (album_bound_loop 33 cat n 0 _) as [lo|]; [done|]. cbn. lia.
Qed.

Section Keys.
Context (OFF_MAX : Z) (qsort : list Z -> list Z) `{!QSort query_u32_cmp qsort} (cat : catalogue) `{!CatalogueOk cat}.
Abbreviation L := (cat_tuples qsort cat).

#[local] Opaque reader_group_index query_build_album_key all_grams split_artist.

(** The song at a title rank. *)
Definition song_at (r : Z) (s : song) : Prop :=
  0 <= r < live_count cat /\ exists slot, title_slot cat r = Some slot /\ reader_song_fields cat slot = Some s.
Lemma song_at_slot r s : song_at r s <-> exists slot, live_song cat slot s /\ reader_rank_of cat slot = r.
Proof using CatalogueOk0.
  split.
  - intros (Hr & slot & Ht & Hs). destruct (cat_title r Hr) as (slot' & s' & Ht' & Hlive & Hrank).
    assert (slot' = slot) as -> by congruence. pose proof Hlive as (_ & _ & Hs'). assert (s' = s) as -> by congruence.
    by exists slot.
  - intros (slot & Hlive & <-). destruct (cat_rank slot s Hlive) as [Hr Ht]. split; [done|]. exists slot. split; [done|]. apply Hlive.
Qed.
Lemma song_at_exists r : 0 <= r < live_count cat -> exists s, song_at r s.
Proof using CatalogueOk0.
  intros Hr. destruct (cat_title r Hr) as (slot & s & _ & Hlive & Hrank). exists s. apply song_at_slot. by exists slot.
Qed.
Lemma song_at_ok r s : song_at r s -> song_ok s.
Proof using CatalogueOk0. intros H. apply song_at_slot in H as (slot & Hl & _). by apply (live_song_ok cat slot). Qed.

(** ** What is in the list of tuples, key by key *)
Lemma song_rank_u32 slot s : live_song cat slot s -> u32 (reader_rank_of cat slot) = reader_rank_of cat slot /\ 0 <= reader_rank_of cat slot.
Proof using CatalogueOk0.
  intros Hs. destruct (cat_rank slot s Hs) as [Hr _]. destruct cat_counts as [Hl _]. unfold INT32_MAX in Hl.
  rewrite u32_id by (unfold in_u32; lia). lia.
Qed.
Lemma group_u32 kind i : 0 <= kind <= 2 -> 0 <= i <= reader_group_n cat kind -> u32 i = i.
Proof using CatalogueOk0.
  intros Hk Hi. pose proof (cat_groups_count kind Hk) as Hc. unfold INT32_MAX in Hc. apply u32_id. unfold in_u32. lia.
Qed.

(** What the tuples of a song say of it, category by category. *)
Definition song_key (c k : Z) (s : song) : Prop :=
  (c = TC_QUERY_ALBUM_ARTIST /\ k = u32 (reader_group_index cat TAGCACHE_GROUP_ALBUM_ARTIST (album_artist s) [])) \/
  (c = TC_QUERY_ALBUM_NAME /\ k = u32 (query_build_album_key cat (album s))) \/
  (c = TC_QUERY_SONG_GRAM /\ exists g, (g ∈ all_grams (title s) \/ g ∈ all_grams (artist s)) /\ k = u32 g) \/
  (c = TC_QUERY_ARTIST /\ exists nm, nm ∈ split_artist (artist s) /\ k = u32 (reader_group_index cat TAGCACHE_GROUP_ARTIST nm [])).
Definition song_category (c : Z) : Prop :=
  c = TC_QUERY_ALBUM_ARTIST \/ c = TC_QUERY_ALBUM_NAME \/ c = TC_QUERY_SONG_GRAM \/ c = TC_QUERY_ARTIST.

Lemma song_tuple_key slot s c k r :
  live_song cat slot s -> song_category c ->
  {| category := c; key := k; rank := r |} ∈ song_tuples qsort cat slot s <-> reader_rank_of cat slot = r /\ song_key c k s.
Proof using QSort0 CatalogueOk0.
  intros Hs Hc. destruct (song_rank_u32 slot s Hs) as [Hr _]. rewrite elem_of_song_tuples by done. cbn zeta. unfold tup. rewrite Hr.
  unfold song_key, song_category, TC_QUERY_ALBUM_ARTIST, TC_QUERY_ALBUM_NAME, TC_QUERY_SONG_GRAM, TC_QUERY_ARTIST,
    TC_QUERY_ALBUM_ARTIST_ALBUMS, TC_QUERY_ARTIST_ALBUMS in *. split.
  - intros [[= -> -> ->]|[[= -> -> ->]|[[= -> _ _]|[(g & Hg & [= -> -> ->])|(nm & Hnm & [[= -> -> ->]|[= -> _ _]])]]]].
    + split; [done|]. by left.
    + split; [done|]. right; by left.
    + lia.
    + split; [done|]. right; right; left. split; [done|]. by exists g.
    + split; [done|]. right; right; right. split; [done|]. by exists nm.
    + lia.
  - intros [<- [[-> ->]|[[-> ->]|[(-> & g & Hg & ->)|(-> & nm & Hnm & ->)]]]].
    + by left.
    + right; by left.
    + right; right; right; left. by exists g.
    + right; right; right; right. exists nm. split; [done|]. by left.
Qed.
Lemma elem_song_key c k r :
  song_category c -> {| category := c; key := k; rank := r |} ∈ L <-> exists s, song_at r s /\ song_key c k s.
Proof using QSort0 CatalogueOk0.
  intros Hc. rewrite elem_of_cat_tuples by done. split.
  - intros [(slot & s & Hs & Ht)|(kind & i & g & Hk & Hg & Ht)].
    + apply song_tuple_key in Ht as [Hr Ht]; [|done|done]. exists s. split; [|done]. apply song_at_slot. by exists slot.
    + apply elem_of_gram_tuples in Ht as (k' & _ & E); [|done]. unfold tup in E. injection E as E _ _.
      unfold song_category, TC_QUERY_ALBUM_ARTIST, TC_QUERY_ALBUM_NAME, TC_QUERY_SONG_GRAM, TC_QUERY_ARTIST, TC_QUERY_GROUP0_GRAM in *. lia.
  - intros (s & Hs & Hk). left. apply song_at_slot in Hs as (slot & Hl & Hr). exists slot, s. split; [done|]. by apply song_tuple_key.
Qed.
Lemma elem_group_key kind k i :
  0 <= kind <= 2 ->
  {| category := TC_QUERY_GROUP0_GRAM + kind; key := k; rank := i |} ∈ L <->
  exists g gram, reader_group_at cat kind i = Some g /\ gram ∈ all_grams (name g) /\ k = u32 gram.
Proof using QSort0 CatalogueOk0.
  intros Hk. rewrite elem_of_cat_tuples by done. split.
  - intros [(slot & s & Hs & Ht)|(kind' & i' & g & Hk' & Hg & Ht)].
    + apply elem_of_song_tuples in Ht; [|done]. cbn zeta in Ht. unfold tup in Ht.
      unfold TC_QUERY_ALBUM_ARTIST, TC_QUERY_ALBUM_NAME, TC_QUERY_SONG_GRAM, TC_QUERY_ARTIST,
        TC_QUERY_ALBUM_ARTIST_ALBUMS, TC_QUERY_ARTIST_ALBUMS, TC_QUERY_GROUP0_GRAM in *.
      destruct Ht as [[= ? _ _]|[[= ? _ _]|[[= ? _ _]|[(g & _ & [= ? _ _])|(nm & _ & [[= ? _ _]|[= ? _ _]])]]]]; lia.
    + apply elem_of_gram_tuples in Ht as (gram & Hgram & E); [|done]. unfold tup in E. injection E as E1 E2 E3.
      assert (kind' = kind) as -> by lia. pose proof (cat_group_range kind i' g Hg) as Hr. rewrite (group_u32 kind i') in E3 by lia.
      subst i'. by exists g, gram.
  - intros (g & gram & Hg & Hgram & ->). right. exists kind, i, g. split; [done|]. split; [done|].
    apply elem_of_gram_tuples; [done|]. exists gram. split; [done|]. unfold tup.
    pose proof (cat_group_range kind i g Hg) as Hr. by rewrite (group_u32 kind i) by lia.
Qed.

(** ** Artists *)
Lemma group_index_neg kind n : reader_group_index cat kind n [] < 0 \/ 0 <= reader_group_index cat kind n [].
Proof. lia. Qed.
Lemma group_same kind i g n n' :
  0 <= kind <= 2 -> kind <> TAGCACHE_GROUP_ALBUM -> Forall is_char n -> Forall is_char n' ->
  reader_group_at cat kind i = Some g -> group_cmp kind g n [] = 0 -> (fold_str n = fold_str n' <-> group_cmp kind g n' [] = 0).
Proof using CatalogueOk0.
  intros Hk Hka Hn Hn' Hg Hc. destruct (group_at_ok cat kind i g Hk Hg) as [[Hgc _] _].
  apply group_cmp_zero in Hc as [Hc _]. apply ascii_casecmp_eq in Hc; [|done|done]. split.
  - intros E. apply group_cmp_zero. split; [|done]. apply ascii_casecmp_eq; [done|done|congruence].
  - intros H. apply group_cmp_zero in H as [H _]. apply ascii_casecmp_eq in H; [|done|done]. congruence.
Qed.
(** Two names that have groups have the same one exactly when they are equal up to case. *)
Lemma same_index kind n n' :
  0 <= kind <= 2 -> kind <> TAGCACHE_GROUP_ALBUM -> Forall is_char n -> Forall is_char n' ->
  0 <= reader_group_index cat kind n [] ->
  (fold_str n = fold_str n' <-> reader_group_index cat kind n' [] = reader_group_index cat kind n []).
Proof using CatalogueOk0.
  intros Hk Hka Hn Hn' H. destruct (reader_group_index_spec cat kind n [] Hk Hn ltac:(constructor)) as [_ Hf].
  destruct (reader_group_index_spec cat kind n' [] Hk Hn' ltac:(constructor)) as [Hu' Hf'].
  destruct (Hf H) as (g & Hg & Hc). pose proof (group_same kind _ g n n' Hk Hka Hn Hn' Hg Hc) as Hs. split.
  - intros E. apply Hs in E. by apply (Hu' _ g).
  - intros E. rewrite E in Hf'. destruct (Hf' H) as (g' & Hg' & Hc'). assert (g' = g) as -> by congruence. by apply Hs.
Qed.
Lemma index_u32 kind n n' :
  0 <= kind <= 2 -> 0 <= reader_group_index cat kind n [] -> 0 <= reader_group_index cat kind n' [] ->
  Forall is_char n -> Forall is_char n' ->
  u32 (reader_group_index cat kind n []) = u32 (reader_group_index cat kind n' []) <->
  reader_group_index cat kind n [] = reader_group_index cat kind n' [].
Proof using CatalogueOk0.
  intros Hk H H' Hn Hn'. pose proof (index_range cat kind n [] Hk H Hn ltac:(constructor)).
  pose proof (index_range cat kind n' [] Hk H' Hn' ltac:(constructor)). by rewrite !(group_u32 kind) by lia.
Qed.

(** A key, possibly none, settles a test on songs: the ranks filed under it are
    those of the songs that pass. *)
Definition settles (c key : Z) (passes : song -> bool) : Prop :=
  (0 <= key -> forall r, {| category := c; key := u32 key; rank := r |} ∈ L <-> exists s, song_at r s /\ passes s = true) /\
  (key < 0 -> forall r s, song_at r s -> passes s = false).

Lemma artist_settles nm :
  Forall is_char nm ->
  settles TC_QUERY_ARTIST (reader_group_index cat TAGCACHE_GROUP_ARTIST nm []) (fun s => tagcache_artist_matches (artist s) nm).
Proof using QSort0 CatalogueOk0.
  intros Hn. assert (0 <= TAGCACHE_GROUP_ARTIST <= 2 /\ TAGCACHE_GROUP_ARTIST <> TAGCACHE_GROUP_ALBUM) as [Hk Hka]
    by (unfold TAGCACHE_GROUP_ARTIST, TAGCACHE_GROUP_ALBUM; lia).
  assert (forall r s m, song_at r s -> m ∈ split_artist (artist s) -> Forall is_char (artist s) /\ Forall is_char m /\
    0 <= reader_group_index cat TAGCACHE_GROUP_ARTIST m []) as Hm.
  { intros r s m Hs Hm. destruct (song_at_ok r s Hs) as (_ & [Ha _] & _). split; [done|].
    destruct (split_artist_ok (artist s) Ha) as (_ & _ & Hf). rewrite List.Forall_forall in Hf. split; [by apply Hf, list_elem_of_In|].
    apply song_at_slot in Hs as (slot & Hl & _). by apply (artist_index cat slot s). }
  assert (forall r s, song_at r s -> tagcache_artist_matches (artist s) nm = true <->
    exists m, m ∈ split_artist (artist s) /\ fold_str m = fold_str nm) as Hmatch.
  { intros r s Hs. destruct (song_at_ok r s Hs) as (_ & [Ha _] & _). rewrite tagcache_artist_matches_in by done.
    rewrite list_elem_of_In, in_map_iff. split; intros (m & H1 & H2); exists m; split; try done; by apply list_elem_of_In. }
  split.
  - intros Hpos r. rewrite elem_song_key by (by right; right; right). split; intros (s & Hs & H); exists s; (split; [done|]).
    + apply (Hmatch r s Hs). unfold song_key, TC_QUERY_ALBUM_ARTIST, TC_QUERY_ALBUM_NAME, TC_QUERY_SONG_GRAM, TC_QUERY_ARTIST in H.
      destruct H as [[? _]|[[? _]|[[? _]|(_ & m & Hin & E)]]]; [lia..|]. destruct (Hm r s m Hs Hin) as (Ha & Hmc & Hmi).
      exists m. split; [done|]. apply (proj1 (index_u32 _ _ _ Hk Hpos Hmi Hn Hmc)) in E. symmetry.
      exact (proj2 (same_index _ nm m Hk Hka Hn Hmc Hpos) (eq_sym E)).
    + apply (Hmatch r s Hs) in H as (m & Hin & E). destruct (Hm r s m Hs Hin) as (Ha & Hmc & Hmi).
      right; right; right. split; [done|]. exists m. split; [done|]. exact (f_equal u32 (proj1 (same_index _ m nm Hk Hka Hmc Hn Hmi) E)).
  - intros Hneg r s Hs. apply not_true_iff_false. rewrite (Hmatch r s Hs). intros (m & Hin & E).
    destruct (Hm r s m Hs Hin) as (_ & Hmc & Hmi). apply (proj1 (same_index _ m nm Hk Hka Hmc Hn Hmi)) in E. lia.
Qed.

Lemma album_artist_settles nm :
  Forall is_char nm ->
  settles TC_QUERY_ALBUM_ARTIST (reader_group_index cat TAGCACHE_GROUP_ALBUM_ARTIST nm []) (fun s => ascii_casecmp (album_artist s) nm =? 0).
Proof using QSort0 CatalogueOk0.
  intros Hn. assert (0 <= TAGCACHE_GROUP_ALBUM_ARTIST <= 2 /\ TAGCACHE_GROUP_ALBUM_ARTIST <> TAGCACHE_GROUP_ALBUM) as [Hk Hka]
    by (unfold TAGCACHE_GROUP_ALBUM_ARTIST, TAGCACHE_GROUP_ALBUM; lia).
  assert (forall r s, song_at r s -> Forall is_char (album_artist s) /\ 0 <= reader_group_index cat TAGCACHE_GROUP_ALBUM_ARTIST (album_artist s) []) as Hm.
  { intros r s Hs. split; [by apply (song_at_ok r s Hs)|]. apply song_at_slot in Hs as (slot & Hl & _). by apply (album_artist_index cat slot s). }
  assert (forall r s, song_at r s -> (ascii_casecmp (album_artist s) nm =? 0) = true <-> fold_str (album_artist s) = fold_str nm) as Hmatch.
  { intros r s Hs. destruct (Hm r s Hs) as [Ha _]. rewrite Z.eqb_eq. by apply ascii_casecmp_eq. }
  split.
  - intros Hpos r. rewrite elem_song_key by (by left). split; intros (s & Hs & H); exists s; (split; [done|]);
      destruct (Hm r s Hs) as [Ha Hi].
    + apply (Hmatch r s Hs). unfold song_key, TC_QUERY_ALBUM_ARTIST, TC_QUERY_ALBUM_NAME, TC_QUERY_SONG_GRAM, TC_QUERY_ARTIST in H.
      destruct H as [[_ E]|[[? _]|[[? _]|[? _]]]]; [|lia..]. apply (proj1 (index_u32 _ _ _ Hk Hpos Hi Hn Ha)) in E. symmetry.
      exact (proj2 (same_index _ _ _ Hk Hka Hn Ha Hpos) (eq_sym E)).
    + apply (Hmatch r s Hs) in H. left. split; [done|]. exact (f_equal u32 (proj1 (same_index _ _ nm Hk Hka Ha Hn Hi) H)).
  - intros Hneg r s Hs. apply not_true_iff_false. rewrite (Hmatch r s Hs). intros E. destruct (Hm r s Hs) as [Ha Hi].
    apply (proj1 (same_index _ _ nm Hk Hka Ha Hn Hi)) in E. lia.
Qed.

(** ** Albums *)
Abbreviation album_key := (query_build_album_key cat).
Abbreviation albums := (reader_group_n cat TAGCACHE_GROUP_ALBUM).
Lemma casecmp_same a n n' : fold_str n = fold_str n' -> ascii_casecmp a n = ascii_casecmp a n'.
Proof. intros E. by rewrite <- (ascii_casecmp_fold a n), <- (ascii_casecmp_fold a n'), E. Qed.
Lemma album_key_le n n' : Forall is_char n -> Forall is_char n' -> fold_str n = fold_str n' -> album_key n <= album_key n'.
Proof using CatalogueOk0.
  intros Hn Hn' E. destruct (album_key_ok cat n Hn) as (Hr & Hb & Ha), (album_key_ok cat n' Hn') as (Hr' & Hb' & Ha').
  destruct (Z.le_gt_cases (album_key n) (album_key n')) as [|Hgt]; [done|].
  assert (0 <= TAGCACHE_GROUP_ALBUM <= 2) as Hk by (unfold TAGCACHE_GROUP_ALBUM; lia).
  destruct (group_at_in cat _ (album_key n') Hk) as (g & Hg & _); [lia|lia|].
  specialize (Ha' _ g (Z.le_refl _) Hg). specialize (Hb _ g Hgt Hg). rewrite (casecmp_same (name g) n n' E) in Hb. lia.
Qed.
Lemma album_key_eq n n' : Forall is_char n -> Forall is_char n' -> fold_str n = fold_str n' -> album_key n = album_key n'.
Proof using CatalogueOk0.
  intros Hn Hn' E. pose proof (album_key_le n n' Hn Hn' E). pose proof (album_key_le n' n Hn' Hn (eq_sym E)). lia.
Qed.
(** The first group of a name that has one is of that name. *)
Lemma album_key_found n i g :
  Forall is_char n -> reader_group_at cat TAGCACHE_GROUP_ALBUM i = Some g -> fold_str (name g) = fold_str n ->
  exists g', reader_group_at cat TAGCACHE_GROUP_ALBUM (album_key n) = Some g' /\ Forall is_char (name g') /\ fold_str (name g') = fold_str n.
Proof using CatalogueOk0.
  intros Hn Hi E. destruct (album_key_ok cat n Hn) as (Hr & Hb & Ha).
  assert (0 <= TAGCACHE_GROUP_ALBUM <= 2) as Hk by (unfold TAGCACHE_GROUP_ALBUM; lia).
  pose proof (cat_group_range _ i g Hi) as Hir. pose proof (group_at_ok cat _ i g Hk Hi) as [[Hgc _] _].
  assert (ascii_casecmp (name g) n = 0) as E0 by by apply ascii_casecmp_eq.
  assert (album_key n <= i) as Hle. { destruct (Z.le_gt_cases (album_key n) i) as [|Hgt]; [done|]. specialize (Hb i g Hgt Hi). lia. }
  destruct (group_at_in cat _ (album_key n) Hk) as (g' & Hg' & [[Hgc' _] _]); [lia|lia|]. exists g'. split; [done|]. split; [done|].
  apply ascii_casecmp_eq; [done|done|]. specialize (Ha _ g' (Z.le_refl _) Hg').
  destruct (Z.eq_dec (album_key n) i) as [Ei|Hne]; [rewrite Ei in Hg'; assert (g' = g) as -> by congruence; done|].
  assert (album_key n < i) as Hlt by lia. pose proof (cat_sorted _ _ _ g' g Hk Hlt Hg' Hi) as Hs. apply group_cmp_neg in Hs.
  rewrite (casecmp_same (name g') (name g) n E) in Hs. lia.
Qed.

Lemma album_settles db nm :
  db_open db = true -> db_cat db = cat -> Forall is_char nm ->
  settles TC_QUERY_ALBUM_NAME (query_album_name_group db nm) (fun s => ascii_casecmp (album s) nm =? 0).
Proof using QSort0 CatalogueOk0.
  intros Hopen Hcat Hn. assert (0 <= TAGCACHE_GROUP_ALBUM <= 2) as Hk by (unfold TAGCACHE_GROUP_ALBUM; lia).
  assert (forall r s, song_at r s -> Forall is_char (album s) /\ exists i g,
    reader_group_at cat TAGCACHE_GROUP_ALBUM i = Some g /\ fold_str (name g) = fold_str (album s)) as Hm.
  { intros r s Hs. destruct (song_at_ok r s Hs) as (_ & _ & Hc & _). split; [done|]. apply song_at_slot in Hs as (slot & Hl & _).
    destruct (cat_album slot s Hl) as (i & g & Hi & E & _). exists i, g. split; [done|].
    apply ascii_casecmp_eq; [by apply (group_at_ok cat _ i g Hk Hi)|done|done]. }
  assert (forall r s, song_at r s -> (ascii_casecmp (album s) nm =? 0) = true <-> fold_str (album s) = fold_str nm) as Hmatch.
  { intros r s Hs. destruct (Hm r s Hs) as [Ha _]. rewrite Z.eqb_eq. by apply ascii_casecmp_eq. }
  destruct (album_key_ok cat nm Hn) as (Hr & Hb & Ha).
  assert (query_album_name_group db nm = match reader_group_at cat TAGCACHE_GROUP_ALBUM (album_key nm) with
    | Some g => if ascii_casecmp (name g) nm =? 0 then album_key nm else -1 | None => -1 end) as ->.
  { unfold query_album_name_group, tagcache_group_count. rewrite Hopen, Hcat.
    change (true && (0 <=? TAGCACHE_GROUP_ALBUM) && (TAGCACHE_GROUP_ALBUM <? 3)) with true. cbn iota.
    rewrite album_key_loop by lia. done. }
  assert (forall r s, song_at r s -> fold_str (album s) = fold_str nm -> exists g,
    reader_group_at cat TAGCACHE_GROUP_ALBUM (album_key nm) = Some g /\ ascii_casecmp (name g) nm = 0) as Hfound.
  { intros r s Hs E. destruct (Hm r s Hs) as (Hc & i & g & Hi & Eg). destruct (album_key_found nm i g Hn Hi) as (g' & Hg' & Hgc & Eg').
    - congruence.
    - exists g'. split; [done|]. by apply ascii_casecmp_eq. }
  split.
  - intros Hpos r. rewrite elem_song_key by (right; by left).
    destruct (reader_group_at cat TAGCACHE_GROUP_ALBUM (album_key nm)) as [g|] eqn:Eg; [|lia].
    destruct (Z.eqb_spec (ascii_casecmp (name g) nm) 0) as [E0|]; [|lia].
    pose proof (group_at_ok cat _ _ g Hk Eg) as [[Hgc _] _]. apply ascii_casecmp_eq in E0; [|done|done].
    split; intros (s & Hs & H); exists s; (split; [done|]); destruct (Hm r s Hs) as (Hc & i & g' & Hi & Eg').
    + apply (Hmatch r s Hs). unfold song_key, TC_QUERY_ALBUM_ARTIST, TC_QUERY_ALBUM_NAME, TC_QUERY_SONG_GRAM, TC_QUERY_ARTIST in H.
      destruct H as [[? _]|[[_ E]|[[? _]|[? _]]]]; [lia| |lia..]. destruct (album_key_ok cat (album s) Hc) as (Hr' & _).
      rewrite !(group_u32 TAGCACHE_GROUP_ALBUM) in E by lia.
      destruct (album_key_found (album s) i g' Hc Hi Eg') as (g'' & Hg'' & _ & E''). rewrite <- E in Hg''.
      assert (g'' = g) as -> by congruence. congruence.
    + apply (Hmatch r s Hs) in H. right; left. split; [done|]. exact (f_equal u32 (album_key_eq nm (album s) Hn Hc (eq_sym H))).
  - intros Hneg r s Hs. apply not_true_iff_false. rewrite (Hmatch r s Hs). intros E. destruct (Hfound r s Hs E) as (g & Hg & E0).
    rewrite Hg, E0 in Hneg. cbn in Hneg. lia.
Qed.

(** ** Grams *)
Lemma gram_u32 value k : Forall is_char value -> k ∈ all_grams value -> u32 k = k.
Proof using.
  intros Hv Hk. apply elem_of_all_grams in Hk as (g & Hg & ->). apply u32_id, query_gram_key_range.
  by apply (gram_of_chars g value).
Qed.
(** The songs filed under a gram are those in whose title or artist it occurs. *)
Lemma song_gram_key g r :
  gram_ok g ->
  {| category := TC_QUERY_SONG_GRAM; key := query_gram_key g; rank := r |} ∈ L <->
  exists s, song_at r s /\ (occurs (title s) g \/ occurs (artist s) g).
Proof using QSort0 CatalogueOk0.
  intros [Hg Hl]. rewrite elem_song_key by (right; right; by left).
  assert (forall r s, song_at r s -> ((exists k, (k ∈ all_grams (title s) \/ k ∈ all_grams (artist s)) /\ query_gram_key g = u32 k) <->
    occurs (title s) g \/ occurs (artist s) g)) as H.
  { intros r' s Hs. destruct (song_at_ok r' s Hs) as ([Ht _] & [Ha _] & _).
    rewrite <- (occurs_gram (title s) g), <- (occurs_gram (artist s) g) by done. split.
    - intros (k & [Hk|Hk] & E); [left; by rewrite E, (gram_u32 _ k Ht Hk)|right; by rewrite E, (gram_u32 _ k Ha Hk)].
    - intros [Hk|Hk]; eexists; (split; [|symmetry]); [by left|by apply (gram_u32 (title s))|by right|by apply (gram_u32 (artist s))]. }
  split; intros (s & Hs & Hx); exists s; (split; [done|]).
  - apply (H r s Hs). unfold song_key, TC_QUERY_ALBUM_ARTIST, TC_QUERY_ALBUM_NAME, TC_QUERY_SONG_GRAM, TC_QUERY_ARTIST in Hx.
    destruct Hx as [[? _]|[[? _]|[[_ Hx]|[? _]]]]; [lia|lia|done|lia].
  - right; right; left. split; [done|]. by apply (H r s Hs).
Qed.
(** Likewise the groups. *)
Lemma group_gram_key kind g i :
  0 <= kind <= 2 -> gram_ok g ->
  {| category := TC_QUERY_GROUP0_GRAM + kind; key := query_gram_key g; rank := i |} ∈ L <->
  exists grp, reader_group_at cat kind i = Some grp /\ occurs (name grp) g.
Proof using QSort0 CatalogueOk0.
  intros Hk [Hg Hl]. rewrite elem_group_key by done. split.
  - intros (grp & k & Hgrp & Hgram & E). exists grp. split; [done|]. pose proof (group_at_ok cat kind i grp Hk Hgrp) as [[Hn _] _].
    apply occurs_gram; [done..|]. by rewrite E, (gram_u32 _ k Hn Hgram).
  - intros (grp & Hgrp & Ho). pose proof (group_at_ok cat kind i grp Hk Hgrp) as [[Hn _] _]. apply occurs_gram in Ho; [|done..].
    exists grp, (query_gram_key g). split; [done|]. split; [done|]. symmetry. by apply (gram_u32 (name grp)).
Qed.
End Keys.
