(* ===== verification/QueryRunProofs.v ===== *)
(** Queries give exactly the songs, or groups, that a scan would: with or without
    the index file, whatever source is chosen. *)
From stdpp Require Import sorting.
From S2P Require Import Prelude Endian ScanIntern StableSort TagSort Memory TagText QueryPostings QueryPostingsProofs QueryIndex QueryFile QueryBuild QueryCatalogue QueryEmit QueryBuilt QueryRun QueryKeys.
Local Open Scope Z_scope.

(** ** Ranks in order *)
Lemma posts_sorted U c k : StronglySorted tuple_lt U -> StronglySorted Z.lt (posts U c k).
Proof.
  intros Hs. induction Hs as [|t U Hs IH Ht]; [constructor|]. rewrite posts_cons. destruct (same_key t c k) eqn:E; [|done].
  constructor; [done|]. apply List.Forall_forall. intros r Hr. apply list_elem_of_In, elem_of_posts in Hr.
  rewrite List.Forall_forall in Ht. apply list_elem_of_In, Ht, tuple_lt_spec in Hr. unfold same_key in E. bool_prop.
  unfold key_lt in Hr. cbn [category key rank] in Hr. lia.
Qed.
Lemma sorted_filter {A} (R : A -> A -> Prop) f l : StronglySorted R l -> StronglySorted R (List.filter f l).
Proof.
  intros Hs. induction Hs as [|x l Hs IH Hx]; cbn [List.filter]; [constructor|]. destruct (f x); [|done]. constructor; [done|].
  apply List.Forall_forall. intros y Hy. apply filter_In in Hy as [Hy _]. rewrite List.Forall_forall in Hx. by apply Hx.
Qed.
Lemma seqZ_sorted m n : StronglySorted Z.lt (seqZ m n).
Proof.
  destruct (Z.le_gt_cases n 0); [by rewrite seqZ_nil by lia; constructor|]. replace n with (Z.of_nat (Z.to_nat n)) by lia.
  generalize (Z.to_nat n). clear. intros n. revert m. induction n as [|n IH]; intros m; [constructor|].
  rewrite seqZ_cons by lia. rewrite Nat2Z.inj_succ, Z.pred_succ. constructor; [apply IH|]. apply List.Forall_forall.
  intros x Hx. apply list_elem_of_In, elem_of_seqZ in Hx. lia.
Qed.

Section Run.
Context (OFF_MAX : Z) (qsort : list Z -> list Z) `{!QSort query_u32_cmp qsort} (db : database).
Abbreviation cat := (db_cat db).
Context `{!CatalogueOk cat} (Hopen : db_open db = true).
(** The index file, when there is one, was built from this catalogue. *)
Context (h : tc_query_header) (U : list tc_query_tuple)
  (Hfile : match reader_query db with Some file => index_file OFF_MAX qsort cat h U file | None => True end).

Abbreviation ranks := (map rank U).
Definition span (start count : Z) : list Z := take (Z.to_nat count) (drop (Z.to_nat start) ranks).
(** The candidates of a query, in the order it takes them. *)
Definition source (q : tagcache_query_t) : list Z :=
  if q_indexed q then span (q_start q) (q_count q) else seqZ 0 (q_count q).
Definition results (q : tagcache_query_t) : list Z :=
  List.filter (fun r => q_exact q || accepted db q r) (drop (Z.to_nat (q_position q)) (source q)).

Record query_ok (q : tagcache_query_t) : Prop := {
  qo_position : 0 <= q_position q <= q_count q;
  qo_count : q_count q <= INT32_MAX;
  qo_indexed : q_indexed q = true -> reader_query db <> None /\ 0 <= q_start q /\ q_start q + q_count q <= Z.of_nat (length U) }.

Definition cache_of (c : query_cache) : Prop := cache_ok ranks c.

Lemma source_length q : query_ok q -> Z.of_nat (length (source q)) = q_count q.
Proof using.
  intros [[H0 H1] _ Hi]. unfold source. destruct (q_indexed q).
  - destruct (Hi eq_refl) as (_ & Hs & Hc). unfold span. rewrite length_take, length_drop, length_map. lia.
  - rewrite length_seqZ. lia.
Qed.
Lemma candidate_ok c q r rest :
  query_ok q -> cache_of c -> drop (Z.to_nat (q_position q)) (source q) = r :: rest ->
  exists c', candidate_at OFF_MAX db c q = (Some r, c') /\ cache_of c'.
Proof using Hfile.
  intros Hq Hc Hd. assert (source q !! Z.to_nat (q_position q) = Some r) as Hl.
  { rewrite <- (Nat.add_0_r (Z.to_nat (q_position q))), <- lookup_drop, Hd. done. }
  pose proof (source_length q Hq) as Hlen. pose proof (lookup_lt_Some _ _ _ Hl) as Hlt. destruct Hq as [Hp Hpl Hi].
  unfold candidate_at. unfold source in Hl. destruct (q_indexed q) eqn:Ei.
  - destruct (Hi eq_refl) as (Hr & Hs & Hn). destruct (reader_query db) as [file|]; [|done]. rewrite (if_image _ _ _ _ _ _ Hfile).
    destruct (query_posting_ok OFF_MAX h (runs 0 U) ranks (if_ok _ _ _ _ _ _ Hfile) c (q_start q) (q_position q) Hc) as (c' & E & Hc');
      [lia|lia|rewrite length_map; lia|].
    exists c'. split; [|done]. rewrite E. f_equal. unfold span in Hl.
    rewrite lookup_take_lt, lookup_drop in Hl by lia. rewrite <- Hl. f_equal. lia.
  - apply lookup_seqZ in Hl as [-> Hl]. exists c. split; [|done]. unfold INT32_MAX in Hpl.
    rewrite Z2Nat.id, Z.add_0_l by lia. rewrite i32_u32; [done|]. unfold in_i32, INT_MAX. lia.
Qed.
Lemma at_position_ok q p : query_ok q -> 0 <= p <= q_count q -> query_ok (at_position q p).
Proof using. intros [H1 H2 H3] Hp. by split. Qed.

(** ** The next result *)
Lemma next_loop_ok fuel c q :
  query_ok q -> cache_of c -> q_count q - q_position q <= Z.of_nat fuel ->
  exists p c', 0 <= p <= q_count q /\ cache_of c' /\ q_position q <= p /\
    match results q with
    | [] => next_loop OFF_MAX db fuel c q = (None, at_position q p, c') /\ p = q_count q
    | r :: rest => next_loop OFF_MAX db fuel c q = (Some r, at_position q p, c') /\ results (at_position q p) = rest
    end.
Proof using Hfile.
  revert c q. induction fuel as [|fuel IH]; intros c q Hq Hc Hf.
  { pose proof (source_length q Hq) as Hl. destruct (qo_position q Hq). assert (q_position q = q_count q) as E by lia.
    exists (q_position q), c. unfold results. rewrite drop_ge by lia. cbn [List.filter next_loop].
    split; [lia|]. split; [done|]. split; [lia|]. split; [by destruct q|done]. }
  cbn [next_loop]. pose proof (source_length q Hq) as Hl. destruct (qo_position q Hq) as [Hp0 Hp1]. destruct (Z.leb_spec (q_count q) (q_position q)).
  { exists (q_position q), c. unfold results. rewrite drop_ge by lia. cbn [List.filter].
    split; [lia|]. split; [done|]. split; [lia|]. split; [by destruct q|lia]. }
  destruct (drop (Z.to_nat (q_position q)) (source q)) as [|r rest] eqn:Ed.
  { apply (f_equal length) in Ed. rewrite length_drop in Ed. cbn in Ed. lia. }
  destruct (candidate_ok c q r rest Hq Hc Ed) as (c' & -> & Hc').
  pose proof (qo_count q Hq) as Hmax. unfold INT32_MAX in Hmax.
  assert (u64 (q_position q + 1) = q_position q + 1) as -> by (unfold u64; apply Z.mod_small; lia).
  assert (drop (Z.to_nat (q_position q + 1)) (source q) = rest) as Ed'.
  { replace (Z.to_nat (q_position q + 1)) with (S (Z.to_nat (q_position q))) by lia. rewrite <- (Nat.add_1_r (Z.to_nat _)), <- drop_drop, Ed. done. }
  set (q1 := at_position q (q_position q + 1)). assert (query_ok q1) as Hq1 by (apply at_position_ok; [done|lia]).
  assert (results q1 = List.filter (fun r => q_exact q || accepted db q r) rest) as Hr1.
  { unfold results. cbn [q1 at_position q_position]. change (source q1) with (source q). by rewrite Ed'. }
  unfold results at 1. rewrite Ed. cbn [List.filter]. change (q_exact q1) with (q_exact q). change (accepted db q1 r) with (accepted db q r).
  destruct (q_exact q || accepted db q r).
  - exists (q_position q + 1), c'. split; [lia|]. split; [done|]. split; [lia|]. by split.
  - destruct (IH c' q1 Hq1 Hc') as (p & c'' & Hp & Hc'' & Hle & H1); [cbn [q1 at_position q_position q_count]; lia|].
    exists p, c''. rewrite Hr1 in H1. cbn [q1 at_position q_position q_count] in Hp, Hle. split; [done|]. split; [done|]. split; [lia|].
    exact H1.
Qed.
Lemma next_ok c q :
  query_ok q -> cache_of c ->
  exists p c', 0 <= p <= q_count q /\ cache_of c' /\
    match results q with
    | [] => tagcache_query_next OFF_MAX db c q = (None, at_position q p, c') /\ p = q_count q
    | r :: rest => tagcache_query_next OFF_MAX db c q = (Some r, at_position q p, c') /\ results (at_position q p) = rest
    end.
Proof using Hfile Hopen.
  intros Hq Hc. unfold tagcache_query_next. rewrite Hopen. cbn [negb].
  destruct (next_loop_ok (Z.to_nat (q_count q - q_position q)) c q Hq Hc) as (p & c' & Hp & Hc' & _ & H); [lia|]. eauto.
Qed.

(** The results one after the other, until there is none. *)
Fixpoint drain (fuel : nat) (c : query_cache) (q : tagcache_query_t) : list Z :=
  match fuel with
  | O => []
  | S fuel =>
      match tagcache_query_next OFF_MAX db c q with
      | (None, _, _) => []
      | (Some r, q, c) => r :: drain fuel c q
      end
  end.
Lemma drain_ok fuel c q : query_ok q -> cache_of c -> (length (results q) < fuel)%nat -> drain fuel c q = results q.
Proof using Hfile Hopen.
  revert c q. induction fuel as [|fuel IH]; intros c q Hq Hc Hf; [lia|]. cbn [drain].
  destruct (next_ok c q Hq Hc) as (p & c' & Hp & Hc' & H). destruct (results q) as [|r rest]; destruct H as [-> H]; [done|].
  f_equal. rewrite <- H. apply IH; [by apply at_position_ok|done|]. rewrite H. cbn [length] in Hf. lia.
Qed.

(** ** Counting and skipping *)
Lemma results_length q : query_ok q -> Z.of_nat (length (results q)) <= q_count q - q_position q.
Proof using.
  intros Hq. pose proof (source_length q Hq) as Hl. unfold results.
  pose proof (filter_length_le (fun r => q_exact q || accepted db q r) (drop (Z.to_nat (q_position q)) (source q))) as H.
  rewrite length_drop in H. destruct (qo_position q Hq). lia.
Qed.
Lemma results_exact q : query_ok q -> q_exact q = true -> results q = drop (Z.to_nat (q_position q)) (source q).
Proof using.
  intros Hq He. unfold results. rewrite He. cbn [orb]. induction (drop _ _) as [|x l IH]; cbn; [done|by f_equal].
Qed.
Lemma count_loop_ok fuel c q n :
  query_ok q -> cache_of c -> (length (results q) <= fuel)%nat ->
  exists q' c', count_loop OFF_MAX db fuel c q n = (n + Z.of_nat (length (results q)), q', c').
Proof using Hfile Hopen.
  revert c q n. induction fuel as [|fuel IH]; intros c q n Hq Hc Hf; cbn [count_loop];
    destruct (next_ok c q Hq Hc) as (p & c' & Hp & Hc' & H); destruct (results q) as [|r rest]; destruct H as [-> H]; cbn [length] in *.
  - rewrite Z.add_0_r. by eexists _, _.
  - lia.
  - rewrite Z.add_0_r. by eexists _, _.
  - destruct (IH c' (at_position q p) (n + 1)) as (q' & c'' & E); [by apply at_position_ok|done|rewrite H; lia|].
    exists q', c''. rewrite E, H. do 2 f_equal. lia.
Qed.
Lemma count_ok c q :
  query_ok q -> cache_of c -> exists q' c', tagcache_query_count OFF_MAX db c q = (Z.of_nat (length (results q)), q', c').
Proof using Hfile Hopen.
  intros Hq Hc. pose proof (source_length q Hq) as Hl. pose proof (results_length q Hq) as Hr. destruct (qo_position q Hq).
  pose proof (qo_count q Hq) as Hm. unfold INT32_MAX in Hm. unfold tagcache_query_count. destruct (q_exact q) eqn:Ee.
  - exists q, c. do 2 f_equal. rewrite (results_exact q Hq Ee), length_drop. unfold u64. rewrite Z.mod_small by lia.
    rewrite i32_u32 by (unfold in_i32, INT_MAX; lia). lia.
  - destruct (count_loop_ok (Z.to_nat (q_count q - q_position q)) c q 0 Hq Hc) as (q' & c' & E); [lia|]. exists q', c'. by rewrite E.
Qed.
Lemma skip_loop_ok n c q :
  query_ok q -> cache_of c ->
  exists p c', 0 <= p <= q_count q /\ cache_of c' /\ skip_loop OFF_MAX db n c q = (at_position q p, c') /\
    results (at_position q p) = drop n (results q).
Proof using Hfile Hopen.
  revert c q. induction n as [|n IH]; intros c q Hq Hc; cbn [skip_loop].
  { exists (q_position q), c. split; [apply Hq|]. split; [done|]. split; [by destruct q|]. by destruct q. }
  destruct (next_ok c q Hq Hc) as (p & c' & Hp & Hc' & H). destruct (results q) as [|r rest] eqn:Er; destruct H as [-> H].
  - exists p, c'. split; [done|]. split; [done|]. split; [done|]. subst p. unfold results.
    rewrite drop_ge; [done|]. pose proof (source_length q Hq) as Hl. cbn [at_position q_position]. change (source (at_position q (q_count q))) with (source q). lia.
  - destruct (IH c' (at_position q p)) as (p' & c'' & Hp' & Hc'' & E & Er'); [by apply at_position_ok|done|].
    exists p', c''. split; [exact Hp'|]. split; [done|]. split; [exact E|]. cbn [drop]. rewrite <- H. exact Er'.
Qed.
Lemma skip_ok c q n :
  query_ok q -> cache_of c ->
  exists p c', 0 <= p <= q_count q /\ cache_of c' /\ tagcache_query_skip OFF_MAX db c q n = (at_position q p, c') /\
    results (at_position q p) = drop (Z.to_nat n) (results q).
Proof using Hfile Hopen.
  intros Hq Hc. unfold tagcache_query_skip. destruct (Z.leb_spec n 0).
  { exists (q_position q), c. split; [apply Hq|]. split; [done|]. replace (Z.to_nat n) with 0%nat by lia. by destruct q. }
  destruct (q_exact q) eqn:Ee; [|by apply skip_loop_ok].
  pose proof (source_length q Hq) as Hl. pose proof (qo_position q Hq) as [Hp0 Hp1]. pose proof (qo_count q Hq) as Hm. unfold INT32_MAX in Hm.
  set (step := if n <? u64 (q_count q - q_position q) then n else u64 (q_count q - q_position q)).
  assert (step = Z.min n (q_count q - q_position q)) as Es.
  { subst step. unfold u64. rewrite Z.mod_small by lia. destruct (Z.ltb_spec n (q_count q - q_position q)); lia. }
  assert (u64 (q_position q + step) = q_position q + step) as -> by (unfold u64; apply Z.mod_small; lia).
  exists (q_position q + step), c. split; [lia|]. split; [done|]. split; [done|].
  assert (query_ok (at_position q (q_position q + step))) as Hq' by (apply at_position_ok; [done|lia]).
  rewrite (results_exact _ Hq' Ee), (results_exact q Hq Ee), drop_drop.
  cbn [at_position q_position]. change (source (at_position q (q_position q + step))) with (source q).
  destruct (Z.le_gt_cases n (q_count q - q_position q)).
  - f_equal. lia.
  - by rewrite !drop_ge by lia.
Qed.

(** ** Choosing a source *)

(** A place in the postings where the ranks that pass the test [p] are. *)
Definition filed (p : Z -> bool) (start count : Z) : Prop :=
  0 <= start /\ 0 <= count <= INT32_MAX /\ start + count <= Z.of_nat (length U) /\ StronglySorted Z.lt (span start count) /\
  forall r, r ∈ span start count <-> p r = true.
Definition limit (domain : Z) : Z := if domain <? 0 then live_count cat else reader_group_n cat domain.
(** The query reads the ranks of one of the tests [conds], or all of them. *)
Definition good (domain : Z) (q : tagcache_query_t) (conds : list (Z -> bool)) : Prop :=
  q_position q = 0 /\
  if q_indexed q then reader_query db <> None /\ exists p, p ∈ conds /\ filed p (q_start q) (q_count q)
  else conds = [] /\ q_count q = limit domain.
Definition same_text (q q' : tagcache_query_t) : Prop :=
  q_needle q' = q_needle q /\ q_artist q' = q_artist q /\ q_album_artist q' = q_album_artist q /\ q_album q' = q_album q /\
  q_domain q' = q_domain q.

Lemma sorted_bound l a b : StronglySorted Z.lt l -> (forall r, r ∈ l -> a <= r < b) -> Z.of_nat (length l) <= Z.max 0 (b - a).
Proof using.
  intros Hs. revert a. induction Hs as [|x l Hs IH Hx]; intros a Hb; cbn [length]; [lia|]. pose proof (Hb x ltac:(left)) as Hxb.
  assert (Z.of_nat (length l) <= Z.max 0 (b - (x + 1))) as Hl; [|lia]. apply IH. intros r Hr. rewrite List.Forall_forall in Hx.
  pose proof (Hx r (proj1 (list_elem_of_In _ _) Hr)). pose proof (Hb r ltac:(by right)). lia.
Qed.
Lemma choose_good domain q conds p start count :
  reader_query db <> None -> good domain q conds -> filed p start count -> good domain (choose_source q start count) (p :: conds).
Proof using.
  intros Hdb [Hp Hg] Hf. unfold choose_source. destruct (negb (q_indexed q) || (count <? q_count q)) eqn:E.
  - split; [done|]. cbn [with_source q_indexed q_start q_count]. split; [done|]. exists p. split; [left|done].
  - split; [done|]. apply orb_false_iff in E as [E _]. apply negb_false_iff in E. rewrite E in *. destruct Hg as [_ (p' & Hin & Hf')].
    split; [done|]. exists p'. split; [by right|done].
Qed.
Lemma lookup_filed file c k (p : Z -> bool) :
  reader_query db = Some file -> (forall r, {| category := c; key := k; rank := r |} ∈ cat_tuples qsort cat <-> p r = true) ->
  let '(start, count) := default (0, 0) (query_lookup OFF_MAX file c k) in filed p start count.
Proof using Hfile QSort0 CatalogueOk0.
  intros Hdb Hp. rewrite Hdb in Hfile. pose proof (query_lookup_ok OFF_MAX h U (if_ok _ _ _ _ _ _ Hfile) (if_sorted _ _ _ _ _ _ Hfile) c k) as H.
  assert (forall r, r ∈ posts U c k <-> p r = true) as Hposts by (intros r; by rewrite elem_of_posts, (if_elem _ _ _ _ _ _ Hfile)).
  pose proof (posts_sorted U c k (if_sorted _ _ _ _ _ _ Hfile)) as Hs. rewrite (if_image _ _ _ _ _ _ Hfile).
  assert (Z.of_nat (length (posts U c k)) <= INT32_MAX) as Hlen.
  { pose proof (sorted_bound _ 0 (rank_bound cat) Hs) as Hb. destruct cat_counts as [Hl _]. pose proof (cat_groups_count 0 ltac:(lia)).
    pose proof (cat_groups_count 1 ltac:(lia)). pose proof (cat_groups_count 2 ltac:(lia)). unfold rank_bound in Hb at 2. unfold INT32_MAX in *.
    enough (Z.of_nat (length (posts U c k)) <= Z.max 0 (Z.max (live_count cat) (Z.max (reader_group_n cat 0) (Z.max (reader_group_n cat 1) (reader_group_n cat 2))) - 0)) by lia.
    apply Hb. intros r Hr. apply elem_of_posts, (if_elem _ _ _ _ _ _ Hfile), (cat_tuples_range qsort cat) in Hr as (_ & Hr & _). exact Hr. }
  destruct (posts U c k) as [|r0 ps] eqn:E.
  - rewrite H. cbn. split; [lia|]. split; [unfold INT32_MAX; lia|]. split; [lia|]. split; [constructor|]. intros r. rewrite <- Hposts. done.
  - destruct H as (start & -> & H0 & H1 & H2). change (default (0, 0) (Some ?x)) with x. cbn iota beta.
    assert (span start (Z.of_nat (length (r0 :: ps))) = r0 :: ps) as Espan.
    { apply list_eq. intros i. unfold span. destruct (Nat.lt_ge_cases i (length (r0 :: ps))) as [Hi|Hi].
      - rewrite lookup_take_lt, lookup_drop by lia. specialize (H2 (Z.of_nat i) ltac:(lia)). rewrite Nat2Z.id in H2. rewrite <- H2. f_equal. lia.
      - rewrite (lookup_ge_None_2 (r0 :: ps)) by done. apply lookup_ge_None_2. rewrite length_take. lia. }
    unfold filed. rewrite Espan. split; [lia|]. split; [lia|]. split; [lia|]. by split.
Qed.

(** Tests on the song at a rank. *)
Definition song_test (f : song -> bool) (r : Z) : bool :=
  match tagcache_song_fields_at_title_rank db r with Some s => f s | None => false end.
Lemma song_fields_at r s : tagcache_song_fields_at_title_rank db r = Some s <-> song_at cat r s.
Proof using Hopen.
  unfold tagcache_song_fields_at_title_rank, song_at. rewrite Hopen. cbn [negb orb].
  destruct (Z.ltb_spec r 0), (Z.leb_spec (live_count cat) r); cbn [orb]; try (split; [done|lia]). split.
  - intros H1. destruct (title_slot cat r) as [slot|]; [|done]. split; [lia|]. by exists slot.
  - intros [_ (slot & -> & H1)]. exact H1.
Qed.
Lemma song_test_true f r : song_test f r = true <-> exists s, song_at cat r s /\ f s = true.
Proof using Hopen.
  unfold song_test. split.
  - destruct (tagcache_song_fields_at_title_rank db r) as [s|] eqn:E; [|done]. intros Hf. exists s. split; [by apply song_fields_at|done].
  - intros (s & Hs & Hf). apply song_fields_at in Hs. by rewrite Hs.
Qed.
Lemma query_choose_good file q conds c key f :
  reader_query db = Some file -> settles qsort cat c key f -> good (-1) q conds ->
  good (-1) (query_choose OFF_MAX file q c key) (song_test f :: conds).
Proof using Hfile QSort0 CatalogueOk0 Hopen.
  intros Hdb [Hpos Hneg] Hq. unfold query_choose. assert (reader_query db <> None) as Hne by congruence. destruct (Z.leb_spec 0 key) as [Hk|Hk].
  - pose proof (lookup_filed file c (u32 key) (song_test f) Hdb) as H.
    destruct (default (0, 0) (query_lookup OFF_MAX file c (u32 key))) as [start count]. apply choose_good; [done|done|]. apply H.
    intros r. rewrite song_test_true. by apply Hpos.
  - apply choose_good; [done|done|]. unfold filed, span. cbn [Z.to_nat take]. split; [lia|]. split; [unfold INT32_MAX; lia|]. split; [lia|].
    split; [constructor|]. intros r. rewrite song_test_true. split; [by intros H%not_elem_of_nil|].
    intros (s & Hs & Hf). rewrite (Hneg Hk r s Hs) in Hf. done.
Qed.

(** The source of a needle is the place of one of its grams. *)
Definition piece (needle g : list Z) : Prop :=
  exists i, (i + Nat.min (length needle) 3 <= length needle)%nat /\ g = take (Nat.min (length needle) 3) (drop i needle).
Lemma piece_gram needle g : Forall is_char needle -> needle <> [] -> piece needle g -> gram_ok g.
Proof using.
  intros Hc Hne (i & Hi & ->). split; [by apply Forall_take, Forall_drop|]. rewrite length_take, length_drop.
  destruct needle; [done|]. cbn [length] in *. lia.
Qed.
Lemma piece_short needle g : (length needle <= 3)%nat -> piece needle g -> g = needle.
Proof using.
  intros Hl (i & Hi & ->). assert (i = 0)%nat as -> by lia. rewrite drop_0, Nat.min_l by lia. by apply take_ge.
Qed.
Lemma piece_occurs value needle g : piece needle g -> occurs value needle -> occurs value g.
Proof using. intros (i & _ & ->). apply occurs_sub. Qed.

Lemma needle_loop_filed file domain needle (p : list Z -> Z -> bool) todo i best :
  reader_query db = Some file -> (i + todo + Nat.min (length needle) 3 = S (length needle))%nat ->
  (forall g, piece needle g -> forall r, {| category := domain; key := query_gram_key g; rank := r |} ∈ cat_tuples qsort cat <-> p g r = true) ->
  (best = (0, UINT64_MAX) /\ (0 < todo)%nat \/ exists g, piece needle g /\ filed (p g) (fst best) (snd best)) ->
  exists g start count, needle_loop OFF_MAX todo i file domain needle (Nat.min (length needle) 3) best = (start, count) /\
    piece needle g /\ filed (p g) start count.
Proof using Hfile QSort0 CatalogueOk0.
  intros Hdb. revert i best. induction todo as [|todo IH]; intros i best Hi Hp Hb; cbn [needle_loop].
  { destruct Hb as [[_ Hb]|(g & Hg & Hf)]; [lia|]. exists g, (fst best), (snd best). split; [by destruct best|done]. }
  set (g := take (Nat.min (length needle) 3) (drop i needle)).
  assert (piece needle g) as Hg by (exists i; split; [lia|done]).
  pose proof (lookup_filed file domain (query_gram_key g) (p g) Hdb (Hp g Hg)) as Hf.
  destruct (query_lookup OFF_MAX file domain (query_gram_key g)) as [[start count]|].
  - change (default (0, 0) (Some ?x)) with x in Hf. cbn iota beta in Hf. apply IH; [lia|done|].
    destruct (Z.ltb_spec count (snd best)); [right; exists g; by split|].
    destruct Hb as [[-> _]|Hb]; [|by right]. destruct Hf as (_ & Hc & _). cbn [snd] in *. unfold UINT64_MAX, INT32_MAX in *. lia.
  - exists g, 0, 0. split; [done|]. by split.
Qed.
Lemma query_needle_filed file domain needle (p : list Z -> Z -> bool) :
  reader_query db = Some file -> needle <> [] ->
  (forall g, piece needle g -> forall r, {| category := domain; key := query_gram_key g; rank := r |} ∈ cat_tuples qsort cat <-> p g r = true) ->
  exists g start count, query_needle OFF_MAX file domain needle = Some (start, count) /\ piece needle g /\ filed (p g) start count.
Proof using Hfile QSort0 CatalogueOk0.
  intros Hdb Hne Hp.
  destruct (needle_loop_filed file domain needle p (length needle - Nat.min (length needle) 3 + 1) 0 (0, UINT64_MAX) Hdb) as (g & start & count & E & Hg & Hf);
    [lia|done|left; split; [done|lia]|].
  exists g, start, count. split; [|done]. unfold query_needle. destruct needle; [done|]. by rewrite E.
Qed.

(** ** What a query accepts *)
Definition asks (t : text) (test : Prop) : Prop := query_nonempty t = true -> test.
(** The needle is in the title, or for all of the songs' fields in the artist. *)
Definition needle_in (domain : Z) (needle : list Z) (s : song) : Prop :=
  occurs (title s) needle \/ (domain <> TAGCACHE_QUERY_TITLES /\ occurs (artist s) needle).
Lemma casestr_occurs hay needle : casestr hay needle = true <-> occurs hay (chars needle).
Proof using. unfold casestr. by rewrite bool_decide_eq_true, ascii_casestr_occurs. Qed.
Lemma negb_asks a b : negb (a && negb b) = true <-> (a = true -> b = true).
Proof using. destruct a, b; cbn; split; auto. Qed.
Lemma song_accepted_true q s :
  song_accepted q s = true <->
  asks (q_needle q) (needle_in (q_domain q) (chars (q_needle q)) s) /\
  asks (q_artist q) (tagcache_artist_matches (artist s) (chars (q_artist q)) = true) /\
  asks (q_album_artist q) ((ascii_casecmp (album_artist s) (chars (q_album_artist q)) =? 0) = true) /\
  asks (q_album q) ((ascii_casecmp (album s) (chars (q_album q)) =? 0) = true).
Proof using.
  unfold song_accepted, asks. rewrite !andb_true_iff, !negb_asks.
  assert (forall b, negb (query_nonempty (q_needle q) && negb (casestr (title s) (q_needle q)) &&
    ((q_domain q =? TAGCACHE_QUERY_TITLES) || negb (casestr (artist s) (q_needle q)))) = b <->
    negb (query_nonempty (q_needle q) && negb (casestr (title s) (q_needle q) ||
      (negb (q_domain q =? TAGCACHE_QUERY_TITLES) && casestr (artist s) (q_needle q)))) = b) as ->.
  { intros b. by destruct (query_nonempty _), (casestr (title s) _), (casestr (artist s) _), (_ =? _). }
  rewrite negb_asks, orb_true_iff, andb_true_iff, negb_true_iff, Z.eqb_neq, !casestr_occurs. unfold needle_in. tauto.
Qed.

(** A query that reads a source good for it gives what it accepts. *)
Lemma good_results domain q conds :
  good domain q conds -> 0 <= limit domain <= INT32_MAX ->
  (forall r, accepted db q r = true -> 0 <= r < limit domain) ->
  (forall p r, p ∈ conds -> p r = true -> 0 <= r < limit domain) ->
  (forall p r, p ∈ conds -> accepted db q r = true -> p r = true) ->
  (q_exact q = true -> (length conds <= 1)%nat /\
     forall r, 0 <= r < limit domain -> (forall p, p ∈ conds -> p r = true) -> accepted db q r = true) ->
  query_ok q /\ StronglySorted Z.lt (results q) /\ forall r, r ∈ results q <-> accepted db q r = true.
Proof using.
  intros [Hpos Hg] Hlim Hrange Hprange Hall Hexact.
  assert (query_ok q) as Hq.
  { destruct (q_indexed q) eqn:Ei.
    - destruct Hg as [Hdb (p & _ & H0 & H1 & H2 & _)]. split; [lia|lia|]. intros _. split; [done|lia].
    - destruct Hg as [_ Hc]. split; [lia|lia|congruence]. }
  assert (StronglySorted Z.lt (source q)) as Hsort.
  { unfold source. destruct (q_indexed q); [|apply seqZ_sorted]. destruct Hg as [_ (p & _ & Hf)]. apply Hf. }
  split; [done|]. unfold results. rewrite Hpos, drop_0. split; [by apply sorted_filter|]. intros r.
  rewrite list_elem_of_In, filter_In, <- list_elem_of_In, orb_true_iff. unfold source. destruct (q_indexed q).
  - destruct Hg as [_ (p & Hin & Hf)]. destruct Hf as (_ & _ & _ & _ & Hspan). rewrite Hspan. split.
    + intros [Hp [He|Ha]]; [|done]. destruct (Hexact He) as [Hl Hb]. apply Hb; [by apply (Hprange p)|]. intros p' Hin'.
      destruct conds as [|p1 [|p2 conds]]; [by apply not_elem_of_nil in Hin| |cbn in Hl; lia].
      apply list_elem_of_singleton in Hin as ->. by apply list_elem_of_singleton in Hin' as ->.
    + intros Ha. split; [by apply (Hall p)|by right].
  - destruct Hg as [-> Hc]. rewrite elem_of_seqZ, Hc. split.
    + intros [Hr [He|Ha]]; [|done]. destruct (Hexact He) as [_ Hb]. apply Hb; [lia|]. intros p Hp. by apply not_elem_of_nil in Hp.
    + intros Ha. specialize (Hrange r Ha). split; [lia|by right].
Qed.

(** ** Beginning a query on groups *)
Definition empty_query (domain : Z) (needle artist album_artist album : text) (count : Z) (exact : bool) : tagcache_query_t :=
  {| q_needle := needle; q_artist := artist; q_album_artist := album_artist; q_album := album; q_start := 0; q_count := count;
     q_position := 0; q_domain := domain; q_indexed := false; q_exact := exact |}.
Definition filters_of (artist album_artist album : text) : Z :=
  (if query_nonempty artist then 1 else 0) + (if query_nonempty album_artist then 1 else 0) + (if query_nonempty album then 1 else 0).
Definition group_test (kind : Z) (f : group -> bool) (r : Z) : bool :=
  match reader_group_at cat kind r with Some g => f g | None => false end.
Lemma limit_range domain : domain <= 2 -> 0 <= limit domain <= INT32_MAX.
Proof using CatalogueOk0.
  intros Hd. unfold limit. destruct (Z.ltb_spec domain 0); [apply cat_counts|]. apply cat_groups_count. lia.
Qed.
Lemma begin_group_ok domain needle artist album_artist album :
  0 <= domain <= 2 -> Forall is_char (chars needle) ->
  let q := tagcache_query_begin OFF_MAX db domain needle artist album_artist album in
  query_ok q /\ StronglySorted Z.lt (results q) /\ forall r, r ∈ results q <-> accepted db q r = true.
Proof using Hfile QSort0 CatalogueOk0 Hopen.
  intros Hd Hn q. assert (forall q', q_domain q' = domain -> q_needle q' = needle -> forall r, accepted db q' r = true <->
    exists g, reader_group_at cat domain r = Some g /\ asks needle (occurs (name g) (chars needle))) as Hacc.
  { intros q' Hqd Hqn r. unfold accepted. rewrite Hqd, Hqn, (proj2 (Z.leb_le 0 domain)) by lia. split.
    - destruct (reader_group_at cat domain r) as [g|]; [|done]. rewrite negb_asks, casestr_occurs. intros H. by exists g.
    - intros (g & -> & H). by rewrite negb_asks, casestr_occurs. }
  assert (limit domain = reader_group_n cat domain) as Hlim by (unfold limit; by rewrite (proj2 (Z.ltb_ge domain 0)) by lia).
  assert (forall q', q_domain q' = domain -> q_needle q' = needle -> forall r, accepted db q' r = true -> 0 <= r < limit domain) as Hrange.
  { intros q' Hqd Hqn r H. apply (Hacc q' Hqd Hqn) in H as (g & Hg & _). rewrite Hlim. by apply (cat_group_range domain r g). }
  pose proof (limit_range domain ltac:(lia)) as Hl.
  set (q0 := empty_query domain needle artist album_artist album (limit domain)
    (negb (query_nonempty needle) && (filters_of artist album_artist album =? 0))).
  assert (good domain q0 []) as Hg0 by (by split).
  assert (forall r, 0 <= r < limit domain -> query_nonempty needle = false -> accepted db q0 r = true) as Hplain.
  { intros r Hr He. apply Hacc; [done|done|]. rewrite Hlim in Hr. destruct (group_at_in cat domain r) as (g & Hg & _); [lia|lia|lia|].
    exists g. split; [done|]. intros Ht. congruence. }
  assert (q = match reader_query db with
    | Some file => if query_nonempty needle then
        let '(start, count) := default (0, 0) (query_needle OFF_MAX file (TC_QUERY_GROUP0_GRAM + domain) (chars needle)) in
        choose_source (with_exact q0 (Z.of_nat (length (chars needle)) <=? 3)) start count else q0
    | None => q0 end) as ->.
  { subst q q0. unfold tagcache_query_begin, empty_query, tagcache_group_count, filters_of. rewrite Hopen, Hlim.
    rewrite (proj2 (Z.ltb_ge domain 0)), (proj2 (Z.leb_le 0 domain)), (proj2 (Z.ltb_lt domain 3)) by lia. cbn [andb orb].
    rewrite andb_true_r, u32_id by (unfold in_u32, TC_QUERY_GROUP0_GRAM; lia). done. }
  assert (exists o, reader_query db = o) as [o Hdb] by eauto. rewrite Hdb. destruct o as [file|]; [destruct (query_nonempty needle) eqn:En|].
  - assert (chars needle <> []) as Hne by (by destruct needle as [[]|]).
    destruct (query_needle_filed file (TC_QUERY_GROUP0_GRAM + domain) (chars needle) (fun g => group_test domain (fun grp => casestr (name grp) (Some g))) Hdb Hne)
      as (g & start & count & -> & Hpiece & Hf).
    + intros g Hg r. rewrite group_gram_key by (try done; by apply (piece_gram (chars needle))). unfold group_test. split.
      * intros (grp & -> & Ho). by apply (casestr_occurs _ (Some g)).
      * destruct (reader_group_at cat domain r) as [grp|]; [|done]. intros Ho. exists grp. split; [done|]. by apply (casestr_occurs _ (Some g)) in Ho.
    + change (default (0, 0) (Some ?x)) with x. cbn iota beta.
      eapply (good_results domain _ [group_test domain (fun grp => casestr (name grp) (Some g))]); [apply choose_good; [congruence|exact Hg0|exact Hf]|done|..].
      * apply Hrange; unfold choose_source; by destruct (_ || _).
      * intros p r Hp. apply list_elem_of_singleton in Hp as ->. unfold group_test.
        destruct (reader_group_at cat domain r) as [grp|] eqn:Eg; [|done]. intros _. rewrite Hlim. by apply (cat_group_range domain r grp).
      * intros p r Hp Ha. apply list_elem_of_singleton in Hp as ->. apply Hacc in Ha as (grp & Hgrp & Ho); [|unfold choose_source; by destruct (_ || _)..].
        unfold group_test. rewrite Hgrp. apply (casestr_occurs _ (Some g)). apply (piece_occurs _ (chars needle)); [done|by apply Ho].
      * intros He. split; [done|]. intros r _ Hp. apply Hacc; [unfold choose_source; by destruct (_ || _)..|].
        specialize (Hp _ ltac:(left)). unfold group_test in Hp. destruct (reader_group_at cat domain r) as [grp|]; [|done].
        exists grp. split; [done|]. intros _. apply (casestr_occurs _ (Some g)) in Hp. cbn in Hp.
        assert (q_exact (choose_source (with_exact q0 (Z.of_nat (length (chars needle)) <=? 3)) start count) = (Z.of_nat (length (chars needle)) <=? 3)) as Ee
          by (unfold choose_source; by destruct (_ || _)).
        rewrite Ee in He. apply Z.leb_le in He. rewrite (piece_short (chars needle) g) in Hp by (lia || done). exact Hp.
  - apply (good_results domain q0 []); try done.
    + intros r. by apply Hrange.
    + intros p r Hp. by apply not_elem_of_nil in Hp.
    + intros p r Hp. by apply not_elem_of_nil in Hp.
    + intros _. split; [cbn; lia|]. intros r Hr _. by apply Hplain.
  - apply (good_results domain q0 []); try done.
    + intros r. by apply Hrange.
    + intros p r Hp. by apply not_elem_of_nil in Hp.
    + intros p r Hp. by apply not_elem_of_nil in Hp.
    + intros He. split; [cbn; lia|]. intros r Hr _. apply Hplain; [done|]. cbn [q0 empty_query q_exact] in He.
      apply andb_true_iff in He as [He _]. by destruct (query_nonempty needle).
Qed.

(** ** Beginning a query on songs *)
Lemma choose_text q start count : same_text q (choose_source q start count).
Proof using. unfold choose_source. by destruct (_ || _). Qed.
Lemma query_choose_text file q c key : same_text q (query_choose OFF_MAX file q c key).
Proof using.
  unfold query_choose. destruct (if 0 <=? key then _ else _) as [start count]. apply choose_text.
Qed.
Lemma same_text_trans q1 q2 q3 : same_text q1 q2 -> same_text q2 q3 -> same_text q1 q3.
Proof using. intros (E1 & E2 & E3 & E4 & E5) (F1 & F2 & F3 & F4 & F5). unfold same_text. by rewrite F1, F2, F3, F4, F5. Qed.
Lemma accepted_text q q' r : same_text q q' -> accepted db q' r = accepted db q r.
Proof using. intros (E1 & E2 & E3 & E4 & E5). unfold accepted, song_accepted. by rewrite E1, E2, E3, E4, E5. Qed.
Definition opt_cond (t : text) (f : song -> bool) (conds : list (Z -> bool)) : list (Z -> bool) :=
  if query_nonempty t then song_test f :: conds else conds.
Definition opt_choose (file : list Z) (t : text) (q : tagcache_query_t) (c key : Z) : tagcache_query_t :=
  if query_nonempty t then query_choose OFF_MAX file q c key else q.
Lemma opt_choose_good file t f q conds c key :
  reader_query db = Some file -> settles qsort cat c key f -> good (-1) q conds -> good (-1) (opt_choose file t q c key) (opt_cond t f conds).
Proof using Hfile QSort0 CatalogueOk0 Hopen.
  intros Hdb Hs Hg. unfold opt_choose, opt_cond. destruct (query_nonempty t); [|done]. by apply query_choose_good.
Qed.
Lemma opt_choose_text file t q c key : same_text q (opt_choose file t q c key) /\ q_exact (opt_choose file t q c key) = q_exact q.
Proof using.
  unfold opt_choose. destruct (query_nonempty t); [|done]. split; [apply query_choose_text|]. unfold query_choose, choose_source.
  destruct (if 0 <=? key then _ else _) as [start count]. by destruct (_ || _).
Qed.
Lemma elem_of_opt_cond t f conds p : p ∈ opt_cond t f conds <-> (query_nonempty t = true /\ p = song_test f) \/ p ∈ conds.
Proof using.
  unfold opt_cond. destruct (query_nonempty t); [|naive_solver]. rewrite list.elem_of_cons. naive_solver.
Qed.

(** The tests of the three filters. *)
Definition by_artist (t : text) (s : song) : bool := tagcache_artist_matches (artist s) (chars t).
Definition by_album_artist (t : text) (s : song) : bool := ascii_casecmp (album_artist s) (chars t) =? 0.
Definition by_album (t : text) (s : song) : bool := ascii_casecmp (album s) (chars t) =? 0.
Definition filter_conds (artist album_artist album : text) : list (Z -> bool) :=
  opt_cond album (by_album album) (opt_cond album_artist (by_album_artist album_artist) (opt_cond artist (by_artist artist) [])).
Lemma filter_conds_length artist album_artist album :
  Z.of_nat (length (filter_conds artist album_artist album)) = filters_of artist album_artist album.
Proof using. unfold filter_conds, opt_cond, filters_of. by destruct (query_nonempty artist), (query_nonempty album_artist), (query_nonempty album). Qed.
(** The source the filters choose. *)
Definition filter_source (file : list Z) (q : tagcache_query_t) : tagcache_query_t :=
  let q1 := opt_choose file (q_artist q) q TC_QUERY_ARTIST (reader_group_index cat TAGCACHE_GROUP_ARTIST (chars (q_artist q)) []) in
  let q2 := opt_choose file (q_album_artist q) q1 TC_QUERY_ALBUM_ARTIST
              (reader_group_index cat TAGCACHE_GROUP_ALBUM_ARTIST (chars (q_album_artist q)) []) in
  opt_choose file (q_album q) q2 TC_QUERY_ALBUM_NAME (query_album_name_group db (chars (q_album q))).
Lemma filter_source_good file q :
  reader_query db = Some file -> good (-1) q [] ->
  Forall is_char (chars (q_artist q)) -> Forall is_char (chars (q_album_artist q)) -> Forall is_char (chars (q_album q)) ->
  good (-1) (filter_source file q) (filter_conds (q_artist q) (q_album_artist q) (q_album q)) /\ same_text q (filter_source file q).
Proof using Hfile QSort0 CatalogueOk0 Hopen.
  intros Hdb Hg H1 H2 H3. split.
  - unfold filter_source, filter_conds. apply opt_choose_good; [done|by apply (album_settles qsort cat db)|].
    apply opt_choose_good; [done|by apply album_artist_settles|]. apply opt_choose_good; [done|by apply artist_settles|done].
  - unfold filter_source. eapply same_text_trans; [|apply opt_choose_text]. eapply same_text_trans; apply opt_choose_text.
Qed.

(** Acceptance, test by test. *)
Lemma accepted_song q r :
  q_domain q < 0 -> accepted db q r = true <-> exists s, song_at cat r s /\ song_accepted q s = true.
Proof using Hopen.
  intros Hd. rewrite <- (song_test_true (song_accepted q)). unfold accepted, song_test. by rewrite (proj2 (Z.leb_gt 0 _)).
Qed.
Lemma accepted_filters q r p :
  q_domain q < 0 -> accepted db q r = true -> p ∈ filter_conds (q_artist q) (q_album_artist q) (q_album q) -> p r = true.
Proof using Hopen.
  intros Hd Ha Hp. apply accepted_song in Ha as (s & Hs & Ha); [|done]. apply song_accepted_true in Ha as (_ & H1 & H2 & H3).
  unfold filter_conds in Hp. rewrite !elem_of_opt_cond in Hp.
  destruct Hp as [[Hne ->]|[[Hne ->]|[[Hne ->]|Hp]]]; [..|by apply not_elem_of_nil in Hp]; apply song_test_true; exists s; auto.
Qed.
Lemma filters_accepted q r s :
  song_at cat r s -> (forall p, p ∈ filter_conds (q_artist q) (q_album_artist q) (q_album q) -> p r = true) ->
  asks (q_needle q) (needle_in (q_domain q) (chars (q_needle q)) s) -> song_accepted q s = true.
Proof using Hopen.
  intros Hs Hp Hn. assert (forall f, song_test f r = true -> f s = true) as Ht.
  { intros f Hf. unfold song_test in Hf. apply song_fields_at in Hs. by rewrite Hs in Hf. }
  apply song_accepted_true. split; [done|]. unfold filter_conds in Hp. setoid_rewrite elem_of_opt_cond in Hp.
  repeat setoid_rewrite elem_of_opt_cond in Hp.
  split; [|split]; intros Hne.
  - apply (Ht (by_artist (q_artist q))), Hp. tauto.
  - apply (Ht (by_album_artist (q_album_artist q))), Hp. tauto.
  - apply (Ht (by_album (q_album q))), Hp. tauto.
Qed.
Definition gram_test (g : list Z) : Z -> bool := song_test (fun s => casestr (title s) (Some g) || casestr (artist s) (Some g)).
Lemma gram_test_true g r : gram_test g r = true <-> exists s, song_at cat r s /\ (occurs (title s) g \/ occurs (artist s) g).
Proof using Hopen.
  unfold gram_test. rewrite song_test_true. by setoid_rewrite orb_true_iff; setoid_rewrite casestr_occurs.
Qed.

Lemma good_exact domain q conds e : good domain q conds -> good domain (with_exact q e) conds.
Proof using. by destruct q. Qed.
Lemma song_range q r : q_domain q < 0 -> accepted db q r = true -> 0 <= r < limit (-1).
Proof using Hopen. intros Hd Ha. apply accepted_song in Ha as (s & [Hs _] & _); done. Qed.
Lemma song_test_range f r : song_test f r = true -> 0 <= r < limit (-1).
Proof using Hopen. intros H. apply song_test_true in H as (s & [Hs _] & _). done. Qed.
Lemma song_tests_range artist album_artist album p r :
  p ∈ filter_conds artist album_artist album -> p r = true -> 0 <= r < limit (-1).
Proof using Hopen.
  unfold filter_conds. rewrite !elem_of_opt_cond. intros [[_ ->]|[[_ ->]|[[_ ->]|Hp]]]; [..|by apply not_elem_of_nil in Hp]; apply song_test_range.
Qed.

(** No needle, or none in the index: the filters settle everything. *)
Lemma filtered_results q :
  good (-1) q (filter_conds (q_artist q) (q_album_artist q) (q_album q)) \/ (good (-1) q [] /\ (q_exact q = true -> filters_of (q_artist q) (q_album_artist q) (q_album q) = 0)) ->
  q_domain q < 0 ->
  (q_exact q = true -> query_nonempty (q_needle q) = false /\ filters_of (q_artist q) (q_album_artist q) (q_album q) <= 1) ->
  query_ok q /\ StronglySorted Z.lt (results q) /\ forall r, r ∈ results q <-> accepted db q r = true.
Proof using Hopen CatalogueOk0.
  intros Hg Hd He. pose proof (filter_conds_length (q_artist q) (q_album_artist q) (q_album q)) as Hlen.
  assert (forall r, 0 <= r < limit (-1) -> query_nonempty (q_needle q) = false ->
    (forall p, p ∈ filter_conds (q_artist q) (q_album_artist q) (q_album q) -> p r = true) -> accepted db q r = true) as Hacc.
  { intros r Hr Hne Hp. destruct (song_at_exists cat r Hr) as (s & Hs). apply accepted_song; [done|]. exists s. split; [done|].
    apply (filters_accepted q r s); [done|done|]. intros Ht. congruence. }
  pose proof (limit_range (-1) ltac:(lia)) as Hl. destruct Hg as [Hg|[Hg He0]].
  - apply (good_results (-1) q _ Hg Hl).
    + intros r. by apply song_range.
    + intros p r. apply song_tests_range.
    + intros p r Hp Ha. by apply (accepted_filters q r p).
    + intros Hex. destruct (He Hex) as [Hne Hf]. split; [lia|]. intros r Hr Hp. by apply Hacc.
  - apply (good_results (-1) q _ Hg Hl).
    + intros r. by apply song_range.
    + intros p r Hp. by apply not_elem_of_nil in Hp.
    + intros p r Hp. by apply not_elem_of_nil in Hp.
    + intros Hex. destruct (He Hex) as [Hne _]. split; [cbn; lia|]. intros r Hr _. apply Hacc; [done|done|].
      specialize (He0 Hex). rewrite He0 in Hlen. destruct (filter_conds _ _ _); [|cbn in Hlen; lia].
      intros p Hp. by apply not_elem_of_nil in Hp.
Qed.
(** A needle whose grams are in the index. *)
Lemma needle_results file q g start count :
  reader_query db = Some file -> piece (chars (q_needle q)) g -> filed (gram_test g) start count ->
  good (-1) q (filter_conds (q_artist q) (q_album_artist q) (q_album q)) ->
  q_domain q < 0 -> query_nonempty (q_needle q) = true ->
  (q_exact q = true -> (length (chars (q_needle q)) <= 3)%nat /\ q_domain q = TAGCACHE_QUERY_SONGS /\
     filters_of (q_artist q) (q_album_artist q) (q_album q) = 0) ->
  let q' := choose_source q start count in
  query_ok q' /\ StronglySorted Z.lt (results q') /\ forall r, r ∈ results q' <-> accepted db q r = true.
Proof using Hopen CatalogueOk0.
  intros Hdb Hpiece Hf Hg Hd Hne He q'. pose proof (filter_conds_length (q_artist q) (q_album_artist q) (q_album q)) as Hlen.
  pose proof (choose_text q start count) as Htext. fold q' in Htext.
  assert (q_exact q' = q_exact q) as Hex by (subst q'; unfold choose_source; by destruct (_ || _)).
  enough (query_ok q' /\ StronglySorted Z.lt (results q') /\ forall r, r ∈ results q' <-> accepted db q' r = true) as (H1 & H2 & H3).
  { split; [done|]. split; [done|]. intros r. by rewrite H3, (accepted_text q q'). }
  eapply (good_results (-1) q' (gram_test g :: filter_conds (q_artist q) (q_album_artist q) (q_album q))).
  - apply choose_good; [congruence|done|done].
  - apply limit_range. lia.
  - intros r. rewrite (accepted_text q q') by done. by apply song_range.
  - intros p r Hp. apply list.elem_of_cons in Hp as [->|Hp]; [apply song_test_range|by apply (song_tests_range (q_artist q) (q_album_artist q) (q_album q))].
  - intros p r Hp Ha. rewrite (accepted_text q q') in Ha by done. apply list.elem_of_cons in Hp as [->|Hp]; [|by apply (accepted_filters q r p)].
    apply accepted_song in Ha as (s & Hs & Ha); [|done]. apply song_accepted_true in Ha as (Ha & _). apply gram_test_true. exists s. split; [done|].
    destruct (Ha Hne) as [Ho|[_ Ho]]; [left|right]; by apply (piece_occurs _ (chars (q_needle q))).
  - rewrite Hex. intros Hx. destruct (He Hx) as (Hl & Hsongs & Hf0). rewrite Hf0 in Hlen. destruct (filter_conds _ _ _) eqn:Ef; [|cbn in Hlen; lia].
    split; [cbn; lia|]. intros r Hr Hp. rewrite (accepted_text q q') by done. specialize (Hp _ ltac:(left)).
    apply gram_test_true in Hp as (s & Hs & Ho). apply accepted_song; [done|]. exists s. split; [done|].
    apply (filters_accepted q r s Hs); [rewrite Ef; intros p Hp; by apply not_elem_of_nil in Hp|]. intros _. unfold needle_in.
    rewrite (piece_short _ g Hl Hpiece) in Ho. rewrite Hsongs. destruct Ho as [Ho|Ho]; [by left|right; split; [done|exact Ho]].
Qed.

(** [tagcache_query_begin] on songs, in terms of the steps above. *)
Lemma begin_song_eq domain needle artist album_artist album :
  domain < 0 ->
  let filters := filters_of artist album_artist album in
  let q0 := empty_query domain needle artist album_artist album (live_count cat) (negb (query_nonempty needle) && (filters =? 0)) in
  tagcache_query_begin OFF_MAX db domain needle artist album_artist album =
  match reader_query db with
  | None => q0
  | Some file =>
      let q1 := with_exact (filter_source file q0) (negb (query_nonempty needle) && (filters <=? 1)) in
      if query_nonempty needle then
        let '(start, count) := default (0, 0) (query_needle OFF_MAX file TC_QUERY_SONG_GRAM (chars needle)) in
        choose_source (with_exact q1 ((Z.of_nat (length (chars needle)) <=? 3) && ((domain =? TAGCACHE_QUERY_SONGS) && (filters =? 0)))) start count
      else q1
  end.
Proof using Hopen.
  intros Hd filters q0. unfold tagcache_query_begin, tagcache_live_count. rewrite Hopen.
  rewrite (proj2 (Z.ltb_lt domain 0)), (proj2 (Z.leb_gt 0 domain)) by lia. cbn [orb]. done.
Qed.
Lemma begin_song_ok domain needle artist album_artist album :
  domain < 0 -> Forall is_char (chars needle) -> Forall is_char (chars artist) -> Forall is_char (chars album_artist) ->
  Forall is_char (chars album) ->
  let q := tagcache_query_begin OFF_MAX db domain needle artist album_artist album in
  let q0 := empty_query domain needle artist album_artist album 0 false in
  query_ok q /\ StronglySorted Z.lt (results q) /\ forall r, r ∈ results q <-> accepted db q0 r = true.
Proof using Hfile QSort0 CatalogueOk0 Hopen.
  intros Hd Hn Ha Haa Hal q qt. subst q. rewrite begin_song_eq by done. cbn zeta.
  set (q0 := empty_query domain needle artist album_artist album (live_count cat) _).
  assert (good (-1) q0 []) as Hg0 by by split.
  assert (exists o, reader_query db = o) as [o Hdb] by eauto. rewrite Hdb. destruct o as [file|].
  2:{ apply (filtered_results q0); [right; split; [done|]|done|]; cbn [q0 empty_query q_exact q_needle q_artist q_album_artist q_album].
      - intros He. apply andb_true_iff in He as [_ He]. bool_prop. done.
      - intros He. apply andb_true_iff in He as [He1 He2]. split; [by destruct (query_nonempty needle)|bool_prop; lia]. }
  destruct (filter_source_good file q0 Hdb Hg0 Ha Haa Hal) as [Hg1 Ht1].
  set (q1 := with_exact (filter_source file q0) _).
  assert (same_text q0 q1) as Ht1' by done.
  assert (q_needle q1 = needle /\ q_artist q1 = artist /\ q_album_artist q1 = album_artist /\ q_album q1 = album /\ q_domain q1 = domain)
    as (E1 & E2 & E3 & E4 & E5) by done.
  assert (forall r, accepted db qt r = accepted db q1 r) as Hsame by (intros r; symmetry; by apply accepted_text).
  destruct (query_nonempty needle) eqn:En.
  - assert (chars needle <> []) as Hne by (by destruct needle as [[]|]).
    destruct (query_needle_filed file TC_QUERY_SONG_GRAM (chars needle) gram_test Hdb Hne) as (g & start & count & -> & Hpiece & Hf).
    { intros g Hg r. rewrite song_gram_key by (try done; by apply (piece_gram (chars needle))). by rewrite gram_test_true. }
    change (default (0, 0) (Some ?x)) with x. cbn iota beta.
    set (q2 := with_exact q1 _). setoid_rewrite Hsame.
    assert (forall r, accepted db q1 r = accepted db q2 r) as Hsame2 by (intros r; symmetry; by apply accepted_text).
    setoid_rewrite Hsame2. apply (needle_results file q2 g); try done; change (q_needle q2) with (q_needle q1); rewrite ?E1; try done.
    + change (q_artist q2) with (q_artist q1). change (q_album_artist q2) with (q_album_artist q1). change (q_album q2) with (q_album q1).
      rewrite E2, E3, E4. by apply good_exact, good_exact.
    + change (q_domain q2) with (q_domain q1). lia.
    + change (q_artist q2) with (q_artist q1). change (q_album_artist q2) with (q_album_artist q1). change (q_album q2) with (q_album q1).
      change (q_domain q2) with (q_domain q1). rewrite E2, E3, E4, E5. cbn [q2 with_exact q_exact]. intros He.
      apply andb_true_iff in He as [He1 He]. apply andb_true_iff in He as [He2 He3]. bool_prop. split; [lia|done].
  - setoid_rewrite Hsame. apply (filtered_results q1).
    + left. rewrite E2, E3, E4. by apply good_exact.
    + lia.
    + cbn [q1 with_exact q_exact negb andb]. change (q_needle (with_exact _ _)) with (q_needle q1). rewrite E1, E2, E3, E4. intros He. bool_prop. done.
Qed.
End Run.
