(* ===== verification/Queries.v ===== *)
(** The tag cache's queries, whole: an index built from the catalogue is accepted
    and leads every key to its ranks; a query gives exactly what it asks for, the
    same with the index as without, and counts and skips accordingly. *)
From stdpp Require Import sorting.
From S2P Require Import Prelude Endian ScanIntern StableSort TagSort Memory TagText QueryPostings QueryPostingsProofs QueryIndex QueryFile QueryBuild QueryCatalogue QueryEmit QueryBuilt QueryRun QueryKeys QueryRunProofs.
Local Open Scope Z_scope.

(** ** The index *)

(** The ranks of a key, read one by one as a query reads them. *)
Fixpoint read_postings (OFF_MAX : Z) (file : list Z) (todo : nat) (c : query_cache) (start offset : Z) : option (list Z) :=
  match todo with
  | O => Some []
  | S todo =>
      let '(r, c) := query_posting OFF_MAX file c start offset in
      r ← r; rs ← read_postings OFF_MAX file todo c start (offset + 1); Some (r :: rs)
  end.
Definition key_ranks (OFF_MAX : Z) (file : list Z) (category key : Z) : option (list Z) :=
  match query_lookup OFF_MAX file category key with
  | None => Some []
  | Some (start, count) => read_postings OFF_MAX file (Z.to_nat count) empty_cache start 0
  end.

Section Index.
Context (OFF_MAX : Z) (qsort : list Z -> list Z) `{!QSort query_u32_cmp qsort} (cat : catalogue) `{!CatalogueOk cat}.

Lemma read_postings_ok h U file todo c start offset ps :
  index_file OFF_MAX qsort cat h U file -> cache_ok (map rank U) c -> 0 <= start -> 0 <= offset ->
  (length ps = Z.to_nat offset + todo)%nat -> start + Z.of_nat (length ps) <= Z.of_nat (length U) ->
  (forall i, 0 <= i < Z.of_nat (length ps) -> map rank U !! Z.to_nat (start + i) = ps !! Z.to_nat i) ->
  read_postings OFF_MAX file todo c start offset = Some (drop (Z.to_nat offset) ps).
Proof.
  intros Hf. revert c offset. induction todo as [|todo IH]; intros c offset Hc Hs Ho Hlen Hn Hp; cbn [read_postings].
  { by rewrite drop_ge by lia. }
  rewrite (if_image _ _ _ _ _ _ Hf).
  destruct (query_posting_ok OFF_MAX h (runs 0 U) (map rank U) (if_ok _ _ _ _ _ _ Hf) c start offset Hc Hs Ho) as (c' & -> & Hc').
  { rewrite length_map. lia. }
  rewrite Hp by lia. destruct (ps !! Z.to_nat offset) as [r|] eqn:Er; [|apply lookup_ge_None in Er; lia]. cbn [mbind option_bind].
  rewrite <- (if_image _ _ _ _ _ _ Hf), IH by (done || lia). cbn [mbind option_bind]. rewrite (drop_S _ _ _ Er). do 3 f_equal. lia.
Qed.
Lemma key_ranks_ok h U file c k : index_file OFF_MAX qsort cat h U file -> key_ranks OFF_MAX file c k = Some (posts U c k).
Proof.
  intros Hf. pose proof (query_lookup_ok OFF_MAX h U (if_ok _ _ _ _ _ _ Hf) (if_sorted _ _ _ _ _ _ Hf) c k) as H.
  unfold key_ranks. rewrite (if_image _ _ _ _ _ _ Hf). destruct (posts U c k) as [|p ps] eqn:E; [by rewrite H|].
  destruct H as (start & -> & H0 & H1 & H2). rewrite Nat2Z.id, <- (if_image _ _ _ _ _ _ Hf).
  rewrite (read_postings_ok h U file _ empty_cache start 0 (p :: ps) Hf); [done|apply empty_cache_ok|lia|lia|cbn; lia|lia|done].
Qed.

(** C2. Building the query index. With memory for the sort and room for the file,
    the build can only stop at a failing call; otherwise its file is accepted by the
    check the reader makes when it opens it (while ranks have 24 bits), and for every
    category and key the binary search and the decoded blocks give, in ascending
    order, exactly the ranks of the tuples that the catalogue has under that key. *)
Theorem query_build_correct (want_large malloc_large malloc_small : bool) io :
  room OFF_MAX qsort cat -> sort_memory want_large malloc_large malloc_small ->
  ran io (query_build OFF_MAX qsort want_large malloc_large malloc_small cat io)
    (fun file =>
       (rank_bound cat <= 16777216 -> query_validate OFF_MAX cat file (Z.of_nat (length file)) = true) /\
       forall c k, exists ranks, key_ranks OFF_MAX file c k = Some ranks /\ StronglySorted Z.lt ranks /\
         forall r, r ∈ ranks <-> {| category := c; key := k; rank := r |} ∈ cat_tuples qsort cat).
Proof using QSort0 CatalogueOk0.
  intros Hroom Hmem. eapply ran_weaken; [by apply query_build_ran|]. intros file (h & U & Hf). split.
  - intros Hr. by apply (query_validate_ok OFF_MAX qsort cat h U file).
  - intros c k. exists (posts U c k). split; [by apply (key_ranks_ok h U)|]. split; [apply posts_sorted, (if_sorted _ _ _ _ _ _ Hf)|].
    intros r. by rewrite elem_of_posts, (if_elem _ _ _ _ _ _ Hf).
Qed.
End Index.

(** ** Queries *)

(** What a rank must be to be asked for. *)
Definition same_name (a b : list Z) : Prop := fold_str a = fold_str b.
Definition asked_for (cat : catalogue) (domain : Z) (needle artist album_artist album : text) (r : Z) : Prop :=
  if 0 <=? domain then exists g, reader_group_at cat domain r = Some g /\ asks needle (occurs (name g) (chars needle))
  else exists s, song_at cat r s /\
    asks needle (needle_in domain (chars needle) s) /\
    asks artist (exists nm, nm ∈ split_artist (QueryIndex.artist s) /\ same_name nm (chars artist)) /\
    asks album_artist (same_name (QueryIndex.album_artist s) (chars album_artist)) /\
    asks album (same_name (QueryIndex.album s) (chars album)).

(** The open database is that of [cat], without an index or with the one built from it. *)
Definition built_index (OFF_MAX : Z) (qsort : list Z -> list Z) (db : database) : Prop :=
  match reader_query db with
  | None => True
  | Some file => room OFF_MAX qsort (db_cat db) /\ exists want_large malloc_large malloc_small io io',
      sort_memory want_large malloc_large malloc_small /\
      query_build OFF_MAX qsort want_large malloc_large malloc_small (db_cat db) io = Some (file, io')
  end.

Section Query.
Context (OFF_MAX : Z) (qsort : list Z -> list Z) `{!QSort query_u32_cmp qsort} (db : database).
Context `{!CatalogueOk (db_cat db)} (Hopen : db_open db = true) (Hindex : built_index OFF_MAX qsort db).
Context (domain : Z) (needle artist album_artist album : text) (Hdomain : domain <= 2).
Context (Hchars : forall t, t ∈ [needle; artist; album_artist; album] -> Forall is_char (chars t)).
Abbreviation query := (tagcache_query_begin OFF_MAX db domain needle artist album_artist album).

Lemma index_of_db : exists h U, match reader_query db with Some file => index_file OFF_MAX qsort (db_cat db) h U file | None => True end.
Proof using Hindex QSort0 CatalogueOk0.
  unfold built_index in Hindex. destruct (reader_query db) as [file|].
  - destruct Hindex as (Hroom & wl & ml & ms & io & io' & Hmem & E).
    pose proof (query_build_ran OFF_MAX qsort (db_cat db) wl ml ms io Hroom Hmem) as H. rewrite E in H. by destruct H as [H _].
  - by exists {| h_magic := 0; h_version := 0; directory_count := 0; h_reserved := 0; directory_offset := 0; postings_offset := 0;
      postings_count := 0; h_file_size := 0; h_generation := 0; h_serial := 0; h_commitid := 0; h_entry_count := 0;
      h_live_entries := 0; h_group_count := (0, 0, 0) |}, [].
Qed.
Lemma accepted_asked r :
  accepted db (empty_query domain needle artist album_artist album 0 false) r = true <->
  asked_for (db_cat db) domain needle artist album_artist album r.
Proof using Hopen CatalogueOk0 Hchars.
  assert (Forall is_char (chars needle) /\ Forall is_char (chars artist) /\ Forall is_char (chars album_artist) /\ Forall is_char (chars album))
    as (H1 & H2 & H3 & H4) by (split_and!; apply Hchars; rewrite !list.elem_of_cons; naive_solver).
  unfold asked_for. destruct (Z.leb_spec 0 domain) as [Hd|Hd].
  - unfold accepted. cbn [empty_query q_domain q_needle]. rewrite (proj2 (Z.leb_le 0 domain)) by lia. split.
    + destruct (reader_group_at _ domain r) as [g|]; [|done]. rewrite negb_asks, casestr_occurs. intros H. by exists g.
    + intros (g & -> & H). by rewrite negb_asks, casestr_occurs.
  - rewrite accepted_song by (done || exact Hd). cbn [empty_query q_domain].
    split; intros (s & Hs & H); exists s; (split; [done|]);
      [apply song_accepted_true in H|apply song_accepted_true]; cbn [empty_query q_needle q_domain q_artist q_album_artist q_album] in *;
      destruct H as (Hn & Ha & Haa & Hal); destruct (song_at_ok (db_cat db) r s Hs) as (_ & [Hca _] & Hcal & Hcaa);
      (split; [done|]); unfold asks, same_name in *.
    + split; [|split].
      * intros Ht. specialize (Ha Ht). apply tagcache_artist_matches_in in Ha; [|done..]. apply list_elem_of_In, in_map_iff in Ha as (nm & E & Hin).
        exists nm. split; [by apply list_elem_of_In|done].
      * intros Ht. apply ascii_casecmp_eq; [done|done|]. by apply Z.eqb_eq, Haa.
      * intros Ht. apply ascii_casecmp_eq; [done|done|]. by apply Z.eqb_eq, Hal.
    + split; [|split].
      * intros Ht. destruct (Ha Ht) as (nm & Hin & E). apply tagcache_artist_matches_in; [done..|]. rewrite <- E.
        apply list_elem_of_In, in_map. by apply list_elem_of_In.
      * intros Ht. apply Z.eqb_eq, ascii_casecmp_eq; [done|done|]. by apply Haa.
      * intros Ht. apply Z.eqb_eq, ascii_casecmp_eq; [done|done|]. by apply Hal.
Qed.
Lemma query_begun h U :
  match reader_query db with Some file => index_file OFF_MAX qsort (db_cat db) h U file | None => True end ->
  query_ok db U query /\ StronglySorted Z.lt (results db U query) /\
  forall r, r ∈ results db U query <-> asked_for (db_cat db) domain needle artist album_artist album r.
Proof using Hopen CatalogueOk0 QSort0 Hchars Hdomain.
  intros Hf. assert (Forall is_char (chars needle) /\ Forall is_char (chars artist) /\ Forall is_char (chars album_artist) /\ Forall is_char (chars album))
    as (H1 & H2 & H3 & H4) by (split_and!; apply Hchars; rewrite !list.elem_of_cons; naive_solver).
  destruct (Z.lt_ge_cases domain 0) as [Hd|Hd].
  - destruct (begin_song_ok OFF_MAX qsort db Hopen h U Hf domain needle artist album_artist album Hd H1 H2 H3 H4) as (Hq & Hs & He).
    split; [done|]. split; [done|]. intros r. by rewrite He, accepted_asked.
  - destruct (begin_group_ok OFF_MAX qsort db Hopen h U Hf domain needle artist album_artist album ltac:(lia) H1) as (Hq & Hs & He).
    split; [done|]. split; [done|]. intros r. rewrite He, <- accepted_asked.
    assert (q_domain query = domain /\ q_needle query = needle) as [Ed En]; [|unfold accepted; cbn [empty_query q_domain q_needle]; by rewrite Ed, En, !(proj2 (Z.leb_le 0 domain)) by lia].
    unfold tagcache_query_begin. rewrite (proj2 (Z.ltb_ge domain 0)) by lia. destruct (if db_open db then _ else _) as [file|]; [|done].
    destruct (query_nonempty needle); [|done]. destruct (default _ _) as [start count]. unfold choose_source. by destruct (_ || _).
Qed.
End Query.

(** C1. A query finds what it asks for. On a database that keeps its promises, with
    no index file or with the one [query_build] made of it, taking the results one
    after the other until there is none gives, in ascending order, exactly the ranks
    asked for: the groups whose name has the needle up to case, or the songs whose
    title (or artist) has it and that pass each filter that is not empty. So the
    index, the choice of the rarest source and the skipped re-checks change nothing. *)
Theorem tagcache_query_finds OFF_MAX qsort `{!QSort query_u32_cmp qsort} db `{!CatalogueOk (db_cat db)} domain needle artist album_artist album :
  db_open db = true -> built_index OFF_MAX qsort db -> domain <= 2 ->
  (forall t, t ∈ [needle; artist; album_artist; album] -> Forall is_char (chars t)) ->
  exists found, StronglySorted Z.lt found /\
    (forall r, r ∈ found <-> asked_for (db_cat db) domain needle artist album_artist album r) /\
    forall fuel, (length found < fuel)%nat ->
      drain OFF_MAX db fuel empty_cache (tagcache_query_begin OFF_MAX db domain needle artist album_artist album) = found.
Proof.
  intros Hopen Hindex Hd Hc. destruct (index_of_db OFF_MAX qsort db Hindex) as (h & U & Hf).
  destruct (query_begun OFF_MAX qsort db Hopen domain needle artist album_artist album Hd Hc h U Hf) as (Hq & Hs & He).
  eexists. split; [exact Hs|]. split; [exact He|]. intros fuel Hl.
  apply (drain_ok OFF_MAX qsort db Hopen h U Hf); [done|apply empty_cache_ok|done].
Qed.

(** C9. Counting and skipping agree with the results: the count is their number, and
    skipping [n] leaves what follows the first [n]. *)
Theorem tagcache_query_count_skip OFF_MAX qsort `{!QSort query_u32_cmp qsort} db `{!CatalogueOk (db_cat db)} domain needle artist album_artist album n :
  db_open db = true -> built_index OFF_MAX qsort db -> domain <= 2 ->
  (forall t, t ∈ [needle; artist; album_artist; album] -> Forall is_char (chars t)) ->
  exists fuel,
    let query := tagcache_query_begin OFF_MAX db domain needle artist album_artist album in
    let found := drain OFF_MAX db fuel empty_cache query in
    fst (fst (tagcache_query_count OFF_MAX db empty_cache query)) = Z.of_nat (length found) /\
    let '(query', cache) := tagcache_query_skip OFF_MAX db empty_cache query n in
    drain OFF_MAX db fuel cache query' = drop (Z.to_nat n) found /\ (length found < fuel)%nat.
Proof.
  intros Hopen Hindex Hd Hc. destruct (index_of_db OFF_MAX qsort db Hindex) as (h & U & Hf).
  destruct (query_begun OFF_MAX qsort db Hopen domain needle artist album_artist album Hd Hc h U Hf) as (Hq & Hs & He).
  set (q := tagcache_query_begin OFF_MAX db domain needle artist album_artist album) in *.
  assert (drain OFF_MAX db (S (length (results db U q))) empty_cache q = results db U q) as Ed
    by (apply (drain_ok OFF_MAX qsort db Hopen h U Hf); [done|apply empty_cache_ok|lia]).
  exists (S (length (results db U q))). cbn zeta. rewrite Ed.
  destruct (count_ok OFF_MAX qsort db Hopen h U Hf empty_cache q Hq (empty_cache_ok _)) as (q' & c' & E). rewrite E. split; [done|].
  destruct (skip_ok OFF_MAX qsort db Hopen h U Hf empty_cache q n Hq (empty_cache_ok _)) as (p & c'' & Hp & Hc'' & E' & Er). rewrite E'.
  split; [|lia]. rewrite <- Er. apply (drain_ok OFF_MAX qsort db Hopen h U Hf); [by apply at_position_ok|done|]. rewrite Er, length_drop. lia.
Qed.

(** ** A small library *)
Definition small_songs (slot : Z) : option song :=
  if slot =? 0 then Some {| title := [98]; artist := [120; 47; 89]; album := [109]; album_artist := [120] |}
  else if slot =? 2 then Some {| title := [65]; artist := [121]; album := [77]; album_artist := [88] |}
  else None.
Definition small_groups (kind i : Z) : option group :=
  let g n := Some {| name := n; g_album_artist := [] |} in
  if kind =? 0 then (if i =? 0 then g [120] else if i =? 1 then g [89] else None)
  else if kind =? 1 then (if i =? 0 then g [120] else None)
  else if kind =? 2 then (if i =? 0 then Some {| name := [109]; g_album_artist := [120] |} else None)
  else None.
Definition small : catalogue :=
  {| ent_count := 3; live_count := 2; reader_group_n := fun kind => if kind =? 0 then 2 else 1;
     disk_gen := 7; master_serial := 5; master_commitid := 3;
     slot_deleted := fun slot => Some (slot =? 1); reader_song_fields := small_songs;
     title_slot := fun r => if r =? 0 then Some 2 else if r =? 1 then Some 0 else None;
     reader_rank_of := fun slot => if slot =? 0 then 1 else 0;
     reader_group_at := small_groups |}.

Lemma small_slot slot : 0 <= slot < 3 -> slot = 0 \/ slot = 1 \/ slot = 2.
Proof. lia. Qed.
Lemma small_live slot s : live_song small slot s -> (slot = 0 \/ slot = 2) /\ small_songs slot = Some s.
Proof.
  intros (Hr & Hd & Hs). cbn [small ent_count slot_deleted reader_song_fields] in *.
  destruct (small_slot slot Hr) as [->|[->| ->]]; [by split; [left|]|done|by split; [right|]].
Qed.
Lemma small_group kind i g :
  small_groups kind i = Some g -> (kind = 0 /\ (i = 0 \/ i = 1)) \/ (kind = 1 /\ i = 0) \/ (kind = 2 /\ i = 0).
Proof.
  unfold small_groups. destruct (Z.eqb_spec kind 0), (Z.eqb_spec kind 1), (Z.eqb_spec kind 2), (Z.eqb_spec i 0), (Z.eqb_spec i 1); intros H; try done; lia.
Qed.
#[export] Instance small_ok : CatalogueOk small.
Proof.
  assert (forall l, forallb (fun c => (1 <=? c) && (c <=? 255)) l = true -> Forall is_char l) as Hchar.
  { intros l Hl. apply List.Forall_forall. intros c Hc. rewrite forallb_forall in Hl. specialize (Hl c Hc). unfold is_char. bool_prop. lia. }
  split; cbn [small ent_count live_count reader_group_n disk_gen master_serial master_commitid slot_deleted reader_song_fields title_slot
    reader_rank_of reader_group_at].
  - unfold INT32_MAX. lia.
  - intros kind Hk. unfold INT32_MAX. destruct (kind =? 0); lia.
  - unfold in_i32, INT_MAX. lia.
  - intros slot _. by eexists.
  - intros slot Hr Hd. destruct (small_slot slot Hr) as [->|[->| ->]]; [|done|]; eexists; (split; [reflexivity|]);
      unfold song_ok, reader_string; cbn [title artist album album_artist]; split_and!; try (by apply Hchar); cbn; unfold TAGCACHE_PATH_MAX; lia.
  - intros slot s Hs. apply small_live in Hs as [[->| ->] _]; cbn; split; done || lia.
  - intros r Hr. assert (r = 0 \/ r = 1) as [->| ->] by lia; eexists _, _; (split; [reflexivity|]); (split; [|done]); split; [cbn; lia|done|cbn; lia|done].
  - intros kind i Hk Hi. assert (kind = 0 \/ kind = 1 \/ kind = 2) as [->|[->| ->]] by lia; cbn in Hi;
      (assert (i = 0 \/ (i = 1 /\ i < 2)) as [->|[-> _]] by lia); try lia; eexists; (split; [reflexivity|]);
      unfold group_ok, reader_string; cbn [name g_album_artist]; split_and!; try (by apply Hchar); cbn; unfold TAGCACHE_PATH_MAX; lia.
  - intros kind i g Hg. apply small_group in Hg as [[-> [->| ->]]|[[-> ->]|[-> ->]]]; cbn; lia.
  - intros kind i j g g' _ Hij Hg Hg'. pose proof (small_group _ _ _ Hg) as H. pose proof (small_group _ _ _ Hg') as H'.
    assert (kind = 0 /\ i = 0 /\ j = 1) as (-> & -> & ->) by lia. cbn in Hg, Hg'. apply (inj Some) in Hg as <-. apply (inj Some) in Hg' as <-. done.
  - intros slot s nm Hs Hnm. apply small_live in Hs as [[->| ->] Hs]; cbn in Hs; apply (inj Some) in Hs as <-.
    + change (split_artist _) with [[120]; [89]] in Hnm. rewrite !list.elem_of_cons in Hnm.
      destruct Hnm as [->|[->|H]]; [exists 0|exists 1|by apply not_elem_of_nil in H]; by eexists.
    + change (split_artist _) with [[121]] in Hnm. apply list_elem_of_singleton in Hnm as ->. exists 1. by eexists.
  - intros slot s Hs. apply small_live in Hs as [[->| ->] Hs]; cbn in Hs; apply (inj Some) in Hs as <-; exists 0; by eexists.
  - intros slot s Hs. apply small_live in Hs as [[->| ->] Hs]; cbn in Hs; apply (inj Some) in Hs as <-; exists 0; by eexists.
Qed.

Definition small_sort : list Z -> list Z := isort query_u32_cmp.
Definition small_db : database :=
  {| db_open := true; db_cat := small; reader_query := fst <$> query_build INT64_MAX small_sort false false true small [] |}.

Lemma query_build_correct_witness :
  (room INT64_MAX small_sort small /\ sort_memory false false true) /\
  ran [] (query_build INT64_MAX small_sort false false true small [])
    (fun file =>
       (rank_bound small <= 16777216 -> query_validate INT64_MAX small file (Z.of_nat (length file)) = true) /\
       forall c k, exists ranks, key_ranks INT64_MAX file c k = Some ranks /\ StronglySorted Z.lt ranks /\
         forall r, r ∈ ranks <-> {| category := c; key := k; rank := r |} ∈ cat_tuples small_sort small).
Proof.
  assert (room INT64_MAX small_sort small) as H1 by (split; vm_compute; discriminate).
  assert (sort_memory false false true) as H2 by by left.
  split; [done|]. exact (query_build_correct INT64_MAX small_sort small false false true [] H1 H2).
Defined.
Lemma index_of_build OFF_MAX qsort cat want_large malloc_large malloc_small io b :
  room OFF_MAX qsort cat -> sort_memory want_large malloc_large malloc_small ->
  query_build OFF_MAX qsort want_large malloc_large malloc_small cat io = b ->
  built_index OFF_MAX qsort {| db_open := true; db_cat := cat; reader_query := fst <$> b |}.
Proof.
  intros Hroom Hmem Hb. destruct b as [[file io']|]; [|done]. split; [exact Hroom|].
  by exists want_large, malloc_large, malloc_small, io, io'.
Qed.
Lemma small_index : built_index INT64_MAX small_sort small_db.
Proof.
  assert (room INT64_MAX small_sort small) as Hroom by (split; vm_compute; discriminate).
  exact (index_of_build INT64_MAX small_sort small false false true [] _ Hroom (or_introl eq_refl) eq_refl).
Qed.
Example small_indexed : bool_decide (is_Some (reader_query small_db)) = true.
Proof. vm_compute. reflexivity. Qed.
Lemma small_chars t : t ∈ [Some [97]; Some [121]; None; None : text] -> Forall is_char (chars t).
Proof.
  rewrite !list.elem_of_cons. intros [->|[->|[->|[->|H]]]]; [..|by apply not_elem_of_nil in H]; repeat constructor; unfold is_char; lia.
Qed.
(** The songs by "y" with an "a" in the title or artist: the one at rank 0. *)
Lemma tagcache_query_finds_witness :
  exists found, StronglySorted Z.lt found /\
    (forall r, r ∈ found <-> asked_for small TAGCACHE_QUERY_SONGS (Some [97]) (Some [121]) None None r) /\
    (forall fuel, (length found < fuel)%nat ->
      drain INT64_MAX small_db fuel empty_cache
        (tagcache_query_begin INT64_MAX small_db TAGCACHE_QUERY_SONGS (Some [97]) (Some [121]) None None) = found).
Proof.
  apply (tagcache_query_finds INT64_MAX small_sort small_db TAGCACHE_QUERY_SONGS (Some [97]) (Some [121]) None None).
  - reflexivity.
  - apply small_index.
  - unfold TAGCACHE_QUERY_SONGS. lia.
  - exact small_chars.
Defined.
Example small_found :
  drain INT64_MAX small_db 5 empty_cache
    (tagcache_query_begin INT64_MAX small_db TAGCACHE_QUERY_SONGS (Some [97]) (Some [121]) None None) = [0].
Proof. vm_compute. reflexivity. Qed.
Lemma tagcache_query_count_skip_witness :
  exists fuel,
    let query := tagcache_query_begin INT64_MAX small_db TAGCACHE_QUERY_SONGS (Some [97]) (Some [121]) None None in
    let found := drain INT64_MAX small_db fuel empty_cache query in
    fst (fst (tagcache_query_count INT64_MAX small_db empty_cache query)) = Z.of_nat (length found) /\
    let '(query', cache) := tagcache_query_skip INT64_MAX small_db empty_cache query 1 in
    drain INT64_MAX small_db fuel cache query' = drop (Z.to_nat 1) found /\ (length found < fuel)%nat.
Proof.
  apply (tagcache_query_count_skip INT64_MAX small_sort small_db TAGCACHE_QUERY_SONGS (Some [97]) (Some [121]) None None 1).
  - reflexivity.
  - apply small_index.
  - unfold TAGCACHE_QUERY_SONGS. lia.
  - exact small_chars.
Defined.
