(* ===== verification/Aiff.v ===== *)
(** The AIFF reader, src/audio/aiff_decoder.c: the chunks of a file, and its
    samples as 16-bit or 32-bit integers. *)
From S2P Require Import Prelude Doubles AudioHelpers Stream.
Local Open Scope Z_scope.

Definition AIFF_MAX_CHUNK_FRAMES : Z := 8192.
Definition i16 (z : Z) : Z := (z + 32768) mod 65536 - 32768.
Definition i8 (z : Z) : Z := (z + 128) mod 256 - 128.

(** ** Data *)
Inductive decoder_read_status_t := DECODER_READ_OK | DECODER_READ_EOF | DECODER_READ_RECOVERABLE_ERROR | DECODER_READ_FATAL_ERROR.
Record decoder_read_result_t := { frames : Z; status : decoder_read_status_t }.
Record aiff_decoder := {
  f : stream; channels : Z; sample_rate : Z; bits_per_sample : Z; little_endian : bool; total_frames : Z;
  data_start_offset : Z; current_frame : Z; raw_buffer_capacity_bytes : Z; max_chunk_frames : Z }.
(** What [calloc] gives. *)
Definition no_decoder (s : stream) : aiff_decoder :=
  {| f := s; channels := 0; sample_rate := 0; bits_per_sample := 0; little_endian := false; total_frames := 0;
     data_start_offset := 0; current_frame := 0; raw_buffer_capacity_bytes := 0; max_chunk_frames := 0 |}.
Definition with_f (d : aiff_decoder) (s : stream) : aiff_decoder :=
  {| f := s; channels := channels d; sample_rate := sample_rate d; bits_per_sample := bits_per_sample d;
     little_endian := little_endian d; total_frames := total_frames d; data_start_offset := data_start_offset d;
     current_frame := current_frame d; raw_buffer_capacity_bytes := raw_buffer_capacity_bytes d; max_chunk_frames := max_chunk_frames d |}.
Definition with_frame (d : aiff_decoder) (s : stream) (frame : Z) : aiff_decoder :=
  {| f := s; channels := channels d; sample_rate := sample_rate d; bits_per_sample := bits_per_sample d;
     little_endian := little_endian d; total_frames := total_frames d; data_start_offset := data_start_offset d;
     current_frame := frame; raw_buffer_capacity_bytes := raw_buffer_capacity_bytes d; max_chunk_frames := max_chunk_frames d |}.

(** ** Numbers *)

(** [pow(2.0, k)]. *)
Definition pow2 (k : Z) : spec_float := SFldexp 53 1024 (dbl 1) k.
Definition read_ieee80_extended (bytes : list Z) : spec_float :=
  let b0 := default 0 (bytes !! 0%nat) in
  let sign := if Z.land b0 128 =? 0 then 1 else -1 in
  let exponent := Z.lor (Z.shiftl (Z.land b0 127) 8) (default 0 (bytes !! 1%nat)) in
  let mantissa := fold_bytes (take 8 (drop 2 bytes)) in
  if (exponent =? 0) && (mantissa =? 0) then S754_zero false else
  let value := dmul (dbl mantissa) (pow2 (exponent - 16383 - 63)) in
  dmul (dbl sign) value.

(** A sample of [bits] bits: on the left of an [int16_t], or, when [wide], as it
    is in an [int32_t] (8-bit samples are scaled to 16 bits in both). *)
Definition aiff_sample (wide : bool) (bits : Z) (little_endian : bool) (s : list Z) : Z :=
  let s0 := default 0 (s !! 0%nat) in let s1 := default 0 (s !! 1%nat) in let s2 := default 0 (s !! 2%nat) in
  let sample :=
    if bits =? 8 then Z.shiftl (i8 s0) 8
    else if bits =? 16 then
      if little_endian then i16 (Z.lor s0 (Z.shiftl s1 8)) else i16 (Z.lor (Z.shiftl s0 8) s1)
    else
      let s24 := if little_endian then Z.lor (Z.lor s0 (Z.shiftl s1 8)) (Z.shiftl s2 16)
                 else Z.lor (Z.lor (Z.shiftl s0 16) (Z.shiftl s1 8)) s2 in
      let s24 := if Z.land s24 8388608 =? 0 then s24 else i32 (Z.lor s24 4278190080) in
      if wide then s24 else Z.shiftr s24 8 in
  if wide then sample else i16 sample.

Section Aiff.
(** The file; the largest [long]; which allocations succeed, and what the
    conversion of a [double] that is no [uint32_t] gives. *)
Context (file : list Z) (LONG_MAX : Z) (malloc : Z -> bool) (undefined : spec_float -> Z).
Abbreviation to_long := (Stream.to_long LONG_MAX).
Abbreviation fread := (Stream.fread file).
Abbreviation fseek_set := (Stream.fseek_set LONG_MAX).

Definition SIZE_MAX : Z := 2 * LONG_MAX + 1.
Definition checked_mul_size (a b : Z) : option Z :=
  if negb (a =? 0) && (SIZE_MAX / a <? b) then None else Some (a * b).

(** ** Opening *)

(** The loop over the chunks, with the form type of the file: the decoder and
    which of the two chunks it has, [Some None] when the file is refused, [None]
    when the fuel is not enough. *)
Fixpoint chunks_loop (fuel : nat) (form : list Z) (dec : aiff_decoder) (have_comm have_ssnd : bool) : option (option (aiff_decoder * bool * bool)) :=
  match fuel with
  | O => None
  | S fuel =>
      let stop d := Some (Some (d, have_comm, have_ssnd)) in
      let '(chunk_header, s) := fread 8 (f dec) in
      if negb (length chunk_header =? 8)%nat then stop (with_f dec s) else
      let chunk_id := take 4 chunk_header in
      let chunk_size := default 0 (audio_read_u32be (drop 4 chunk_header)) in
      let chunk_data_start := s_pos s in
      let next d (comm ssnd : bool) :=
        if comm && ssnd then Some (Some (d, comm, ssnd)) else
        let next := chunk_data_start + to_long chunk_size + to_long (Z.land chunk_size 1) in
        if (next <? 0) || (LONG_MAX <? next) then Some (Some (d, comm, ssnd)) else
        chunks_loop fuel form (with_f d (fseek_set next (f d))) comm ssnd in
      if bool_decide (chunk_id = bs "COMM") && (18 <=? chunk_size) then
        let '(comm, s) := fread 18 s in
        if negb (length comm =? 18)%nat then stop (with_f dec s) else
        let d little s :=
          {| f := s; channels := default 0 (audio_read_u16be comm);
             sample_rate := (fun x => default (undefined x) (to_uint32 x)) (read_ieee80_extended (drop 8 comm));
             bits_per_sample := default 0 (audio_read_u16be (drop 6 comm)); little_endian := little;
             total_frames := default 0 (audio_read_u32be (drop 2 comm)); data_start_offset := data_start_offset dec;
             current_frame := current_frame dec; raw_buffer_capacity_bytes := raw_buffer_capacity_bytes dec;
             max_chunk_frames := max_chunk_frames dec |} in
        if bool_decide (form = bs "AIFC") && (22 <=? chunk_size) then
          let '(comp_type, s) := fread 4 s in
          if negb (length comp_type =? 4)%nat then next (d false s) true have_ssnd else
          if bool_decide (comp_type = bs "sowt") then next (d true s) true have_ssnd
          else if bool_decide (comp_type = bs "NONE") then next (d false s) true have_ssnd else Some None
        else next (d false s) true have_ssnd
      else if bool_decide (chunk_id = bs "SSND") then
        let '(ssnd_header, s) := fread 8 s in
        if negb (length ssnd_header =? 8)%nat then stop (with_f dec s) else
        let data_offset := default 0 (audio_read_u32be ssnd_header) in
        next {| f := s; channels := channels dec; sample_rate := sample_rate dec; bits_per_sample := bits_per_sample dec;
                little_endian := little_endian dec; total_frames := total_frames dec;
                data_start_offset := chunk_data_start + 8 + to_long data_offset; current_frame := current_frame dec;
                raw_buffer_capacity_bytes := raw_buffer_capacity_bytes dec; max_chunk_frames := max_chunk_frames dec |} have_comm true
      else next (with_f dec s) have_comm have_ssnd
  end.
(** Chunk headers of eight bytes, each after the last, fit the file at most so often. *)
Definition chunks_fuel : nat := S (length file).

Definition aiff_open_file (fopen calloc : bool) : option (option aiff_decoder) :=
  if negb fopen then Some None else
  let '(header, s) := fread 12 {| s_pos := 0; s_eof := false |} in
  let form := drop 8 header in
  if negb (length header =? 12)%nat || negb (bool_decide (take 4 header = bs "FORM")) ||
     (negb (bool_decide (form = bs "AIFF")) && negb (bool_decide (form = bs "AIFC"))) then Some None else
  if negb calloc then Some None else
  r ← chunks_loop chunks_fuel form (no_decoder s) false false;
  match r with
  | None => Some None
  | Some (dec, have_comm, have_ssnd) =>
      if negb have_comm || negb have_ssnd || (channels dec =? 0) || (8 <? channels dec) ||
         (negb (bits_per_sample dec =? 8) && negb (bits_per_sample dec =? 16) && negb (bits_per_sample dec =? 24)) then Some None else
      let bytes_per_sample := bits_per_sample dec / 8 in
      match frame_bytes ← checked_mul_size (channels dec) bytes_per_sample; checked_mul_size AIFF_MAX_CHUNK_FRAMES frame_bytes with
      | None => Some None
      | Some capacity =>
          if negb (malloc capacity) then Some None else
          Some (Some {| f := fseek_set (data_start_offset dec) (f dec); channels := channels dec; sample_rate := sample_rate dec;
            bits_per_sample := bits_per_sample dec; little_endian := little_endian dec; total_frames := total_frames dec;
            data_start_offset := data_start_offset dec; current_frame := current_frame dec;
            raw_buffer_capacity_bytes := capacity; max_chunk_frames := AIFF_MAX_CHUNK_FRAMES |})
      end
  end.

Definition aiff_get_channels (dec : option aiff_decoder) : Z := match dec with Some dec => channels dec | None => 0 end.
Definition aiff_get_sample_rate (dec : option aiff_decoder) : Z := match dec with Some dec => sample_rate dec | None => 0 end.
Definition aiff_get_bits_per_sample (dec : option aiff_decoder) : Z := match dec with Some dec => bits_per_sample dec | None => 0 end.
Definition aiff_get_total_pcm_frame_count (dec : option aiff_decoder) : Z := match dec with Some dec => total_frames dec | None => 0 end.

(** ** Reading *)

(** The samples in the first [count * bytes_per_sample] bytes of the buffer. *)
Definition samples_of (wide : bool) (dec : aiff_decoder) (count : nat) (raw : list Z) : list Z :=
  let bytes_per_sample := Z.to_nat (bits_per_sample dec / 8) in
  map (fun i => aiff_sample wide (bits_per_sample dec) (little_endian dec) (take bytes_per_sample (drop (i * bytes_per_sample) raw))) (seq 0 count).

(** The loop over the chunks of a request: the frames read, the status, the
    samples after those of [out]. [None] when the fuel is not enough. *)
Fixpoint read_chunks (fuel : nat) (wide : bool) (dec : aiff_decoder) (frames_to_read read : Z) (out : list Z)
    : option (decoder_read_result_t * list Z * aiff_decoder) :=
  match fuel with
  | O => None
  | S fuel =>
      if negb (read <? frames_to_read) then Some ({| frames := read; status := DECODER_READ_OK |}, out, dec) else
      let frame_bytes := channels dec * (bits_per_sample dec / 8) in
      let chunk := Z.min (frames_to_read - read) (max_chunk_frames dec) in
      let '(raw, s) := fread (chunk * frame_bytes) (f dec) in
      let frames_read := Z.of_nat (length raw) / frame_bytes in
      if frames_read =? 0 then Some ({| frames := read; status := DECODER_READ_EOF |}, out, with_f dec s) else
      let out := out ++ samples_of wide dec (Z.to_nat (frames_read * channels dec)) raw in
      let dec := with_frame dec s (u64 (current_frame dec + frames_read)) in
      if frames_read <? chunk
      then Some ({| frames := read + frames_read; status := if s_eof s then DECODER_READ_EOF else DECODER_READ_OK |}, out, dec)
      else read_chunks fuel wide dec frames_to_read (read + frames_read) out
  end.

(** [aiff_read_pcm_frames_s16] and, [wide], [aiff_read_pcm_frames_s32]. A read of
    the file does not fail here: it gives what there is. *)
Definition read_pcm_frames (wide : bool) (dec : option aiff_decoder) (frames_to_read : Z) (buffer_out : bool)
    : option (decoder_read_result_t * list Z * option aiff_decoder) :=
  match dec with
  | None => Some ({| frames := 0; status := DECODER_READ_FATAL_ERROR |}, [], None)
  | Some dec =>
      if negb buffer_out then Some ({| frames := 0; status := DECODER_READ_FATAL_ERROR |}, [], Some dec) else
      if total_frames dec <=? current_frame dec then Some ({| frames := 0; status := DECODER_READ_EOF |}, [], Some dec) else
      let frame_bytes := channels dec * (bits_per_sample dec / 8) in
      if frame_bytes =? 0 then Some ({| frames := 0; status := DECODER_READ_FATAL_ERROR |}, [], Some dec) else
      let frames_to_read := Z.min frames_to_read (total_frames dec - current_frame dec) in
      '(res, out, dec) ← read_chunks (S (S (length file))) wide dec frames_to_read 0 [];
      let status :=
        if 0 <? frames res then DECODER_READ_OK
        else match status res with
             | DECODER_READ_OK => if total_frames dec <=? current_frame dec then DECODER_READ_EOF else DECODER_READ_FATAL_ERROR
             | status => status
             end in
      Some ({| frames := frames res; status := status |}, out, Some dec)
  end.
Definition aiff_read_pcm_frames_s16 := read_pcm_frames false.
Definition aiff_read_pcm_frames_s32 := read_pcm_frames true.

Definition aiff_seek_to_pcm_frame (dec : option aiff_decoder) (frame_index : Z) : bool * option aiff_decoder :=
  match dec with
  | None => (false, None)
  | Some dec =>
      let frame_index := Z.min frame_index (total_frames dec) in
      let frame_bytes := channels dec * (bits_per_sample dec / 8) in
      let byte_offset := data_start_offset dec + to_long (u64 (frame_index * frame_bytes)) in
      if (byte_offset <? 0) || (LONG_MAX <? byte_offset) then (false, Some dec)
      else (true, Some (with_frame dec (fseek_set byte_offset (f dec)) frame_index))
  end.
End Aiff.
