(* ===== verification/AiffProofs.v ===== *)
(** The AIFF reader: samples come back as they were written, whatever the sizes
    of the requests and after any seek, and a request gets no more than it asks. *)
From S2P Require Import Prelude Endian Memory Doubles AudioHelpers Stream Aiff.
Local Open Scope Z_scope.

(** ** Samples *)

(** A sample of [bits] bits as it lies in the file. *)
Definition sample_bytes (bits : Z) (little_endian : bool) (v : Z) : list Z :=
  let l := le_bytes (Z.to_nat (bits / 8)) (v mod 2 ^ bits) in if little_endian then l else rev l.
(** What the caller gets for it. *)
Definition scaled (wide : bool) (bits v : Z) : Z :=
  if bits =? 8 then v * 256 else if (bits =? 24) && negb wide then v / 256 else v.
Definition bits_ok (bits : Z) : Prop := bits = 8 \/ bits = 16 \/ bits = 24.

Lemma sign_bit_24 x : 0 <= x < 16777216 -> (Z.land x 8388608 =? 0) = (x <? 8388608).
Proof.
  intros Hx. change 8388608 with (2 ^ 23) at 1. rewrite land_bit, Z.testbit_eqb by lia. change (2 ^ 23) with 8388608.
  destruct (Z.ltb_spec x 8388608); destruct (Z.eqb_spec ((x / 8388608) mod 2) 1); try done; div_lia.
Qed.
Lemma sign_extend_24 x : 8388608 <= x < 16777216 -> i32 (Z.lor x 4278190080) = x - 16777216.
Proof.
  intros Hx. change 4278190080 with (Z.shiftl 255 24). rewrite Z.lor_comm, lor_shiftl_add by lia. unfold i32. div_lia.
Qed.

(** Reading three, two or one bytes back. *)
Lemma le_bytes_3 x : 0 <= x < 16777216 -> Z.lor (Z.lor (x mod 256) (Z.shiftl (x / 256 mod 256) 8)) (Z.shiftl (x / 256 / 256 mod 256) 16) = x.
Proof. intros Hx. rewrite (lor_field (x mod 256) _ 8) by div_lia. rewrite lor_field by div_lia. div_lia. Qed.
Lemma be_bytes_3 x : 0 <= x < 16777216 -> Z.lor (Z.lor (Z.shiftl (x / 256 / 256 mod 256) 16) (Z.shiftl (x / 256 mod 256) 8)) (x mod 256) = x.
Proof.
  intros Hx. change 16 with (8 + 8) at 1. rewrite <- Z.shiftl_shiftl, <- Z.shiftl_lor by lia.
  rewrite (lor_shiftl_add _ (x / 256 mod 256) 8) by div_lia. rewrite lor_shiftl_add by div_lia. div_lia.
Qed.
Lemma aiff_sample_bytes wide bits little v :
  bits_ok bits -> - 2 ^ (bits - 1) <= v < 2 ^ (bits - 1) -> aiff_sample wide bits little (sample_bytes bits little v) = scaled wide bits v.
Proof.
  intros [->|[->| ->]] Hv; unfold aiff_sample, sample_bytes, scaled.
  - change (8 =? 8) with true. cbv iota. change (Z.to_nat (8 / 8)) with 1%nat. change (2 ^ 8) with 256. change (2 ^ (8 - 1)) with 128 in Hv.
    assert (default 0 ((if little then le_bytes 1 (v mod 256) else rev (le_bytes 1 (v mod 256))) !! 0%nat) = v mod 256) as -> by (destruct little; cbn; div_lia).
    rewrite Z.shiftl_mul_pow2 by lia. change (2 ^ 8) with 256. unfold i8, i16. destruct wide; div_lia.
  - change (16 =? 8) with false. change (16 =? 16) with true. change (16 =? 24) with false. cbv iota. cbn [andb negb].
    change (Z.to_nat (16 / 8)) with 2%nat. change (2 ^ 16) with 65536. change (2 ^ (16 - 1)) with 32768 in Hv.
    assert (i16 (v mod 65536) = v /\ i16 v = v) as [E E'] by (unfold i16; div_lia).
    destruct little; cbn [le_bytes rev app lookup list_lookup default from_option id];
      rewrite ?lor_field, ?lor_shiftl_add by div_lia; [|rewrite Z.add_comm];
      (replace (v mod 65536 mod 256 + v mod 65536 / 256 mod 256 * 2 ^ 8) with (v mod 65536) by div_lia); rewrite E; by destruct wide; rewrite ?E'.
  - change (24 =? 8) with false. change (24 =? 16) with false. change (24 =? 24) with true. cbv iota. cbn [andb negb].
    change (Z.to_nat (24 / 8)) with 3%nat. change (2 ^ 24) with 16777216. change (2 ^ (24 - 1)) with 8388608 in Hv.
    assert (0 <= v mod 16777216 < 16777216) as Hx by div_lia.
    destruct little; cbn [le_bytes rev app lookup list_lookup default from_option id]; rewrite ?le_bytes_3, ?be_bytes_3, sign_bit_24 by done.
    all: destruct (Z.ltb_spec (v mod 16777216) 8388608); rewrite ?sign_extend_24 by lia;
      [assert (v mod 16777216 = v) as -> by div_lia|assert (v mod 16777216 - 16777216 = v) as -> by div_lia];
      destruct wide; cbn [negb]; [done| |done|]; rewrite Z.shiftr_div_pow2 by lia; change (2 ^ 8) with 256; unfold i16; div_lia.
Qed.

(** ** Big-endian fields *)
Definition be_bytes (n : nat) (v : Z) : list Z := rev (le_bytes n v).
Lemma length_be_bytes n v : length (be_bytes n v) = n.
Proof. unfold be_bytes. by rewrite length_rev, length_le_bytes. Qed.
Lemma audio_read_u16be_bytes v rest : 0 <= v < 65536 -> audio_read_u16be (be_bytes 2 v ++ rest) = Some v.
Proof.
  intros Hv. unfold be_bytes, audio_read_u16be. cbn [le_bytes rev app lookup list_lookup mbind option_bind].
  rewrite Z.shiftl_mul_pow2 by lia. change (2 ^ 8) with 256. rewrite (Z.mod_small (v / 256)) by div_lia.
  assert (u16 (v / 256 * 256) = Z.shiftl (v / 256) 8) as -> by (rewrite Z.shiftl_mul_pow2 by lia; unfold u16; change (2 ^ 8) with 256; div_lia).
  rewrite lor_shiftl_add by div_lia. unfold u16. f_equal. change (2 ^ 8) with 256. div_lia.
Qed.
Lemma audio_read_u32be_bytes v rest : in_u32 v -> audio_read_u32be (be_bytes 4 v ++ rest) = Some v.
Proof.
  intros Hv. unfold be_bytes, audio_read_u32be. cbn [le_bytes rev app lookup list_lookup mbind option_bind]. unfold in_u32 in Hv.
  set (b0 := v mod 256). set (b1 := v / 256 mod 256). set (b2 := v / 256 / 256 mod 256). set (b3 := v / 256 / 256 / 256 mod 256).
  assert (v = b0 + b1 * 256 + b2 * 65536 + b3 * 16777216 /\ 0 <= b0 < 256 /\ 0 <= b1 < 256 /\ 0 <= b2 < 256 /\ 0 <= b3 < 256) as (E & H0 & H1 & H2 & H3)
    by (subst b0 b1 b2 b3; div_lia).
  clearbody b0 b1 b2 b3. f_equal.
  assert (forall b k, 0 <= b < 256 -> 0 <= k <= 24 -> u32 (Z.shiftl b k) = Z.shiftl b k) as Hid.
  { intros b k Hb Hk. apply u32_id. unfold in_u32. rewrite Z.shiftl_mul_pow2 by lia.
    pose proof (Z.pow_le_mono_r 2 k 24). change (2 ^ 24) with 16777216 in *. pose proof (Z.pow_pos_nonneg 2 k). nia. }
  rewrite !Hid by lia. change 24 with (8 + 16) at 1. change 16 with (8 + 8). rewrite <- !Z.shiftl_shiftl, <- !Z.shiftl_lor by lia.
  rewrite (lor_shiftl_add _ b2 8), (lor_shiftl_add _ b1 8), (lor_shiftl_add _ b0 8) by lia. lia.
Qed.

Lemma length_sample bits little v : length (sample_bytes bits little v) = Z.to_nat (bits / 8).
Proof. unfold sample_bytes. destruct little; by rewrite ?length_rev, length_le_bytes. Qed.
Lemma length_samples bits little l : length (concat (map (sample_bytes bits little) l)) = (Z.to_nat (bits / 8) * length l)%nat.
Proof. apply length_concat_records, length_sample. Qed.

(** ** Reading *)
Section Reading.
Context (file : list Z) (LONG_MAX : Z).
(** What the header said, and the samples that lie at [start]. *)
Context (bits ch start : Z) (little : bool) (pcm : list Z) (total : nat).
Context (Hbits : bits_ok bits) (Hch : 1 <= ch <= 8) (Hpcm : length pcm = (total * Z.to_nat ch)%nat).
Context (Hrange : Forall (fun v => - 2 ^ (bits - 1) <= v < 2 ^ (bits - 1)) pcm) (Htotal : Z.of_nat total < 4294967296).
Context (Hdata : holds file start (concat (map (sample_bytes bits little) pcm))) (Hlong : Z.of_nat (length file) <= LONG_MAX).
Abbreviation bps := (Z.to_nat (bits / 8)).
Abbreviation frame_bytes := (ch * (bits / 8)).

(** A decoder of this file, and one that stands before frame [k]. *)
Record tuned (d : aiff_decoder) : Prop := {
  tu_bits : bits_per_sample d = bits; tu_channels : channels d = ch; tu_little : little_endian d = little;
  tu_total : total_frames d = Z.of_nat total; tu_start : data_start_offset d = start; tu_chunk : max_chunk_frames d = AIFF_MAX_CHUNK_FRAMES }.
Definition before (d : aiff_decoder) (k : nat) : Prop :=
  tuned d /\ (k <= total)%nat /\ current_frame d = Z.of_nat k /\ f d = at_ (start + Z.of_nat k * frame_bytes).

Lemma bits_bytes : bits / 8 = Z.of_nat bps /\ (1 <= bps)%nat.
Proof. by destruct Hbits as [->|[->| ->]]; (split; [done|by apply Nat.leb_le]). Qed.
(** The frames from [k] on, [m] of them. *)
Definition frames_at (k m : nat) : list Z := take (m * Z.to_nat ch) (drop (k * Z.to_nat ch) pcm).
Lemma length_frames k m : (k + m <= total)%nat -> length (frames_at k m) = (m * Z.to_nat ch)%nat.
Proof. intros H. unfold frames_at. rewrite length_take, length_drop, Hpcm. nia. Qed.
Lemma frames_bytes k m :
  (k + m <= total)%nat ->
  holds file (start + Z.of_nat k * frame_bytes) (concat (map (sample_bytes bits little) (frames_at k m))).
Proof.
  intros H. unfold frames_at. pose proof Hdata as Hd. rewrite <- (take_drop (k * Z.to_nat ch) pcm), map_app, concat_app in Hd.
  apply holds_app in Hd as [_ Hd]. rewrite <- (take_drop (m * Z.to_nat ch) (drop _ pcm)), map_app, concat_app in Hd.
  apply holds_app in Hd as [Hd _]. rewrite length_samples, length_take, Hpcm, Nat.min_l in Hd by nia.
  destruct bits_bytes as [Eb _]. by replace (start + Z.of_nat k * frame_bytes) with (start + Z.of_nat (bps * (k * Z.to_nat ch))) by (rewrite Eb; nia).
Qed.
Lemma samples_of_bytes wide d l :
  tuned d -> Forall (fun v => - 2 ^ (bits - 1) <= v < 2 ^ (bits - 1)) l ->
  samples_of wide d (length l) (concat (map (sample_bytes bits little) l)) = map (scaled wide bits) l.
Proof.
  intros Hd Hl. unfold samples_of. rewrite (tu_bits _ Hd), (tu_little _ Hd).
  rewrite <- (map_map (fun i => take bps (drop (i * bps) (concat (map (sample_bytes bits little) l)))) (aiff_sample wide bits little)).
  rewrite records_seq, <- (app_nil_r (concat _)), (records_map _ bps) by apply length_sample.
  rewrite map_map. apply map_ext_in. intros v Hv. apply aiff_sample_bytes; [done|]. by apply (proj1 (List.Forall_forall _ _) Hl).
Qed.

Lemma frames_at_range k m : Forall (fun v => - 2 ^ (bits - 1) <= v < 2 ^ (bits - 1)) (frames_at k m).
Proof. unfold frames_at. by apply Forall_take, Forall_drop. Qed.
Lemma frames_at_app k m n : frames_at k (m + n) = frames_at k m ++ frames_at (k + m) n.
Proof.
  unfold frames_at. by rewrite !Nat.mul_add_distr_r, <- drop_drop, take_take_drop.
Qed.
(** A chunk of a request: [m] frames at once. *)
Lemma read_frames_here wide d k m :
  before d k -> (k + m <= total)%nat ->
  exists raw, fread file (Z.of_nat m * frame_bytes) (f d) = (raw, at_ (start + Z.of_nat (k + m) * frame_bytes)) /\
    Z.of_nat (length raw) / frame_bytes = Z.of_nat m /\ samples_of wide d (m * Z.to_nat ch) raw = map (scaled wide bits) (frames_at k m).
Proof.
  intros (Hd & Hk & Hcur & Hf) Hm. exists (concat (map (sample_bytes bits little) (frames_at k m))).
  destruct bits_bytes as [Eb Hb]. pose proof (length_frames k m Hm) as Hlen.
  rewrite Hf, (fread_here _ (Z.of_nat m * frame_bytes) _ (frames_bytes k m Hm)) by (rewrite length_samples, Hlen, Eb; nia).
  split; [f_equal; f_equal; rewrite Nat2Z.inj_add; lia|]. split.
  - rewrite length_samples, Hlen. replace (Z.of_nat (bps * (m * Z.to_nat ch))) with (Z.of_nat m * frame_bytes) by (rewrite Eb; nia).
    apply Z.div_mul. rewrite Eb. nia.
  - rewrite <- Hlen. apply samples_of_bytes; [done|apply frames_at_range].
Qed.

(** The loop gives the frames asked for, in as many chunks as it takes. *)
Lemma read_chunks_frames wide fuel d k read want out :
  before d k -> (read <= want)%nat -> (k + (want - read) <= total)%nat -> (want - read < fuel)%nat ->
  exists d', read_chunks file fuel wide d (Z.of_nat want) (Z.of_nat read) out =
    Some ({| frames := Z.of_nat want; status := DECODER_READ_OK |}, out ++ map (scaled wide bits) (frames_at k (want - read)), d') /\
    before d' (k + (want - read)).
Proof.
  revert d k read out. induction fuel as [|fuel IH]; intros d k read out Hd Hread Hk Hfuel; [lia|]. cbn [read_chunks].
  destruct (Z.ltb_spec (Z.of_nat read) (Z.of_nat want)) as [Hlt|Hge]; cbn [negb].
  2: { exists d. assert (want = read) as -> by lia. rewrite Nat.sub_diag, Nat.add_0_r. unfold frames_at. by rewrite app_nil_r. }
  pose proof Hd as ([Eb Ec El Et Es Em] & Hkt & Hcur & Hf). rewrite Eb, Ec, Em.
  set (m := Nat.min (want - read) (Z.to_nat AIFF_MAX_CHUNK_FRAMES)). assert (1 <= m <= want - read)%nat as Hm by (unfold AIFF_MAX_CHUNK_FRAMES in m; lia).
  replace (Z.min (Z.of_nat want - Z.of_nat read) AIFF_MAX_CHUNK_FRAMES) with (Z.of_nat m) by (unfold AIFF_MAX_CHUNK_FRAMES in *; lia).
  destruct (read_frames_here wide d k m Hd) as (raw & Eread & Ecount & Esamples); [lia|]. rewrite Eread, Ecount.
  rewrite (proj2 (Z.eqb_neq _ _)), Z.ltb_irrefl by lia.
  replace (Z.to_nat (Z.of_nat m * ch)) with (m * Z.to_nat ch)%nat by lia. rewrite Esamples.
  replace (Z.of_nat read + Z.of_nat m) with (Z.of_nat (read + m)) by lia.
  set (d1 := with_frame _ _ _). assert (before d1 (k + m)) as Hd1.
  { split; [by split|]. split; [lia|]. split; [|done]. subst d1. cbn. rewrite Hcur. unfold u64. rewrite Z.mod_small by lia. lia. }
  destruct (IH d1 (k + m)%nat (read + m)%nat (out ++ map (scaled wide bits) (frames_at k m)) Hd1) as (d' & E & Hd'); [lia..|].
  exists d'. replace (want - read)%nat with (m + (want - (read + m)))%nat by lia. rewrite E, Nat.add_assoc.
  split; [|done]. by rewrite frames_at_app, map_app, app_assoc.
Qed.

(** A request gets the frames from where the decoder stands, as many as are left. *)
Lemma read_pcm_frames_before wide d k n :
  before d k -> (k < total)%nat -> 0 < n -> let m := Nat.min (Z.to_nat n) (total - k) in
  exists d', read_pcm_frames file wide (Some d) n true =
    Some ({| frames := Z.of_nat m; status := DECODER_READ_OK |}, map (scaled wide bits) (frames_at k m), Some d') /\ before d' (k + m).
Proof.
  intros Hd Hk Hn m. assert (1 <= m <= total - k)%nat as Hm by lia. pose proof Hd as ([Eb Ec El Et Es Em] & Hkt & Hcur & Hf). unfold read_pcm_frames. cbn [negb].
  rewrite Et, Hcur, Eb, Ec, (proj2 (Z.leb_gt _ _)) by lia. destruct bits_bytes as [Ebits Hb]. rewrite (proj2 (Z.eqb_neq _ 0)) by nia.
  replace (Z.min n (Z.of_nat total - Z.of_nat k)) with (Z.of_nat m) by (unfold m; lia). clearbody m.
  destruct (read_chunks_frames wide (S (S (length file))) d k 0 m [] Hd) as (d' & E & Hd'); [lia|lia| |].
  { pose proof (frames_bytes k m ltac:(lia)) as Hh. destruct m as [|m']; [lia|]. apply holds_end in Hh.
    - rewrite length_samples, length_frames in Hh by lia. pose proof (proj1 Hdata).
      assert (1 <= bps * Z.to_nat ch)%nat by nia. assert (S m' <= bps * (S m' * Z.to_nat ch))%nat by nia. lia.
    - intros E%(f_equal length). rewrite length_samples, length_frames in E by lia. cbn in E. nia. }
  rewrite Nat.sub_0_r in *. change (Z.of_nat 0) with 0 in E. rewrite E. cbn [mbind option_bind frames]. rewrite (proj2 (Z.ltb_lt _ _)) by lia.
  by exists d'.
Qed.

(** Seeking needs nothing of where the decoder was. *)
Lemma seek_before d k :
  tuned d -> Z.of_nat (total * (bps * Z.to_nat ch)) + start <= LONG_MAX -> LONG_MAX < 2 ^ 64 -> 0 <= k ->
  exists d', aiff_seek_to_pcm_frame LONG_MAX (Some d) k = (true, Some d') /\ before d' (Nat.min (Z.to_nat k) total).
Proof.
  intros Hd Hmax Hwide Hk. change (2 ^ 64) with 18446744073709551616 in Hwide. pose proof Hd as [Eb Ec El Et Es Em]. unfold aiff_seek_to_pcm_frame. rewrite Eb, Ec, Et, Es.
  replace (Z.min k (Z.of_nat total)) with (Z.of_nat (Nat.min (Z.to_nat k) total)) by lia. set (k' := Nat.min _ _).
  assert (k' <= total)%nat as Hk' by lia. clearbody k'. destruct bits_bytes as [Ebits Hb]. pose proof (proj1 Hdata).
  assert (Z.of_nat (total * (bps * Z.to_nat ch)) = Z.of_nat total * frame_bytes) as Etotal by (rewrite Ebits; nia). rewrite Etotal in Hmax.
  assert (0 <= frame_bytes) as Hpos by nia. clear Ebits. remember frame_bytes as fb eqn:Efb.
  assert (0 <= Z.of_nat k' * fb <= Z.of_nat total * fb) as Hoff by nia. set (off := Z.of_nat k' * fb) in *.
  assert (u64 off = off) as -> by (unfold u64; rewrite Z.mod_small; lia).
  rewrite to_long_id by lia. rewrite (proj2 (Z.ltb_ge _ 0)), (proj2 (Z.ltb_ge LONG_MAX _)) by lia. cbn [orb].
  eexists. split; [reflexivity|]. split; [by split|]. split; [done|]. split; [done|]. cbn. rewrite <- Efb. apply fseek_set_at. lia.
Qed.

(** Reading and seeking leave what the header said. *)
Lemma read_chunks_tuned wide fuel d want read out r out' d' :
  tuned d -> read_chunks file fuel wide d want read out = Some (r, out', d') -> tuned d'.
Proof.
  revert d read out. induction fuel as [|fuel IH]; intros d read out Hd; [done|]. cbn [read_chunks].
  destruct (negb _); [by intros [= _ _ <-]|]. destruct (fread file _ (f d)) as [raw s].
  destruct (_ =? 0); [intros [= _ _ <-]; by destruct Hd|]. destruct (_ <? _); [intros [= _ _ <-]; by destruct Hd|].
  apply IH. by destruct Hd.
Qed.
Lemma read_pcm_frames_tuned wide d n buffer r out d' :
  tuned d -> read_pcm_frames file wide (Some d) n buffer = Some (r, out, d') -> exists d1, d' = Some d1 /\ tuned d1.
Proof.
  intros Hd. unfold read_pcm_frames. destruct (negb buffer); [intros [= _ _ <-]; by eauto|].
  destruct (_ <=? _); [intros [= _ _ <-]; by eauto|]. destruct (_ =? 0); [intros [= _ _ <-]; by eauto|].
  destruct (read_chunks _ _ _ _ _ _ _) as [[[res out'] d1]|] eqn:E; [|done]. cbn [mbind option_bind]. intros [= _ _ <-].
  exists d1. split; [done|]. by apply read_chunks_tuned in E.
Qed.
Lemma seek_tuned d k b d' : tuned d -> aiff_seek_to_pcm_frame LONG_MAX (Some d) k = (b, d') -> exists d1, d' = Some d1 /\ tuned d1.
Proof. intros Hd. unfold aiff_seek_to_pcm_frame. destruct (_ || _); intros [= _ <-]; (eexists; split; [done|]); by destruct Hd. Qed.
End Reading.
