(* ===== verification/AiffFile.v ===== *)
(** Whole AIFF files: the chunks as they are written, in any order and between
    others, and that the samples come back from anywhere in the file. *)
From S2P Require Import Prelude Endian Memory Doubles AudioHelpers Stream Aiff AiffProofs.
Local Open Scope Z_scope.

(** ** Files *)
Inductive aiff_chunk := Common | Sound | OtherChunk (id body : list Z).
Record aiff_file := {
  form : list Z; form_size : list Z; chunks : list aiff_chunk; trailer : list Z;
  ch : Z; bits : Z; rate : list Z; little : bool; compression_tail : list Z;
  block_size : list Z; skipped : list Z; total : nat; pcm : list Z }.
Definition pad (n : nat) : list Z := replicate (n mod 2) 0.
Definition comm_fields (a : aiff_file) : list Z := be_bytes 2 (ch a) ++ be_bytes 4 (Z.of_nat (total a)) ++ be_bytes 2 (bits a) ++ rate a.
Definition comm_tail (a : aiff_file) : list Z :=
  if bool_decide (form a = bs "AIFC") then (if little a then bs "sowt" else bs "NONE") ++ compression_tail a else [].
Definition comm_body (a : aiff_file) : list Z := comm_fields a ++ comm_tail a.
Definition samples_bytes (a : aiff_file) : list Z := concat (map (sample_bytes (bits a) (little a)) (pcm a)).
Definition sound_body (a : aiff_file) : list Z := be_bytes 4 (Z.of_nat (length (skipped a))) ++ block_size a ++ skipped a ++ samples_bytes a.
Definition chunk_id (c : aiff_chunk) : list Z := match c with Common => bs "COMM" | Sound => bs "SSND" | OtherChunk id _ => id end.
Definition chunk_body (a : aiff_file) (c : aiff_chunk) : list Z :=
  match c with Common => comm_body a | Sound => sound_body a | OtherChunk _ body => body end.
Definition chunk_bytes (a : aiff_file) (c : aiff_chunk) : list Z :=
  chunk_id c ++ be_bytes 4 (Z.of_nat (length (chunk_body a c))) ++ chunk_body a c ++ pad (length (chunk_body a c)).
Definition aiff_bytes (a : aiff_file) : list Z := bs "FORM" ++ form_size a ++ form a ++ concat (map (chunk_bytes a) (chunks a)) ++ trailer a.

Definition chunk_ok (a : aiff_file) (c : aiff_chunk) : Prop :=
  length (chunk_id c) = 4%nat /\ Z.of_nat (length (chunk_body a c)) < 4294967296 /\
  match c with OtherChunk id _ => id <> bs "COMM" /\ id <> bs "SSND" | _ => True end.
Record aiff_ok (a : aiff_file) : Prop := {
  ok_form : form a = bs "AIFC" \/ form a = bs "AIFF" /\ little a = false; ok_form_size : length (form_size a) = 4%nat;
  ok_chunks : Forall (chunk_ok a) (chunks a); ok_common : Common ∈ chunks a; ok_sound : Sound ∈ chunks a;
  ok_rate : length (rate a) = 10%nat; ok_block : length (block_size a) = 4%nat;
  ok_ch : 1 <= ch a <= 8; ok_bits : bits_ok (bits a); ok_total : Z.of_nat (total a) < 4294967296;
  ok_pcm : length (pcm a) = (total a * Z.to_nat (ch a))%nat;
  ok_range : Forall (fun v => - 2 ^ (bits a - 1) <= v < 2 ^ (bits a - 1)) (pcm a) }.

Section Opening.
Context (a : aiff_file) (LONG_MAX : Z) (malloc : Z -> bool) (undefined : spec_float -> Z).
Context (Ha : aiff_ok a) (Hlong : Z.of_nat (length (aiff_bytes a)) <= LONG_MAX).
Abbreviation file := (aiff_bytes a).
Definition rate_of : Z := (fun x => default (undefined x) (to_uint32 x)) (read_ieee80_extended (rate a)).

(** What the decoder has taken from the chunks seen so far. *)
Record known (comm ssnd : bool) (d : aiff_decoder) : Prop := {
  kn_comm : comm = true -> channels d = ch a /\ total_frames d = Z.of_nat (total a) /\ bits_per_sample d = bits a /\
    sample_rate d = rate_of /\ little_endian d = little a;
  kn_sound : ssnd = true -> holds file (data_start_offset d) (samples_bytes a) /\
    data_start_offset d + Z.of_nat (length (samples_bytes a)) <= LONG_MAX;
  kn_frame : current_frame d = 0 }.

Lemma chunk_here c p :
  chunk_ok a c -> holds file p (chunk_bytes a c) ->
  let size := Z.of_nat (length (chunk_body a c)) in
  (exists header, fread file 8 (at_ p) = (header, at_ (p + 8)) /\ length header = 8%nat /\ take 4 header = chunk_id c /\
     default 0 (audio_read_u32be (drop 4 header)) = size) /\ holds file (p + 8) (chunk_body a c) /\
  Stream.to_long LONG_MAX size = size /\ Stream.to_long LONG_MAX (Z.land size 1) = size mod 2 /\
  p + 8 + size + size mod 2 = p + Z.of_nat (length (chunk_bytes a c)) /\ p + Z.of_nat (length (chunk_bytes a c)) <= LONG_MAX.
Proof.
  intros (Hid & Hsize & _) Hh size. assert (chunk_bytes a c <> []) as Hne by (unfold chunk_bytes; by destruct (chunk_id c)).
  pose proof (holds_end _ _ Hh Hne) as Hend. pose proof (proj1 Hh).
  assert (Z.of_nat (length (chunk_bytes a c)) = 8 + size + size mod 2) as Hlen.
  { unfold chunk_bytes, pad. rewrite !length_app, length_be_bytes, Hid, length_replicate. unfold size. rewrite <- (Nat2Z.inj_mod _ 2). lia. }
  unfold chunk_bytes in Hh. rewrite app_assoc in Hh. apply holds_app in Hh as [H8 Hh]. apply holds_app in Hh as [Hbody _].
  rewrite length_app, length_be_bytes, Hid in Hbody. fold size in H8.
  assert (0 <= size mod 2 < 2) by (apply Z.mod_pos_bound; lia).
  split.
  { eexists. rewrite (fread_here p 8 _ H8) by (by rewrite length_app, length_be_bytes, Hid). split; [done|].
    split; [by rewrite length_app, length_be_bytes, Hid|]. rewrite take_app_length', drop_app_length' by done. split; [done|].
    rewrite <- (app_nil_r (be_bytes 4 size)), audio_read_u32be_bytes by (unfold in_u32; lia). done. }
  change 1 with (Z.ones 1). rewrite Z.land_ones by lia. change (2 ^ 1) with 2. rewrite !to_long_id by lia.
  repeat split; try done; try lia; apply Hbody.
Qed.

(** After a chunk: the end, when both are there, or the next one. *)
Definition after (fuel : nat) (d : aiff_decoder) (comm ssnd : bool) (next : Z) : option (option (aiff_decoder * bool * bool)) :=
  if comm && ssnd then Some (Some (d, comm, ssnd))
  else chunks_loop file LONG_MAX undefined fuel (form a) (with_f d (at_ next)) comm ssnd.

Lemma comm_fields_read :
  length (comm_fields a) = 18%nat /\ default 0 (audio_read_u16be (comm_fields a)) = ch a /\
  default 0 (audio_read_u32be (drop 2 (comm_fields a))) = Z.of_nat (total a) /\ default 0 (audio_read_u16be (drop 6 (comm_fields a))) = bits a /\
  drop 8 (comm_fields a) = rate a.
Proof.
  destruct Ha as [Hform Hfs Hcs Hc1 Hc2 Hrate Hblock Hch Hb Htot Hpcm Hr]. unfold comm_fields.
  assert (0 <= bits a < 65536) by (destruct Hb as [->|[->| ->]]; lia).
  split; [by rewrite !length_app, !length_be_bytes, Hrate|]. rewrite audio_read_u16be_bytes by lia. split; [done|].
  rewrite drop_app_length' by done. rewrite audio_read_u32be_bytes by (unfold in_u32; lia). split; [done|].
  rewrite app_assoc, drop_app_length', audio_read_u16be_bytes by done. split; [done|]. by rewrite app_assoc, drop_app_length'.
Qed.
(** The common chunk was read: what it says is known. *)
Ltac taken :=
  cbn [f]; rewrite !fseek_set_at by lia; eexists; split;
  [unfold after; match goal with H : form a = _ |- _ => rewrite ?H end; reflexivity|];
  match goal with H : known _ _ _ |- _ => split; cbn; [|apply H|apply H] end;
  match goal with H : little a = _ |- _ => by rewrite H end.
Lemma chunks_loop_common fuel d comm ssnd p :
  chunk_ok a Common -> known comm ssnd d -> f d = at_ p -> holds file p (chunk_bytes a Common) ->
  exists d', chunks_loop file LONG_MAX undefined (S fuel) (form a) d comm ssnd =
    after fuel d' true ssnd (p + Z.of_nat (length (chunk_bytes a Common))) /\ known true ssnd d'.
Proof.
  intros Hok Hk Hf Hh. destruct (chunk_here Common p Hok Hh) as ((header & Eh & Elen & Eid & Esize) & Hbody & Elong & Epad & Eend & Hmax).
  cbn [chunks_loop]. rewrite Hf, Eh, Elen, Eid, Esize. change (negb (8 =? 8)%nat) with false. cbn [chunk_id]. rewrite bool_decide_eq_true_2 by done.
  cbn [chunk_body s_pos at_] in *. rewrite Elong, Epad, Eend. clear Elong Epad. pose proof (proj1 Hh).
  set (P := p + Z.of_nat (length (chunk_bytes a Common))) in *. rewrite (proj2 (Z.ltb_ge P 0)), (proj2 (Z.ltb_ge LONG_MAX P)) by lia. cbn [orb].
  destruct comm_fields_read as (E18 & E1 & E2 & E3 & E4). unfold comm_body in Hbody. apply holds_app in Hbody as [Hfields Htail]. rewrite E18 in Htail. change (Z.of_nat 18) with 18 in Htail.
  unfold comm_body. rewrite length_app, E18. rewrite (proj2 (Z.leb_le 18 _)) by lia. cbn [andb].
  rewrite (fread_here _ 18 _ Hfields) by lia. rewrite E18. change (negb (18 =? 18)%nat) with false. cbv iota. rewrite E1, E2, E3, E4.
  unfold comm_tail in *. destruct (ok_form _ Ha) as [Hform|[Hform Hlittle]].
  - rewrite Hform, bool_decide_eq_true_2 in * by done. cbn [andb]. rewrite length_app.
    assert (length (if little a then bs "sowt" else bs "NONE") = 4%nat) as E by by destruct (little a).
    rewrite E. rewrite (proj2 (Z.leb_le 22 _)) by lia. apply holds_app in Htail as [Htype _]. rewrite (fread_here _ 4 _ Htype) by lia. rewrite E.
    change (negb (4 =? 4)%nat) with false. cbv iota. destruct (little a) eqn:El.
    + rewrite bool_decide_eq_true_2 by done. taken.
    + rewrite bool_decide_eq_false_2 by done. rewrite bool_decide_eq_true_2 by done. taken.
  - rewrite Hform, bool_decide_eq_false_2 in * by done. cbn [andb]. pose proof Hlittle as El. taken.
Qed.
Lemma chunks_loop_sound fuel d comm ssnd p :
  chunk_ok a Sound -> known comm ssnd d -> f d = at_ p -> holds file p (chunk_bytes a Sound) ->
  exists d', chunks_loop file LONG_MAX undefined (S fuel) (form a) d comm ssnd =
    after fuel d' comm true (p + Z.of_nat (length (chunk_bytes a Sound))) /\ known comm true d'.
Proof.
  intros Hok Hk Hf Hh. destruct (chunk_here Sound p Hok Hh) as ((header & Eh & Elen & Eid & Esize) & Hbody & Elong & Epad & Eend & Hmax).
  cbn [chunks_loop]. rewrite Hf, Eh, Elen, Eid, Esize. change (negb (8 =? 8)%nat) with false. cbn [chunk_id].
  rewrite bool_decide_eq_false_2 by done. cbn [andb]. rewrite bool_decide_eq_true_2 by done. cbn [s_pos at_] in *. rewrite Elong, Epad, Eend. pose proof (proj1 Hh).
  set (P := p + Z.of_nat (length (chunk_bytes a Sound))) in *. rewrite (proj2 (Z.ltb_ge P 0)), (proj2 (Z.ltb_ge LONG_MAX P)) by lia. cbn [orb].
  cbn [chunk_body] in *. assert (Z.of_nat (length (skipped a)) <= LONG_MAX /\ in_u32 (Z.of_nat (length (skipped a)))) as [Hskip Hu].
  { destruct Hok as (_ & Hsize & _). cbn [chunk_body] in Hsize. unfold sound_body in Hsize, Eend. rewrite !length_app in Hsize, Eend.
    pose proof (Z.mod_pos_bound (Z.of_nat (length (sound_body a))) 2 ltac:(lia)). unfold in_u32. unfold sound_body in *. rewrite !length_app in *. lia. }
  unfold sound_body in Hbody. rewrite app_assoc in Hbody. apply holds_app in Hbody as [Hhead Hrest]. apply holds_app in Hrest as [_ Hsamples].
  assert (length (be_bytes 4 (Z.of_nat (length (skipped a))) ++ block_size a) = 8%nat) as E8 by (by rewrite length_app, length_be_bytes, (ok_block _ Ha)).
  rewrite E8 in *. change (Z.of_nat 8) with 8 in *. rewrite (fread_here _ 8 _ Hhead) by lia. rewrite E8. change (negb (8 =? 8)%nat) with false. cbv iota.
  rewrite audio_read_u32be_bytes by done. cbn [default]. cbn [from_option id]. rewrite to_long_id by lia. cbn [f]. rewrite !fseek_set_at by lia.
  eexists. split; [unfold after; reflexivity|]. split; cbn [channels total_frames bits_per_sample sample_rate little_endian data_start_offset current_frame];
    [apply Hk| |apply Hk]. intros _. split; [done|].
  unfold sound_body in Eend. rewrite !length_app, length_be_bytes, (ok_block _ Ha) in Eend.
  pose proof (Z.mod_pos_bound (Z.of_nat (4 + (4 + (length (skipped a) + length (samples_bytes a))))) 2 ltac:(lia)). lia.
Qed.
Lemma chunks_loop_other fuel d comm ssnd p id body :
  comm && ssnd = false -> chunk_ok a (OtherChunk id body) -> known comm ssnd d -> f d = at_ p -> holds file p (chunk_bytes a (OtherChunk id body)) ->
  exists d', chunks_loop file LONG_MAX undefined (S fuel) (form a) d comm ssnd =
    after fuel d' comm ssnd (p + Z.of_nat (length (chunk_bytes a (OtherChunk id body)))) /\ known comm ssnd d'.
Proof.
  intros Hcs Hok Hk Hf Hh. destruct (chunk_here _ p Hok Hh) as ((header & Eh & Elen & Eid & Esize) & Hbody & Elong & Epad & Eend & Hmax).
  destruct Hok as (_ & _ & Hid1 & Hid2).
  cbn [chunks_loop]. rewrite Hf, Eh, Elen, Eid, Esize. change (negb (8 =? 8)%nat) with false. cbn [chunk_id].
  rewrite bool_decide_eq_false_2 by done. cbn [andb]. rewrite bool_decide_eq_false_2 by done. cbn [s_pos at_] in *. rewrite Elong, Epad, Eend. pose proof (proj1 Hh).
  rewrite (proj2 (Z.ltb_ge _ 0)), (proj2 (Z.ltb_ge LONG_MAX _)) by lia. cbn [orb]. rewrite Hcs. cbn [f with_f]. rewrite !fseek_set_at by lia.
  exists (with_f d (at_ (p + 8))). split; [unfold after; rewrite Hcs; reflexivity|]. split; cbn; apply Hk.
Qed.

Lemma chunks_loop_known cs fuel d comm ssnd p :
  Forall (chunk_ok a) cs -> (comm = true \/ Common ∈ cs) -> (ssnd = true \/ Sound ∈ cs) -> comm && ssnd = false -> (length cs < fuel)%nat ->
  known comm ssnd d -> f d = at_ p -> holds file p (concat (map (chunk_bytes a) cs)) ->
  exists d', chunks_loop file LONG_MAX undefined fuel (form a) d comm ssnd = Some (Some (d', true, true)) /\ known true true d'.
Proof.
  revert fuel d comm ssnd p. induction cs as [|c cs IH]; intros fuel d comm ssnd p Hok Hc Hs Hcs Hfuel Hk Hf Hh.
  { destruct Hc as [->|?%elem_of_nil]; [|done]. destruct Hs as [->|?%elem_of_nil]; [|done]. done. }
  apply Forall_cons_1 in Hok as [Hok1 Hok]. cbn [map concat length] in *. apply holds_app in Hh as [Hh Hrest]. destruct fuel as [|fuel]; [lia|].
  assert (exists d' comm' ssnd', chunks_loop file LONG_MAX undefined (S fuel) (form a) d comm ssnd =
      after fuel d' comm' ssnd' (p + Z.of_nat (length (chunk_bytes a c))) /\ known comm' ssnd' d' /\
      (comm' = true \/ Common ∈ cs) /\ (ssnd' = true \/ Sound ∈ cs)) as (d' & comm' & ssnd' & E & Hk' & Hc' & Hs').
  { destruct c as [| |id body].
    - destruct (chunks_loop_common fuel d comm ssnd p Hok1 Hk Hf Hh) as (d' & E & Hk'). exists d', true, ssnd. do 2 (split; [done|]).
      split; [by left|]. destruct Hs as [?|Hs]; [by left|]. apply list.elem_of_cons in Hs as [|]; [done|by right].
    - destruct (chunks_loop_sound fuel d comm ssnd p Hok1 Hk Hf Hh) as (d' & E & Hk'). exists d', comm, true. do 2 (split; [done|]).
      split; [|by left]. destruct Hc as [?|Hc]; [by left|]. apply list.elem_of_cons in Hc as [|]; [done|by right].
    - destruct (chunks_loop_other fuel d comm ssnd p id body Hcs Hok1 Hk Hf Hh) as (d' & E & Hk'). exists d', comm, ssnd. do 2 (split; [done|]).
      split; [destruct Hc as [?|Hc]|destruct Hs as [?|Hs]]; try (by left).
      + apply list.elem_of_cons in Hc as [|]; [done|by right].
      + apply list.elem_of_cons in Hs as [|]; [done|by right]. }
  rewrite E. unfold after. destruct (comm' && ssnd') eqn:Eboth.
  - apply andb_true_iff in Eboth as [-> ->]. by exists d'.
  - apply (IH fuel _ comm' ssnd' (p + Z.of_nat (length (chunk_bytes a c)))); try done; [lia|]. by destruct Hk'.
Qed.

Lemma chunks_count : (length (chunks a) < chunks_fuel file)%nat.
Proof.
  assert (length (chunks a) <= length (concat (map (chunk_bytes a) (chunks a))))%nat as H.
  { pose proof (ok_chunks _ Ha) as Hok. induction Hok as [|c cs [Hc _] _ IH]; cbn [map concat length]; [done|]. rewrite length_app.
    unfold chunk_bytes at 1. rewrite length_app, Hc. lia. }
  unfold chunks_fuel, aiff_bytes. rewrite !length_app. lia.
Qed.
Lemma checked_mul_fits x y : 2147483647 <= LONG_MAX -> 0 < x -> x * y <= 4294967295 -> checked_mul_size LONG_MAX x y = Some (x * y).
Proof.
  intros Hmax Hx Hy. unfold checked_mul_size, SIZE_MAX. rewrite (proj2 (Z.eqb_neq x 0)) by lia. cbn [negb andb].
  rewrite (proj2 (Z.ltb_ge _ y)); [done|]. apply Z.div_le_lower_bound; lia.
Qed.
Lemma aiff_open_at :
  2147483647 <= LONG_MAX -> (forall size, malloc size = true) ->
  exists d, aiff_open_file file LONG_MAX malloc undefined true true = Some (Some d) /\
    before (bits a) (ch a) (data_start_offset d) (little a) (total a) d 0 /\ sample_rate d = rate_of /\
    holds file (data_start_offset d) (samples_bytes a) /\ data_start_offset d + Z.of_nat (length (samples_bytes a)) <= LONG_MAX.
Proof.
  intros Hmax Hmalloc. assert (holds file 0 file) as Hh by (split; [lia|]; exists []; by rewrite app_nil_r).
  assert (length (form a) = 4%nat) as Hform by (destruct (ok_form _ Ha) as [->|[-> _]]; done).
  unfold aiff_bytes at 2 in Hh. rewrite !app_assoc in Hh. rewrite <- (app_assoc _ (concat _) _) in Hh. apply holds_app in Hh as [H12 Hh].
  rewrite <- app_assoc in H12, Hh. apply holds_app in Hh as [Hchunks _].
  assert (length (bs "FORM" ++ form_size a ++ form a) = 12%nat) as E12 by (by rewrite !length_app, Hform, (ok_form_size _ Ha)).
  rewrite E12 in Hchunks. change (0 + Z.of_nat 12) with 12 in Hchunks.
  unfold aiff_open_file. cbn [negb]. change {| s_pos := 0; s_eof := false |} with (at_ 0). rewrite (fread_here 0 12 _ H12) by (by rewrite E12).
  rewrite E12, take_app_length' by done. change (negb (12 =? 12)%nat) with false. rewrite (bool_decide_eq_true_2 (bs "FORM" = bs "FORM")) by done.
  rewrite (app_assoc (bs "FORM")), drop_app_length' by (by rewrite length_app, (ok_form_size _ Ha)). cbn [negb orb].
  assert (negb (bool_decide (form a = bs "AIFF")) && negb (bool_decide (form a = bs "AIFC")) = false) as -> by (destruct (ok_form _ Ha) as [->|[-> _]]; done).
  destruct (chunks_loop_known (chunks a) (chunks_fuel file) (no_decoder (at_ (0 + 12))) false false 12) as (d & E & Hd);
    [apply Ha|right; apply Ha|right; apply Ha|done|apply chunks_count|by split|done|done|].
  rewrite E. cbn [mbind option_bind]. destruct Hd as [Hcomm Hsound Hframe]. destruct (Hcomm eq_refl) as (E1 & E2 & E3 & E4 & E5). destruct (Hsound eq_refl) as [Hdata Hend].
  rewrite E1, E3. pose proof (ok_ch _ Ha) as Hch. pose proof (proj1 Hdata).
  rewrite (proj2 (Z.eqb_neq _ 0)), (proj2 (Z.ltb_ge 8 _)) by lia. cbn [negb orb].
  assert (negb (bits a =? 8) && negb (bits a =? 16) && negb (bits a =? 24) = false) as -> by (destruct (ok_bits _ Ha) as [->|[->| ->]]; done).
  assert (1 <= bits a / 8 <= 3) as Hbps by (destruct (ok_bits _ Ha) as [->|[->| ->]]; split; by apply Z.leb_le).
  rewrite checked_mul_fits by nia. cbn [mbind option_bind]. rewrite checked_mul_fits by (unfold AIFF_MAX_CHUNK_FRAMES; nia). rewrite Hmalloc. cbn [negb].
  eexists. split; [reflexivity|]. cbn [data_start_offset sample_rate]. split; [|done].
  split; [by split|]. split; [lia|]. split; [done|]. cbn [f]. rewrite fseek_set_at by lia. f_equal. lia.
Qed.
End Opening.

(** A decoder after requests and seeks of any size. *)
Inductive used (file : list Z) (LONG_MAX : Z) (d : aiff_decoder) : aiff_decoder -> Prop :=
  | used_opened : used file LONG_MAX d d
  | used_read d1 wide n buffer r out d2 : used file LONG_MAX d d1 -> 0 <= n -> read_pcm_frames file wide (Some d1) n buffer = Some (r, out, Some d2) -> used file LONG_MAX d d2
  | used_seek d1 k b d2 : used file LONG_MAX d d1 -> 0 <= k -> aiff_seek_to_pcm_frame LONG_MAX (Some d1) k = (b, Some d2) -> used file LONG_MAX d d2.

(** The caller's loop: the samples that requests of these sizes give, one after the other. *)
Fixpoint play (file : list Z) (wide : bool) (d : aiff_decoder) (requests : list Z) : option (list Z) :=
  match requests with
  | [] => Some []
  | n :: requests =>
      '(r, out, d) ← read_pcm_frames file wide (Some d) n true;
      d ← d;
      rest ← play file wide d requests; Some (out ++ rest)
  end.
(** The frames of [a] from [k] on, [m] of them or as many as there are, as the caller gets them. *)
Definition frames_from (a : aiff_file) (wide : bool) (k m : Z) : list Z :=
  map (scaled wide (bits a)) (take (Z.to_nat m * Z.to_nat (ch a)) (drop (Z.to_nat k * Z.to_nat (ch a)) (pcm a))).

Section Playing.
Context (a : aiff_file) (LONG_MAX start : Z) (Ha : aiff_ok a) (Hlong : Z.of_nat (length (aiff_bytes a)) <= LONG_MAX).
Context (Hdata : holds (aiff_bytes a) start (samples_bytes a)).
Abbreviation before := (before (bits a) (ch a) start (little a) (total a)).

(** A request of [n] and then [m] more. *)
Lemma frames_from_app wide k n m : 0 <= n -> 0 <= m -> (k < total a)%nat ->
  let got := Nat.min (Z.to_nat n) (total a - k) in
  map (scaled wide (bits a)) (frames_at (ch a) (pcm a) k got) ++ frames_from a wide (Z.of_nat (k + got)) m = frames_from a wide (Z.of_nat k) (n + m).
Proof.
  intros Hn Hm Hk got. unfold frames_from, frames_at. rewrite <- map_app, !Nat2Z.id. f_equal.
  rewrite Nat.mul_add_distr_r, <- drop_drop, take_take_drop.
  destruct (Nat.le_gt_cases (Z.to_nat n) (total a - k)) as [Hle|Hgt]; subst got.
  - rewrite Nat.min_l by done. f_equal. rewrite Z2Nat.inj_add by done. lia.
  - pose proof (ok_pcm _ Ha). rewrite Nat.min_r by lia. rewrite !take_ge; [done| |]; rewrite length_drop; nia.
Qed.
Lemma frames_from_end wide m : frames_from a wide (Z.of_nat (total a)) m = [].
Proof. unfold frames_from. rewrite drop_ge, take_nil by (rewrite (ok_pcm _ Ha), Nat2Z.id; lia). done. Qed.
Lemma play_before wide d k requests :
  before d k -> Forall (fun n => 0 < n) requests ->
  play (aiff_bytes a) wide d requests = Some (frames_from a wide (Z.of_nat k) (fold_right Z.add 0 requests)).
Proof.
  intros Hd Hn. revert d k Hd. induction Hn as [|n requests Hn Hrest IH]; intros d k Hd; cbn [play fold_right]; [done|].
  assert (0 <= fold_right Z.add 0 requests) as Hsum by (clear IH; induction Hrest; cbn; lia).
  pose proof Hd as ([Eb Ec El Et Es Em] & Hkt & Hcur & Hf). destruct (Nat.lt_ge_cases k (total a)) as [Hlt|Hge].
  - destruct (read_pcm_frames_before (aiff_bytes a) (bits a) (ch a) start (little a) (pcm a) (total a)) with (wide := wide) (d := d) (k := k) (n := n)
      as (d' & E & Hd'); try done; try apply Ha.
    rewrite E. cbn [mbind option_bind]. rewrite (IH d' _ Hd'). cbn [mbind option_bind]. f_equal. apply frames_from_app; lia || done.
  - assert (k = total a) as -> by lia. unfold read_pcm_frames. rewrite Et, Hcur, (proj2 (Z.leb_le _ _)) by lia. cbn [negb mbind option_bind].
    rewrite (IH d _ Hd). cbn [mbind option_bind app]. by rewrite !frames_from_end.
Qed.
(** Whatever was read before, a seek finds the frame. *)
Lemma used_tuned d d1 : tuned (bits a) (ch a) start (little a) (total a) d -> used (aiff_bytes a) LONG_MAX d d1 -> tuned (bits a) (ch a) start (little a) (total a) d1.
Proof.
  intros Hd. induction 1 as [|d1 wide n buffer r out d2 _ IH _ E|d1 k b d2 _ IH _ E]; [done| |].
  - apply read_pcm_frames_tuned with (1 := IH) in E as (d3 & E3 & H). by injection E3 as <-.
  - apply seek_tuned with (1 := IH) in E as (d3 & E3 & H). by injection E3 as <-.
Qed.
End Playing.

(** C13. An AIFF or AIFC file as it is written - 8, 16 or 24 bits, either byte
    order, chunks in any order and others between them - opens with what it says,
    and its samples come back, cut to 16 bits or whole, whatever the sizes of the
    requests, from the start and, after any reads and seeks, from any frame. *)
Theorem aiff_roundtrip (a : aiff_file) (LONG_MAX : Z) (malloc : Z -> bool) (undefined : spec_float -> Z) :
  aiff_ok a -> Z.of_nat (length (aiff_bytes a)) <= LONG_MAX -> 2147483647 <= LONG_MAX < 2 ^ 64 -> (forall size, malloc size = true) ->
  exists d, aiff_open_file (aiff_bytes a) LONG_MAX malloc undefined true true = Some (Some d) /\
    aiff_get_channels (Some d) = ch a /\ aiff_get_bits_per_sample (Some d) = bits a /\
    aiff_get_total_pcm_frame_count (Some d) = Z.of_nat (total a) /\ aiff_get_sample_rate (Some d) = rate_of a undefined /\
    (forall wide requests, Forall (fun n => 0 < n) requests ->
      play (aiff_bytes a) wide d requests = Some (frames_from a wide 0 (fold_right Z.add 0 requests))) /\
    (forall d1 k, used (aiff_bytes a) LONG_MAX d d1 -> 0 <= k ->
      exists d2, aiff_seek_to_pcm_frame LONG_MAX (Some d1) k = (true, Some d2) /\
        forall wide requests, Forall (fun n => 0 < n) requests ->
          play (aiff_bytes a) wide d2 requests = Some (frames_from a wide (Z.min k (Z.of_nat (total a))) (fold_right Z.add 0 requests))).
Proof.
  intros Ha Hlong [Hmax Hmax64] Hmalloc. destruct (aiff_open_at a LONG_MAX malloc undefined Ha Hlong Hmax Hmalloc) as (d & E & Hd & Hrate & Hdata & Hend).
  exists d. split; [done|]. pose proof Hd as ([Eb Ec El Et Es Em] & _). do 4 (split; [done|]). split.
  - intros wide requests Hn. by apply (play_before a (data_start_offset d) Ha Hdata wide d 0).
  - intros d1 k Hused Hk. apply (used_tuned _ _ (data_start_offset d)) in Hused; [|done].
    destruct (seek_before (aiff_bytes a) LONG_MAX (bits a) (ch a) (data_start_offset d) (little a) (pcm a) (total a)) with (d := d1) (k := k)
      as (d2 & E2 & Hd2); try done; try apply Ha.
    + unfold samples_bytes in Hend. rewrite length_samples, (ok_pcm _ Ha) in Hend by apply Ha. lia.
    + exists d2. split; [done|]. intros wide requests Hn. rewrite (play_before a (data_start_offset d) Ha Hdata wide d2 _ requests Hd2 Hn). do 2 f_equal. lia.
Qed.
