(* ===== verification/AiffSafe.v ===== *)
(** The AIFF reader on any bytes: opening ends, what it opens can be played, and
    a request ends with what the file has, inside the buffers. *)
From S2P Require Import Prelude Memory Doubles AudioHelpers Stream Aiff AiffProofs AiffFile.
Local Open Scope Z_scope.

Section Safe.
Context (file : list Z) (LONG_MAX : Z) (malloc : Z -> bool) (undefined : spec_float -> Z).
Abbreviation len := (Z.of_nat (length file)).
Abbreviation frame_bytes d := (channels d * (bits_per_sample d / 8)).

(** What opening promises to reading, and reading and seeking keep. *)
Record can_play (d : aiff_decoder) : Prop := {
  pl_channels : 1 <= channels d <= 8; pl_bits : bits_ok (bits_per_sample d); pl_chunk : 1 <= max_chunk_frames d;
  pl_room : max_chunk_frames d * frame_bytes d <= raw_buffer_capacity_bytes d;
  pl_total : total_frames d < 4294967296; pl_frame : 0 <= current_frame d <= total_frames d; pl_pos : 0 <= s_pos (f d) }.

Lemma frame_bytes_pos d : can_play d -> 1 <= frame_bytes d.
Proof. intros [? Hb _ _ _ _ _]. destruct Hb as [->|[->| ->]]; [change (8 / 8) with 1|change (16 / 8) with 2|change (24 / 8) with 3]; lia. Qed.
Lemma can_play_frame d s frame : can_play d -> 0 <= frame <= total_frames d -> 0 <= s_pos s -> can_play (with_frame d s frame).
Proof. intros []. by split. Qed.
Lemma can_play_stream d s : can_play d -> 0 <= s_pos s -> can_play (with_f d s).
Proof. intros []. by split. Qed.

(** ** Opening *)
Lemma u32be_field_range b : Forall is_byte b -> in_u32 (default 0 (audio_read_u32be b)).
Proof.
  intros Hb. destruct (audio_read_u32be b) as [v|] eqn:E; [|unfold in_u32; cbn; lia]. by apply (audio_read_u32be_range b).
Qed.

(** Eight bytes were there. *)
Lemma fread_all n s b s' : fread file (Z.of_nat n) s = (b, s') -> length b = n -> (0 < n)%nat -> 0 <= s_pos s -> s_pos s' = s_pos s + Z.of_nat n /\ s_pos s + Z.of_nat n <= len.
Proof.
  unfold fread. intros [= <- <-] Hb Hn Hs. cbn [s_pos]. rewrite Hb. split; [done|].
  rewrite length_take, length_drop in Hb. lia.
Qed.
(** The next chunk starts after this one's header. *)
Lemma next_forward start size :
  len + 8589934592 <= LONG_MAX -> 0 <= start -> in_u32 size ->
  start <= start + Stream.to_long LONG_MAX size + Stream.to_long LONG_MAX (Z.land size 1).
Proof.
  intros Hlong Hstart Hsize. unfold in_u32 in Hsize. change 1 with (Z.ones 1). rewrite Z.land_ones by lia. change (2 ^ 1) with 2.
  pose proof (Z.mod_pos_bound size 2 ltac:(lia)). rewrite !to_long_id; lia.
Qed.
(** The chunks are read one after the other, up to the end of the file. *)
Lemma chunks_loop_ends fuel form d comm ssnd :
  Forall is_byte file -> len + 8589934592 <= LONG_MAX -> 0 <= s_pos (f d) -> Z.max 0 (len - s_pos (f d)) < Z.of_nat fuel ->
  exists r, chunks_loop file LONG_MAX undefined fuel form d comm ssnd = Some r.
Proof.
  intros Hfile Hlong. revert d comm ssnd. induction fuel as [|fuel IH]; intros d comm ssnd Hpos Hfuel; [lia|]. cbn [chunks_loop].
  destruct (fread file 8 (f d)) as [header s] eqn:E. destruct (Nat.eqb_spec (length header) 8) as [E8|]; cbn [negb]; [|by eexists].
  pose proof (fread_is_bytes Hfile 8 (f d)) as Hbytes. rewrite E in Hbytes. cbn [fst] in Hbytes.
  apply (fread_all 8) in E as [Es Hlen]; [|done|lia|done].
  pose proof (next_forward (s_pos s) _ Hlong ltac:(lia) (u32be_field_range (drop 4 header) (Forall_drop _ 4 _ Hbytes))) as Hnext.
  set (next := s_pos s + _ + _) in *. clearbody next.
  repeat case_match; try by eexists.
  all: match goal with H : (_ || _) = false |- _ => apply orb_false_iff in H as [?%Z.ltb_ge ?%Z.ltb_ge] end.
  all: apply IH; cbn [f with_f]; rewrite fseek_set_at by lia; cbn; lia.
Qed.
(** What the header says, however it is read. *)
Record fresh (d : aiff_decoder) : Prop := {
  fr_channels : 0 <= channels d; fr_total : 0 <= total_frames d < 4294967296; fr_frame : current_frame d = 0; fr_pos : 0 <= s_pos (f d) }.
Lemma u16be_field_range b : 0 <= default 0 (audio_read_u16be b) < 65536.
Proof. unfold audio_read_u16be. destruct (b !! 0%nat); cbn; [|lia]. destruct (b !! 1%nat); cbn; [|lia]. apply Z.mod_pos_bound. lia. Qed.
Lemma fresh_stream d s : fresh d -> 0 <= s_pos s -> fresh (with_f d s).
Proof. intros []. by split. Qed.
Lemma chunks_loop_fresh fuel form d comm ssnd d' comm' ssnd' :
  Forall is_byte file -> fresh d -> chunks_loop file LONG_MAX undefined fuel form d comm ssnd = Some (Some (d', comm', ssnd')) -> fresh d'.
Proof.
  intros Hfile. revert d comm ssnd. induction fuel as [|fuel IH]; intros d comm ssnd Hd; [done|]. cbn [chunks_loop].
  assert (forall n s, 0 <= s_pos s -> 0 <= s_pos (snd (fread file n s)) /\ Forall is_byte (fst (fread file n s))) as Hread
    by (intros n s Hs; split; [by apply fread_nonneg|by apply fread_is_bytes]).
  assert (forall next s, 0 <= s_pos s -> 0 <= s_pos (fseek_set LONG_MAX next s)) as Hseek by (intros next s; apply fseek_set_nonneg).
  pose proof (Hread 8 (f d) (fr_pos _ Hd)) as [H8 _]. destruct (fread file 8 (f d)) as [header s]. cbn [fst snd] in *.
  pose proof (Hread 18 s H8) as [H18 Hcomm]. pose proof (Hread 8 s H8) as [H16 _].
  destruct (fread file 18 s) as [comm18 s18], (fread file 8 s) as [ssnd8 s16]. cbn [fst snd] in *.
  pose proof (Hread 4 s18 H18) as [H22 _]. destruct (fread file 4 s18) as [type s22]. cbn [fst snd] in *.
  pose proof (u16be_field_range comm18). pose proof (u32be_field_range (drop 2 comm18) (Forall_drop _ _ _ Hcomm)) as Htotal. unfold in_u32 in Htotal.
  destruct Hd as [Hc Ht Hf Hp].
  assert (0 <= default 0 (audio_read_u16be comm18)) by lia.
  repeat case_match; try done; try (intros [= <- _ _]; by split); (apply IH; apply fresh_stream; [by split|by apply Hseek]).
Qed.
Lemma checked_mul_product x y z : checked_mul_size LONG_MAX x y = Some z -> z = x * y.
Proof. unfold checked_mul_size. destruct (_ && _); [done|]. by intros [= <-]. Qed.
Lemma aiff_open_can_play fopen calloc d :
  Forall is_byte file -> aiff_open_file file LONG_MAX malloc undefined fopen calloc = Some (Some d) -> can_play d.
Proof.
  intros Hfile. unfold aiff_open_file. destruct (negb fopen); [done|].
  pose proof (fread_nonneg (file := file) 12 {| s_pos := 0; s_eof := false |} ltac:(done)) as H12. destruct (fread file 12 _) as [header s]. cbn [snd] in H12.
  destruct (_ || _ || _); [done|]. destruct (negb calloc); [done|].
  destruct (chunks_loop _ _ _ _ _ _ _ _) as [[[[d1 comm] ssnd]|]|] eqn:E; cbn [mbind option_bind]; try done.
  apply chunks_loop_fresh in E as [Hc Ht Hf Hp]; [|done|by split].
  destruct (_ || _ || _ || _ || _) eqn:Ebad; [done|]. rewrite !orb_false_iff in Ebad. destruct Ebad as [[[[_ _] Hzero%Z.eqb_neq] Height%Z.ltb_ge] Hb].
  assert (bits_ok (bits_per_sample d1)) as Hbits.
  { unfold bits_ok. rewrite !andb_false_iff, !negb_false_iff, !Z.eqb_eq in Hb. tauto. }
  destruct (checked_mul_size _ (channels d1) _) as [bytes|] eqn:E1; cbn [mbind option_bind]; [|done]. apply checked_mul_product in E1 as ->.
  destruct (checked_mul_size _ _ _) as [capacity|] eqn:E2; [|done]. apply checked_mul_product in E2 as ->. destruct (negb (malloc _)); [done|].
  intros [= <-]. split; cbn [channels bits_per_sample max_chunk_frames raw_buffer_capacity_bytes total_frames current_frame f]; try done; try lia.
  by apply fseek_set_nonneg.
Qed.

(** ** Reading *)
Lemma length_samples_of wide d count raw : length (samples_of wide d count raw) = count.
Proof. unfold samples_of. by rewrite length_map, length_seq. Qed.
(** The loop ends, with no more frames than it should and all of them stored. *)
Lemma read_chunks_ends fuel wide d want read out :
  can_play d -> 0 <= read <= want -> want - read <= total_frames d - current_frame d -> Z.max 0 (len - s_pos (f d)) < Z.of_nat fuel ->
  exists r out' d', read_chunks file fuel wide d want read out = Some (r, out', d') /\ can_play d' /\ read <= frames r <= want /\
    channels d' = channels d /\ Z.of_nat (length out') = Z.of_nat (length out) + (frames r - read) * channels d /\
    (frames r = read -> read < want -> status r = DECODER_READ_EOF).
Proof.
  revert d read out. induction fuel as [|fuel IH]; intros d read out Hd Hread Hleft Hfuel; [lia|]. cbn [read_chunks].
  destruct (Z.ltb_spec read want); cbn [negb].
  2: { eexists _, _, _. split; [reflexivity|]. cbn [frames status]. repeat split; try apply Hd; lia. }
  pose proof (frame_bytes_pos d Hd) as Hfb. pose proof (pl_chunk d Hd) as Hmax. pose proof (pl_pos d Hd) as Hpos. pose proof (pl_frame d Hd) as Hframe. pose proof (pl_total d Hd).
  set (chunk := Z.min _ _). assert (1 <= chunk <= want - read) as Hchunk by lia. clearbody chunk.
  pose proof (fread_length (file := file) (chunk * frame_bytes d) (f d) ltac:(nia)) as Hlen. pose proof (fread_nonneg (file := file) (chunk * frame_bytes d) _ Hpos) as Hpos'.
  assert (s_pos (snd (fread file (chunk * frame_bytes d) (f d))) = s_pos (f d) + Z.of_nat (length (fst (fread file (chunk * frame_bytes d) (f d)))) /\
    Z.of_nat (length (fst (fread file (chunk * frame_bytes d) (f d)))) <= Z.max 0 (len - s_pos (f d))) as [Epos Hgot]
    by (unfold fread; cbn [fst snd s_pos]; rewrite length_take, length_drop; lia).
  destruct (fread file _ (f d)) as [raw s]. cbn [fst snd] in *.
  set (got := Z.of_nat (length raw) / frame_bytes d).
  assert (0 <= got /\ got * frame_bytes d <= Z.of_nat (length raw) /\ got <= chunk) as (Hgot0 & Hgot1 & Hgot2).
  { unfold got. pose proof (Z.mul_div_le (Z.of_nat (length raw)) (frame_bytes d) ltac:(lia)).
    split; [apply Z.div_pos; lia|]. split; [lia|]. apply Z.div_le_upper_bound; lia. }
  clearbody got. destruct (Z.eqb_spec got 0) as [E0|E0].
  { eexists _, _, _. split; [reflexivity|]. cbn [frames status]. split; [by apply can_play_stream|]. repeat split; try lia. }
  assert (Z.of_nat (length (out ++ samples_of wide d (Z.to_nat (got * channels d)) raw)) = Z.of_nat (length out) + got * channels d) as Eout.
  { rewrite length_app, length_samples_of. pose proof (pl_channels d Hd). nia. }
  assert (u64 (current_frame d + got) = current_frame d + got) as -> by (unfold u64; rewrite Z.mod_small by lia; done).
  assert (can_play (with_frame d s (current_frame d + got))) as Hd1 by (apply can_play_frame; [done|lia|done]).
  destruct (Z.ltb_spec got chunk).
  { eexists _, _, _. split; [reflexivity|]. cbn [frames status channels with_frame]. split; [done|]. repeat split; try lia; rewrite Eout; lia. }
  destruct (IH (with_frame d s (current_frame d + got)) (read + got) (out ++ samples_of wide d (Z.to_nat (got * channels d)) raw)) as (r & out' & d' & E & Hd' & Hr & Hc & Ho & Hs);
    try (cbn [total_frames current_frame f with_frame]; nia); [done|].
  exists r, out', d'. split; [done|]. split; [done|]. cbn [channels with_frame] in *. split; [lia|]. split; [done|]. split; [rewrite Ho, Eout; lia|]. lia.
Qed.
(** A request from any decoder that can be played. *)
Lemma read_pcm_frames_ends wide d n :
  can_play d -> 0 <= n ->
  exists r out d', read_pcm_frames file wide (Some d) n true = Some (r, out, Some d') /\ can_play d' /\ 0 <= frames r <= n /\
    channels d' = channels d /\ Z.of_nat (length out) = frames r * channels d /\
    (0 < n -> status r = if 0 <? frames r then DECODER_READ_OK else DECODER_READ_EOF).
Proof.
  intros Hd Hn. pose proof (frame_bytes_pos d Hd) as Hfb. pose proof (pl_pos d Hd). pose proof (pl_frame d Hd) as Hframe.
  unfold read_pcm_frames. cbn [negb]. destruct (Z.leb_spec (total_frames d) (current_frame d)).
  { eexists _, _, _. split; [reflexivity|]. by repeat split; try apply Hd. }
  rewrite (proj2 (Z.eqb_neq _ 0)) by lia.
  destruct (read_chunks_ends (S (S (length file))) wide d (Z.min n (total_frames d - current_frame d)) 0 []) as (r & out & d' & E & Hd' & Hr & Hc & Ho & Hs); [done|lia..|].
  rewrite E. cbn [mbind option_bind]. eexists _, _, _. split; [reflexivity|]. cbn [frames status length] in *.
  split; [done|]. split; [lia|]. split; [done|]. split; [lia|]. intros Hpos.
  destruct (Z.ltb_spec 0 (frames r)); [done|]. by rewrite Hs by lia.
Qed.
Lemma used_can_play d d1 : can_play d -> used file LONG_MAX d d1 -> can_play d1 /\ channels d1 = channels d.
Proof.
  intros Hd. induction 1 as [|d1 wide n buffer r out d2 _ [IH Hc] Hn E|d1 k b d2 _ [IH Hc] Hk E]; [done| |].
  - destruct buffer; [|by injection E as <- <- <-].
    destruct (read_pcm_frames_ends wide d1 n IH Hn) as (r' & out' & d' & E' & Hd' & _ & Hc' & _). rewrite E in E'. injection E' as -> -> ->. by rewrite Hc'.
  - unfold aiff_seek_to_pcm_frame in E. destruct (_ || _); injection E as <- <-; [done|]. split; [|done].
    pose proof (pl_frame _ IH). apply can_play_frame; [done|lia|]. apply fseek_set_nonneg, IH.
Qed.
End Safe.

(** C14. On any bytes: with a [long] that can hold the sizes of chunks, opening
    ends; what it opens has buffers for its chunks, and after any reads and seeks
    a request ends with at most the frames asked for, all of them stored, and with
    a status that says whether there were any. *)
Theorem aiff_safe (file : list Z) (LONG_MAX : Z) (malloc : Z -> bool) (undefined : spec_float -> Z) (fopen calloc : bool) :
  Forall is_byte file ->
  (Z.of_nat (length file) + 2 ^ 33 <= LONG_MAX -> exists r, aiff_open_file file LONG_MAX malloc undefined fopen calloc = Some r) /\
  forall d d1, aiff_open_file file LONG_MAX malloc undefined fopen calloc = Some (Some d) -> used file LONG_MAX d d1 ->
    max_chunk_frames d1 * (channels d1 * (bits_per_sample d1 / 8)) <= raw_buffer_capacity_bytes d1 /\
    forall wide n, 0 < n -> exists r out d2, read_pcm_frames file wide (Some d1) n true = Some (r, out, Some d2) /\
      0 <= frames r <= n /\ Z.of_nat (length out) = frames r * channels d /\
      status r = if 0 <? frames r then DECODER_READ_OK else DECODER_READ_EOF.
Proof.
  intros Hfile. split.
  - change (2 ^ 33) with 8589934592. intros Hlong. unfold aiff_open_file. destruct (negb fopen); [by eexists|].
    pose proof (fread_nonneg (file := file) 12 {| s_pos := 0; s_eof := false |} ltac:(done)) as H12. destruct (fread file 12 _) as [header s]. cbn [snd] in H12.
    destruct (_ || _ || _); [by eexists|]. destruct (negb calloc); [by eexists|].
    destruct (chunks_loop_ends file LONG_MAX undefined (chunks_fuel file) (drop 8 header) (no_decoder s) false false) as [r ->]; [done|done|done|unfold chunks_fuel; cbn [f no_decoder]; lia|].
    cbn [mbind option_bind]. by repeat case_match; eexists.
  - intros d d1 Hopen Hused. apply aiff_open_can_play in Hopen; [|done]. destruct (used_can_play _ _ d d1 Hopen Hused) as [Hd1 Hc].
    split; [apply Hd1|]. intros wide n Hn. destruct (read_pcm_frames_ends file wide d1 n Hd1) as (r & out & d2 & E & _ & Hr & _ & Ho & Hs); [lia|].
    exists r, out, d2. rewrite <- Hc. eauto.
Qed.
