(* ===== verification/AiffExamples.v ===== *)
(** Concrete AIFF files: one that is read as it was written, and one whose chunks
    lead back to themselves. *)
From S2P Require Import Prelude Memory Doubles AudioHelpers Stream Aiff AiffProofs AiffFile AiffSafe.
Local Open Scope Z_scope.

(** Three frames of two channels in 24 bits, little-endian, with the samples
    before the chunk that says what they are. *)
Definition song : aiff_file :=
  {| form := bs "AIFC"; form_size := [0; 0; 0; 99]; chunks := [OtherChunk (bs "NAME") (bs "abc"); Sound; Common]; trailer := [1; 2];
     ch := 2; bits := 24; rate := [64; 14; 172; 68; 0; 0; 0; 0; 0; 0]; little := true; compression_tail := [0; 0];
     block_size := [0; 0; 0; 0]; skipped := [7; 7]; total := 3; pcm := [8388607; -8388608; 0; -1; 70000; -70000] |}.
Lemma song_ok : aiff_ok song.
Proof.
  split; try done.
  - by left.
  - repeat constructor; done.
  - apply list_elem_of_In. by right; right; left.
  - apply list_elem_of_In. by right; left.
  - by right; right.
  - change (Forall (fun v => - 8388608 <= v < 8388608) (pcm song)). repeat constructor; lia.
Qed.
Lemma song_length : Z.of_nat (length (aiff_bytes song)) <= 2147483647.
Proof. by vm_compute. Qed.
Lemma song_rate : rate_of song (fun _ => 0) = 44100.
Proof. by vm_compute. Qed.

Lemma aiff_roundtrip_witness :
  exists d, aiff_open_file (aiff_bytes song) 2147483647 (fun _ => true) (fun _ => 0) true true = Some (Some d) /\
    aiff_get_sample_rate (Some d) = 44100 /\
    play (aiff_bytes song) true d [1; 5] = Some [8388607; -8388608; 0; -1; 70000; -70000] /\
    forall d1, used (aiff_bytes song) 2147483647 d d1 ->
      exists d2, aiff_seek_to_pcm_frame 2147483647 (Some d1) 2 = (true, Some d2) /\ play (aiff_bytes song) false d2 [4] = Some [273; -274].
Proof.
  destruct (aiff_roundtrip song 2147483647 (fun _ => true) (fun _ => 0) song_ok song_length) as (d & E & _ & _ & _ & Hrate & Hplay & Hseek);
    [by split|done|].
  exists d. split; [exact E|]. split; [by rewrite Hrate, song_rate|]. split.
  - rewrite Hplay by (repeat constructor). by vm_compute.
  - intros d1 Hd1. destruct (Hseek d1 2 Hd1) as (d2 & E2 & Hplay2); [done|]. exists d2. split; [exact E2|].
    rewrite Hplay2 by (repeat constructor). by vm_compute.
Defined.

(** The same file without its last bytes: the frames that are there. *)
Definition cut : list Z := take 54 (aiff_bytes song).
Lemma aiff_safe_witness :
  Forall is_byte cut /\
  (exists r, aiff_open_file cut 9223372036854775807 (fun _ => true) (fun _ => 0) true true = Some r) /\
  forall d d1, aiff_open_file cut 9223372036854775807 (fun _ => true) (fun _ => 0) true true = Some (Some d) ->
    used cut 9223372036854775807 d d1 ->
    exists r out d2, read_pcm_frames cut true (Some d1) 8 true = Some (r, out, Some d2) /\ 0 <= frames r <= 8.
Proof.
  assert (Forall is_byte cut) as Hcut by (apply (bool_decide_eq_true_1 _); by vm_compute).
  destruct (aiff_safe cut 9223372036854775807 (fun _ => true) (fun _ => 0) true true Hcut) as [Hopen Hread].
  split; [exact Hcut|]. split; [apply Hopen; by vm_compute|]. intros d d1 Ed Hd1. destruct (Hread d d1 Ed Hd1) as [_ H].
  destruct (H true 8) as (r & out & d2 & E & Hr & _); [done|]. exists r, out, d2. exact (conj E Hr).
Defined.

(** A chunk of 2^32 - 8 bytes is followed, where a [long] has 32 bits, by itself. *)
Definition looping : list Z := bs "FORM" ++ [0; 0; 0; 12] ++ bs "AIFF" ++ bs "LOOP" ++ [255; 255; 255; 248].
Lemma aiff_chunk_loops undefined fuel : chunks_loop looping 2147483647 undefined fuel (bs "AIFF") (no_decoder (at_ 12)) false false = None.
Proof. induction fuel as [|fuel IH]; [done|]. exact IH. Qed.
