(* ===== verification/Asf.v ===== *)
(** The ASF demuxer, src/audio/asf_demux.c: objects of the header, packets and
    their payload segments, and putting fragments together into frames. *)
From S2P Require Import Prelude ScanIntern Memory Stream.
Local Open Scope Z_scope.

(** ** Constants and data *)
Definition GUID_HEADER : list Z := [48; 38; 178; 117; 142; 102; 207; 17; 166; 217; 0; 170; 0; 98; 206; 108].
Definition GUID_FILE_PROPERTIES : list Z := [161; 220; 171; 140; 71; 169; 207; 17; 142; 228; 0; 192; 12; 32; 83; 101].
Definition GUID_STREAM_PROPERTIES : list Z := [145; 7; 220; 183; 183; 169; 207; 17; 142; 230; 0; 192; 12; 32; 83; 101].
Definition GUID_AUDIO_STREAM : list Z := [64; 158; 105; 248; 77; 91; 207; 17; 168; 253; 0; 128; 95; 92; 68; 43].
Definition GUID_DATA : list Z := [54; 38; 178; 117; 142; 102; 207; 17; 166; 217; 0; 170; 0; 98; 206; 108].
Definition guid_eq (a b : list Z) : bool := bool_decide (a = b).

(** What the header says: [codec_data] has 64 bytes, of which [codec_data_size] count. *)
Record asf_info := {
  codec_id : Z; channels : Z; sample_rate : Z; byte_rate : Z; block_align : Z;
  codec_data : list Z; codec_data_size : Z; audio_stream_number : Z;
  default_packet_size : Z; data_packets_total : Z; duration_100ns : Z }.
(** [partial] is [NULL] or the bytes put together so far, in a buffer of
    [partial_capacity]: every write goes to the end of them ([partial_filled]). *)
Record asf_demux := {
  info : asf_info; first_packet_pos : Z;
  st : stream; data_packets_read : Z; next_packet_pos : Z;
  packet_segments_remaining : Z; packet_size_left : Z; packet_flags : Z; packet_property : Z; packet_segsizetype : Z;
  partial : option (list Z); partial_capacity : Z; partial_object_size : Z; partial_active : bool }.
Definition partial_filled (d : asf_demux) : Z := Z.of_nat (length (default [] (partial d))).

Definition with_st (d : asf_demux) (s : stream) : asf_demux :=
  {| info := info d; first_packet_pos := first_packet_pos d; st := s; data_packets_read := data_packets_read d;
     next_packet_pos := next_packet_pos d; packet_segments_remaining := packet_segments_remaining d;
     packet_size_left := packet_size_left d; packet_flags := packet_flags d; packet_property := packet_property d;
     packet_segsizetype := packet_segsizetype d; partial := partial d; partial_capacity := partial_capacity d;
     partial_object_size := partial_object_size d; partial_active := partial_active d |}.
Definition with_left (d : asf_demux) (remaining left : Z) : asf_demux :=
  {| info := info d; first_packet_pos := first_packet_pos d; st := st d; data_packets_read := data_packets_read d;
     next_packet_pos := next_packet_pos d; packet_segments_remaining := remaining;
     packet_size_left := left; packet_flags := packet_flags d; packet_property := packet_property d;
     packet_segsizetype := packet_segsizetype d; partial := partial d; partial_capacity := partial_capacity d;
     partial_object_size := partial_object_size d; partial_active := partial_active d |}.
Definition with_partial (d : asf_demux) (p : option (list Z)) (capacity object_size : Z) (active : bool) : asf_demux :=
  {| info := info d; first_packet_pos := first_packet_pos d; st := st d; data_packets_read := data_packets_read d;
     next_packet_pos := next_packet_pos d; packet_segments_remaining := packet_segments_remaining d;
     packet_size_left := packet_size_left d; packet_flags := packet_flags d; packet_property := packet_property d;
     packet_segsizetype := packet_segsizetype d; partial := p; partial_capacity := capacity;
     partial_object_size := object_size; partial_active := active |}.

(** What reading a segment comes to: an error, no frame yet, a frame, or bytes
    written past the end of [partial]. *)
Inductive segment := Failed | Nothing | Frame (bytes : list Z) | Overflow.

Section Asf.
(** The file; the largest [long]; which allocations succeed; and what the stack
    holds where [stream_type_guid] is not filled. *)
Context (file : list Z) (LONG_MAX : Z) (malloc : Z -> bool) (stack : list Z).

Abbreviation to_long := (Stream.to_long LONG_MAX).
Abbreviation fread := (Stream.fread file).
Abbreviation fseek_set := (Stream.fseek_set LONG_MAX).
Abbreviation fseek_cur := (Stream.fseek_cur LONG_MAX).

(** [read_u8] to [read_u64le]: 0 when the bytes are not all there. *)
Definition read_le (n : Z) (s : stream) : Z * stream :=
  let '(b, s) := fread n s in (if Z.of_nat (length b) =? n then le_value b else 0, s).
Definition read_u8 := read_le 1.
Definition read_u16le := read_le 2.
Definition read_u32le := read_le 4.
Definition read_u64le := read_le 8.

(** The field, and [rsize] after. *)
Definition read_variable_field (selector2bits defval rsize : Z) (s : stream) : Z * Z * stream :=
  let sel := Z.land selector2bits 3 in
  if sel =? 3 then let '(v, s) := read_u32le s in (v, rsize + 4, s) else
  if sel =? 2 then let '(v, s) := read_u16le s in (v, rsize + 2, s) else
  if sel =? 1 then let '(v, s) := read_u8 s in (v, rsize + 1, s) else (defval, rsize, s).

(** ** Packets *)
Definition read_packet_header (d : asf_demux) : bool * asf_demux :=
  if negb (data_packets_total (info d) =? 0) && (data_packets_total (info d) <=? data_packets_read d) then (false, d) else
  let s := fseek_set (next_packet_pos d) (st d) in
  let '(c, s) := read_u8 s in
  if s_eof s then (false, with_st d s) else
  let '(flags, rsize, s) :=
    if Z.land c 128 =? 0 then (c, 8, s) else
    let '(rsize, s) :=
      if Z.land c 96 =? 0 then
        let '(_, s) := read_u8 s in let '(_, s) := read_u8 s in
        let extra := Z.land c 15 - 2 in
        (9 + Z.land c 15, if 0 <? extra then fseek_cur extra s else s)
      else (9, s) in
    let '(flags, s) := read_u8 s in (flags, rsize, s) in
  let '(property, s) := read_u8 s in
  let '(packet_length, rsize, s) := read_variable_field (Z.shiftr flags 5) (default_packet_size (info d)) rsize s in
  let '(_, rsize, s) := read_variable_field (Z.shiftr flags 1) 0 rsize s in
  let '(padsize, rsize, s) := read_variable_field (Z.shiftr flags 3) 0 rsize s in
  let '(_, s) := read_u32le s in
  let '(_, s) := read_u16le s in
  let '(segsizetype, rsize, remaining, s) :=
    if Z.land flags 1 =? 0 then (128, rsize, 1, s)
    else let '(t, s) := read_u8 s in (t, rsize + 1, Z.land t 63, s) in
  let d' := {| info := info d; first_packet_pos := first_packet_pos d; st := s; data_packets_read := data_packets_read d;
               next_packet_pos := next_packet_pos d; packet_segments_remaining := remaining;
               packet_size_left := packet_size_left d; packet_flags := flags; packet_property := property;
               packet_segsizetype := segsizetype; partial := partial d; partial_capacity := partial_capacity d;
               partial_object_size := partial_object_size d; partial_active := partial_active d |} in
  if (packet_length <=? padsize) || (packet_length - padsize <? u32 rsize) then (false, d') else
  (true, {| info := info d; first_packet_pos := first_packet_pos d; st := s;
            data_packets_read := u64 (data_packets_read d + 1); next_packet_pos := next_packet_pos d + to_long packet_length;
            packet_segments_remaining := remaining; packet_size_left := packet_length - padsize - u32 rsize; packet_flags := flags;
            packet_property := property; packet_segsizetype := segsizetype; partial := partial d;
            partial_capacity := partial_capacity d; partial_object_size := partial_object_size d; partial_active := partial_active d |}).

(** ** Segments *)

(** The fragment at [frag_offset] of an object of [media_object_size]. *)
Definition add_fragment (d : asf_demux) (frag_offset frag_size media_object_size out_buf_size : Z) : segment * asf_demux :=
  let d :=
    if frag_offset =? 0 then
      if partial_capacity d <? media_object_size then
        if malloc media_object_size then with_partial d (Some []) media_object_size media_object_size true
        else with_partial d None 0 media_object_size false
      else with_partial d ((fun _ => []) <$> partial d) (partial_capacity d) media_object_size (bool_decide (is_Some (partial d)))
    else d in
  if negb (partial_active d) || negb (frag_offset =? partial_filled d) || (partial_capacity d <? u32 (frag_offset + frag_size)) then
    (Nothing, with_partial (with_st d (fseek_cur (to_long frag_size) (st d))) (partial d) (partial_capacity d) (partial_object_size d) false)
  else
    let '(got, s) := fread frag_size (st d) in
    let d := with_st d s in
    let bytes := default [] (partial d) ++ got in
    if partial_capacity d <? Z.of_nat (length bytes) then (Overflow, d) else
    if negb (Z.of_nat (length got) =? frag_size) then (Failed, d) else
    let d := with_partial d (Some bytes) (partial_capacity d) (partial_object_size d) (partial_active d) in
    if partial_object_size d <=? partial_filled d then
      let d' := with_partial d (partial d) (partial_capacity d) (partial_object_size d) false in
      if out_buf_size <? partial_object_size d then (Failed, d')
      else (Frame (take (Z.to_nat (partial_object_size d)) bytes), d')
    else (Nothing, d).

Definition read_next_segment (d : asf_demux) (out_buf_size : Z) : segment * asf_demux :=
  let '(num, s) := read_u8 (st d) in
  let d := with_left d (packet_segments_remaining d - 1) (packet_size_left d) in
  let '(_, rsize, s) := read_variable_field (Z.shiftr (packet_property d) 4) 0 1 s in
  let '(frag_offset, rsize, s) := read_variable_field (Z.shiftr (packet_property d) 2) 0 rsize s in
  let '(replic_size, rsize, s) := read_variable_field (packet_property d) 0 rsize s in
  if negb (8 <=? replic_size) && negb (replic_size =? 1) && negb (replic_size =? 0) then (Failed, with_st d s) else
  let '(media_object_size, compressed_mode, frag_offset, rsize, s) :=
    if 8 <=? replic_size then
      let '(size, s) := read_u32le s in
      let '(_, s) := read_u32le s in
      (size, false, frag_offset, i32 (rsize + i32 replic_size),
       if 8 <? replic_size then fseek_cur (to_long (replic_size - 8)) s else s)
    else if replic_size =? 1 then let '(_, s) := read_u8 s in (0, true, 0, rsize + 1, s)
    else (0, false, frag_offset, rsize, s) in
  let left rsize := if u32 rsize <=? packet_size_left d then packet_size_left d - u32 rsize else 0 in
  let '(frag_size, rsize, s) :=
    if Z.land (packet_flags d) 1 =? 0 then (left rsize, rsize, s)
    else read_variable_field (Z.shiftr (packet_segsizetype d) 6) 0 rsize s in
  let d := with_left (with_st d s) (packet_segments_remaining d) (left rsize) in
  if negb (Z.land num 127 =? audio_stream_number (info d)) then (Nothing, with_st d (fseek_cur (to_long frag_size) s)) else
  if (compressed_mode : bool) then
    if out_buf_size <? frag_size then (Failed, with_st d (fseek_cur (to_long frag_size) s)) else
    let '(got, s) := fread frag_size s in
    (if Z.of_nat (length got) =? frag_size then Frame got else Failed, with_st d s)
  else add_fragment d frag_offset frag_size media_object_size out_buf_size.

(** The loop of [asf_demux_read_frame]; [None] when the fuel is not enough. *)
Fixpoint read_frame_loop (fuel : nat) (d : asf_demux) (buf_size : Z) : option (segment * asf_demux) :=
  match fuel with
  | O => None
  | S fuel =>
      let '(ok, d) := if packet_segments_remaining d <=? 0 then read_packet_header d else (true, d) in
      if negb ok then Some (Failed, d) else
      match read_next_segment d buf_size with
      | (Nothing, d) => if s_eof (st d) then Some (Failed, d) else read_frame_loop fuel d buf_size
      | r => Some r
      end
  end.
(** A packet takes at least a byte and has at most 63 segments, so 64 rounds
    for each byte after the next packet, and for the segments left, are enough. *)
Definition read_frame_fuel (d : asf_demux) : nat :=
  (Z.to_nat (packet_segments_remaining d) + 64 * S (S (length file - Z.to_nat (next_packet_pos d))))%nat.
Definition asf_demux_read_frame (d : asf_demux) (buf_size : Z) : option (segment * asf_demux) :=
  read_frame_loop (read_frame_fuel d) d buf_size.

Definition asf_demux_seek_to_packet (d : asf_demux) (packet_index : Z) : asf_demux :=
  let packet_index :=
    if negb (data_packets_total (info d) =? 0) && (data_packets_total (info d) <=? packet_index)
    then data_packets_total (info d) - 1 else packet_index in
  {| info := info d; first_packet_pos := first_packet_pos d;
     st := {| s_pos := s_pos (st d); s_eof := false |}; data_packets_read := packet_index;
     next_packet_pos := first_packet_pos d + to_long (u64 (packet_index * default_packet_size (info d)));
     packet_segments_remaining := 0; packet_size_left := packet_size_left d; packet_flags := packet_flags d;
     packet_property := packet_property d; packet_segsizetype := packet_segsizetype d;
     partial := (fun _ => []) <$> partial d; partial_capacity := partial_capacity d;
     partial_object_size := partial_object_size d; partial_active := false |}.

(** ** Opening *)
Record asf_object_header := { guid : list Z; o_size : Z; data_start : Z }.
Definition read_object_header (s : stream) : option asf_object_header * stream :=
  let '(g, s) := fread 16 s in
  if negb (Z.of_nat (length g) =? 16) then (None, s) else
  let '(size, s) := read_u64le s in
  (if 24 <=? size then Some {| guid := g; o_size := size; data_start := s_pos s |} else None, s).

Definition no_info : asf_info :=
  {| codec_id := 0; channels := 0; sample_rate := 0; byte_rate := 0; block_align := 0; codec_data := replicate 64 0;
     codec_data_size := 0; audio_stream_number := -1; default_packet_size := 0; data_packets_total := 0; duration_100ns := 0 |}.

Definition read_file_properties (i : asf_info) (start : Z) (s : stream) : asf_info * stream :=
  let '(total, s) := read_u64le (fseek_set (start + 32) s) in
  let '(duration, s) := read_u64le (fseek_set (start + 40) s) in
  let '(size, s) := read_u32le (fseek_set (start + 68) s) in
  ({| codec_id := codec_id i; channels := channels i; sample_rate := sample_rate i; byte_rate := byte_rate i;
      block_align := block_align i; codec_data := codec_data i; codec_data_size := codec_data_size i;
      audio_stream_number := audio_stream_number i; default_packet_size := size; data_packets_total := total;
      duration_100ns := duration |}, s).
Definition read_stream_properties (i : asf_info) (start : Z) (s : stream) : asf_info * stream :=
  let '(got, s) := fread 16 (fseek_set start s) in
  let stream_type_guid := got ++ drop (length got) stack in
  let s := fseek_cur 24 s in
  let '(_, s) := read_u32le s in
  let '(_, s) := read_u32le s in
  let '(flags, s) := read_u16le s in
  let s := fseek_cur 4 s in
  if negb (guid_eq stream_type_guid GUID_AUDIO_STREAM) then (i, s) else
  let '(id, s) := read_u16le s in
  let '(ch, s) := read_u16le s in
  let '(rate, s) := read_u32le s in
  let '(bytes, s) := read_u32le s in
  let '(align, s) := read_u16le s in
  let '(_, s) := read_u16le s in
  let '(size, s) := read_u16le s in
  let size := Z.min size 64 in
  let '(data, s) := fread size s in
  ({| codec_id := id; channels := ch; sample_rate := rate; byte_rate := bytes; block_align := align;
      codec_data := data ++ drop (length data) (codec_data i); codec_data_size := size;
      audio_stream_number := Z.land flags 127; default_packet_size := default_packet_size i;
      data_packets_total := data_packets_total i; duration_100ns := duration_100ns i |}, s).

(** The objects of the header; [num_objects] bounds the rounds. *)
Fixpoint objects_loop (num_objects : nat) (i : asf_info) (pos : Z) (s : stream) : asf_info * stream :=
  match num_objects with
  | O => (i, s)
  | S num_objects =>
      match read_object_header (fseek_set pos s) with
      | (None, s) => (i, s)
      | (Some sub, s) =>
          let next := data_start sub + to_long (o_size sub - 24) in
          let '(i, s) :=
            if guid_eq (guid sub) GUID_FILE_PROPERTIES then read_file_properties i (data_start sub) s
            else if guid_eq (guid sub) GUID_STREAM_PROPERTIES && (audio_stream_number i <? 0) then read_stream_properties i (data_start sub) s
            else (i, s) in
          objects_loop num_objects i next s
      end
  end.
Definition asf_demux_open (calloc : bool) : option asf_demux :=
  let '(top, s) := read_object_header {| s_pos := 0; s_eof := false |} in
  top ← top;
  if negb (guid_eq (guid top) GUID_HEADER) then None else
  let '(num_objects, s) := read_u32le s in
  let s := fseek_cur 2 s in
  if negb calloc then None else
  let '(i, s) := objects_loop (Z.to_nat num_objects) no_info (s_pos s) s in
  if (audio_stream_number i <? 0) || (default_packet_size i =? 0) then None else
  let header_end := data_start top + to_long (o_size top - 24) in
  let '(data_obj, s) := read_object_header (fseek_set header_end s) in
  data_obj ← data_obj;
  if negb (guid_eq (guid data_obj) GUID_DATA) then None else
  let pos := data_start data_obj + 16 + 8 + 2 in
  Some {| info := i; first_packet_pos := pos; st := s; data_packets_read := 0; next_packet_pos := pos;
          packet_segments_remaining := 0; packet_size_left := 0; packet_flags := 0; packet_property := 0; packet_segsizetype := 0;
          partial := None; partial_capacity := 0; partial_object_size := 0; partial_active := false |}.

Definition asf_demux_get_codec_id (d : asf_demux) : Z := codec_id (info d).
Definition asf_demux_get_channels (d : asf_demux) : Z := channels (info d).
Definition asf_demux_get_sample_rate (d : asf_demux) : Z := sample_rate (info d).
Definition asf_demux_get_byte_rate (d : asf_demux) : Z := byte_rate (info d).
Definition asf_demux_get_block_align (d : asf_demux) : Z := block_align (info d).
Definition asf_demux_get_codec_data (d : asf_demux) : list Z * Z := (codec_data (info d), codec_data_size (info d)).
Definition asf_demux_get_duration_100ns (d : asf_demux) : Z := duration_100ns (info d).
Definition asf_demux_get_packet_count (d : asf_demux) : Z := data_packets_total (info d).
End Asf.
