(* ===== verification/AsfProofs.v ===== *)
(** The ASF demuxer ends and stays in bounds: every call on an opened file comes
    back, with a frame that fits or without one, and bytes are put together inside
    their buffer unless a fragment's offset and size wrap around. *)
From S2P Require Import Prelude ScanIntern Memory Stream Asf.
Local Open Scope Z_scope.

Section Streams.
Context (file : list Z) (LONG_MAX : Z) (malloc : Z -> bool) (stack : list Z).
Context (Hfile : Forall is_byte file).
Abbreviation len := (Z.of_nat (length file)).

Lemma read_le_range n s : 0 <= n -> 0 <= fst (read_le file n s) < 256 ^ n.
Proof.
  intros Hn. unfold read_le. pose proof (fread_is_bytes Hfile n s) as Hb. destruct (fread file n s) as [b s']. cbn [fst] in *.
  destruct (Z.eqb_spec (Z.of_nat (length b)) n) as [<-|]; [by apply le_value_range|]. split; [lia|]. apply Z.pow_pos_nonneg; lia.
Qed.
Lemma read_le_pos n s : s_pos s <= s_pos (snd (read_le file n s)).
Proof. unfold read_le. pose proof (@fread_pos file n s). by destruct (fread file n s). Qed.
Lemma read_u32_range s : in_u32 (fst (read_u32le file s)).
Proof. apply (read_le_range 4). lia. Qed.
Lemma read_u8_range s : is_byte (fst (read_u8 file s)).
Proof. apply (read_le_range 1). lia. Qed.

(** A field: its value, the bytes counted, the place after. *)
Lemma variable_field_range sel defval rsize s :
  in_u32 defval -> let '(v, rsize', s') := read_variable_field file sel defval rsize s in
  in_u32 v /\ rsize <= rsize' <= rsize + 4.
Proof.
  intros Hd. unfold read_variable_field. pose proof (read_u32_range s) as H4. pose proof (read_le_range 2 s) as H2. pose proof (read_u8_range s) as H1.
  unfold read_u16le. unfold in_u32, is_byte in *. destruct (_ =? 3); [destruct (read_u32le file s); cbn [fst] in *; lia|].
  destruct (_ =? 2); [destruct (read_le file 2 s); cbn [fst] in *; lia|].
  destruct (_ =? 1); [destruct (read_u8 file s); cbn [fst] in *; lia|lia].
Qed.

(** ** Packets *)
Context (Hlong : Z.of_nat (length file) + 26 <= LONG_MAX).

(** Every packet of the file leads to a later place. *)
Definition forward (i : asf_info) : Prop :=
  forall d d', info d = i -> 0 <= next_packet_pos d <= LONG_MAX -> read_packet_header file LONG_MAX d = (true, d') ->
  next_packet_pos d < next_packet_pos d' <= LONG_MAX.
Record positioned (d : asf_demux) : Prop := {
  ps_forward : forward (info d);
  ps_next : 0 <= next_packet_pos d <= LONG_MAX;
  ps_size : in_u32 (default_packet_size (info d));
  ps_total : 0 <= data_packets_total (info d);
  ps_first : 0 <= first_packet_pos d;
  ps_segments : packet_segments_remaining d <= 63 }.

Lemma land_63 z : Z.land z 63 <= 63.
Proof. change 63 with (Z.ones 6) at 1. rewrite Z.land_ones by lia. pose proof (Z.mod_pos_bound z (2 ^ 6)). change (2 ^ 6) with 64 in *. lia. Qed.

(** Steps that leave everything but the packet being read and the frame being put together. *)
Definition same_file (d d' : asf_demux) : Prop := info d' = info d /\ first_packet_pos d' = first_packet_pos d.
Lemma same_file_trans d1 d2 d3 : same_file d1 d2 -> same_file d2 d3 -> same_file d1 d3.
Proof. intros [E1 E2] [E3 E4]. by split; etransitivity. Qed.

Definition same_frame (d d' : asf_demux) : Prop :=
  (partial d', partial_capacity d', partial_object_size d', partial_active d') =
  (partial d, partial_capacity d, partial_object_size d, partial_active d).
Lemma read_packet_header_next d ok d' :
  in_u32 (default_packet_size (info d)) ->
  read_packet_header file LONG_MAX d = (ok, d') ->
  (same_file d d' /\ same_frame d d' /\ (in_u32 (packet_size_left d) -> in_u32 (packet_size_left d')) /\
   (packet_segments_remaining d <= 63 -> packet_segments_remaining d' <= 63)) /\
  if ok then (0 <= next_packet_pos d <= LONG_MAX -> next_packet_pos d < len) /\ exists L, 0 < L < 4294967296 /\ next_packet_pos d' = next_packet_pos d + to_long LONG_MAX L
  else next_packet_pos d' = next_packet_pos d.
Proof.
  intros Hs. unfold read_packet_header. destruct (_ && _); [by intros [= <- <-]|].
  destruct (read_u8 file _) as [c s1] eqn:Ec. destruct (s_eof s1) eqn:Heof; [by intros [= <- <-]|].
  assert (0 <= next_packet_pos d <= LONG_MAX -> next_packet_pos d < len) as Hin.
  { intros Hn. destruct (Z.le_gt_cases len (next_packet_pos d)) as [Hend|]; [|done]. revert Ec. unfold fseek_set.
    rewrite (proj2 (Z.ltb_ge (next_packet_pos d) 0)), (proj2 (Z.ltb_ge LONG_MAX _)) by lia.
    unfold read_u8, read_le. rewrite fread_past by (cbn; lia). intros [= <- <-]. done. }
  destruct (if Z.land c 128 =? 0 then _ else _) as [[flags rsize0] s2]. destruct (read_u8 file s2) as [property s3].
  pose proof (variable_field_range (Z.shiftr flags 5) (default_packet_size (info d)) rsize0 s3 Hs) as H1.
  destruct (read_variable_field file _ _ rsize0 s3) as [[L rsize1] s4]. destruct H1 as [HL _].
  assert (in_u32 0) as H0 by (unfold in_u32; lia). destruct (read_variable_field file _ 0 rsize1 s4) as [[seq rsize2] s5].
  pose proof (variable_field_range (Z.shiftr flags 3) 0 rsize2 s5 H0) as H3.
  destruct (read_variable_field file _ 0 rsize2 s5) as [[pad rsize3] s6]. destruct H3 as [Hpad _].
  destruct (read_u32le file s6) as [x s7]. destruct (read_u16le file s7) as [y s8].
  assert (exists t rsize4 remaining s9, (if Z.land flags 1 =? 0 then (128, rsize3, 1, s8)
    else let '(t, s) := read_u8 file s8 in (t, rsize3 + 1, Z.land t 63, s)) = (t, rsize4, remaining, s9) /\ remaining <= 63) as (t & rsize4 & remaining & s9 & -> & Hrem).
  { destruct (Z.land flags 1 =? 0); [by eexists _, _, _, _|]. destruct (read_u8 file s8) as [t s9]. eexists _, _, _, _. split; [done|apply land_63]. }
  destruct (Z.leb_spec L pad); cbn [orb]; [by intros [= <- <-]|].
  destruct (Z.ltb_spec (L - pad) (u32 rsize4)); intros [= <- <-].
  { split; [|done]. split; [done|]. split; [done|]. split; [done|]. cbn. lia. }
  pose proof (u32_range rsize4). unfold in_u32 in *.
  cbn [next_packet_pos packet_segments_remaining packet_size_left]. split; [split; [done|]; split; [done|]; lia|]. split; [done|]. exists L. lia.
Qed.
Lemma read_packet_header_moves d ok d' :
  positioned d -> in_u32 (packet_size_left d) -> read_packet_header file LONG_MAX d = (ok, d') ->
  positioned d' /\ in_u32 (packet_size_left d') /\ same_file d d' /\ same_frame d d' /\
  (ok = true -> next_packet_pos d < len /\ next_packet_pos d < next_packet_pos d').
Proof.
  intros [Hfw Hn Hs Ht Hf Hg] Hl Hread. destruct (read_packet_header_next d ok d') as [([E1 E2] & Hframe & Hl' & Hg') Hstep]; [done..|].
  specialize (Hl' Hl). specialize (Hg' Hg).
  assert (0 <= next_packet_pos d' <= LONG_MAX /\ (ok = true -> next_packet_pos d < len /\ next_packet_pos d < next_packet_pos d')) as [Hn' Hok].
  { destruct ok; [|split; [by rewrite Hstep|done]]. pose proof (Hfw d d' eq_refl Hn Hread). destruct Hstep as [Hin _]. specialize (Hin Hn). lia. }
  split; [split; by rewrite ?E1, ?E2|]. by split; [|split; [split|split]].
Qed.

(** ** Segments *)

(** A segment changes the packet it is in, and not where the packets are. *)
Definition same_place (d d' : asf_demux) : Prop :=
  same_file d d' /\ next_packet_pos d' = next_packet_pos d /\ data_packets_read d' = data_packets_read d.
(** What a segment may come to for a buffer of [n] bytes. *)
Definition fits (n : Z) (r : segment) : Prop := match r with Frame bytes => Z.of_nat (length bytes) <= n | _ => True end.

Lemma add_fragment_keeps d off size obj n r d' :
  0 <= n -> add_fragment file LONG_MAX malloc d off size obj n = (r, d') ->
  same_place d d' /\ (packet_segments_remaining d' = packet_segments_remaining d /\ packet_size_left d' = packet_size_left d) /\ fits n r.
Proof.
  intros Hn. unfold add_fragment.
  set (d0 := if off =? 0 then _ else d).
  assert (same_place d d0 /\ packet_segments_remaining d0 = packet_segments_remaining d /\ packet_size_left d0 = packet_size_left d) as [H0 Hrem].
  { unfold d0. destruct (off =? 0); [|by split]. destruct (_ <? _); [destruct (malloc _)|]; by split. }
  clearbody d0. destruct (_ || _ || _); [by intros [= <- <-]|].
  destruct (fread file size (st d0)) as [got s]. destruct (_ <? _); [by intros [= <- <-]|].
  destruct (negb _); [by intros [= <- <-]|]. destruct (_ <=? _); [|by intros [= <- <-]].
  match goal with |- context [n <? ?size] => destruct (Z.ltb_spec n size) end.
  all: intros [= <- <-]; split; [exact H0|]; split; [exact Hrem|]; cbn [fits]; try done.
  cbn in *. rewrite length_take. lia.
Qed.

Lemma read_next_segment_keeps d n r d' :
  0 <= n -> read_next_segment file LONG_MAX malloc d n = (r, d') ->
  same_place d d' /\ packet_segments_remaining d' = packet_segments_remaining d - 1 /\ fits n r.
Proof.
  intros Hn. unfold read_next_segment. destruct (read_u8 file (st d)) as [num s0].
  destruct (read_variable_field file _ _ _ s0) as [[x rsize1] s1].
  destruct (read_variable_field file _ _ _ s1) as [[off rsize2] s2].
  destruct (read_variable_field file _ _ _ s2) as [[replic rsize3] s3].
  destruct (_ && _ && _); [by intros [= <- <-]|].
  destruct (if 8 <=? replic then _ else _) as [[[[obj comp] off'] rsize4] s4].
  destruct (if Z.land _ 1 =? 0 then _ else _) as [[size rsize5] s5].
  destruct (negb _); [by intros [= <- <-]|]. destruct (comp : bool).
  - destruct (Z.ltb_spec n size); [by intros [= <- <-]|]. pose proof (@fread_length file size s5) as Hgot.
    destruct (fread file size s5) as [got s6]. cbn [fst] in Hgot. intros [= <- <-]. split; [done|]. split; [done|].
    destruct (Z.eqb_spec (Z.of_nat (length got)) size); cbn; [lia|done].
  - intros H. by apply add_fragment_keeps in H as (H1 & [H2 _] & H3).
Qed.

(** ** Putting fragments together *)

(** What was put together lies in the buffer, which exists while it is filled. *)
Record assembled (d : asf_demux) : Prop := {
  as_filled : partial_filled d <= partial_capacity d;
  as_capacity : in_u32 (partial_capacity d);
  as_buffer : partial d = None -> partial_capacity d = 0;
  as_active : partial_active d = true -> is_Some (partial d) /\ partial_object_size d <= partial_capacity d }.
Lemma assembled_same d d' :
  partial d' = partial d -> partial_capacity d' = partial_capacity d -> partial_object_size d' = partial_object_size d ->
  (partial_active d' = true -> partial_active d = true) -> assembled d -> assembled d'.
Proof.
  intros E1 E2 E3 E4 [H1 H2 H0 H3]. unfold partial_filled in *. split; unfold partial_filled; rewrite ?E1, ?E2, ?E3; [done..|]. intros H. by apply H3, E4.
Qed.

(** The first fragment of an object gets a buffer for the whole object. *)
Lemma first_fragment d obj (b : bool) :
  assembled d -> in_u32 obj ->
  assembled (if b then
      if partial_capacity d <? obj then
        if malloc obj then with_partial d (Some []) obj obj true else with_partial d None 0 obj false
      else with_partial d ((fun _ => []) <$> partial d) (partial_capacity d) obj (bool_decide (is_Some (partial d)))
    else d).
Proof.
  intros H Hobj. destruct b; [|done]. destruct H as [H1 H2 H0 H3]. unfold in_u32 in *.
  destruct (Z.ltb_spec (partial_capacity d) obj); [destruct (malloc obj)|].
  all: split; cbn; try lia; try done.
  - unfold partial_filled. cbn. lia.
  - unfold partial_filled. cbn. destruct (partial d); cbn; lia.
  - by destruct (partial d); [|rewrite H0].
  - destruct (partial d); cbn; [by eauto|done].
Qed.
Lemma add_fragment_assembled d off size obj n r d' :
  assembled d -> in_u32 off -> in_u32 size -> in_u32 obj -> add_fragment file LONG_MAX malloc d off size obj n = (r, d') ->
  assembled d' /\ (r = Overflow -> 4294967296 <= off + size).
Proof.
  intros Hd Ho Hs Hobj. unfold add_fragment. apply (first_fragment d obj (off =? 0)) in Hd; [|done].
  match goal with H : assembled ?d0' |- _ => set (d0 := d0') in *; clearbody d0 end.
  destruct (negb (partial_active d0)) eqn:Ha; cbn [orb].
  { intros [= <- <-]. split; [|done]. by apply (assembled_same d0). }
  destruct (Z.eqb_spec off (partial_filled d0)) as [Hoff|]; cbn [negb orb]; [|intros [= <- <-]; split; [by apply (assembled_same d0)|done]].
  destruct (Z.ltb_spec (partial_capacity d0) (u32 (off + size))) as [|Hcap]; [intros [= <- <-]; split; [by apply (assembled_same d0)|done]|].
  pose proof (@fread_length file size (st d0)) as Hgot. destruct (fread file size (st d0)) as [got s]. cbn [fst] in Hgot.
  assert (Z.of_nat (length (default [] (partial (with_st d0 s)) ++ got)) <= off + size) as Hlen.
  { rewrite length_app. unfold partial_filled, in_u32 in *. cbn. lia. }
  destruct (Z.ltb_spec (partial_capacity (with_st d0 s)) (Z.of_nat (length (default [] (partial (with_st d0 s)) ++ got)))) as [Hover|Hin].
  { intros [= <- <-]. split; [by apply (assembled_same d0)|]. intros _. unfold in_u32 in *. cbn in Hover, Hlen.
    destruct (Z.le_gt_cases 4294967296 (off + size)); [done|]. rewrite u32_id in Hcap by (unfold in_u32; lia). lia. }
  apply negb_false_iff in Ha. destruct Hd as [H1 H2 H0 H3]. destruct (H3 Ha) as [H4 H5].
  destruct (negb _); [intros [= <- <-]; split; [by split|done]|].
  match goal with |- context [if ?b then _ else _] => destruct b end.
  2: intros [= <- <-]; split; [by split; [exact Hin|done|done|by eauto]|done].
  match goal with |- context [if ?b then _ else _] => destruct b end.
  all: intros [= <- <-]; split; [by split; [exact Hin|..]|done].
Qed.

(** With what is left of the packet as a [uint32_t]. *)
Definition within (d : asf_demux) : Prop := assembled d /\ in_u32 (packet_size_left d).

Lemma left_range left rsize : in_u32 left -> in_u32 (if u32 rsize <=? left then left - u32 rsize else 0).
Proof. intros H. pose proof (u32_range rsize). unfold in_u32 in *. destruct (Z.leb_spec (u32 rsize) left); lia. Qed.
Lemma read_next_segment_within d n r d' :
  0 <= n -> within d -> read_next_segment file LONG_MAX malloc d n = (r, d') ->
  within d' /\ (r = Overflow -> exists d0 off size obj, assembled d0 /\ in_u32 off /\ in_u32 size /\ in_u32 obj /\
    add_fragment file LONG_MAX malloc d0 off size obj n = (Overflow, d') /\ 4294967296 <= off + size).
Proof.
  intros Hn [Hd Hl]. unfold read_next_segment. destruct (read_u8 file (st d)) as [num s0].
  assert (in_u32 0) as H0 by (unfold in_u32; lia).
  destruct (read_variable_field file _ _ _ s0) as [[x rsize1] s1].
  pose proof (variable_field_range (Z.shiftr (packet_property (with_left d (packet_segments_remaining d - 1) (packet_size_left d))) 2) 0 rsize1 s1 H0) as H1.
  destruct (read_variable_field file _ _ _ s1) as [[off rsize2] s2]. destruct H1 as [H1 _].
  destruct (read_variable_field file _ _ _ s2) as [[replic rsize3] s3].
  destruct (_ && _ && _); [by intros [= <- <-]; split; [split; [by apply (assembled_same d)|done]|]|].
  assert (exists obj comp off' rsize4 s4, (if 8 <=? replic then
      let '(size, s) := read_u32le file s3 in
      let '(_, s) := read_u32le file s in
      (size, false, off, i32 (rsize3 + i32 replic), if 8 <? replic then fseek_cur LONG_MAX (to_long LONG_MAX (replic - 8)) s else s)
    else if replic =? 1 then let '(_, s) := read_u8 file s3 in (0, true, 0, rsize3 + 1, s)
    else (0, false, off, rsize3, s3)) = (obj, comp, off', rsize4, s4) /\ in_u32 obj /\ in_u32 off')
    as (obj & comp & off' & rsize4 & s4 & -> & Hobj & Hoff).
  { destruct (8 <=? replic).
    - pose proof (read_u32_range s3) as H. destruct (read_u32le file s3) as [obj s]. destruct (read_u32le file s). by eexists _, _, _, _, _.
    - destruct (replic =? 1); [destruct (read_u8 file s3)|]; by eexists _, _, _, _, _. }
  assert (in_u32 (packet_size_left d)) as Hl' by done. apply (left_range _ rsize4) in Hl'.
  cbn [packet_flags packet_segsizetype packet_size_left with_left].
  assert (exists size rsize5 s5, (if Z.land (packet_flags d) 1 =? 0
    then (if u32 rsize4 <=? packet_size_left d then packet_size_left d - u32 rsize4 else 0, rsize4, s4)
    else read_variable_field file (Z.shiftr (packet_segsizetype d) 6) 0 rsize4 s4) = (size, rsize5, s5) /\ in_u32 size) as (size & rsize5 & s5 & -> & Hsize).
  { destruct (_ =? 0); [by eexists _, _, _|]. pose proof (variable_field_range (Z.shiftr (packet_segsizetype d) 6) 0 rsize4 s4 H0) as H.
    destruct (read_variable_field _ _ _ _ _) as [[]]. destruct H. by eexists _, _, _. }
  pose proof (left_range _ rsize5 Hl) as Hl5.
  match goal with |- context [add_fragment _ _ _ ?d1 _ _ _ _] => assert (within d1) as [Hd1 Hl1] by (split; [by apply (assembled_same d)|done]); set (d2 := d1) in * end.
  assert (forall s, within (with_st d2 s)) as Hst by (intros s; split; [by apply (assembled_same d2)|done]). clearbody d2.
  destruct (negb _); [intros [= <- <-]; by split|]. destruct (comp : bool).
  - destruct (n <? size); [intros [= <- <-]; by split|]. destruct (fread file size s5). intros [= <- <-]. split; [done|]. by destruct (_ =? _).
  - intros H. destruct (add_fragment_keeps _ _ _ _ _ _ _ Hn H) as (_ & [_ E] & _).
    destruct (add_fragment_assembled _ _ _ _ _ _ _ Hd1 Hoff Hsize Hobj H) as [H2 H3].
    split; [split; [done|by rewrite E]|]. intros ->. exists d2, off', size, obj. auto 8.
Qed.
(** ** Frames *)

(** Rounds of the loop of [asf_demux_read_frame] that are left at most. *)
Definition rounds (d : asf_demux) : nat :=
  (Z.to_nat (packet_segments_remaining d) + 64 * (length file - Z.to_nat (next_packet_pos d)))%nat.

Lemma positioned_segment d d' :
  positioned d -> same_place d d' -> packet_segments_remaining d' = packet_segments_remaining d - 1 -> positioned d'.
Proof. intros [H0 H1 H2 H3 H4 H5] [[E1 E2] [E3 _]] E4. split; rewrite ?E1, ?E2, ?E3; [done..|lia]. Qed.
Lemma same_frame_within d d' : same_frame d d' -> in_u32 (packet_size_left d') -> within d -> within d'.
Proof. intros [= E1 E2 E3 E4] Hl [H _]. split; [|done]. apply (assembled_same d); try done. by rewrite E4. Qed.

(** A fragment ran over the end of its buffer: its offset and size wrap around. *)
Definition wraps (n : Z) (d' : asf_demux) : Prop :=
  exists d off size obj, assembled d /\ in_u32 off /\ in_u32 size /\ in_u32 obj /\
    add_fragment file LONG_MAX malloc d off size obj n = (Overflow, d') /\ 4294967296 <= off + size.

(** The header of a packet, where one is needed. *)
Lemma next_header d :
  positioned d -> within d -> exists ok d0,
  (if packet_segments_remaining d <=? 0 then read_packet_header file LONG_MAX d else (true, d)) = (ok, d0) /\
  positioned d0 /\ within d0 /\ same_file d d0 /\
  (ok = true -> (Z.to_nat (packet_segments_remaining d0 - 1) + 64 * (length file - Z.to_nat (next_packet_pos d0)) < rounds d)%nat).
Proof.
  intros Hd Hw. unfold rounds. destruct (Z.leb_spec (packet_segments_remaining d) 0); [|exists true, d; do 4 (split; [done|]); lia].
  destruct (read_packet_header file LONG_MAX d) as [ok d0] eqn:E. apply read_packet_header_moves in E as (H1 & H2 & H3 & H4 & H5); [|done|apply Hw].
  exists ok, d0. split; [done|]. split; [done|]. split; [by apply (same_frame_within d)|]. split; [done|]. intros Hok. destruct (H5 Hok).
  pose proof (ps_next _ Hd). pose proof (ps_segments _ H1). lia.
Qed.
Lemma read_frame_loop_ends fuel d n :
  positioned d -> within d -> 0 <= n -> (rounds d < fuel)%nat ->
  exists r d', read_frame_loop file LONG_MAX malloc fuel d n = Some (r, d') /\
    positioned d' /\ within d' /\ same_file d d' /\ fits n r /\ r <> Nothing /\ (r = Overflow -> wraps n d').
Proof.
  intros Hd Hw Hn. revert d Hd Hw. induction fuel as [|fuel IH]; intros d Hd Hw Hf; [lia|]. cbn [read_frame_loop].
  destruct (next_header d Hd Hw) as (ok & d0 & -> & H0 & Hw0 & Hsame & Hr).
  destruct ok; cbn [negb]; [|by exists Failed, d0].
  destruct (read_next_segment file LONG_MAX malloc d0 n) as [r d1] eqn:E. destruct (read_next_segment_within _ _ _ _ Hn Hw0 E) as [Hw1 Ho].
  apply read_next_segment_keeps in E as (H1 & H2 & H3); [|done].
  assert (positioned d1) as Hd1 by (by apply (positioned_segment d0)).
  assert (same_file d d1) as Hs1 by (destruct H1 as [H1 _]; by apply (same_file_trans _ d0)).
  destruct r; [by exists Failed, d1| |by exists (Frame bytes), d1|exists Overflow, d1; auto 10].
  destruct (s_eof (st d1)); [by exists Failed, d1|].
  destruct (IH d1 Hd1 Hw1) as (r & d2 & -> & H4 & H5 & H6 & H7).
  - destruct H1 as [_ [E1 _]]. unfold rounds at 1. rewrite H2, E1. specialize (Hr eq_refl). lia.
  - exists r, d2. split; [done|]. split; [done|]. split; [done|]. split; [|done]. by apply (same_file_trans _ d1).
Qed.
Lemma read_frame_loop_within fuel d n r d' :
  0 <= n -> in_u32 (default_packet_size (info d)) -> within d ->
  read_frame_loop file LONG_MAX malloc fuel d n = Some (r, d') -> within d' /\ same_file d d'.
Proof.
  intros Hn. revert d. induction fuel as [|fuel IH]; intros d Hs Hw; [done|]. cbn [read_frame_loop].
  assert (exists ok d0, (if packet_segments_remaining d <=? 0 then read_packet_header file LONG_MAX d else (true, d)) = (ok, d0) /\
    within d0 /\ same_file d d0) as (ok & d0 & -> & Hw0 & Hd0).
  { destruct (_ <=? 0); [|by exists true, d]. destruct (read_packet_header file LONG_MAX d) as [ok d0] eqn:E.
    apply read_packet_header_next in E as [(H1 & H2 & H3 & _) _]; [|done]. exists ok, d0. split; [done|]. split; [|done].
    apply (same_frame_within d); [done| |done]. apply H3, Hw. }
  destruct (negb ok); [by intros [= <- <-]|]. destruct (read_next_segment file LONG_MAX malloc d0 n) as [r1 d1] eqn:E.
  destruct (read_next_segment_within _ _ _ _ Hn Hw0 E) as [Hw1 _]. apply read_next_segment_keeps in E as ([Hsame _] & _); [|done].
  assert (same_file d d1) as Hd1 by by apply (same_file_trans _ d0).
  destruct r1; try by intros [= <- <-]. destruct (s_eof (st d1)); [by intros [= <- <-]|].
  intros H. destruct (IH d1) as [H1 H2]; [by rewrite (proj1 Hd1)|done..|]. split; [done|]. by apply (same_file_trans _ d1).
Qed.
Lemma read_frame_ends d n :
  positioned d -> within d -> 0 <= n -> exists r d', asf_demux_read_frame file LONG_MAX malloc d n = Some (r, d') /\
    positioned d' /\ within d' /\ same_file d d' /\ fits n r /\ r <> Nothing /\ (r = Overflow -> wraps n d').
Proof. intros Hd Hw Hn. apply read_frame_loop_ends; [done..|]. unfold rounds, read_frame_fuel. lia. Qed.
(** More fuel changes nothing. *)
Lemma read_frame_loop_fuel fuel fuel' d n r :
  read_frame_loop file LONG_MAX malloc fuel d n = Some r -> (fuel <= fuel')%nat ->
  read_frame_loop file LONG_MAX malloc fuel' d n = Some r.
Proof.
  revert fuel' d. induction fuel as [|fuel IH]; intros [|fuel'] d H Hle; try done; [lia|]. cbn [read_frame_loop] in *.
  destruct (if _ <=? 0 then _ else _) as [ok d0]. destruct (negb ok); [done|].
  destruct (read_next_segment _ _ _ _ _) as [[] d1]; try done. destruct (s_eof _); [done|]. apply IH; [done|lia].
Qed.

(** ** Opening *)
Definition sane (i : asf_info) (s : stream) : Prop := in_u32 (default_packet_size i) /\ 0 <= data_packets_total i /\ 0 <= s_pos s.

Lemma read_object_header_pos s : s_pos s <= s_pos (snd (read_object_header file s)).
Proof.
  unfold read_object_header. pose proof (@fread_pos file 16 s) as H1. destruct (fread file 16 s) as [g s1]. cbn [snd] in H1.
  destruct (negb _); [done|]. pose proof (read_le_pos 8 s1) as H2. change (read_le file 8) with (read_u64le file) in H2.
  destruct (read_u64le file s1) as [size s2]. cbn [snd] in *. lia.
Qed.
Lemma read_object_header_start s o s' :
  0 <= s_pos s -> read_object_header file s = (Some o, s') -> 0 <= data_start o <= len.
Proof.
  intros Hs. unfold read_object_header. destruct (fread file 16 s) as [g s1] eqn:E1.
  assert (s_pos s <= s_pos s1) by (pose proof (@fread_pos file 16 s) as H; by rewrite E1 in H).
  destruct (negb _); [done|]. destruct (read_u64le file s1) as [size s2] eqn:E2.
  destruct (Z.leb_spec 24 size); [|done]. intros [= <- <-]. cbn [data_start].
  revert E2. unfold read_u64le, read_le. destruct (fread file 8 s1) as [b s3] eqn:E3.
  destruct (Z.eqb_spec (Z.of_nat (length b)) 8) as [Hb|]; intros [= <- <-]; [|lia].
  unfold fread in E3. injection E3 as <- <-. cbn [s_pos]. rewrite length_take, length_drop in *. lia.
Qed.

Lemma read_le_nonneg n s : 0 <= s_pos s -> 0 <= s_pos (snd (read_le file n s)).
Proof. pose proof (read_le_pos n s). lia. Qed.
(** Follow reads and seeks one by one: the place stays at or after the start. *)
Ltac follow :=
  repeat match goal with
    | H : 0 <= s_pos ?s |- context [read_le file ?n ?s] =>
        let H1 := fresh "Hpos" in let H2 := fresh "Hrange" in pose proof (read_le_nonneg n s H) as H1; pose proof (read_le_range n s) as H2;
        destruct (read_le file n s); cbn [fst snd] in H1, H2
    | H : 0 <= s_pos ?s |- context [fread file ?n ?s] =>
        let H1 := fresh "Hpos" in pose proof (@fread_nonneg file n s H) as H1; destruct (fread file n s); cbn [snd] in H1
    | H : 0 <= s_pos ?s |- context [fseek_set LONG_MAX ?n ?s] =>
        let H1 := fresh "Hpos" in pose proof (@fseek_set_nonneg LONG_MAX n s H) as H1; revert H1; generalize (fseek_set LONG_MAX n s); intros ? H1
    | H : 0 <= s_pos ?s |- context [fseek_cur LONG_MAX ?n ?s] =>
        let H1 := fresh "Hpos" in pose proof (@fseek_cur_nonneg LONG_MAX n s H) as H1; revert H1; generalize (fseek_cur LONG_MAX n s); intros ? H1
    end.
Lemma read_file_properties_sane i start s :
  sane i s -> let '(i', s') := read_file_properties file LONG_MAX i start s in sane i' s'.
Proof.
  intros (Hi & Ht & Hs). unfold read_file_properties, read_u64le, read_u32le. follow.
  split; [|split; [|done]]; cbn; unfold in_u32; lia.
Qed.
Lemma read_stream_properties_sane i start s :
  sane i s -> let '(i', s') := read_stream_properties file LONG_MAX stack i start s in sane i' s'.
Proof.
  intros (Hi & Ht & Hs). unfold read_stream_properties, read_u32le, read_u16le. follow. destruct (negb _); [done|]. follow. done.
Qed.
Lemma objects_loop_sane k i pos s :
  sane i s -> let '(i', s') := objects_loop file LONG_MAX stack k i pos s in sane i' s'.
Proof.
  revert i pos s. induction k as [|k IH]; intros i pos s Hs; cbn [objects_loop]; [done|].
  pose proof (read_object_header_pos (fseek_set LONG_MAX pos s)) as H1. pose proof (@fseek_set_nonneg LONG_MAX pos s (proj2 (proj2 Hs))).
  destruct (read_object_header file (fseek_set LONG_MAX pos s)) as [[o|] s1]; cbn [snd] in H1; [|by split; [apply Hs|split; [apply Hs|lia]]].
  assert (sane i s1) as H2 by (split; [apply Hs|split; [apply Hs|lia]]).
  pose proof (read_file_properties_sane i (data_start o) s1 H2) as H3. pose proof (read_stream_properties_sane i (data_start o) s1 H2) as H4.
  destruct (guid_eq _ _); [destruct (read_file_properties _ _ _ _ _); by apply IH|].
  destruct (_ && _); [destruct (read_stream_properties _ _ _ _ _ _); by apply IH|by apply IH].
Qed.
Lemma asf_demux_open_positioned calloc d : asf_demux_open file LONG_MAX stack calloc = Some d -> forward (info d) -> positioned d /\ within d.
Proof.
  unfold asf_demux_open. pose proof (read_object_header_pos {| s_pos := 0; s_eof := false |}) as H0.
  destruct (read_object_header file _) as [[top|] s]; [|done]. cbn [s_pos snd] in H0. cbn [mbind option_bind].
  destruct (negb _); [done|]. unfold read_u32le. follow. destruct (negb calloc); [done|].
  match goal with H : 0 <= s_pos ?s' |- context [objects_loop _ _ _ ?k no_info ?p ?s'] =>
    assert (sane no_info s') as Hi by (split; [done|split; [done|exact H]]);
    apply (objects_loop_sane k no_info p s') in Hi; destruct (objects_loop _ _ _ k no_info p s') as [i s2] end.
  destruct (_ || _); [done|]. destruct Hi as (Hi & Ht & Hs1).
  match goal with |- context [fseek_set LONG_MAX ?p s2] => pose proof (@fseek_set_nonneg LONG_MAX p s2 Hs1) as Hs2;
    destruct (read_object_header file (fseek_set LONG_MAX p s2)) as [[o|] s3] eqn:E end; [|done].
  apply read_object_header_start in E; [|done]. cbn [mbind option_bind]. destruct (negb _); [done|].
  intros [= <-] Hfw. split; [split; cbn [next_packet_pos first_packet_pos packet_segments_remaining info]; try done; lia|]. by split.
Qed.

(** A file that was opened, read from and repositioned in any order. The products
    [packet_index * default_packet_size] of the seeks stay in a [long]. *)
Inductive session : asf_demux -> Prop :=
  | session_open calloc d : asf_demux_open file LONG_MAX stack calloc = Some d -> forward (info d) -> session d
  | session_read d n r d' : session d -> 0 <= n -> asf_demux_read_frame file LONG_MAX malloc d n = Some (r, d') -> session d'
  | session_seek d k : session d -> 0 <= k -> first_packet_pos d + k * default_packet_size (info d) <= LONG_MAX ->
      session (asf_demux_seek_to_packet LONG_MAX d k).
Lemma seek_within d k : within d -> within (asf_demux_seek_to_packet LONG_MAX d k).
Proof.
  intros [[H1 H2 H0 H3] Hl]. split; [|done]. unfold in_u32 in H2. split; [|done|by cbn; destruct (partial d); [|rewrite H0]|done].
  unfold partial_filled. cbn. destruct (partial d); cbn; lia.
Qed.
Lemma session_positioned d : session d -> positioned d /\ within d.
Proof.
  induction 1 as [calloc d H Hfw|d n r d' _ IH Hn H|d k _ IH Hk Hmax].
  - by apply (asf_demux_open_positioned calloc).
  - destruct IH as [IH Hw]. destruct (read_frame_ends d n IH Hw Hn) as (r' & d'' & E & Hd & Hw' & _). rewrite H in E. by injection E as _ <-.
  - destruct IH as [IH Hw]. split; [|by apply seek_within]. destruct IH as [H0 H1 H2 H3 H4 H5]. unfold in_u32 in *.
    split; cbn [next_packet_pos info first_packet_pos packet_segments_remaining asf_demux_seek_to_packet]; [done| |done|done|done|lia].
    set (k' := if _ && _ then _ else _).
    assert (0 <= k' * default_packet_size (info d) <= k * default_packet_size (info d)).
    { unfold k'. destruct (Z.eqb_spec (data_packets_total (info d)) 0); cbn [negb andb]; [nia|].
      destruct (Z.leb_spec (data_packets_total (info d)) k); nia. }
    unfold u64. pose proof (Z.mod_le (k' * default_packet_size (info d)) 18446744073709551616). pose proof (Z.mod_pos_bound (k' * default_packet_size (info d)) 18446744073709551616).
    rewrite to_long_id by lia. lia.
Qed.


(** A [long] wider than 32 bits goes forward on every file. *)
Lemma wide_forward i : in_u32 (default_packet_size i) -> len + 4294967296 <= LONG_MAX -> forward i.
Proof.
  intros Hs Hwide d d' <- Hn Hread.
  destruct (read_packet_header_next d true d') as [_ [Hin (L & HL & ->)]]; [done..|]. specialize (Hin Hn). rewrite to_long_id by lia. lia.
Qed.
(** C12. Every call comes back, without a frame or with one that fits the buffer, and
    runs over the end of the demuxer's own buffer only where the offset and the
    size of a fragment add up to more than a [uint32_t] holds. *)
Theorem asf_demux_session d n :
  session d -> 0 <= n ->
  exists r d', asf_demux_read_frame file LONG_MAX malloc d n = Some (r, d') /\ session d' /\
    info d' = info d /\ first_packet_pos d' = first_packet_pos d /\
    match r with Failed => True | Nothing => False | Frame bytes => Z.of_nat (length bytes) <= n | Overflow => wraps n d' end.
Proof.
  intros Hs Hn. destruct (session_positioned d Hs) as [Hd Hw]. destruct (read_frame_ends d n Hd Hw Hn) as (r & d' & E & _ & _ & [E1 E2] & Hfit & Hr & Ho).
  exists r, d'. split; [done|]. split; [by apply (session_read d n r)|]. split; [done|]. split; [done|]. destruct r; auto.
Qed.
End Streams.
