(* ===== verification/AsfMux.v ===== *)
(** ASF files as they are written, with the layout the demuxer of
    src/audio/asf_demux.c reads: error correction data of two bytes, several
    payloads to a packet, their sizes in two bytes. Reading such a file gives the
    objects that were put in, in order. *)
From S2P Require Import Prelude ScanIntern Memory Stream Asf AsfProofs.
Local Open Scope Z_scope.

(** ** Packets *)

(** A payload of a packet: a fragment of a media object of [pl_size] bytes. *)
Record payload := { pl_number : Z; pl_object : Z; pl_offset : Z; pl_size : Z; pl_time : Z; pl_data : list Z }.
Record packet := { pk_time : Z; pk_duration : Z; pk_payloads : list payload }.
Definition payload_bytes (pl : payload) : list Z :=
  [pl_number pl] ++ [pl_object pl] ++ le_bytes 4 (pl_offset pl) ++ [8] ++ le_bytes 4 (pl_size pl) ++ le_bytes 4 (pl_time pl) ++
  le_bytes 2 (Z.of_nat (length (pl_data pl))) ++ pl_data pl.
Definition payloads_bytes (pls : list payload) : list Z := concat (map payload_bytes pls).
(** What the payloads leave of a packet of [size] bytes. *)
Definition padding (size : Z) (pk : packet) : Z := size - 14 - Z.of_nat (length (payloads_bytes (pk_payloads pk))).
Definition packet_bytes (size : Z) (pk : packet) : list Z :=
  [130] ++ [0] ++ [0] ++ [17] ++ [93] ++ le_bytes 2 (padding size pk) ++ le_bytes 4 (pk_time pk) ++ le_bytes 2 (pk_duration pk) ++
  [128 + Z.of_nat (length (pk_payloads pk))] ++ payloads_bytes (pk_payloads pk) ++ replicate (Z.to_nat (padding size pk)) 0.

Record payload_ok (pl : payload) : Prop := {
  po_number : is_byte (pl_number pl); po_object : is_byte (pl_object pl); po_offset : in_u32 (pl_offset pl);
  po_size : in_u32 (pl_size pl); po_data : Z.of_nat (length (pl_data pl)) < 65536 }.
Record packet_ok (size : Z) (pk : packet) : Prop := {
  ko_padding : 0 <= padding size pk < 65536;
  ko_payloads : Forall payload_ok (pk_payloads pk);
  ko_count : (1 <= length (pk_payloads pk) <= 63)%nat }.

(** Payloads of the audio stream [number] from the point where [acc] is what came
    of an object of [size] bytes, and the objects they complete. Payloads of other
    streams may lie anywhere between. *)
Inductive carries (number : Z) : list Z -> Z -> list payload -> list (list Z) -> Prop :=
  | carries_end acc size : carries number acc size [] []
  | carries_other acc size pl pls frames :
      Z.land (pl_number pl) 127 <> number -> carries number acc size pls frames -> carries number acc size (pl :: pls) frames
  | carries_more acc size pl pls frames :
      Z.land (pl_number pl) 127 = number -> pl_offset pl = Z.of_nat (length acc) -> pl_size pl = size \/ acc = [] ->
      Z.of_nat (length (acc ++ pl_data pl)) < pl_size pl ->
      carries number (acc ++ pl_data pl) (pl_size pl) pls frames -> carries number acc size (pl :: pls) frames
  | carries_last acc size pl pls frames :
      Z.land (pl_number pl) 127 = number -> pl_offset pl = Z.of_nat (length acc) -> pl_size pl = size \/ acc = [] ->
      Z.of_nat (length (acc ++ pl_data pl)) = pl_size pl -> 0 < pl_size pl ->
      carries number [] 0 pls frames -> carries number acc size (pl :: pls) ((acc ++ pl_data pl) :: frames).

Lemma length_payload pl : Z.of_nat (length (payload_bytes pl)) = 17 + Z.of_nat (length (pl_data pl)).
Proof. unfold payload_bytes. rewrite !length_app, !length_le_bytes. cbn [length]. lia. Qed.
Lemma length_packet size pk : packet_ok size pk -> Z.of_nat (length (packet_bytes size pk)) = size.
Proof.
  intros [H _ _]. unfold packet_bytes. rewrite !length_app, !length_le_bytes, length_replicate. cbn [length]. unfold padding in *. lia.
Qed.

Lemma length_packets size pks :
  Forall (packet_ok size) pks -> Z.of_nat (length (concat (map (packet_bytes size) pks))) = Z.of_nat (length pks) * size.
Proof.
  induction 1 as [|pk pks Hpk _ IH]; [done|]. cbn [map concat length]. rewrite length_app, Nat2Z.inj_add, (length_packet _ _ Hpk). lia.
Qed.
Lemma sizes_of_two n : (n <= 63)%nat -> Z.land (Z.shiftr (128 + Z.of_nat n) 6) 3 = 2 /\ Z.land (128 + Z.of_nat n) 63 = Z.of_nat n.
Proof.
  intros Hn. do 64 (destruct n as [|n]; [by split|]). lia.
Qed.

(** The caller's loop: [k] frames, one after the other. *)
Fixpoint read_frames (file : list Z) (LONG_MAX : Z) (malloc : Z -> bool) (k : nat) (d : asf_demux) (buf_size : Z) : option (list segment * asf_demux) :=
  match k with
  | O => Some ([], d)
  | S k => '(r, d) ← asf_demux_read_frame file LONG_MAX malloc d buf_size;
           '(rs, d) ← read_frames file LONG_MAX malloc k d buf_size; Some (r :: rs, d)
  end.

Section Reading.
Context (file : list Z) (LONG_MAX : Z) (malloc : Z -> bool).
Abbreviation holds := (Stream.holds file).

Lemma read_le_at p n v :
  holds p (le_bytes n v) -> 0 <= v < 256 ^ Z.of_nat n -> read_le file (Z.of_nat n) (at_ p) = (v, at_ (p + Z.of_nat n)).
Proof.
  intros H Hv. unfold read_le. rewrite (fread_here _ _ _ H) by (by rewrite length_le_bytes).
  by rewrite length_le_bytes, Z.eqb_refl, le_value_bytes.
Qed.
Lemma read_u8_at p v : holds p [v] -> is_byte v -> read_u8 file (at_ p) = (v, at_ (p + 1)).
Proof.
  intros H Hv. unfold read_u8, read_le. rewrite (fread_here _ _ _ H) by done. cbn. by rewrite Z.mul_0_r, Z.add_0_r || rewrite Z.add_0_r.
Qed.
Lemma read_u16_at p v : holds p (le_bytes 2 v) -> 0 <= v < 65536 -> read_u16le file (at_ p) = (v, at_ (p + 2)).
Proof. apply (read_le_at p 2). Qed.
Lemma read_u32_at p v : holds p (le_bytes 4 v) -> in_u32 v -> read_u32le file (at_ p) = (v, at_ (p + 4)).
Proof. apply (read_le_at p 4). Qed.
(** A field that is read and not used. *)
Lemma read_le_skip p n b : holds p b -> Z.of_nat (length b) = n -> exists v, read_le file n (at_ p) = (v, at_ (p + n)).
Proof. intros H Hn. unfold read_le. rewrite (fread_here _ _ _ H Hn). by eexists. Qed.
Lemma variable_none sel v rsize s : Z.land sel 3 = 0 -> read_variable_field file sel v rsize s = (v, rsize, s).
Proof. unfold read_variable_field. by intros ->. Qed.
Lemma variable_one sel v0 rsize p v :
  holds p [v] -> Z.land sel 3 = 1 -> is_byte v -> read_variable_field file sel v0 rsize (at_ p) = (v, rsize + 1, at_ (p + 1)).
Proof. intros H E Hv. unfold read_variable_field. rewrite E, (read_u8_at _ _ H) by done. done. Qed.
Lemma variable_two sel v0 rsize p v :
  holds p (le_bytes 2 v) -> Z.land sel 3 = 2 -> 0 <= v < 65536 -> read_variable_field file sel v0 rsize (at_ p) = (v, rsize + 2, at_ (p + 2)).
Proof. intros H E Hv. unfold read_variable_field. rewrite E, (read_u16_at _ _ H) by done. done. Qed.
Lemma variable_four sel v0 rsize p v :
  holds p (le_bytes 4 v) -> Z.land sel 3 = 3 -> in_u32 v -> read_variable_field file sel v0 rsize (at_ p) = (v, rsize + 4, at_ (p + 4)).
Proof. intros H E Hv. unfold read_variable_field. rewrite E, (read_u32_at _ _ H) by done. done. Qed.

(** ** The header of a packet *)
Context (Hlong : Z.of_nat (length file) <= LONG_MAX) (Hmalloc : forall size, malloc size = true).
(** In a packet laid out as above, with the payloads [pls] still to come at [p]. *)
Record in_packet (d : asf_demux) (p : Z) (pls : list payload) : Prop := {
  ip_st : st d = at_ p; ip_flags : packet_flags d = 17; ip_property : packet_property d = 93;
  ip_sizes : Z.land (Z.shiftr (packet_segsizetype d) 6) 3 = 2;
  ip_remaining : packet_segments_remaining d = Z.of_nat (length pls); ip_holds : holds p (payloads_bytes pls) }.

Lemma read_packet_header_at d pk :
  next_packet_pos d + default_packet_size (info d) <= Z.of_nat (length file) -> packet_ok (default_packet_size (info d)) pk ->
  (data_packets_total (info d) = 0 \/ data_packets_read d < data_packets_total (info d)) ->
  holds (next_packet_pos d) (packet_bytes (default_packet_size (info d)) pk) ->
  exists d', read_packet_header file LONG_MAX d = (true, d') /\ in_packet d' (next_packet_pos d + 14) (pk_payloads pk) /\
    same_file d d' /\ same_frame d d' /\ next_packet_pos d' = next_packet_pos d + default_packet_size (info d) /\
    data_packets_read d' = u64 (data_packets_read d + 1).
Proof.
  intros Hend Hok Htotal Hh. pose proof (length_packet _ _ Hok) as Hlen. set (size := default_packet_size (info d)) in *. set (p := next_packet_pos d) in *.
  pose proof (proj1 Hh) as Hp. unfold packet_bytes in Hh. repeat (apply holds_app in Hh as [? Hh]).
  rewrite ?length_le_bytes in *. cbn [length] in *. change (Z.of_nat 1) with 1 in *. change (Z.of_nat 2) with 2 in *. change (Z.of_nat 4) with 4 in *.
  destruct Hok as [Hpad _ Hcount]. destruct (sizes_of_two (length (pk_payloads pk))) as [Ht6 Ht]; [lia|].
  unfold read_packet_header. fold size. fold p.
  replace (negb (data_packets_total (info d) =? 0) && (data_packets_total (info d) <=? data_packets_read d)) with false.
  2: { destruct (Z.eqb_spec (data_packets_total (info d)) 0), (Z.leb_spec (data_packets_total (info d)) (data_packets_read d)); cbn; lia || done. }
  rewrite fseek_set_at by (unfold padding in Hpad; lia). rewrite (read_u8_at _ 130) by done. cbn [s_eof at_].
  change (Z.land 130 128 =? 0) with false. change (Z.land 130 96 =? 0) with true. cbv iota.
  rewrite (read_u8_at _ 0) by done. rewrite (read_u8_at _ 0) by done.
  change (0 <? Z.land 130 15 - 2) with false. cbv iota. rewrite (read_u8_at _ 17), (read_u8_at _ 93) by done.
  rewrite variable_none by done. rewrite variable_none by done. rewrite (variable_two _ _ _ _ (padding size pk)) by done.
  destruct (read_le_skip _ _ _ H5 (f_equal Z.of_nat (length_le_bytes 4 _))) as [t E5].
  destruct (read_le_skip _ _ _ H6 (f_equal Z.of_nat (length_le_bytes 2 _))) as [dur E6].
  unfold read_u32le, read_u16le. change (Z.of_nat 4) with 4 in E5. change (Z.of_nat 2) with 2 in E6. rewrite E5, E6.
  change (Z.land 17 1 =? 0) with false. cbv iota. rewrite (read_u8_at _ _ H7) by (unfold is_byte; lia). rewrite Ht.
  change (9 + Z.land 130 15 + 2 + 1) with 14.
  replace ((size <=? padding size pk) || (size - padding size pk <? u32 14)) with false.
  2: { change (u32 14) with 14. unfold padding in *. symmetry. apply orb_false_iff. rewrite Z.leb_gt, Z.ltb_ge. lia. }
  eexists. split; [reflexivity|]. replace (p + 1 + 1 + 1 + 1 + 1 + 2 + 4 + 2 + 1) with (p + 14) in * by lia.
  split; [by split|]. split; [done|]. split; [done|]. split; [|done].
  cbn [next_packet_pos]. rewrite to_long_id; [done|]. unfold padding in *. lia.
Qed.

(** ** Fragments *)

(** [acc] is what the demuxer holds of an object of [size] bytes. *)
Record holding (acc : list Z) (size : Z) (d : asf_demux) : Prop := {
  ho_capacity : 0 <= partial_capacity d; ho_buffer : partial d = None -> partial_capacity d = 0;
  ho_acc : acc <> [] -> partial d = Some acc /\ partial_active d = true /\ partial_object_size d = size /\ size <= partial_capacity d }.

(** Adding a fragment that fits what is held; the first one starts an object. *)
Lemma add_fragment_next d acc size p pl n :
  holding acc size d -> st d = at_ p -> holds p (pl_data pl) -> in_u32 (pl_size pl) -> 0 < pl_size pl ->
  (Z.of_nat (length (acc ++ pl_data pl)) = pl_size pl -> pl_size pl <= n) ->
  pl_offset pl = Z.of_nat (length acc) -> pl_size pl = size \/ acc = [] -> Z.of_nat (length (acc ++ pl_data pl)) <= pl_size pl ->
  let whole := acc ++ pl_data pl in let more := Z.of_nat (length whole) <? pl_size pl in
  exists capacity, pl_size pl <= capacity /\
  add_fragment file LONG_MAX malloc d (pl_offset pl) (Z.of_nat (length (pl_data pl))) (pl_size pl) n =
    (if more then Nothing else Frame whole,
     with_partial (with_st d (at_ (p + Z.of_nat (length (pl_data pl))))) (Some whole) capacity (pl_size pl) more).
Proof.
  intros [Hc Hb Ha] Hst Hh Hu Hpos Hn Hoff Hsize Hle whole more. unfold add_fragment.
  assert (exists capacity, pl_size pl <= capacity /\
    (if pl_offset pl =? 0 then
      if partial_capacity d <? pl_size pl then
        if malloc (pl_size pl) then with_partial d (Some []) (pl_size pl) (pl_size pl) true
        else with_partial d None 0 (pl_size pl) false
      else with_partial d ((fun _ => []) <$> partial d) (partial_capacity d) (pl_size pl) (bool_decide (is_Some (partial d)))
    else d) = with_partial d (Some acc) capacity (pl_size pl) true) as (capacity & Hcap & ->).
  { rewrite Hoff. destruct acc as [|x acc]; cbn [length].
    - change (Z.of_nat 0 =? 0) with true. cbv iota. destruct (Z.ltb_spec (partial_capacity d) (pl_size pl)); [rewrite Hmalloc; by eexists|].
      destruct (partial d); [by eexists|]. rewrite Hb in * by done. lia.
    - destruct Hsize as [->|]; [|done]. destruct Ha as (E1 & E2 & E3 & E4); [done|].
      rewrite (proj2 (Z.eqb_neq _ _)) by lia. exists (partial_capacity d). split; [done|]. destruct d; cbn in *. by subst. }
  exists capacity. split; [done|].
  assert (partial_filled (with_partial d (Some acc) capacity (pl_size pl) true) = Z.of_nat (length acc)) as Hfill by done.
  rewrite Hfill, Hoff, Z.eqb_refl. cbn [partial_active partial_capacity st with_partial negb orb].
  assert (Z.of_nat (length whole) = Z.of_nat (length acc) + Z.of_nat (length (pl_data pl))) as Hwhole by (unfold whole; rewrite length_app; lia).
  fold whole in Hle, Hn. unfold in_u32 in Hu. rewrite u32_id by (unfold in_u32; lia). rewrite (proj2 (Z.ltb_ge capacity _)) by lia.
  rewrite Hst, (fread_here _ _ _ Hh) by done. rewrite Z.eqb_refl. cbn [negb]. cbn [partial with_st with_partial partial_capacity].
  change (default [] (Some acc) ++ pl_data pl) with whole. rewrite (proj2 (Z.ltb_ge capacity (Z.of_nat (length whole)))) by lia.
  match goal with |- context [?a <=? partial_filled ?d'] => change (a <=? partial_filled d') with (pl_size pl <=? Z.of_nat (length whole)) end.
  unfold more. destruct (Z.ltb_spec (Z.of_nat (length whole)) (pl_size pl)) as [Hlt|Hge].
  - by rewrite (proj2 (Z.leb_gt _ _)) by lia.
  - rewrite (proj2 (Z.leb_le _ _)) by lia. match goal with |- context [n <? ?x] => change x with (pl_size pl) end.
    rewrite (proj2 (Z.ltb_ge n (pl_size pl))) by lia. rewrite take_ge; [done|]. cbn. lia.
Qed.

(** ** A payload *)
Lemma payload_at p pl pls :
  holds p (payloads_bytes (pl :: pls)) -> holds (p + 17) (pl_data pl) /\ holds (p + 17 + Z.of_nat (length (pl_data pl))) (payloads_bytes pls).
Proof.
  unfold payloads_bytes. cbn [map concat]. intros [H1 H2]%holds_app. rewrite length_payload, Z.add_assoc in H2. split; [|done].
  unfold payload_bytes in H1. repeat (apply holds_app in H1 as [? H1]). rewrite ?length_le_bytes in H1. cbn [length] in H1.
  by replace (p + 17) with (p + Z.of_nat 1 + Z.of_nat 1 + Z.of_nat 4 + Z.of_nat 1 + Z.of_nat 4 + Z.of_nat 4 + Z.of_nat 2) by lia.
Qed.
Lemma read_next_segment_at d p pl pls n :
  in_packet d p (pl :: pls) -> payload_ok pl ->
  exists left, let d0 := with_left (with_st d (at_ (p + 17))) (Z.of_nat (length pls)) left in
  read_next_segment file LONG_MAX malloc d n =
    if Z.land (pl_number pl) 127 =? audio_stream_number (info d)
    then add_fragment file LONG_MAX malloc d0 (pl_offset pl) (Z.of_nat (length (pl_data pl))) (pl_size pl) n
    else (Nothing, with_st d0 (at_ (p + 17 + Z.of_nat (length (pl_data pl))))).
Proof.
  intros [Est Ef Ep Es Er Hh] [Hn Ho Hoff Hsize Hdata]. destruct (payload_at _ _ _ Hh) as [Hd _].
  assert (p + 17 + Z.of_nat (length (pl_data pl)) <= Z.of_nat (length file)) as Hend.
  { unfold payloads_bytes in Hh. cbn [map concat] in Hh. apply holds_app in Hh as [Hh _]. apply holds_end in Hh; [rewrite length_payload in Hh; lia|done]. }
  unfold payloads_bytes in Hh. cbn [map concat] in Hh. apply holds_app in Hh as [Hh _]. pose proof (proj1 Hh) as Hp.
  unfold payload_bytes in Hh. repeat (apply holds_app in Hh as [? Hh]). rewrite ?length_le_bytes in *. cbn [length] in *.
  change (Z.of_nat 1) with 1 in *. change (Z.of_nat 2) with 2 in *. change (Z.of_nat 4) with 4 in *.
  unfold read_next_segment. rewrite Est, Er. rewrite (read_u8_at p (pl_number pl)) by done. cbn [packet_property packet_flags packet_segsizetype with_left with_st].
  rewrite Ep, Ef. rewrite (variable_one _ _ _ _ (pl_object pl)), (variable_four _ _ _ _ (pl_offset pl)), (variable_one _ _ _ _ 8) by done.
  change (negb (8 <=? 8) && negb (8 =? 1) && negb (8 =? 0)) with false. change (8 <=? 8) with true. cbv iota.
  rewrite (read_u32_at _ (pl_size pl)) by done.
  destruct (read_le_skip _ _ _ H4 (f_equal Z.of_nat (length_le_bytes 4 _))) as [t E4]. change (Z.of_nat 4) with 4 in E4. unfold read_u32le. rewrite E4.
  change (8 <? 8) with false. change (Z.land 17 1 =? 0) with false. cbv iota.
  rewrite (variable_two _ _ _ _ (Z.of_nat (length (pl_data pl)))) by (done || lia).
  replace (Z.of_nat (S (length pls)) - 1) with (Z.of_nat (length pls)) by lia.
  replace (p + 1 + 1 + 4 + 1 + 4 + 4 + 2) with (p + 17) by lia.
  eexists. cbv zeta. cbn [info with_left with_st].
  destruct (Z.land (pl_number pl) 127 =? audio_stream_number (info d)); cbn [negb]; [reflexivity|].
  rewrite to_long_id by lia. unfold fseek_cur. cbn [s_pos at_]. by rewrite fseek_set_at by lia.
Qed.

(** ** Frame after frame *)

(** The payloads [pls] of the packet at hand and the packets [rest] are still to come. *)
Record playing (d : asf_demux) (pls : list payload) (rest : list packet) : Prop := {
  py_here : (exists p, in_packet d p pls) \/ pls = [] /\ packet_segments_remaining d <= 0;
  py_next : holds (next_packet_pos d) (concat (map (packet_bytes (default_packet_size (info d))) rest));
  py_read : 0 <= data_packets_read d; py_some : 0 < data_packets_total (info d) < 18446744073709551616;
  py_total : data_packets_total (info d) = data_packets_read d + Z.of_nat (length rest);
  py_pls : Forall payload_ok pls; py_rest : Forall (packet_ok (default_packet_size (info d))) rest }.
Definition to_come (pls : list payload) (rest : list packet) : list payload := pls ++ concat (map pk_payloads rest).

Lemma playing_segment d p pl pls rest left c :
  playing d (pl :: pls) rest -> in_packet d p (pl :: pls) ->
  playing (with_st (with_left (with_st d c) (Z.of_nat (length pls)) left) (at_ (p + 17 + Z.of_nat (length (pl_data pl))))) pls rest.
Proof.
  intros [_ H2 H3 H4 H5 H6 H7] [E1 E2 E3 E4 E5 E6]. apply Forall_cons_1 in H6 as [_ H6]. destruct (payload_at _ _ _ E6).
  split; try done. left. by exists (p + 17 + Z.of_nat (length (pl_data pl))).
Qed.
Lemma playing_partial d pls rest a b c e : playing d pls rest -> playing (with_partial d a b c e) pls rest.
Proof. intros [[[p [E1 E2 E3 E4 E5 E6]]|H1] H2 H3 H4 H5 H6 H7]; split; try done; [left; by exists p|by right]. Qed.

(** The next payload, after the header of its packet where it is the first. *)
Lemma next_payload d pls rest pl tail :
  playing d pls rest -> to_come pls rest = pl :: tail ->
  exists d0 pls' rest' p,
    (if packet_segments_remaining d <=? 0 then read_packet_header file LONG_MAX d else (true, d)) = (true, d0) /\
    playing d0 (pl :: pls') rest' /\ in_packet d0 p (pl :: pls') /\ to_come pls' rest' = tail /\ same_file d d0 /\ same_frame d d0.
Proof.
  intros Hd Htail. pose proof Hd as [Hhere Hnext Hr Hs Ht Hp Hk]. destruct pls as [|pl' pls'].
  - destruct rest as [|pk rest']; [done|]. cbn [to_come app map concat] in *.
    assert (packet_segments_remaining d <= 0) as Hrem by (destruct Hhere as [[p Hin]|[_ Hrem]]; [by rewrite (ip_remaining _ _ _ Hin)|done]).
    rewrite (proj2 (Z.leb_le _ _)) by done. apply Forall_cons_1 in Hk as [Hpk Hk]. apply holds_app in Hnext as [Hhd Hnext].
    rewrite (length_packet _ _ Hpk) in Hnext. cbn [length] in Ht.
    assert (packet_bytes (default_packet_size (info d)) pk <> []) as Hne by done.
    pose proof (holds_end _ _ Hhd Hne) as Hend. rewrite (length_packet _ _ Hpk) in Hend.
    destruct (read_packet_header_at d pk) as (d0 & E & Hin & [E1 E2] & E3 & E4 & E5); [lia|done|lia|done|].
    pose proof (ko_count _ _ Hpk) as Hcount. pose proof (ko_payloads _ _ Hpk) as Hpls.
    destruct (pk_payloads pk) as [|pl' pls'] eqn:Epls; [cbn in Hcount; lia|]. injection Htail as -> <-.
    exists d0, pls', rest', (next_packet_pos d + 14). split; [done|]. split; [|by split].
    split; rewrite ?E1; try done; [left; by eexists|by rewrite E4|rewrite E5; apply Z.mod_pos_bound; lia|].
    rewrite E5. unfold u64. rewrite Z.mod_small by lia. lia.
  - injection Htail as -> <-. destruct Hhere as [[p Hin]|[? _]]; [|done].
    exists d, pls', rest, p. pose proof (ip_remaining _ _ _ Hin) as Hrem. cbn [length] in Hrem.
    rewrite (proj2 (Z.leb_gt _ _)) by lia. by split; [|split].
Qed.

Lemma next_round d pls rest pl tail n :
  playing d pls rest -> to_come pls rest = pl :: tail ->
  exists d0 d1 pls' rest' p, let d2 := with_st d1 (at_ (p + Z.of_nat (length (pl_data pl)))) in
    (if packet_segments_remaining d <=? 0 then read_packet_header file LONG_MAX d else (true, d)) = (true, d0) /\
    read_next_segment file LONG_MAX malloc d0 n =
      (if Z.land (pl_number pl) 127 =? audio_stream_number (info d)
       then add_fragment file LONG_MAX malloc d1 (pl_offset pl) (Z.of_nat (length (pl_data pl))) (pl_size pl) n else (Nothing, d2)) /\
    st d1 = at_ p /\ holds p (pl_data pl) /\ in_u32 (pl_size pl) /\ playing d2 pls' rest' /\ to_come pls' rest' = tail /\
    same_file d d1 /\ same_frame d d1.
Proof.
  intros Hd Hall. destruct (next_payload d pls rest pl tail Hd Hall) as (d0 & pls' & rest' & p & E & Hd0 & Hin & Hall' & Hsame & Hframe).
  pose proof (py_pls _ _ _ Hd0) as Hok. apply Forall_cons_1 in Hok as [Hok _].
  destruct (read_next_segment_at d0 p pl pls' n Hin Hok) as [left Eseg]. destruct (payload_at _ _ _ (ip_holds _ _ _ Hin)) as [Hdata _].
  exists d0, (with_left (with_st d0 (at_ (p + 17))) (Z.of_nat (length pls')) left), pls', rest', (p + 17). cbv zeta.
  split; [done|]. split; [by rewrite Eseg, (proj1 Hsame)|]. split; [done|]. split; [done|]. split; [apply Hok|].
  split; [by apply (playing_segment d0 p pl)|]. done.
Qed.
Lemma holding_same acc size d d' : same_frame d d' -> holding acc size d -> holding acc size d'.
Proof. intros [= E1 E2 E3 E4] [H1 H2 H3]. split; by rewrite ?E1, ?E2, ?E3, ?E4. Qed.

(** After the last packet there is nothing. *)
Lemma loop_end d fuel n :
  playing d [] [] -> read_frame_loop file LONG_MAX malloc (S fuel) d n = Some (Failed, d).
Proof.
  intros [Hhere _ _ Hs Ht _ _]. cbn [read_frame_loop].
  assert (packet_segments_remaining d <= 0) as Hrem by (destruct Hhere as [[p Hin]|[_ Hrem]]; [by rewrite (ip_remaining _ _ _ Hin)|done]).
  rewrite (proj2 (Z.leb_le _ _)) by done. unfold read_packet_header. cbn [length] in Ht.
  by rewrite (proj2 (Z.eqb_neq (data_packets_total (info d)) 0)), (proj2 (Z.leb_le (data_packets_total (info d)) _)) by lia.
Qed.

Lemma to_come_nil d pls rest : playing d pls rest -> to_come pls rest = [] -> pls = [] /\ rest = [].
Proof.
  intros Hd Hnil. apply app_eq_nil in Hnil as [-> Hnil]. split; [done|]. destruct rest as [|pk rest]; [done|].
  cbn [map concat] in Hnil. apply app_eq_nil in Hnil as [Hnil _]. pose proof (py_rest _ _ _ Hd) as Hok. apply Forall_cons_1 in Hok as [Hok _].
  destruct (ko_count _ _ Hok) as [Hc _]. rewrite Hnil in Hc. cbn in Hc. lia.
Qed.
Lemma holding_next whole size d c capacity :
  0 <= capacity -> size <= capacity -> holding whole size (with_partial (with_st d c) (Some whole) capacity size true).
Proof. by split. Qed.

(** The first of the frames comes, and the others after it. *)
Definition comes (number n : Z) (fuel : nat) (d : asf_demux) (frames : list (list Z)) : Prop :=
  match frames with
  | [] => exists d', read_frame_loop file LONG_MAX malloc fuel d n = Some (Failed, d')
  | f :: frames => exists d' pls rest, read_frame_loop file LONG_MAX malloc fuel d n = Some (Frame f, d') /\
      playing d' pls rest /\ carries number [] 0 (to_come pls rest) frames /\ holding [] 0 d' /\ same_file d d'
  end.
Lemma comes_later number n fuel d d0 d2 frames :
  (if packet_segments_remaining d <=? 0 then read_packet_header file LONG_MAX d else (true, d)) = (true, d0) ->
  read_next_segment file LONG_MAX malloc d0 n = (Nothing, d2) -> s_eof (st d2) = false -> same_file d d2 ->
  comes number n fuel d2 frames -> comes number n (S fuel) d frames.
Proof.
  intros E Eseg Eeof Hsame H. unfold comes in *. cbn [read_frame_loop]. rewrite E. cbn [negb]. rewrite Eseg, Eeof.
  destruct frames as [|f frames]; [done|]. destruct H as (d' & pls & rest & H1 & H2 & H3 & H4 & H5).
  exists d', pls, rest. do 4 (split; [done|]). by apply (same_file_trans _ d2).
Qed.

(** The rounds up to the next frame: one for each payload. *)
Lemma loop_frames number acc size all frames n :
  carries number acc size all frames -> Forall (fun f => Z.of_nat (length f) <= n) frames ->
  forall d pls rest, playing d pls rest -> to_come pls rest = all -> holding acc size d -> audio_stream_number (info d) = number ->
  comes number n (S (length all)) d frames.
Proof.
  induction 1 as [acc size|acc size pl pls0 frames Hother _ IH|acc size pl pls0 frames Hnum Hoff Hsize Hmore Hc IH|acc size pl pls0 frames Hnum Hoff Hsize Hlast Hpos Hc IH];
    intros Hfit d pls rest Hd Hall Hho Hstream.
  { destruct (to_come_nil d pls rest Hd Hall) as [-> ->]. exists d. by apply loop_end. }
  all: destruct (next_round d pls rest pl pls0 n Hd Hall) as (d0 & d1 & pls' & rest' & p & E & Eseg & Est & Hdata & Hu & Hd2 & Hall' & Hsame & Hframe).
  all: rewrite Hstream in Eseg; pose proof (holding_same _ _ _ _ Hframe Hho) as Hho1.
  - rewrite (proj2 (Z.eqb_neq _ _)) in Eseg by done. apply (comes_later _ _ _ _ _ _ _ E Eseg); [done..|].
    by apply (IH Hfit _ pls' rest'); [..|apply (holding_same _ _ d1)|rewrite <- Hstream; exact (f_equal audio_stream_number (proj1 Hsame))].
  - rewrite (proj2 (Z.eqb_eq _ _)) in Eseg by done.
    destruct (add_fragment_next d1 acc size p pl n Hho1 Est Hdata Hu) as (capacity & Hcap & Eadd); [lia..|done|done|lia|].
    rewrite (proj2 (Z.ltb_lt _ _)) in Eadd by done. rewrite Eadd in Eseg.
    apply (comes_later _ _ _ _ _ _ _ E Eseg); [done..|]. apply (IH Hfit _ pls' rest'); [by apply playing_partial|done| |].
    + apply holding_next; lia.
    + rewrite <- Hstream. exact (f_equal audio_stream_number (proj1 Hsame)).
  - apply Forall_cons_1 in Hfit as [Hf Hfit]. rewrite (proj2 (Z.eqb_eq _ _)) in Eseg by done.
    destruct (add_fragment_next d1 acc size p pl n Hho1 Est Hdata Hu) as (capacity & Hcap & Eadd); [lia..|done|done|lia|].
    rewrite (proj2 (Z.ltb_ge _ _)) in Eadd by lia. rewrite Eadd in Eseg. cbn [comes read_frame_loop length]. rewrite E. cbn [negb]. rewrite Eseg.
    eexists _, pls', rest'. split; [reflexivity|]. split; [by apply playing_partial|]. split; [by rewrite Hall'|].
    split; [|done]. split; [cbn; lia|done|done].
Qed.

Lemma fuel_enough d pls rest : playing d pls rest -> (S (length (to_come pls rest)) <= read_frame_fuel file d)%nat.
Proof.
  intros [Hhere Hnext _ _ _ _ Hk]. unfold read_frame_fuel, to_come. rewrite length_app.
  assert (length pls <= Z.to_nat (packet_segments_remaining d))%nat by (destruct Hhere as [[p Hin]|[-> _]]; [rewrite (ip_remaining _ _ _ Hin)|cbn]; lia).
  assert (length (concat (map pk_payloads rest)) <= 63 * length (concat (map (packet_bytes (default_packet_size (info d))) rest)))%nat.
  { clear Hnext. induction Hk as [|pk rest Hpk _ IH]; cbn [map concat]; [done|]. rewrite !length_app. pose proof (ko_count _ _ Hpk).
    unfold packet_bytes at 1. cbn [app length]. lia. }
  destruct rest as [|pk rest]; [cbn [map concat length]; lia|]. apply holds_end in Hnext as Hend; [destruct Hnext; lia|done].
Qed.
Lemma read_frames_playing number frames n :
  Forall (fun f => Z.of_nat (length f) <= n) frames ->
  forall d pls rest, playing d pls rest -> carries number [] 0 (to_come pls rest) frames -> holding [] 0 d -> audio_stream_number (info d) = number ->
  exists d' d'', read_frames file LONG_MAX malloc (length frames) d n = Some (map Frame frames, d') /\
    asf_demux_read_frame file LONG_MAX malloc d' n = Some (Failed, d'').
Proof.
  induction frames as [|f frames IH]; intros Hfit d pls rest Hd Hc Hho Hs;
    pose proof (loop_frames _ _ _ _ _ _ Hc Hfit d pls rest Hd eq_refl Hho Hs) as H; cbn [comes] in H.
  - destruct H as [d' H]. exists d, d'. split; [done|]. apply (read_frame_loop_fuel _ _ _ _ _ _ _ _ H). by apply fuel_enough.
  - destruct H as (d1 & pls' & rest' & H & H1 & H2 & H3 & H4). apply Forall_cons_1 in Hfit as [_ Hfit].
    destruct (IH Hfit d1 pls' rest' H1 H2 H3) as (d' & d'' & E1 & E2); [by rewrite (proj1 H4)|].
    exists d', d''. split; [|done]. cbn [read_frames length map]. unfold asf_demux_read_frame at 1.
    rewrite (read_frame_loop_fuel _ _ _ _ _ _ _ _ H) by by apply fuel_enough. cbn [mbind option_bind]. by rewrite E1.
Qed.
End Reading.
