(* ===== verification/AsfFile.v ===== *)
(** Whole ASF files: the objects of the header and what [asf_demux_open] takes
    from them, and that a file gives back the objects that were put in, from its
    start or from any packet. *)
From S2P Require Import Prelude ScanIntern Memory Stream Asf AsfProofs AsfMux.
Local Open Scope Z_scope.

(** ** Objects of the header *)
Record audio_properties := {
  ap_skip : list Z; ap_type_length : list Z; ap_ecc_length : list Z; ap_flags : Z; ap_reserved : list Z;
  ap_codec_id : Z; ap_channels : Z; ap_rate : Z; ap_bytes : Z; ap_align : Z; ap_bits : list Z; ap_data : list Z; ap_tail : list Z }.
Inductive header_object :=
  | FileProperties (skip : list Z) (packets duration : Z) (skip2 : list Z) (size : Z) (tail : list Z)
  | AudioStream (a : audio_properties)
  | OtherStream (type body : list Z)
  | OtherObject (id body : list Z).
Definition object_id (o : header_object) : list Z :=
  match o with
  | FileProperties _ _ _ _ _ _ => GUID_FILE_PROPERTIES
  | AudioStream _ | OtherStream _ _ => GUID_STREAM_PROPERTIES
  | OtherObject id _ => id
  end.
Definition audio_bytes (a : audio_properties) : list Z :=
  GUID_AUDIO_STREAM ++ ap_skip a ++ ap_type_length a ++ ap_ecc_length a ++ le_bytes 2 (ap_flags a) ++ ap_reserved a ++
  le_bytes 2 (ap_codec_id a) ++ le_bytes 2 (ap_channels a) ++ le_bytes 4 (ap_rate a) ++ le_bytes 4 (ap_bytes a) ++ le_bytes 2 (ap_align a) ++
  ap_bits a ++ le_bytes 2 (Z.of_nat (length (ap_data a))) ++ ap_data a ++ ap_tail a.
Definition object_body (o : header_object) : list Z :=
  match o with
  | FileProperties skip packets duration skip2 size tail => skip ++ le_bytes 8 packets ++ le_bytes 8 duration ++ skip2 ++ le_bytes 4 size ++ tail
  | AudioStream a => audio_bytes a
  | OtherStream type body => type ++ body
  | OtherObject _ body => body
  end.
Definition object_bytes (id body : list Z) : list Z := id ++ le_bytes 8 (24 + Z.of_nat (length body)) ++ body.
Definition header_object_bytes (o : header_object) : list Z := object_bytes (object_id o) (object_body o).

Record audio_ok (a : audio_properties) : Prop := {
  ao_skip : length (ap_skip a) = 24%nat; ao_type_length : length (ap_type_length a) = 4%nat; ao_ecc_length : length (ap_ecc_length a) = 4%nat; ao_flags : 0 <= ap_flags a < 65536;
  ao_reserved : length (ap_reserved a) = 4%nat; ao_codec_id : 0 <= ap_codec_id a < 65536; ao_channels : 0 <= ap_channels a < 65536;
  ao_rate : in_u32 (ap_rate a); ao_bytes : in_u32 (ap_bytes a); ao_align : 0 <= ap_align a < 65536;
  ao_bits : length (ap_bits a) = 2%nat; ao_data : Z.of_nat (length (ap_data a)) < 65536 }.
Definition object_ok (o : header_object) : Prop :=
  match o with
  | FileProperties skip packets duration skip2 size _ =>
      length skip = 32%nat /\ 0 <= packets < 2 ^ 64 /\ 0 <= duration < 2 ^ 64 /\ length skip2 = 20%nat /\ in_u32 size
  | AudioStream a => audio_ok a
  | OtherStream type _ => length type = 16%nat /\ type <> GUID_AUDIO_STREAM
  | OtherObject id _ => length id = 16%nat /\ id <> GUID_FILE_PROPERTIES /\ id <> GUID_STREAM_PROPERTIES
  end.

(** What an object says: the first audio stream is taken, and the last file properties. *)
Definition audio_info (i : asf_info) (a : audio_properties) : asf_info :=
  {| codec_id := ap_codec_id a; channels := ap_channels a; sample_rate := ap_rate a; byte_rate := ap_bytes a; block_align := ap_align a;
     codec_data := take 64 (ap_data a) ++ drop (length (take 64 (ap_data a))) (codec_data i);
     codec_data_size := Z.min (Z.of_nat (length (ap_data a))) 64; audio_stream_number := Z.land (ap_flags a) 127;
     default_packet_size := default_packet_size i; data_packets_total := data_packets_total i; duration_100ns := duration_100ns i |}.
Definition object_info (i : asf_info) (o : header_object) : asf_info :=
  match o with
  | FileProperties _ packets duration _ size _ =>
      {| codec_id := codec_id i; channels := channels i; sample_rate := sample_rate i; byte_rate := byte_rate i;
         block_align := block_align i; codec_data := codec_data i; codec_data_size := codec_data_size i;
         audio_stream_number := audio_stream_number i; default_packet_size := size; data_packets_total := packets; duration_100ns := duration |}
  | AudioStream a => if audio_stream_number i <? 0 then audio_info i a else i
  | OtherStream _ _ | OtherObject _ _ => i
  end.

Section Opening.
Context (file : list Z) (LONG_MAX : Z).
Context (Hlong : Z.of_nat (length file) <= LONG_MAX < 2 ^ 63).
Abbreviation holds := (Stream.holds file).

Lemma read_object_header_at p id body :
  holds p (object_bytes id body) -> length id = 16%nat ->
  read_object_header file (at_ p) = (Some {| guid := id; o_size := 24 + Z.of_nat (length body); data_start := p + 24 |}, at_ (p + 24)) /\
  holds (p + 24) body /\ p + 24 + Z.of_nat (length body) <= LONG_MAX.
Proof.
  intros Hh Hid. pose proof (holds_end _ _ Hh) as Hend. unfold object_bytes in *. rewrite !length_app, length_le_bytes, Hid in Hend.
  assert (p + 24 + Z.of_nat (length body) <= Z.of_nat (length file)) by (destruct id; [done|]; specialize (Hend ltac:(done)); lia).
  apply holds_app in Hh as [H1 Hh]. apply holds_app in Hh as [H2 H3]. rewrite ?length_le_bytes, ?Hid in *.
  pose proof (proj1 H1). unfold read_object_header. rewrite (fread_here _ 16 _ H1) by lia. rewrite Hid. cbn [negb]. change (Z.of_nat 16 =? 16) with true. cbn [negb].
  unfold read_u64le. change (Z.of_nat 16) with 16 in *.
  rewrite (read_le_at _ (p + 16) 8 (24 + Z.of_nat (length body))) by (done || (change (256 ^ Z.of_nat 8) with (2 ^ 64); lia)).
  rewrite (proj2 (Z.leb_le 24 _)) by lia. change (Z.of_nat 8) with 8 in *. replace (p + 16 + 8) with (p + 24) in * by lia.
  split; [done|]. split; [done|lia].
Qed.

Lemma fseek_set_inside p b s : holds p b -> b <> [] -> fseek_set LONG_MAX p s = at_ p.
Proof. intros H Hb. pose proof (holds_end _ _ H Hb). pose proof (proj1 H). apply fseek_set_at. destruct b; [done|]. cbn [length] in *. lia. Qed.
Lemma read_u64_at p v : holds p (le_bytes 8 v) -> 0 <= v < 2 ^ 64 -> read_u64le file (at_ p) = (v, at_ (p + 8)).
Proof. apply (read_le_at file p 8). Qed.

Context (stack : list Z) (Hstack : length stack = 16%nat).
Lemma read_file_properties_at i p skip packets duration skip2 size tail s :
  let o := FileProperties skip packets duration skip2 size tail in
  object_ok o -> holds p (object_body o) -> exists s', read_file_properties file LONG_MAX i p s = (object_info i o, s').
Proof.
  intros o (H1 & H2 & H3 & H4 & H5) Hh. cbn [object_body o] in Hh. repeat (apply holds_app in Hh as [? Hh]).
  rewrite ?length_le_bytes, ?H1, ?H4 in *. unfold read_file_properties.
  change (Z.of_nat 32) with 32 in *. change (Z.of_nat 8) with 8 in *. change (Z.of_nat 20) with 20 in *. change (Z.of_nat 4) with 4 in *.
  rewrite (fseek_set_inside (p + 32) _ _ H0), (read_u64_at _ _ H0) by done.
  replace (p + 32 + 8) with (p + 40) in * by lia. replace (p + 40 + 8 + 20) with (p + 68) in * by lia.
  rewrite (fseek_set_inside (p + 40) _ _ H6), (read_u64_at _ _ H6) by done.
  rewrite (fseek_set_inside (p + 68) _ _ H8), (read_u32_at _ _ _ H8) by done. by eexists.
Qed.
Lemma read_other_stream_at i p type body s :
  let o := OtherStream type body in
  object_ok o -> holds p (object_body o) -> exists s', read_stream_properties file LONG_MAX stack i p s = (i, s').
Proof.
  intros o [H1 H2] Hh. cbn [object_body o] in Hh. apply holds_app in Hh as [Hh _]. unfold read_stream_properties.
  rewrite (fseek_set_inside p _ _ Hh) by (by destruct type). rewrite (fread_here _ 16 _ Hh) by lia.
  rewrite drop_ge, app_nil_r by lia.
  destruct (read_u32le file _) as [x1 s1]. destruct (read_u32le file s1) as [x2 s2]. destruct (read_u16le file s2) as [x3 s3].
  unfold guid_eq. rewrite bool_decide_eq_false_2 by done. by eexists.
Qed.
Lemma read_audio_stream_at i p a s :
  let o := AudioStream a in
  object_ok o -> holds p (object_body o) -> exists s', read_stream_properties file LONG_MAX stack i p s = (audio_info i a, s').
Proof.
  intros o [] Hh. cbn [object_body o] in Hh. unfold audio_bytes in Hh. repeat (apply holds_app in Hh as [? Hh]).
  repeat match goal with H : length ?l = _, H' : context [length ?l] |- _ => rewrite H in H' end. rewrite ?length_le_bytes in *.
  change (Z.of_nat (length GUID_AUDIO_STREAM)) with 16 in *. change (Z.of_nat 24) with 24 in *. change (Z.of_nat 4) with 4 in *. change (Z.of_nat 2) with 2 in *.
  assert (p + 58 <= Z.of_nat (length file)) as Hmax by (apply holds_end in H10; [lia|by intros E; rewrite E in *]).
  pose proof (proj1 H) as Hp. unfold read_stream_properties.
  rewrite (fseek_set_inside p _ _ H) by done. rewrite (fread_here _ 16 _ H) by done.
  change (length GUID_AUDIO_STREAM) with 16%nat. rewrite drop_ge, app_nil_r by lia.
  rewrite fseek_cur_inside by lia.
  destruct (read_le_skip _ _ 4 _ H1) as [x1 E1]; [lia|]. destruct (read_le_skip _ _ 4 _ H2) as [x2 E2]; [lia|]. unfold read_u32le at 1 2. rewrite E1, E2.
  rewrite (read_u16_at _ _ _ H3) by done. rewrite fseek_cur_inside by lia. unfold guid_eq. rewrite bool_decide_eq_true_2 by done. cbn [negb].
  rewrite (read_u16_at _ _ _ H5), (read_u16_at _ _ _ H6), (read_u32_at _ _ _ H7), (read_u32_at _ _ _ H8), (read_u16_at _ _ _ H9) by done.
  destruct (read_le_skip _ _ 2 _ H10) as [x3 E3]; [lia|]. unfold read_u16le at 1. rewrite E3. rewrite (read_u16_at _ _ _ H11) by lia.
  assert (length (take 64 (ap_data a)) = Z.to_nat (Z.min (Z.of_nat (length (ap_data a))) 64)) as Htake by (rewrite length_take; lia).
  rewrite <- (take_drop 64 (ap_data a)) in H12. apply holds_app in H12 as [H12 _].
  rewrite (fread_here _ (Z.min (Z.of_nat (length (ap_data a))) 64) _ H12) by lia. by eexists.
Qed.

Lemma objects_loop_at objects i p s :
  Forall object_ok objects -> holds p (concat (map header_object_bytes objects)) ->
  exists s', objects_loop file LONG_MAX stack (length objects) i p s = (fold_left object_info objects i, s').
Proof.
  revert i p s. induction objects as [|o objects IH]; intros i p s Hok Hh; [by eexists|]. apply Forall_cons_1 in Hok as [Ho Hok].
  cbn [map concat length objects_loop fold_left] in *. apply holds_app in Hh as [Hh Hrest].
  assert (length (object_id o) = 16%nat) as Hid by (destruct o; cbn in Ho; try done; apply Ho).
  unfold header_object_bytes in Hh, Hrest. rewrite (fseek_set_inside p _ _ Hh) by (unfold object_bytes; by destruct (object_id o)).
  destruct (read_object_header_at p _ _ Hh Hid) as (-> & Hbody & Hmax). cbn [guid data_start o_size].
  replace (24 + Z.of_nat (length (object_body o)) - 24) with (Z.of_nat (length (object_body o))) by lia.
  pose proof (proj1 Hbody). rewrite to_long_id by lia.
  unfold object_bytes in Hrest. rewrite !length_app, length_le_bytes, Hid in Hrest.
  replace (p + Z.of_nat (16 + (8 + length (object_body o)))) with (p + 24 + Z.of_nat (length (object_body o))) in Hrest by lia.
  assert (exists s', (if guid_eq (object_id o) GUID_FILE_PROPERTIES then read_file_properties file LONG_MAX i (p + 24) (at_ (p + 24))
    else if guid_eq (object_id o) GUID_STREAM_PROPERTIES && (audio_stream_number i <? 0) then read_stream_properties file LONG_MAX stack i (p + 24) (at_ (p + 24))
    else (i, at_ (p + 24))) = (object_info i o, s')) as [s' ->].
  { unfold guid_eq. destruct o as [skip packets duration skip2 size tail|a|type body|id body]; cbn [object_id object_info] in *.
    - by apply (read_file_properties_at i _ skip packets duration skip2 size tail).
    - destruct (audio_stream_number i <? 0); [by apply read_audio_stream_at|by eexists].
    - destruct (audio_stream_number i <? 0); [by eapply read_other_stream_at|by eexists].
    - destruct Ho as (_ & H1 & H2). rewrite !bool_decide_eq_false_2 by done. by eexists. }
  by apply IH.
Qed.
End Opening.

(** ** Files *)
Record asf_file := { af_objects : list header_object; af_skip : list Z; af_packets : list packet; af_trailer : list Z }.
Definition file_info (f : asf_file) : asf_info := fold_left object_info (af_objects f) no_info.
Definition header_body (f : asf_file) : list Z :=
  le_bytes 4 (Z.of_nat (length (af_objects f))) ++ [1; 2] ++ concat (map header_object_bytes (af_objects f)).
Definition packets_bytes (f : asf_file) (packets : list packet) : list Z := concat (map (packet_bytes (default_packet_size (file_info f))) packets).
Definition asf_bytes (f : asf_file) : list Z :=
  object_bytes GUID_HEADER (header_body f) ++ object_bytes GUID_DATA (af_skip f ++ packets_bytes f (af_packets f)) ++ af_trailer f.
(** Where the packets begin. *)
Definition packets_pos (f : asf_file) : Z := 24 + Z.of_nat (length (header_body f)) + 50.

(** The file has an audio stream and says how many packets of what size there are. *)
Record asf_file_ok (f : asf_file) : Prop := {
  fo_bytes : Forall is_byte (asf_bytes f); fo_objects : Forall object_ok (af_objects f); fo_count : Z.of_nat (length (af_objects f)) < 4294967296;
  fo_audio : 0 <= audio_stream_number (file_info f); fo_size : 0 < default_packet_size (file_info f) < 4294967296;
  fo_total : data_packets_total (file_info f) = Z.of_nat (length (af_packets f)); fo_some : af_packets f <> [];
  fo_skip : length (af_skip f) = 26%nat; fo_packets : Forall (packet_ok (default_packet_size (file_info f))) (af_packets f) }.

(** A demuxer after reads with buffers of any size and moves to any packet. *)
Inductive used (file : list Z) (LONG_MAX : Z) (malloc : Z -> bool) (d : asf_demux) : asf_demux -> Prop :=
  | used_opened : used file LONG_MAX malloc d d
  | used_read d1 n r d2 : used file LONG_MAX malloc d d1 -> 0 <= n -> asf_demux_read_frame file LONG_MAX malloc d1 n = Some (r, d2) ->
      used file LONG_MAX malloc d d2
  | used_seek d1 k : used file LONG_MAX malloc d d1 -> used file LONG_MAX malloc d (asf_demux_seek_to_packet LONG_MAX d1 k).

Section File.
Context (f : asf_file) (LONG_MAX : Z) (stack : list Z).
Context (Hf : asf_file_ok f) (Hlong : Z.of_nat (length (asf_bytes f)) <= LONG_MAX < 2 ^ 63) (Hstack : length stack = 16%nat).

Lemma holds_self : Stream.holds (asf_bytes f) 0 (asf_bytes f).
Proof. split; [lia|]. exists []. by rewrite app_nil_r. Qed.
Lemma asf_demux_open_at :
  exists s, asf_demux_open (asf_bytes f) LONG_MAX stack true =
    Some {| info := file_info f; first_packet_pos := packets_pos f; st := s; data_packets_read := 0; next_packet_pos := packets_pos f;
            packet_segments_remaining := 0; packet_size_left := 0; packet_flags := 0; packet_property := 0; packet_segsizetype := 0;
            partial := None; partial_capacity := 0; partial_object_size := 0; partial_active := false |} /\
  Stream.holds (asf_bytes f) (packets_pos f) (packets_bytes f (af_packets f)).
Proof.
  pose proof holds_self as Hh. unfold asf_bytes at 2 in Hh. apply holds_app in Hh as [Hhead Hh]. apply holds_app in Hh as [Hdata _].
  destruct (read_object_header_at (asf_bytes f) LONG_MAX Hlong 0 GUID_HEADER _ Hhead eq_refl) as (E1 & Hbody & Hmax).
  unfold asf_demux_open. change {| s_pos := 0; s_eof := false |} with (at_ 0). rewrite E1. cbn [mbind option_bind guid o_size data_start negb].
  change (guid_eq GUID_HEADER GUID_HEADER) with true. cbn [negb]. change (0 + 24) with 24 in *.
  unfold header_body in Hbody. apply holds_app in Hbody as [Hcount Hbody]. apply holds_app in Hbody as [_ Hobjects]. rewrite length_le_bytes in *. cbn [length] in *.
  rewrite (read_u32_at _ _ _ Hcount) by (pose proof (fo_count _ Hf); unfold in_u32; lia).
  pose proof (proj1 Hcount). assert (length (header_body f) = 6 + length (concat (map header_object_bytes (af_objects f))))%nat as Hlen
    by (unfold header_body; rewrite !length_app, length_le_bytes; done).
  rewrite fseek_cur_inside by lia. rewrite Nat2Z.id. cbn [s_pos at_]. change (24 + Z.of_nat 4 + Z.of_nat 2) with (24 + 4 + 2) in Hobjects.
  destruct (objects_loop_at (asf_bytes f) LONG_MAX Hlong stack Hstack (af_objects f) no_info _ (at_ (24 + 4 + 2)) (fo_objects _ Hf) Hobjects) as [s' ->].
  fold (file_info f). rewrite (proj2 (Z.ltb_ge (audio_stream_number (file_info f)) 0)), (proj2 (Z.eqb_neq (default_packet_size (file_info f)) 0)) by (destruct Hf; lia). cbn [orb].
  assert (length (object_bytes GUID_HEADER (header_body f)) = 24 + length (header_body f))%nat as Hobj
    by (unfold object_bytes; rewrite !length_app, length_le_bytes; done).
  rewrite Hobj in Hdata. replace (0 + Z.of_nat (24 + length (header_body f))) with (24 + Z.of_nat (length (header_body f))) in Hdata by lia.
  replace (24 + Z.of_nat (length (header_body f)) - 24) with (Z.of_nat (length (header_body f))) by lia. rewrite to_long_id by lia.
  rewrite (fseek_set_inside (asf_bytes f) LONG_MAX Hlong _ _ s' Hdata) by done.
  destruct (read_object_header_at (asf_bytes f) LONG_MAX Hlong _ GUID_DATA _ Hdata eq_refl) as (E2 & Hpackets & _). rewrite E2. cbn [mbind option_bind guid data_start].
  change (guid_eq GUID_DATA GUID_DATA) with true. cbn [negb]. apply holds_app in Hpackets as [_ Hpackets]. rewrite (fo_skip _ Hf) in Hpackets.
  unfold packets_pos. replace (24 + Z.of_nat (length (header_body f)) + 24 + Z.of_nat 26) with (24 + Z.of_nat (length (header_body f)) + 50) in Hpackets by lia.
  replace (24 + Z.of_nat (length (header_body f)) + 24 + 16 + 8 + 2) with (24 + Z.of_nat (length (header_body f)) + 50) by lia.
  eexists. by split.
Qed.

(** ** Playing from a packet *)

(** A demuxer of this file, fresh or anywhere in it, moved to packet [k]. *)
Lemma packets_inside :
  14 <= default_packet_size (file_info f) /\ 0 <= packets_pos f /\
  packets_pos f + Z.of_nat (length (af_packets f)) * default_packet_size (file_info f) <= Z.of_nat (length (asf_bytes f)).
Proof.
  destruct asf_demux_open_at as (_ & _ & Hp). pose proof (proj1 Hp). rewrite <- (length_packets _ _ (fo_packets _ Hf)).
  pose proof (fo_packets _ Hf) as Hok. pose proof (fo_some _ Hf). unfold packets_bytes in Hp. destruct (af_packets f) as [|pk pks]; [done|].
  apply Forall_cons_1 in Hok as [Hpk _]. pose proof (ko_padding _ _ Hpk). unfold padding in *. split; [lia|]. split; [done|]. by apply holds_end in Hp.
Qed.
Lemma seek_playing d k :
  (k < length (af_packets f))%nat -> info d = file_info f -> first_packet_pos d = packets_pos f -> within d ->
  playing (asf_bytes f) (asf_demux_seek_to_packet LONG_MAX d (Z.of_nat k)) [] (drop k (af_packets f)) /\
  holding [] 0 (asf_demux_seek_to_packet LONG_MAX d (Z.of_nat k)).
Proof.
  intros Hk Hi Hfirst Hw. destruct asf_demux_open_at as (_ & _ & Hp). destruct packets_inside as (Hs & H0 & Hin).
  pose proof (fo_packets _ Hf) as Hok. set (size := default_packet_size (file_info f)) in *.
  rewrite <- (take_drop k (af_packets f)) in Hp at 1. unfold packets_bytes in Hp. rewrite map_app, concat_app in Hp.
  apply holds_app in Hp as [_ Hp]. fold size in Hp. rewrite (length_packets size), length_take, Nat.min_l in Hp by (lia || by apply Forall_take).
  assert (next_packet_pos (asf_demux_seek_to_packet LONG_MAX d (Z.of_nat k)) = packets_pos f + Z.of_nat k * size) as Hnext.
  { cbn [next_packet_pos asf_demux_seek_to_packet]. rewrite Hfirst, Hi, (fo_total _ Hf), (proj2 (Z.leb_gt _ (Z.of_nat k))), andb_false_r by lia. fold size.
    unfold u64. rewrite Z.mod_small, to_long_id by nia. done. }
  split; [|destruct Hw as [[H1 H2 H3 H4] _]; unfold in_u32 in H2; split; cbn; [lia| |done]; destruct (partial d); [done|auto]].
  split.
  - right. by split.
  - rewrite Hnext. cbn [info asf_demux_seek_to_packet]. by rewrite Hi.
  - cbn. rewrite Hi, (fo_total _ Hf), (proj2 (Z.leb_gt _ (Z.of_nat k))), andb_false_r by lia. lia.
  - cbn. rewrite Hi, (fo_total _ Hf). pose proof (fo_some _ Hf). destruct (af_packets f); [done|]. cbn [length] in *. nia.
  - cbn. rewrite Hi, (fo_total _ Hf), (proj2 (Z.leb_gt _ (Z.of_nat k))), andb_false_r, length_drop by lia. lia.
  - done.
  - cbn. rewrite Hi. by apply Forall_drop.
Qed.
Lemma open_playing d :
  asf_demux_open (asf_bytes f) LONG_MAX stack true = Some d ->
  info d = file_info f /\ first_packet_pos d = packets_pos f /\ within d /\ playing (asf_bytes f) d [] (af_packets f) /\ holding [] 0 d.
Proof.
  destruct asf_demux_open_at as (s & E & Hp). rewrite E. intros [= <-]. do 3 (split; [done|]). split; [|by split].
  destruct packets_inside as (Hs & H0 & Hin). split; cbn [next_packet_pos info data_packets_read data_packets_total packet_segments_remaining]; try done.
  - by right.
  - rewrite (fo_total _ Hf). pose proof (fo_some _ Hf). destruct (af_packets f); [done|]. cbn [length] in *. nia.
  - by rewrite (fo_total _ Hf).
  - apply Hf.
Qed.

Lemma used_within malloc d d1 :
  within d -> in_u32 (default_packet_size (info d)) ->
  used (asf_bytes f) LONG_MAX malloc d d1 -> within d1 /\ same_file d d1.
Proof.
  intros Hw Hs. induction 1 as [|d1 n r d2 _ [IH1 IH2] Hn H|d1 k _ [IH1 IH2]]; [done| |].
  - apply read_frame_loop_within in H as [H1 H2]; [|apply Hf|done|by rewrite (proj1 IH2)|done]. split; [done|]. by apply (same_file_trans _ d1).
  - split; [by apply seek_within|done].
Qed.
End File.

(** [frames] are read one after the other from [d], and then there is no other. *)
Definition reads (file : list Z) (LONG_MAX : Z) (malloc : Z -> bool) (d : asf_demux) (n : Z) (frames : list (list Z)) : Prop :=
  exists d' d'', read_frames file LONG_MAX malloc (length frames) d n = Some (map Frame frames, d') /\
    asf_demux_read_frame file LONG_MAX malloc d' n = Some (Failed, d'').

