(* ===== verification/AsfExamples.v ===== *)
(** ASF files: one on which the theorems about the demuxer apply, one whose
    fragment overruns the buffer it is put together in, and one that a 32-bit
    [long] never leaves. *)
From S2P Require Import Prelude ScanIntern Memory Stream Asf AsfProofs AsfMux AsfFile.
Local Open Scope Z_scope.

(** ** A file *)
Definition LONG64 : Z := 9223372036854775807.
Definition LONG32 : Z := 2147483647.
Definition properties (packets size : Z) : header_object := FileProperties (replicate 32 0) packets 50000000 (replicate 20 0) size [].
Definition audio : header_object :=
  AudioStream {| ap_skip := replicate 24 0; ap_type_length := [0; 0; 0; 0]; ap_ecc_length := [0; 0; 0; 0]; ap_flags := 1;
    ap_reserved := [0; 0; 0; 0]; ap_codec_id := 353; ap_channels := 2; ap_rate := 44100; ap_bytes := 16000; ap_align := 6;
    ap_bits := [16; 0]; ap_data := [9; 9]; ap_tail := [] |}.
Definition segment_of (stream offset size : Z) (data : list Z) : payload :=
  {| pl_number := stream; pl_object := 0; pl_offset := offset; pl_size := size; pl_time := 0; pl_data := data |}.
Definition packet_of (pls : list payload) : packet := {| pk_time := 0; pk_duration := 0; pk_payloads := pls |}.

(** Two objects, of which the first is split over the packets, and a segment of another stream. *)
Definition example : asf_file :=
  {| af_objects := [OtherObject (replicate 16 5) [1; 2; 3]; properties 2 100; audio]; af_skip := replicate 26 0;
     af_packets := [packet_of [segment_of 2 0 3 [5; 5; 5]; segment_of 1 0 6 [1; 2; 3; 4]];
                    packet_of [segment_of 129 4 6 [5; 6]; segment_of 1 0 2 [7; 8]]];
     af_trailer := [1; 2; 3] |}.
Lemma example_ok : asf_file_ok example.
Proof.
  split.
  - apply (bool_decide_unpack _). by vm_compute.
  - unfold example, af_objects, audio, properties. repeat apply List.Forall_cons; [done|done| |done]. by split; cbn; try lia.
  - done.
  - done.
  - done.
  - done.
  - done.
  - done.
  - unfold example at 2. unfold af_packets. repeat apply List.Forall_cons; [| |done].
    all: split; [by vm_compute| |cbn; lia]; repeat apply List.Forall_cons; try done; by split; cbn; unfold in_u32; try lia.
Qed.
Lemma example_carries : carries 1 [] 0 (concat (map pk_payloads (af_packets example))) [[1; 2; 3; 4; 5; 6]; [7; 8]].
Proof.
  apply carries_other; [done|]. apply carries_more; [done..|by right|done|]. apply (carries_last _ [1; 2; 3; 4]); [done..|by left|done|done|].
  apply (carries_last _ []); [done..|by right|done|done|]. constructor.
Qed.

Lemma asf_demux_session_witness :
  exists d, asf_demux_open (asf_bytes example) LONG64 (replicate 16 0) true = Some d /\
  exists r d', asf_demux_read_frame (asf_bytes example) LONG64 (fun _ => true) d 4096 = Some (r, d') /\
    session (asf_bytes example) LONG64 (fun _ => true) (replicate 16 0) d' /\
    info d' = info d /\ first_packet_pos d' = first_packet_pos d /\
    match r with Failed => True | Nothing => False | Frame bytes => Z.of_nat (length bytes) <= 4096
    | Overflow => wraps (asf_bytes example) LONG64 (fun _ => true) 4096 d' end.
Proof.
  assert (Z.of_nat (length (asf_bytes example)) <= LONG64 < 2 ^ 63) as Hlong by (vm_compute; split; congruence).
  destruct (asf_demux_open_at example LONG64 (replicate 16 0) example_ok Hlong eq_refl) as (s & E & _).
  eexists. split; [exact E|].
  apply (asf_demux_session (asf_bytes example) LONG64 (fun _ => true) (replicate 16 0)); [apply example_ok|by vm_compute| |by vm_compute].
  apply (session_open _ _ _ _ true _ E). apply wide_forward; [apply example_ok|by vm_compute|by vm_compute].
Defined.

(** ** Where a size wraps around *)

(** The first fragment of an object of eight bytes, and one whose size makes the
    sum with its offset 0. *)
Definition overflow_header : list Z :=
  object_bytes GUID_HEADER (le_bytes 4 2 ++ [1; 2] ++ header_object_bytes (properties 1 100) ++ header_object_bytes audio).
Definition overflow_file : list Z :=
  overflow_header ++ object_bytes GUID_DATA (replicate 26 0 ++
    [130; 0; 0; 17; 93; 0; 0; 0; 0; 0; 0; 0; 0; 194] ++
    [1; 0] ++ le_bytes 4 0 ++ [8] ++ le_bytes 4 8 ++ le_bytes 4 0 ++ le_bytes 4 4 ++ [1; 2; 3; 4] ++
    [1; 0] ++ le_bytes 4 4 ++ [8] ++ le_bytes 4 8 ++ le_bytes 4 0 ++ le_bytes 4 4294967292 ++ replicate 50 255).

(** [frag_offset + frag_size] is taken modulo 2^32, so the fragment passes the
    check of the buffer's size and the read goes past its end. *)
Lemma asf_fragment_overruns :
  exists d, asf_demux_open overflow_file LONG32 (replicate 16 0) true = Some d /\
  exists d', asf_demux_read_frame overflow_file LONG32 (fun _ => true) d 4096 = Some (Overflow, d') /\ partial_capacity d' = 8.
Proof. eexists. split; [vm_compute; reflexivity|]. eexists. split; [vm_compute; reflexivity|reflexivity]. Qed.

(** ** Where a packet leads back *)

(** A packet of 40 bytes, and one that says it has 2^32 - 40: both hold only a
    segment of another stream. *)
Definition loop_file : list Z :=
  object_bytes GUID_HEADER (le_bytes 4 2 ++ [1; 2] ++ header_object_bytes (properties 0 40) ++ header_object_bytes audio) ++
  object_bytes GUID_DATA (replicate 26 0 ++
    [130; 0; 0; 17; 93; 6; 0; 0; 0; 0; 0; 0; 0; 129] ++ [2; 0] ++ le_bytes 4 0 ++ [8] ++ le_bytes 4 3 ++ le_bytes 4 0 ++ [3; 0; 5; 5; 5] ++ replicate 6 0 ++
    [130; 0; 0; 113; 93] ++ le_bytes 4 4294967256 ++ [6; 0; 0; 0; 0; 0; 0; 0; 129] ++ [2; 0] ++ le_bytes 4 0 ++ [8] ++ le_bytes 4 3 ++ le_bytes 4 0 ++ [3; 0; 5; 5; 5] ++ replicate 6 0).
(** Where the demuxer [d] is in this file. *)
Definition loop_at (d : asf_demux) (packets pos next remaining left flags : Z) : asf_demux :=
  {| info := info d; first_packet_pos := 274; st := at_ pos;
     data_packets_read := packets; next_packet_pos := next; packet_segments_remaining := remaining;
     packet_size_left := left; packet_flags := flags; packet_property := 93; packet_segsizetype := 129; partial := None;
     partial_capacity := 0; partial_object_size := 0; partial_active := false |}.

Lemma read_frame_again file LONG_MAX malloc fuel d d0 d1 n :
  read_packet_header file LONG_MAX d = (true, d0) -> packet_segments_remaining d <= 0 -> read_next_segment file LONG_MAX malloc d0 n = (Nothing, d1) ->
  s_eof (st d1) = false -> read_frame_loop file LONG_MAX malloc (S fuel) d n = read_frame_loop file LONG_MAX malloc fuel d1 n.
Proof. intros E0 Hr E1 Heof. cbn [read_frame_loop]. by rewrite (proj2 (Z.leb_le _ _)), E0, E1, Heof. Qed.

(** The header at a place of the file; the count of packets stays symbolic. *)
Ltac header_step packets :=
  match goal with |- ?header ?d = _ => subst header; change (u64 (packets + 1)) with (u64 (data_packets_read d + 1));
    unfold read_packet_header; generalize (u64 (data_packets_read d + 1)); intros; by vm_compute end.

(** A loop of two packets, the second of which leads back to the first. *)
Lemma asf_read_frame_hangs :
  exists d, asf_demux_open loop_file LONG32 (replicate 16 0) true = Some d /\
  forall fuel, read_frame_loop loop_file LONG32 (fun _ => true) fuel d 4096 = None.
Proof.
  eexists. split; [vm_compute; reflexivity|].
  match goal with |- forall fuel, read_frame_loop _ _ _ fuel ?d' _ = _ => set (d := d') end.
  set (header := read_packet_header loop_file LONG32). set (segment := fun d => read_next_segment loop_file LONG32 (fun _ => true) d 4096).
  assert (forall packets, header (loop_at d packets 352 274 0 4294967215 113) = (true, loop_at d (u64 (packets + 1)) 288 314 1 20 17)) as HA
    by (intros; header_step packets).
  assert (forall packets, header (loop_at d packets 308 314 0 3 17) = (true, loop_at d (u64 (packets + 1)) 332 274 1 4294967232 113)) as HB
    by (intros; header_step packets).
  assert (forall packets, segment (loop_at d packets 288 314 1 20 17) = (Nothing, loop_at d packets 308 314 0 3 17)) as SA by (intros; by vm_compute).
  assert (forall packets, segment (loop_at d packets 332 274 1 4294967232 113) = (Nothing, loop_at d packets 352 274 0 4294967215 113)) as SB by (intros; by vm_compute).
  assert (forall fuel packets, read_frame_loop loop_file LONG32 (fun _ => true) fuel (loop_at d packets 308 314 0 3 17) 4096 = None) as Hloop.
  { intros fuel. induction (lt_wf fuel) as [fuel _ IH]. intros packets. destruct fuel as [|fuel]; [done|].
    rewrite (read_frame_again _ _ _ _ _ _ _ _ (HB packets) (Z.le_refl 0) (SB _) eq_refl). destruct fuel as [|fuel]; [done|].
    rewrite (read_frame_again _ _ _ _ _ _ _ _ (HA _) (Z.le_refl 0) (SA _) eq_refl). apply IH. lia. }
  intros [|fuel]; [done|]. assert (header d = (true, loop_at d 1 288 314 1 20 17)) as H0 by by vm_compute.
  rewrite (read_frame_again _ _ _ _ _ _ _ _ H0 (Z.le_refl 0) (SA _) eq_refl). apply Hloop.
Qed.
